(* ===== verification/_CoqProject ===== *)
-Q . S2P
Prelude.v
GoStrings.v
Data.v
Config.v
ConfigProps.v
Lru.v
LruRefine.v
ConsistentHash.v
Pipeline.v
PipelineProps.v
Store.v
StoreProps.v
PipelineStore.v
Redis.v
Backend.v
BackendProps.v
Containerd.v
ContainerdProps.v
Manager.v
ManagerProps.v
Fixtures.v
Allocation.v
Plan.v
PlanProps.v
Migration.v
MigrationProps.v
PoolProps.v
ManagerTheorems.v
Ops.v
OpsProps.v
OpsEquiv.v
ScaleProps.v
PeerCache.v
CacheGroup.v
CacheProps.v
PeerProps.v
SingleFlight.v
Rpc.v
RpcProps.v
CacheConf.v
Node.v
NodeProps.v
Cmd.v
CmdProps.v
