(* ===== verification/Prelude.v ===== *)
(** * redisClusterManager: a verification library

    The program creates, scales and deletes Redis clusters whose nodes run in containers, and
    runs the nodes of a distributed cache in front of them.  This library models its Go code
    (everything under [src/cluster] and [src/cache] that is not generated) as executable
    definitions with the names of the source, and proves what they do.

    ** The program and the files that model it

    The command line ([cluster/cmd], [main.go]: [Cmd], [CmdProps]) reads the configuration
    ([cluster/config/config.go]: [Config], [ConfigProps]) and starts one of four commands.

    Create, scale and delete ([cluster/ops]: [Ops], [OpsProps], [OpsEquiv], [ScaleProps]) are
    pipelines of steps with retries, rollback and persisted progress ([cluster/pipeline/pipeline.go]:
    [Pipeline], [PipelineProps]) over a SQLite store ([cluster/data/store/store.go]: [Store],
    [StoreProps]; both together: [PipelineStore]).  Their steps drive the cluster manager
    ([cluster/model/manager.go]): topology, roles and slot allocation in [Manager],
    [ManagerProps], [Allocation]; the plan of a slot migration in [Plan], [PlanProps]; its
    execution by a pool of workers in [Migration], [MigrationProps], [PoolProps]; operations in
    sequence in [ManagerTheorems].  The manager talks to Redis servers ([Redis]) and to a
    container backend behind the [PodManager] interface, which is a class with laws: podman
    ([cluster/backend/podman.go], [base.go]: [Backend], [BackendProps]) and containerd
    ([containerd.go]: [Containerd], [ContainerdProps]) are its instances, [Fixtures] has a third
    to evaluate on.  Node records, slot parsing and the CLUSTER NODES parser ([cluster/data],
    [cluster/utils]) are in [Data], over the byte strings of [GoStrings].

    The cache command runs a cache node ([cache/init.go], [starter.go], [run.go]: [Node],
    [NodeProps]; its settings and sources: [CacheConf]).  A node has groups ([cache/geecache.go],
    [http.go], [invalidator.go]: [CacheGroup], [CacheProps]) over a byte cache, a registry of
    peers and a hot-key tracker ([cache/cache.go], [peer/registry.go], [hotkey.go]: [PeerCache],
    [PeerProps]), built on an LRU list ([cache/lru]: [Lru], [LruRefine]), a consistent hash ring
    ([cache/consistenthash]: [ConsistentHash]) and a coalescer of calls ([cache/singleflight]:
    [SingleFlight]).  Nodes talk over gRPC ([cache/peer], [cluster/proto/cache_grpc.go]: [Rpc],
    [RpcProps]).

    ** How the code is modelled

    A call is a [GoM S A]: from a state to an outcome (a value, an error, a panic) and a state,
    also on errors and panics.  The state of a component is a record with the fields of its
    struct.  Where pointers alias, there is a heap: cluster nodes in [Manager], list elements in
    [Lru].  Machine integers are [Z] with [int64] and [uint16] written where the code can
    overflow.  What the program does not control is an argument: the answers of servers, of podman
    and containerd, of the file system and of SQLite are functions of everything that happened
    before; the order of ranging over a map, the clock and the schedule of goroutines are
    arbitrary.  Libraries the code calls (the gossip, gRPC, containerd, YAML and flag libraries)
    are classes, with what their documentation says as laws where a theorem needs it
    ([GrpcLaws], [ProtoLaws], [CtrLaws], [EnvLaws]), each with an instance.

    Interleaving is explicit: the migration pool and the coalescer are step functions of one
    goroutine, and their theorems hold for every schedule.

    ** What the theorems show

    - Slot migration: the five conversations the migration of a slot can be, on every answer of
      the servers; which keys are moved, copied and deleted, and none is deleted before its copy
      was accepted; the plan fills the new masters in order and to their share, never from
      themselves, and relieves every overfull master while there are places; under every schedule each slot is migrated once, every
      error is reported, and the pool terminates; the call returns when all workers are done,
      and caches are invalidated after the last command.
    - Cluster manager: the topology invariant holds after any sequence of operations; the
      allocation partitions the 16384 slots.
    - Pipelines and commands: order, retries and rollback of runs from any state, with any
      persister; resumption from the store; what a rejected create leaves (nothing but the
      failed row of its validation); the steps of create, retries included, agree with
      [Bootstrap] (a simulation), and the command succeeds when it does, with the rows it
      records; a scale-out forms the new shards it should; what failing and resumed commands
      leave behind.
    - Backends: what creation and deletion do, whatever the host answers.
    - Configuration and command line: when a configuration is accepted, where its settings come
      from and that none is missing; which default a flag that is not given has.
    - Parsing: a round trip with a printer, and the type of everything that is parsed.
    - LRU: refinement of an abstract recency list, and the byte limit, as long as the 64-bit
      counter does not overflow, and what happens when it does.  Ring: ownership, minimal
      movement, distinct fallbacks in clockwise order.
    - Cache: reads, invalidation, routing and hot keys; remote calls run the service of a peer at
      most once, a peer's entry is read over the wire, pushed replicas are served, panics stay at
      the server, transport security is never weakened; which services of a node run, on each
      way it can end.

    ** Bounds and fuel

    Most loops run over data and are structural.  The others have fuel.
    - The eviction loop of the LRU ([evict_loop]) gets as much as the list is long plus one,
      which suffices for every non-negative limit (part of [Add_refines]); with a negative limit
      no fuel does ([Add_negative_limit_diverges]).  Without fuel it returns [OutOfFuel].
    - The loop over the chunks of a slot's keys ([chunk_loop]) gets the number of keys, enough
      for every positive chunk size.  If keys are left without fuel, the loop has made no
      progress, and its program spins ([PSpin]): a worker in it steps forever, which
      [pool_terminates] excludes.
    - A schedule of the worker pool is a finite list.  [executeSlotMigration] returns only if it
      finishes the pool, as [wg.Wait] does, and is [OutOfFuel] otherwise; every beginning can be
      continued to such a schedule.
    - [search_loop] (the binary search) gets the length of the slice, [GetN_loop] the number of
      points on the ring, which is the bound of its loop, and [itoa_loop] as many turns as the
      number has bits; their specifications are proved with this fuel.
    - Requests that peers answer by asking each other ([serve]) have a budget of nested
      requests, which bounds the depth where the deadlines of the requests would.

    Loops with a fixed number of turns (ten checks, the retries of a step) have that number; the
    readiness loop of podman has as many turns as the host says fit before the deadline.

    ** What is not modelled

    Console and log output, sleeps, deadlines and keep-alive settings (an expired deadline is an
    error the oracle returns, or the end of the budget of [serve]; each request has three seconds
    of its own in the code, so that in a chain the outermost one gives up first).  Calls of one
    cache group that overlap in time: each runs as a whole, so a read between the swap of the
    dirty mark and the purge does not occur.  An error of [ListenAndServe] of the two HTTP
    servers, which is only logged: they count as started when their goroutines are.  Windows:
    paths and the default socket are those of linux.  The YAML encoder and decoder (a file of
    settings is the record it holds), the gossip and gRPC libraries and the flag library beyond
    what is said above; [reportMigrationProgress], [PrintConfig] and the help functions, which
    only print; generated protobuf code; the Python agent.

    ** Plan

    Next: a whole successful scale-out, from the containers to the migrated slots; the goroutines
    of a group (replication, invalidation) as steps of a schedule, where they are now recorded in
    order; chains of reads over the remote calls of [Rpc], where one hop is proved now. *)

From Stdlib Require Import ZArith Lia.
From stdpp Require Export base tactics list list_numbers gmap strings sorting fin_maps.

Declare Scope go_scope.
Delimit Scope go_scope with go.
#[global] Open Scope string_scope.
#[global] Open Scope list_scope.
#[global] Open Scope Z_scope.

(** The automation of the development: [go_db] collects the resolution lemmas of the
    components, [go_rw] the equations that normalise their operations. *)
Create HintDb go_db.
Create Rewrite HintDb go_rw.

(** ** Errors

    A Go [error] value: one of the sentinels of [cluster/model/errors.go], an
    [fmt.Errorf] text, or an [fmt.Errorf] that wraps another error with [%w]. *)
Inductive error : Type :=
  | ErrClusterNotFound
  | ErrClusterExists
  | ErrNoNodesAvailable
  | Errorf (msg : string)
  | Wrapf (msg : string) (inner : error).

#[global] Instance error_eq_dec : EqDecision error.
Proof. solve_decision. Defined.

(** [errors.Is]: the target occurs on the chain of wrapped errors. *)
Fixpoint errors_Is (e target : error) : bool :=
  bool_decide (e = target) ||
  match e with
  | Wrapf _ inner => errors_Is inner target
  | _ => false
  end.

(** [err.Error()], the text that [%v] prints. *)
Fixpoint Error (e : error) : string :=
  match e with
  | ErrClusterNotFound => "cluster not found"
  | ErrClusterExists => "cluster already exists"
  | ErrNoNodesAvailable => "no nodes available"
  | Errorf msg => msg
  | Wrapf msg inner => msg +:+ ": " +:+ Error inner
  end.

(** ** Outcomes and the state monad

    A Go call returns normally, returns a non-nil error, or panics (index out of range, nil
    dereference, division by zero).  [OutOfFuel] is not an outcome of the program: it marks a
    bounded run of an unbounded loop that was cut off, and every loop comes with a theorem on
    the fuel that suffices (or a theorem that none does). *)
Inductive outcome (A : Type) : Type :=
  | Ret (a : A)
  | Fail (e : error)
  | Panic (msg : string)
  | OutOfFuel.
Arguments Ret {A} a.
Arguments Fail {A} e.
Arguments Panic {A} msg.
Arguments OutOfFuel {A}.

#[global] Instance outcome_eq_dec `{EqDecision A} : EqDecision (outcome A).
Proof. solve_decision. Defined.

(** Stateful Go code over a state [S]: the state is returned on every exit, so what a
    failing call did before it failed stays visible. *)
Definition GoM (S A : Type) : Type := S → outcome A * S.

#[global] Instance GoM_ret S : MRet (GoM S) := λ A a s, (Ret a, s).
#[global] Instance GoM_bind S : MBind (GoM S) := λ A B k m s,
  match m s with
  | (Ret a, s') => k a s'
  | (Fail e, s') => (Fail e, s')
  | (Panic p, s') => (Panic p, s')
  | (OutOfFuel, s') => (OutOfFuel, s')
  end.

Definition goget {S} : GoM S S := λ s, (Ret s, s).
Definition gomodify {S} (f : S → S) : GoM S unit := λ s, (Ret tt, f s).
Definition gofail {S A} (e : error) : GoM S A := λ s, (Fail e, s).
Definition gopanic {S A} (p : string) : GoM S A := λ s, (Panic p, s).
Definition gostarved {S A} : GoM S A := λ s, (OutOfFuel, s).
(** Use of a possibly nil pointer or missing element. *)
Definition goderef {S A} (msg : string) (o : option A) : GoM S A := λ s,
  match o with Some a => (Ret a, s) | None => (Panic msg, s) end.

(** A pure call that returns a value or an error. *)
Definition gocall {S A} (o : outcome A) : GoM S A := λ s, (o, s).

(** [if err := m; err != nil { return wrap(err) }] *)
Definition gowrap {S A} (wrap : error → error) (m : GoM S A) : GoM S A := λ s,
  match m s with
  | (Fail e, s') => (Fail (wrap e), s')
  | r => r
  end.

(** A call whose error is inspected by the caller instead of being returned. *)
Definition gotry {S A} (m : GoM S A) : GoM S (A + error) := λ s,
  match m s with
  | (Ret a, s') => (Ret (inl a), s')
  | (Fail e, s') => (Ret (inr e), s')
  | (Panic p, s') => (Panic p, s')
  | (OutOfFuel, s') => (OutOfFuel, s')
  end.

(** [for _, x := range l { body(x) }]: the first error or panic leaves the loop. *)
Fixpoint goforeach {S A} (body : A → GoM S unit) (l : list A) : GoM S unit :=
  match l with
  | [] => mret tt
  | x :: l' => _ ← body x; goforeach body l'
  end.

(** The same loop with a local variable that the body updates. *)
Fixpoint gofold {S A B} (body : B → A → GoM S B) (b : B) (l : list A) : GoM S B :=
  match l with
  | [] => mret b
  | x :: l' => b' ← body b x; gofold body b' l'
  end.

(** Run a computation of one component inside the state of another. *)
Definition golift {S T A} (get : T → S) (set : S → T → T) (m : GoM S A) : GoM T A := λ t,
  let '(r, s') := m (get t) in (r, set s' t).

Lemma gobind_ret {S A B} (a : A) (k : A → GoM S B) s : (mret a ≫= k) s = k a s.
Proof. done. Qed.

Lemma gobind_Ret {S A B} (m : GoM S A) (k : A → GoM S B) s a s1 r : m s = (Ret a, s1) → k a s1 = r → (m ≫= k) s = r.
Proof. intros Hm Hk. unfold mbind, GoM_bind. by rewrite Hm. Qed.
Lemma goRet_fst {S A} (m : GoM S A) s a : (m s).1 = Ret a → m s = (Ret a, (m s).2).
Proof. by destruct (m s) as [r s']; cbn; intros ->. Qed.
Lemma gobind_Ret_inv {S A B} (m : GoM S A) (k : A → GoM S B) s b s' :
  (m ≫= k) s = (Ret b, s') → ∃ a s1, m s = (Ret a, s1) ∧ k a s1 = (Ret b, s').
Proof. unfold mbind, GoM_bind. destruct (m s) as [[] ?]; naive_solver. Qed.

(** Continuations only matter at the result they are given. *)
Lemma gobind_ext {S A B} (m : GoM S A) (k1 k2 : A → GoM S B) s :
  (∀ a s', m s = (Ret a, s') → k1 a s' = k2 a s') → (m ≫= k1) s = (m ≫= k2) s.
Proof. unfold mbind, GoM_bind. destruct (m s) as [[] ?]; auto. Qed.

Lemma goforeach_app {S A} (body : A → GoM S unit) l1 l2 s :
  goforeach body (l1 ++ l2) s = (_ ← goforeach body l1; goforeach body l2) s.
Proof.
  revert s; induction l1 as [|x l1 IH]; intros s; [done|].
  cbn. unfold mbind, GoM_bind in *. destruct (body x s) as [[] ?]; [apply IH|done..].
Qed.

(** A loop whose body always succeeds is a left fold of the body's effect. *)
Lemma goforeach_fold {S A} (body : A → GoM S unit) (f : S → A → S) l s :
  (∀ s x, body x s = (Ret tt, f s x)) → goforeach body l s = (Ret tt, foldl f s l).
Proof.
  intros Hb. revert s; induction l as [|x l IH]; intros s; [done|].
  cbn. unfold mbind, GoM_bind. by rewrite Hb, IH.
Qed.

(** An invariant of the body is an invariant of the loop, on every exit. *)
Lemma goforeach_inv {S A} (P : S → Prop) (body : A → GoM S unit) l s :
  (∀ x s, x ∈ l → P s → P (body x s).2) → P s → P (goforeach body l s).2.
Proof.
  revert s; induction l as [|x l IH]; intros s Hb Hs; [done|].
  cbn. unfold mbind, GoM_bind.
  assert (P (body x s).2) as H1 by (apply Hb; set_solver).
  destruct (body x s) as [[] s1]; simpl in *; [|done..].
  apply IH; [|done]. intros; apply Hb; set_solver.
Qed.

(** Run the straight-line part of a computation. *)
Ltac go_run := unfold mbind, GoM_bind, mret, GoM_ret, gomodify, goget, gofail, gopanic in *; cbn in *.

(** ** Invariants

    [pres I m]: [m] keeps [I] on every exit, whether it returns, fails or panics.  The rules
    below are the hint database [go_pres]; a component adds a rule per operation, so that the
    invariant of a composed operation is found by [pres_tac]. *)
Definition pres {S A} (I : S → Prop) (m : GoM S A) : Prop := ∀ s, I s → I (m s).2.
Create HintDb go_pres discriminated.
#[export] Hint Constants Opaque : go_pres.

Section pres.
Context {S : Type} (I : S → Prop).
Lemma pres_ret {A} (a : A) : pres I (mret a).
Proof. by intros s. Qed.
Lemma pres_pair {A} (o : outcome A) : pres I (pair o).
Proof. by intros s. Qed.
Lemma pres_bind {A B} (m : GoM S A) (k : A → GoM S B) :
  pres I m → (∀ a, pres I (k a)) → pres I (m ≫= k).
Proof.
  intros Hm Hk s Hs. unfold mbind, GoM_bind. specialize (Hm s Hs).
  destruct (m s) as [[] ?]; cbn in *; auto. by apply Hk.
Qed.
(** The same from a state where only the first part is known to establish [I]. *)
Lemma bind_inv {A B} (m : GoM S A) (k : A → GoM S B) s :
  I (m s).2 → (∀ a, pres I (k a)) → I ((m ≫= k) s).2.
Proof. intros Hm Hk. unfold mbind, GoM_bind. destruct (m s) as [[] ?]; cbn in *; auto. by apply Hk. Qed.
Lemma try_inv {A} (m : GoM S A) s : I (m s).2 → I (gotry m s).2.
Proof. unfold gotry. by destruct (m s) as [[] ?]. Qed.
(** One step of a computation whose exits other than a normal return are all alike. *)
Lemma bind_cases {A B} (m : GoM S A) (k : A → GoM S B) s (Q : outcome B * S → Prop) :
  pres I m → I s → (∀ a s', I s' → m s = (Ret a, s') → Q (k a s')) →
  (∀ o s', I s' → (∀ b, o ≠ Ret b) → Q (o, s')) → Q ((m ≫= k) s).
Proof.
  intros Hm Hs Hk Ho. specialize (Hm s Hs). unfold mbind, GoM_bind.
  destruct (m s) as [[a|e|p|] s'] eqn:E; cbn in Hm; [by apply Hk|by apply Ho..].
Qed.
(** After reading the state, the state read is the current one. *)
Lemma pres_bind_get {A} (k : S → GoM S A) : (∀ s, I s → I (k s s).2) → pres I (goget ≫= k).
Proof. intros Hk s Hs. by apply Hk. Qed.
Lemma pres_get : pres I goget.
Proof. by intros s. Qed.
Lemma pres_modify (f : S → S) : (∀ s, I s → I (f s)) → pres I (gomodify f).
Proof. intros Hf s. apply Hf. Qed.
Lemma pres_fail {A} e : pres I (gofail e : GoM S A).
Proof. by intros s. Qed.
Lemma pres_panic {A} p : pres I (gopanic p : GoM S A).
Proof. by intros s. Qed.
Lemma pres_deref {A} msg (o : option A) : pres I (goderef msg o).
Proof. intros s. by destruct o. Qed.
Lemma pres_call {A} (o : outcome A) : pres I (gocall o).
Proof. by intros s. Qed.
Lemma pres_wrap {A} w (m : GoM S A) : pres I m → pres I (gowrap w m).
Proof. intros Hm s Hs. specialize (Hm s Hs). unfold gowrap. destruct (m s) as [[] ?]; done. Qed.
Lemma pres_try {A} (m : GoM S A) : pres I m → pres I (gotry m).
Proof. intros Hm s Hs. specialize (Hm s Hs). unfold gotry. destruct (m s) as [[] ?]; done. Qed.
Lemma pres_foreach {A} (body : A → GoM S unit) l :
  (∀ x, pres I (body x)) → pres I (goforeach body l).
Proof. intros Hb. induction l as [|x l IH]; cbn; [apply pres_ret|]. by apply pres_bind. Qed.
Lemma pres_fold {A B} (body : B → A → GoM S B) b l :
  (∀ b x, pres I (body b x)) → pres I (gofold body b l).
Proof.
  intros Hb. revert b. induction l as [|x l IH]; intros b; cbn; [apply pres_ret|].
  apply pres_bind; [apply Hb|]. intros; apply IH.
Qed.
(** Operations written as functions of the state. *)
Lemma pres_if {A} {Q : S → Prop} `{∀ s, Decision (Q s)} (m1 m2 : GoM S A) :
  pres I m1 → pres I m2 → pres I (λ s, if decide (Q s) then m1 s else m2 s).
Proof. intros H1 H2 s Hs. case_decide; [by apply H1|by apply H2]. Qed.
End pres.

#[export] Hint Resolve pres_ret pres_get pres_fail pres_panic pres_deref pres_call : go_pres.
(** One structural step of an invariant proof. *)
Ltac pres_step :=
  match goal with
  | |- pres _ (_ ≫= _) => apply pres_bind; [|intros ?]
  | |- pres _ (gomodify _) => apply pres_modify; let H := fresh in intros ? H
  | |- pres _ (gowrap _ _) => apply pres_wrap
  | |- pres _ (gotry _) => apply pres_try
  | |- pres _ (goforeach _ _) => apply pres_foreach; intros ?
  | |- pres _ (gofold _ _ _) => apply pres_fold; intros ? ?
  | |- pres _ (pair _) => apply pres_pair
  | |- pres _ (λ s, if decide _ then _ else _) => apply pres_if
  | |- pres _ (match ?x with _ => _ end) => destruct x
  end.
Ltac pres_tac := repeat first [solve [auto with go_pres] | pres_step].

(** ** Machine integers *)

(** [uint16(x)]: conversion keeps the low sixteen bits. *)
Definition uint16 (x : Z) : Z := x mod 65536.
(** Go's [int] is 64 bits wide on the supported platforms. *)
Definition maxInt : Z := 9223372036854775807.
Definition minInt : Z := -9223372036854775808.
Definition in_int64 (x : Z) : Prop := minInt ≤ x ≤ maxInt.
(** Two's-complement wrap-around of 64-bit arithmetic. *)
Definition int64 (x : Z) : Z := (x - minInt) mod 18446744073709551616 + minInt.

Lemma int64_id x : in_int64 x → int64 x = x.
Proof. unfold in_int64, int64, minInt, maxInt. intros. rewrite Z.mod_small; lia. Qed.
Lemma int64_range x : in_int64 (int64 x).
Proof.
  unfold in_int64, int64, minInt, maxInt.
  pose proof (Z.mod_pos_bound (x - -9223372036854775808) 18446744073709551616). lia.
Qed.
(** Sums may be wrapped at any point. *)
Lemma int64_add_l a b : int64 (int64 a + b) = int64 (a + b).
Proof.
  unfold int64. f_equal. set (m := minInt). set (M := 18446744073709551616).
  replace ((a - m) mod M + m + b - m) with ((a - m) mod M + b) by lia.
  rewrite Zplus_mod_idemp_l. f_equal. lia.
Qed.
Lemma int64_le x : minInt ≤ x → int64 x ≤ x.
Proof. intros. unfold int64. pose proof (Z.mod_le (x - minInt) 18446744073709551616). lia. Qed.
Lemma uint16_range x : 0 ≤ uint16 x < 65536.
Proof. unfold uint16. apply Z.mod_pos_bound. lia. Qed.
Lemma uint16_id x : 0 ≤ x < 65536 → uint16 x = x.
Proof. intros. unfold uint16. by apply Z.mod_small. Qed.
#[export] Hint Resolve uint16_range int64_range : go_db.
#[export] Hint Rewrite uint16_id int64_id using (unfold in_int64, minInt, maxInt in *; lia) : go_rw.

(** ** Sorting: [sort.Strings] and [sort.Ints] *)

Definition sort_Strings (l : list string) : list string := merge_sort String.le l.
Definition sort_Ints (l : list Z) : list Z := merge_sort Z.le l.

Lemma sort_Strings_perm l : sort_Strings l ≡ₚ l.
Proof. apply merge_sort_Permutation. Qed.
Lemma sort_Strings_sorted l : Sorted String.le (sort_Strings l).
Proof. apply Sorted_merge_sort. apply _. Qed.
Lemma sort_Ints_perm l : sort_Ints l ≡ₚ l.
Proof. apply merge_sort_Permutation. Qed.
Lemma sort_Ints_sorted l : StronglySorted Z.le (sort_Ints l).
Proof. apply StronglySorted_merge_sort; apply _. Qed.
#[export] Hint Resolve sort_Strings_perm sort_Strings_sorted sort_Ints_perm sort_Ints_sorted : go_db.

(** ** [sort.Search]: the binary search of the Go standard library

    [i, j := 0, n; for i < j { h := (i+j)/2; if !f(h) { i = h+1 } else { j = h } }; return i].
    The interval halves at every turn, so [n] turns are enough. *)
Fixpoint search_loop (fuel : nat) (f : nat → bool) (i j : nat) : nat :=
  match fuel with
  | O => i
  | S fuel' =>
      if decide (i < j)%nat then
        let h := Nat.div2 (i + j) in
        if f h then search_loop fuel' f i h else search_loop fuel' f (S h) j
      else i
  end.
Definition sort_Search (n : nat) (f : nat → bool) : nat := search_loop n f 0 n.

Lemma search_loop_spec fuel f i j :
  (j - i ≤ fuel)%nat → (i ≤ j)%nat →
  (∀ a b, (a ≤ b)%nat → (b < j)%nat → f a = true → f b = true) →
  let r := search_loop fuel f i j in
  (i ≤ r ≤ j)%nat ∧ (∀ k, (i ≤ k < r)%nat → f k = false) ∧ ((r < j)%nat → f r = true).
Proof.
  revert i j; induction fuel as [|fuel IH]; intros i j Hf Hij Hm; simpl.
  { split_and!; [lia|lia|lia..]. }
  case_decide; [|split_and!; lia].
  assert (i ≤ Nat.div2 (i + j) < j)%nat as Hh.
  { rewrite Nat.div2_div. split; [apply Nat.div_le_lower_bound; lia|].
    apply Nat.Div0.div_lt_upper_bound; lia. }
  destruct (f (Nat.div2 (i + j))) eqn:Efh.
  - destruct (IH i (Nat.div2 (i + j))) as (H1 & H2 & H3); [lia|lia|intros; eapply Hm; eauto; lia|].
    split_and!; [lia|lia|done|]. intros Hr.
    destruct (decide (search_loop fuel f i (Nat.div2 (i + j)) = Nat.div2 (i + j))%nat) as [->|];
      [done|apply H3; lia].
  - destruct (IH (S (Nat.div2 (i + j))) j) as (H1 & H2 & H3); [lia|lia|done|].
    split_and!; [lia|lia| |done].
    intros k Hk. destruct (decide (S (Nat.div2 (i + j)) ≤ k)%nat); [apply H2; lia|].
    destruct (f k) eqn:Efk; [|done].
    by rewrite (Hm k (Nat.div2 (i + j))) in Efh by (done || lia).
Qed.

(** On a monotone predicate the search returns the least index that satisfies it, or [n]. *)
Lemma sort_Search_spec n f :
  (∀ a b, (a ≤ b)%nat → (b < n)%nat → f a = true → f b = true) →
  let r := sort_Search n f in
  (r ≤ n)%nat ∧ (∀ k, (k < r)%nat → f k = false) ∧ ((r < n)%nat → f r = true).
Proof.
  intros Hm. destruct (search_loop_spec n f 0 n) as (H1 & H2 & H3); [lia|lia|done|].
  split_and!; [unfold sort_Search; lia| |done]. intros; apply H2. unfold sort_Search in *. lia.
Qed.

(** ** Filters *)
Lemma filter_none {A} (P : A → Prop) `{∀ x, Decision (P x)} (l : list A) :
  (∀ x, x ∈ l → ¬ P x) → filter P l = [].
Proof.
  induction l as [|x l IH]; intros Hl; [done|].
  rewrite filter_cons_False by (apply Hl; set_solver). apply IH. set_solver.
Qed.
Lemma filter_all {A} (P : A → Prop) `{∀ x, Decision (P x)} (l : list A) :
  (∀ x, x ∈ l → P x) → filter P l = l.
Proof.
  induction l as [|x l IH]; intros Hl; [done|].
  rewrite filter_cons_True by (apply Hl; set_solver). rewrite IH by set_solver. done.
Qed.

Lemma length_omap_le {A B} (f : A → option B) (l : list A) : (length (omap f l) ≤ length l)%nat.
Proof. induction l as [|x l IH]; cbn; [done|]. destruct (f x); cbn; lia. Qed.

(** ** Integer ranges: [for j := lo; j <= hi; j++] *)
Definition range_incl (lo hi : Z) : list Z := seqZ lo (hi - lo + 1).

Lemma elem_of_range_incl lo hi x : x ∈ range_incl lo hi ↔ lo ≤ x ≤ hi.
Proof. unfold range_incl. rewrite elem_of_seqZ. lia. Qed.
Lemma NoDup_range_incl lo hi : NoDup (range_incl lo hi).
Proof. apply NoDup_seqZ. Qed.
Lemma range_incl_app lo mid hi :
  lo ≤ mid + 1 → mid ≤ hi → range_incl lo mid ++ range_incl (mid + 1) hi = range_incl lo hi.
Proof.
  intros. unfold range_incl.
  replace (hi - lo + 1) with ((mid - lo + 1) + (hi - (mid + 1) + 1)) by lia.
  rewrite (seqZ_app lo (mid - lo + 1)) by lia. do 2 f_equal; lia.
Qed.
Lemma length_range_incl lo hi : length (range_incl lo hi) = Z.to_nat (hi - lo + 1).
Proof. unfold range_incl. apply length_seqZ. Qed.
#[export] Hint Resolve NoDup_range_incl : go_db.
