(* ===== verification/GoStrings.v ===== *)
(** * The parts of Go's [strings] and [strconv] packages the program uses

    Strings are byte strings ([string] over [ascii]); every separator of the program is one
    byte.  [ParseUint], [ParseInt], [Atoi] return the value together with an optional error,
    as in Go, because some callers drop the error and use the value. *)
From Stdlib Require Export Ascii.
From S2P Require Import Prelude.

(** ** Characters of a string *)
Fixpoint str_forall (P : ascii → bool) (s : string) : bool :=
  match s with
  | EmptyString => true
  | String c s' => P c && str_forall P s'
  end.
Definition no_char (sep : ascii) (s : string) : bool :=
  str_forall (λ c, negb (Ascii.eqb c sep)) s.

Lemma str_forall_app P s1 s2 : str_forall P (s1 +:+ s2) = str_forall P s1 && str_forall P s2.
Proof. induction s1 as [|c s1 IH]; simpl; [done|]. by rewrite IH, andb_assoc. Qed.
Lemma str_forall_impl (P Q : ascii → bool) s :
  (∀ c, P c = true → Q c = true) → str_forall P s = true → str_forall Q s = true.
Proof.
  intros HPQ. induction s as [|c s IH]; simpl; [done|].
  intros [??]%andb_true_iff. by rewrite HPQ, IH.
Qed.

(** ** [strings.Split] with a one-byte separator, and [strings.Join] *)
Fixpoint Split (sep : ascii) (s : string) : list string :=
  match s with
  | EmptyString => [""]
  | String c s' =>
      if Ascii.eqb c sep then "" :: Split sep s'
      else match Split sep s' with
           | [] => [String c ""]
           | p :: ps => String c p :: ps
           end
  end.

Fixpoint Join (sep : ascii) (l : list string) : string :=
  match l with
  | [] => ""
  | [p] => p
  | p :: ps => p +:+ String sep (Join sep ps)
  end.

Lemma Split_not_nil sep s : Split sep s ≠ [].
Proof. destruct s as [|c s]; simpl; [done|]. case_match; [done|]. by case_match. Qed.

(** A piece without the separator is cut off whole. *)
Lemma Split_app sep p s : no_char sep p = true → Split sep (p +:+ String sep s) = p :: Split sep s.
Proof.
  induction p as [|c p IH]; simpl.
  { by rewrite Ascii.eqb_refl. }
  intros [Hc Hp]%andb_true_iff. apply negb_true_iff in Hc. by rewrite Hc, IH.
Qed.
Lemma Split_single sep p : no_char sep p = true → Split sep p = [p].
Proof.
  induction p as [|c p IH]; simpl; [done|].
  intros [Hc Hp]%andb_true_iff. apply negb_true_iff in Hc. by rewrite Hc, IH.
Qed.

(** Splitting what was joined gives the pieces back. *)
Lemma Split_Join sep l :
  l ≠ [] → forallb (no_char sep) l = true → Split sep (Join sep l) = l.
Proof.
  induction l as [|p l IH]; intros Hne; simpl; [done|].
  intros [Hp Hl]%andb_true_iff. destruct l as [|q l]; [by apply Split_single|].
  rewrite Split_app by done. f_equal. by apply IH.
Qed.
Lemma Split_no_char sep s : forallb (no_char sep) (Split sep s) = true.
Proof.
  induction s as [|c s IH]; simpl; [done|].
  destruct (Ascii.eqb c sep) eqn:E; simpl; [done|].
  destruct (Split sep s) eqn:Es; simpl in *; unfold no_char; simpl; rewrite E; simpl; [done|].
  done.
Qed.
#[export] Hint Resolve Split_not_nil Split_no_char : go_db.

(** ** [strings.HasPrefix], [Contains], [TrimPrefix], [TrimSpace], [ReplaceAll], [LastIndex] *)
Definition HasPrefix (s pre : string) : bool := String.prefix pre s.

Fixpoint Contains (s sub : string) : bool :=
  String.prefix sub s ||
  match s with
  | EmptyString => false
  | String _ s' => Contains s' sub
  end.

Fixpoint str_drop (n : nat) (s : string) : string :=
  match n, s with
  | O, _ => s
  | S n', String _ s' => str_drop n' s'
  | S _, EmptyString => ""
  end.
Fixpoint str_take (n : nat) (s : string) : string :=
  match n, s with
  | S n', String c s' => String c (str_take n' s')
  | _, _ => ""
  end.

Definition TrimPrefix (s pre : string) : string :=
  if HasPrefix s pre then str_drop (String.length pre) s else s.

(** ASCII white space, as [strings.TrimSpace] cuts it on ASCII input. *)
Definition is_space (c : ascii) : bool :=
  let n := nat_of_ascii c in (n =? 32)%nat || ((9 <=? n)%nat && (n <=? 13)%nat).
Fixpoint trim_left (s : string) : string :=
  match s with
  | String c s' => if is_space c then trim_left s' else s
  | EmptyString => ""
  end.
Fixpoint trim_right (s : string) : string :=
  match s with
  | String c s' =>
      match trim_right s' with
      | EmptyString => if is_space c then "" else String c ""
      | r => String c r
      end
  | EmptyString => ""
  end.
Definition TrimSpace (s : string) : string := trim_right (trim_left s).

(** Non-overlapping replacement from left to right; [skip] counts the bytes of the current
    match still to be dropped.  [old] is never empty in the program. *)
Fixpoint replace_loop (old new : string) (skip : nat) (s : string) : string :=
  match s with
  | EmptyString => ""
  | String c s' =>
      match skip with
      | S k => replace_loop old new k s'
      | O => if String.prefix old s
             then new +:+ replace_loop old new (String.length old - 1) s'
             else String c (replace_loop old new 0 s')
      end
  end.
Definition ReplaceAll (s old new : string) : string := replace_loop old new 0 s.

(** [strings.LastIndex(s, c)] followed by [s[idx+1:]]: the text after the last [c]. *)
Fixpoint after_last (c : ascii) (s : string) : option string :=
  match s with
  | EmptyString => None
  | String d s' =>
      match after_last c s' with
      | Some r => Some r
      | None => if Ascii.eqb d c then Some s' else None
      end
  end.

Lemma prefix_app s1 s2 : String.prefix s1 (s1 +:+ s2) = true.
Proof.
  induction s1 as [|c s1 IH]; simpl; [by destruct s2|].
  destruct (ascii_dec c c); [done|congruence].
Qed.
Lemma str_app_assoc a b c : (a +:+ b) +:+ c = a +:+ (b +:+ c).
Proof. induction a as [|x a IH]; [done|]. exact (f_equal (String x) IH). Qed.
Lemma str_length_app a b : String.length (a +:+ b) = (String.length a + String.length b)%nat.
Proof. induction a as [|x a IH]; [done|]. exact (f_equal S IH). Qed.
Lemma str_drop_app s1 s2 : str_drop (String.length s1) (s1 +:+ s2) = s2.
Proof. by induction s1. Qed.
Lemma TrimPrefix_app s1 s2 : TrimPrefix (s1 +:+ s2) s1 = s2.
Proof. unfold TrimPrefix, HasPrefix. by rewrite prefix_app, str_drop_app. Qed.

(** A one-byte [Contains] is the existence of the byte. *)
Lemma Contains_char s c : Contains s (String c "") = negb (no_char c s).
Proof.
  induction s as [|d s IH]; simpl; [done|].
  rewrite IH. unfold no_char; simpl. rewrite negb_andb, negb_involutive.
  destruct (ascii_dec c d) as [->|Hne]; [by rewrite Ascii.eqb_refl; destruct s|].
  by rewrite (proj2 (Ascii.eqb_neq _ _)) by congruence.
Qed.

(** ** [strconv] *)
Inductive numError : Type := ErrSyntax | ErrRange.
#[global] Instance numError_eq_dec : EqDecision numError.
Proof. solve_decision. Defined.

Definition digit_val (c : ascii) : option Z :=
  let n := Z.of_nat (nat_of_ascii c) - 48 in
  if decide (0 ≤ n ≤ 9) then Some n else None.
Definition digit_chr (d : Z) : ascii := ascii_of_nat (Z.to_nat (d + 48)).
Definition is_digit (c : ascii) : bool := bool_decide (is_Some (digit_val c)).

(** The digit loop of [ParseUint(s, 10, bits)]; it stops at the first bad byte or overflow. *)
Fixpoint scan_digits (maxVal acc : Z) (s : string) : Z * option numError :=
  match s with
  | EmptyString => (acc, None)
  | String c s' =>
      match digit_val c with
      | None => (0, Some ErrSyntax)
      | Some d =>
          if decide (acc * 10 + d > maxVal) then (maxVal, Some ErrRange)
          else scan_digits maxVal (acc * 10 + d) s'
      end
  end.
Definition ParseUint (s : string) (bits : Z) : Z * option numError :=
  match s with
  | EmptyString => (0, Some ErrSyntax)
  | _ => scan_digits (2 ^ bits - 1) 0 s
  end.

Definition ParseInt64 (s : string) : Z * option numError :=
  let '(neg, body) :=
    match s with
    | String "+" s' => (false, s')
    | String "-" s' => (true, s')
    | _ => (false, s)
    end in
  match ParseUint body 64 with
  | (_, Some ErrSyntax) => (0, Some ErrSyntax)
  | (un, _) =>
      if neg then if decide (un > maxInt + 1) then (minInt, Some ErrRange) else (- un, None)
      else if decide (un > maxInt) then (maxInt, Some ErrRange) else (un, None)
  end.
Definition Atoi (s : string) : Z * option numError := ParseInt64 s.

(** [strconv.ParseBool]. *)
Definition ParseBool (s : string) : option bool :=
  if decide (s ∈ ["1"; "t"; "T"; "TRUE"; "true"; "True"]) then Some true
  else if decide (s ∈ ["0"; "f"; "F"; "FALSE"; "false"; "False"]) then Some false
  else None.

(** [strconv.Itoa] and the [%d] verb.  A number has at most [log2 n + 1] decimal digits, which
    is the fuel. *)
Fixpoint itoa_loop (fuel : nat) (n : Z) (acc : string) : string :=
  match fuel with
  | O => acc
  | S fuel' =>
      let acc' := String (digit_chr (n mod 10)) acc in
      if decide (n / 10 = 0) then acc' else itoa_loop fuel' (n / 10) acc'
  end.
Definition utoa (n : Z) : string := itoa_loop (S (Z.to_nat (Z.log2 n))) n "".
(** [%q] of a text that needs no escapes. *)
Definition Quote (s : string) : string := String "034" (s +:+ String "034" EmptyString).
(** The text of a [*strconv.NumError]. *)
Definition NumError (fn num : string) (e : numError) : error :=
  Errorf ("strconv." +:+ fn +:+ ": parsing " +:+ Quote num +:+ ": " +:+
          match e with ErrSyntax => "invalid syntax" | ErrRange => "value out of range" end).
Definition Itoa (n : Z) : string := if decide (n < 0) then String "-" (utoa (- n)) else utoa n.

Lemma digit_val_chr d : 0 ≤ d ≤ 9 → digit_val (digit_chr d) = Some d.
Proof.
  intros. unfold digit_val, digit_chr. rewrite nat_ascii_embedding by lia.
  rewrite decide_True by lia. f_equal. lia.
Qed.

Lemma digit_val_range c d : digit_val c = Some d → 0 ≤ d ≤ 9.
Proof. unfold digit_val. case_decide; intros; simplify_eq; lia. Qed.

Lemma log2_div10 n : 10 ≤ n → (S (Z.to_nat (Z.log2 (n / 10))) ≤ Z.to_nat (Z.log2 n))%nat.
Proof.
  intros. assert (Z.log2 (n / 10) < Z.log2 n); [|pose proof (Z.log2_nonneg (n / 10)); lia].
  assert (1 ≤ n / 10) by (apply Z.div_le_lower_bound; lia).
  apply Z.log2_lt_pow2; [lia|].
  assert (Z.log2 n = Z.succ (Z.pred (Z.log2 n))) as E by lia.
  pose proof (Z.log2_spec n ltac:(lia)) as [_ Hu]. rewrite Z.pow_succ_r in Hu by apply Z.log2_nonneg.
  apply Z.div_lt_upper_bound; lia.
Qed.

(** Scanning a printed number continues after its digits with the value it denotes. *)
Lemma scan_itoa_loop fuel n acc maxVal a :
  0 ≤ n → (Z.to_nat (Z.log2 n) < fuel)%nat → 0 ≤ a →
  ∃ k : nat, n < 10 ^ Z.of_nat k ∧
    (a * 10 ^ Z.of_nat k + n ≤ maxVal →
     scan_digits maxVal a (itoa_loop fuel n acc) = scan_digits maxVal (a * 10 ^ Z.of_nat k + n) acc).
Proof.
  revert n acc a; induction fuel as [|fuel IH]; intros n acc a Hn Hf Ha; [lia|]. simpl.
  pose proof (Z.div_mod n 10 ltac:(lia)) as Hdm. pose proof (Z.mod_pos_bound n 10 ltac:(lia)) as Hmb.
  case_decide as Hz.
  - exists 1%nat. split; [lia|]. intros Hmax. simpl scan_digits.
    rewrite digit_val_chr by lia. rewrite decide_False by lia. f_equal. lia.
  - assert (10 ≤ n). { destruct (decide (10 ≤ n)); [done|]. rewrite Z.div_small in Hz by lia. lia. }
    pose proof (log2_div10 n ltac:(lia)).
    destruct (IH (n / 10) (String (digit_chr (n mod 10)) acc) a) as (k & Hk1 & Hk);
      [apply Z.div_pos; lia|lia|done|].
    exists (S k). rewrite Nat2Z.inj_succ, Z.pow_succ_r by lia. split; [lia|].
    intros Hmax. rewrite Hk by nia. simpl scan_digits.
    rewrite digit_val_chr by lia. rewrite decide_False by nia. f_equal. nia.
Qed.

Lemma scan_utoa n maxVal : 0 ≤ n ≤ maxVal → scan_digits maxVal 0 (utoa n) = (n, None).
Proof.
  intros. unfold utoa.
  destruct (scan_itoa_loop (S (Z.to_nat (Z.log2 n))) n "" maxVal 0) as (k & _ & Hk); [lia..|].
  by rewrite Hk, Z.mul_0_l by lia.
Qed.

Lemma itoa_loop_digits fuel n acc :
  0 ≤ n → str_forall is_digit acc = true → str_forall is_digit (itoa_loop fuel n acc) = true.
Proof.
  revert n acc; induction fuel as [|fuel IH]; intros n acc Hn Hacc; simpl; [done|].
  pose proof (Z.mod_pos_bound n 10 ltac:(lia)).
  assert (str_forall is_digit (String (digit_chr (n mod 10)) acc) = true) as H1.
  { simpl. rewrite Hacc, andb_true_r. unfold is_digit. apply bool_decide_eq_true.
    rewrite digit_val_chr by lia. by eexists. }
  case_decide; [done|]. apply IH; [apply Z.div_pos; lia|done].
Qed.
Lemma utoa_digits n : 0 ≤ n → str_forall is_digit (utoa n) = true.
Proof. intros. by apply itoa_loop_digits. Qed.

Lemma itoa_loop_cons fuel n acc : ∃ c s, itoa_loop (S fuel) n acc = String c s.
Proof.
  revert n acc; induction fuel as [|fuel IH]; intros n acc; simpl; case_decide; eauto.
Qed.
Lemma utoa_cons n : 0 ≤ n → ∃ c s, utoa n = String c s ∧ is_digit c = true.
Proof.
  intros. destruct (itoa_loop_cons (Z.to_nat (Z.log2 n)) n "") as (c & s & E).
  exists c, s. split; [done|]. pose proof (utoa_digits n ltac:(done)) as Hd.
  unfold utoa in Hd. rewrite E in Hd. simpl in Hd. by apply andb_true_iff in Hd as [? _].
Qed.

(** No printed digit is one of the program's separators. *)
Lemma digits_no_char s sep : is_digit sep = false → str_forall is_digit s = true → no_char sep s = true.
Proof.
  intros Hs. apply str_forall_impl. intros c Hc. apply negb_true_iff, Ascii.eqb_neq. congruence.
Qed.
Lemma utoa_no_char n sep : 0 ≤ n → is_digit sep = false → no_char sep (utoa n) = true.
Proof. intros. apply digits_no_char; [done|by apply utoa_digits]. Qed.

Lemma ParseUint_utoa n bits : 0 ≤ n ≤ 2 ^ bits - 1 → ParseUint (utoa n) bits = (n, None).
Proof.
  intros. unfold ParseUint. destruct (utoa_cons n) as (c & s & E & _); [lia|].
  rewrite E, <- E. by apply scan_utoa.
Qed.

(** [strconv.Atoi(strconv.Itoa(n))] is [n], for every 64-bit [n]. *)
Lemma Atoi_Itoa n : in_int64 n → Atoi (Itoa n) = (n, None).
Proof.
  unfold in_int64, minInt, maxInt. intros Hn. unfold Atoi, Itoa, ParseInt64. case_decide.
  - rewrite ParseUint_utoa by lia. rewrite decide_False by (unfold maxInt; lia). f_equal. lia.
  - destruct (utoa_cons n) as (c & s & E & Hc); [lia|].
    assert (c ≠ "+"%char ∧ c ≠ "-"%char) as [H1 H2] by (split; intros ->; done).
    assert (match utoa n with
            | String "+" s' => (false, s') | String "-" s' => (true, s') | _ => (false, utoa n)
            end = (false, utoa n)) as ->.
    { rewrite E. by repeat case_match. }
    rewrite ParseUint_utoa by lia. rewrite decide_False by (unfold maxInt; lia). done.
Qed.

(** What [Atoi] accepts is inside the 64-bit range. *)
Lemma scan_digits_range maxVal acc s n e :
  0 ≤ acc ≤ maxVal → scan_digits maxVal acc s = (n, e) → 0 ≤ n ≤ maxVal.
Proof.
  revert acc; induction s as [|c s IH]; intros acc Ha; simpl; [naive_solver|].
  destruct (digit_val c) as [d|] eqn:Ed; [|intros; simplify_eq; lia].
  apply digit_val_range in Ed. case_decide; [intros; simplify_eq; lia|]. apply IH. lia.
Qed.
Lemma Atoi_range s n e : Atoi s = (n, e) → in_int64 n.
Proof.
  unfold Atoi, ParseInt64, in_int64, minInt, maxInt.
  set (p := match s with String "+" s' => _ | _ => _ end). destruct p as [neg body].
  destruct (ParseUint body 64) as [un oe] eqn:Eu.
  assert (0 ≤ un ≤ 2 ^ 64 - 1) as Hu.
  { unfold ParseUint in Eu. destruct body as [|c body]; [simplify_eq; lia|].
    eapply scan_digits_range, Eu; lia. }
  unfold maxInt, minInt in *.
  destruct oe as [[]|], neg; repeat case_decide; intros; simplify_eq; lia.
Qed.
#[export] Hint Rewrite Atoi_Itoa using (unfold in_int64, minInt, maxInt in *; lia) : go_rw.
