(* ===== verification/Data.v ===== *)
(** * Nodes and the CLUSTER NODES parser

    [cluster/utils/utils.go] (number and address helpers), [cluster/data/types.go] (runtime and
    cluster nodes, slot ranges) and [cluster/data/parse.go] (the line parser), with the printer
    the round-trip theorem is stated against. *)
From S2P Require Import Prelude GoStrings.

Module Utils.

Definition StringToUint16 (str : string) : outcome Z :=
  match Atoi str with
  | (_, Some e) => Fail (NumError "Atoi" str e)
  | (num, None) =>
      if decide (num < 0 ∨ num > 65535) then Fail (Errorf "数字超出 uint16 范围")
      else Ret (uint16 num)
  end.

Definition ParseIPPort (ipPort : string) : string * string :=
  match Split ":" ipPort with
  | [a; b] => (a, b)
  | _ => ("", "")
  end.

Lemma StringToUint16_range s n : StringToUint16 s = Ret n → 0 ≤ n < 65536.
Proof.
  unfold StringToUint16. destruct (Atoi s) as [v [e|]]; [done|].
  case_decide; [done|]. intros; simplify_eq. apply uint16_range.
Qed.
Lemma StringToUint16_Itoa n : 0 ≤ n < 65536 → StringToUint16 (Itoa n) = Ret n.
Proof.
  intros. unfold StringToUint16.
  rewrite Atoi_Itoa by (unfold in_int64, minInt, maxInt; lia).
  rewrite decide_False by lia. by rewrite uint16_id.
Qed.

(** An address without further colons splits into its two halves. *)
Lemma ParseIPPort_join h p :
  no_char ":" h = true → no_char ":" p = true → ParseIPPort (h +:+ String ":" p) = (h, p).
Proof. intros. unfold ParseIPPort. by rewrite Split_app, Split_single. Qed.

End Utils.

(** ** Node types *)

Record NodeAddress : Type := mkNodeAddress { ClusterAddr : string; ClientAddr : string }.

Record RuntimeNode : Type := mkRuntimeNode {
  rn_HostIP : string;
  rn_HostPort : Z;        (* uint16 *)
  rn_ConIp : string;
  rn_ConPort : Z;         (* uint16 *)
  rn_Hostname : string;
  rn_Name : string;
  rn_ID : string;
  rn_ClusterName : string;
  rn_Address : NodeAddress }.

Record SlotRange : Type := mkSlotRange { Start : Z; End_ : Z }.

Record ClusterNode : Type := mkClusterNode {
  cn_ID : string;
  cn_IP : string;
  cn_Port : Z;            (* uint16 *)
  cn_NodeType : string;
  cn_MasterID : string;
  cn_LinkState : string;
  cn_Slots : list SlotRange;
  cn_SlotsNum : Z;
  cn_ClusterName : string }.

Definition Master : string := "master".
Definition Slave : string := "slave".

#[global] Instance NodeAddress_eq_dec : EqDecision NodeAddress.
Proof. solve_decision. Defined.
#[global] Instance RuntimeNode_eq_dec : EqDecision RuntimeNode.
Proof. solve_decision. Defined.
#[global] Instance SlotRange_eq_dec : EqDecision SlotRange.
Proof. solve_decision. Defined.
#[global] Instance ClusterNode_eq_dec : EqDecision ClusterNode.
Proof. solve_decision. Defined.

(** [fmt.Sprintf] of a host, a colon and a port *)
Definition hostport (h : string) (p : Z) : string := h +:+ String ":" (Itoa p).

Definition ClientConnAddr (n : RuntimeNode) : string :=
  if decide (ClientAddr (rn_Address n) ≠ "") then ClientAddr (rn_Address n)
  else hostport (rn_HostIP n) (rn_HostPort n).

Definition ClusterMeetAddr (n : RuntimeNode) : string :=
  if decide (rn_Hostname n ≠ "") then hostport (rn_Hostname n) (rn_ConPort n)
  else hostport (rn_ConIp n) (rn_ConPort n).

(** A client is a handle on an address: [CreateRedisClient] dials lazily and never fails. *)
Definition redisClient : Type := string.
Definition CreateRedisClient (addr : string) : outcome redisClient := Ret addr.
Definition RuntimeNode_CreateRedisClient (n : RuntimeNode) : outcome redisClient :=
  CreateRedisClient (ClientConnAddr n).

(** ** Slot parsing *)

Definition parseRange (slotStr : string) : outcome (Z * Z) :=
  match Split "-" slotStr with
  | [p0; p1] =>
      match Atoi p0 with
      | (_, Some e) => Fail (NumError "Atoi" p0 e)
      | (start, None) =>
          match Atoi p1 with
          | (_, Some e) => Fail (NumError "Atoi" p1 e)
          | (end_, None) => Ret (start, end_)
          end
      end
  | parts => Fail (Errorf ("invalid range format: [" +:+ String.concat " " parts +:+ "]"))
  end.

Definition parseSingleSlot (slotStr : string) : outcome Z :=
  match Atoi slotStr with
  | (_, Some e) => Fail (NumError "Atoi" slotStr e)
  | (singleSlot, None) => Ret singleSlot
  end.

Fixpoint ParseSlots_loop (slots : list SlotRange) (slotStrs : list string)
    : outcome (list SlotRange) :=
  match slotStrs with
  | [] => Ret slots
  | slotStr :: rest =>
      if Contains slotStr "-" then
        match parseRange slotStr with
        | Ret (start, end_) => ParseSlots_loop (slots ++ [mkSlotRange start end_]) rest
        | Fail e => Fail e
        | Panic p => Panic p
        | OutOfFuel => OutOfFuel
        end
      else
        match parseSingleSlot slotStr with
        | Ret singleSlot => ParseSlots_loop (slots ++ [mkSlotRange singleSlot singleSlot]) rest
        | Fail e => Fail e
        | Panic p => Panic p
        | OutOfFuel => OutOfFuel
        end
  end.
Definition ParseSlots (slotStrs : list string) : outcome (list SlotRange) :=
  ParseSlots_loop [] slotStrs.

(** ** CLUSTER NODES lines *)

Definition parseNodeType (field : string) : string :=
  if Contains field "master" then Master else Slave.

(** The body of the loop of [ParseClusterNodeLines]: what one line adds to the two results. *)
Inductive lineResult : Type :=
  | LineSkip
  | LineFailed (id : string)
  | LineNode (n : ClusterNode).

Definition fieldAt (fields : list string) (i : nat) : string := default "" (fields !! i).

Definition parseLine (line : string) (clusterFilter : option (string → bool)) : lineResult :=
  if decide (line = "") then LineSkip else
  let fields := Split " " line in
  if decide (length fields < 8)%nat then LineSkip else
  if Contains (fieldAt fields 2) "fail" then LineFailed (fieldAt fields 0) else
  let ipPort := fieldAt (Split "@" (fieldAt fields 1)) 0 in
  let '(ip, port) := Utils.ParseIPPort ipPort in
  if decide (ip = "") then LineSkip else
  if match clusterFilter with Some f => negb (f ip) | None => false end then LineSkip else
  match Utils.StringToUint16 port with
  | Ret portUint16 =>
      let node slots :=
        mkClusterNode (fieldAt fields 0) ip portUint16 (parseNodeType (fieldAt fields 2))
          (fieldAt fields 3) (fieldAt fields 7) slots 0 "" in
      if decide (parseNodeType (fieldAt fields 2) = Master ∧ (8 < length fields)%nat) then
        match ParseSlots (drop 8 fields) with
        | Ret slots => LineNode (node slots)
        | _ => LineSkip
        end
      else LineNode (node [])
  | _ => LineSkip
  end.

Fixpoint ParseClusterNodeLines (lines : list string) (clusterFilter : option (string → bool))
    : list ClusterNode * list string :=
  match lines with
  | [] => ([], [])
  | line :: rest =>
      let '(nodes, failedIDs) := ParseClusterNodeLines rest clusterFilter in
      match parseLine line clusterFilter with
      | LineSkip => (nodes, failedIDs)
      | LineFailed id => (nodes, id :: failedIDs)
      | LineNode n => (n :: nodes, failedIDs)
      end
  end.

(** ** The printer of CLUSTER NODES lines *)
Module Printer.

Definition newline : ascii := "010".

Definition print_slot (r : SlotRange) : string :=
  if decide (Start r = End_ r) then Itoa (Start r)
  else Itoa (Start r) +:+ String "-" (Itoa (End_ r)).

Definition node_fields (n : ClusterNode) : list string :=
  [cn_ID n; hostport (cn_IP n) (cn_Port n) +:+ String "@" (Itoa (cn_Port n + 10000));
   cn_NodeType n; cn_MasterID n; "0"; "0"; "0"; cn_LinkState n] ++ map print_slot (cn_Slots n).
Definition print_node (n : ClusterNode) : string := Join " " (node_fields n).
Definition print_nodes (l : list ClusterNode) : string := Join newline (map print_node l).

(** A token of a line: no blank and no line break. *)
Definition token (s : string) : bool := no_char " " s && no_char newline s.
Definition slot_wf (r : SlotRange) : Prop := 0 ≤ Start r ≤ maxInt ∧ 0 ≤ End_ r ≤ maxInt.

(** What a live node of a CLUSTER NODES answer looks like. *)
Definition node_wf (n : ClusterNode) : Prop :=
  token (cn_ID n) = true ∧ token (cn_IP n) = true ∧ cn_IP n ≠ "" ∧
  no_char ":" (cn_IP n) = true ∧ no_char "@" (cn_IP n) = true ∧
  0 ≤ cn_Port n < 65536 ∧
  (cn_NodeType n = Master ∨ cn_NodeType n = Slave ∧ cn_Slots n = []) ∧
  token (cn_MasterID n) = true ∧ token (cn_LinkState n) = true ∧
  Forall slot_wf (cn_Slots n) ∧ cn_SlotsNum n = 0 ∧ cn_ClusterName n = "".

#[global] Instance slot_wf_dec r : Decision (slot_wf r).
Proof. unfold slot_wf. apply _. Defined.
#[global] Instance node_wf_dec n : Decision (node_wf n).
Proof. unfold node_wf. apply _. Defined.

Lemma Itoa_nonneg n : 0 ≤ n → Itoa n = utoa n.
Proof. intros. unfold Itoa. by rewrite decide_False by lia. Qed.
Lemma Itoa_no_char n sep : 0 ≤ n → is_digit sep = false → no_char sep (Itoa n) = true.
Proof. intros. rewrite Itoa_nonneg by done. by apply utoa_no_char. Qed.
Lemma no_char_app sep s1 s2 : no_char sep (s1 +:+ s2) = no_char sep s1 && no_char sep s2.
Proof. apply str_forall_app. Qed.
Lemma no_char_cons sep c s : no_char sep (String c s) = negb (Ascii.eqb c sep) && no_char sep s.
Proof. done. Qed.
#[export] Hint Rewrite no_char_app no_char_cons : go_rw.
#[export] Hint Rewrite Itoa_no_char using (done || lia) : go_rw.

Ltac solve_no_char := autorewrite with go_rw; simpl; try done.

Lemma print_slot_no_char r sep :
  slot_wf r → is_digit sep = false → sep ≠ "-"%char → no_char sep (print_slot r) = true.
Proof.
  intros [[??] [??]] Hd Hs. unfold print_slot. case_decide; [by apply Itoa_no_char|].
  rewrite no_char_app, no_char_cons, !Itoa_no_char by done.
  by rewrite (proj2 (Ascii.eqb_neq _ _)) by congruence.
Qed.

(** Printed slots parse to the same ranges, one after the other. *)
Lemma ParseSlots_print_loop acc l :
  Forall slot_wf l → ParseSlots_loop acc (map print_slot l) = Ret (acc ++ l).
Proof.
  intros Hl. revert acc; induction Hl as [|r l [[??] [??]] Hl IH]; intros acc; simpl.
  { by rewrite app_nil_r. }
  rewrite Contains_char. unfold print_slot. case_decide as Heq.
  - rewrite Itoa_no_char by done. unfold parseSingleSlot. simpl.
    rewrite Atoi_Itoa by (unfold in_int64, minInt; lia). rewrite IH, <- app_assoc. simpl.
    rewrite Heq at 2. by destruct r.
  - rewrite no_char_app, no_char_cons, andb_false_r. simpl. unfold parseRange.
    rewrite Split_app, Split_single by (apply Itoa_no_char; done).
    rewrite !Atoi_Itoa by (unfold in_int64, minInt; lia). rewrite IH, <- app_assoc. by destruct r.
Qed.

Lemma node_fields_token n : node_wf n → forallb token (node_fields n) = true.
Proof.
  intros (Hid & Hip & _ & _ & _ & Hp & Hty & Hm & Hl & Hs & _).
  unfold node_fields. rewrite forallb_app. apply andb_true_iff; split.
  - apply Is_true_true, forallb_True. repeat constructor; apply Is_true_true; try done.
    + apply andb_true_iff in Hip as [Hi1 Hi2]. unfold token, hostport.
      autorewrite with go_rw; simpl. by rewrite Hi1, Hi2.
    + by destruct Hty as [->|[-> _]].
  - apply Is_true_true, forallb_True, Forall_map. eapply Forall_impl; [done|]. intros r Hr. apply Is_true_true.
    unfold token. by rewrite !print_slot_no_char.
Qed.

Lemma token_split l : forallb token l = true → forallb (no_char " ") l = true ∧ forallb (no_char newline) l = true.
Proof.
  induction l as [|s l IH]; simpl; [done|].
  unfold token at 1. rewrite !andb_true_iff. naive_solver.
Qed.

Lemma Join_no_char sep c l :
  forallb (no_char c) l = true → Ascii.eqb sep c = false → no_char c (Join sep l) = true.
Proof.
  intros Hl Hc. induction l as [|p l IH]; simpl in *; [done|].
  apply andb_true_iff in Hl as [Hp Hl]. destruct l as [|q l]; [done|].
  rewrite no_char_app, no_char_cons, Hp, Hc. by apply IH.
Qed.

Lemma parseLine_print n : node_wf n → parseLine (print_node n) None = LineNode n.
Proof.
  intros Hwf. pose proof (node_fields_token n Hwf) as [Hsp _]%token_split.
  destruct Hwf as (Hid & Hip & Hne & Hc & Ha & Hp & Hty & Hm & Hl & Hs & Hsn & Hcn).
  unfold parseLine. rewrite decide_False.
  2:{ unfold print_node, node_fields. simpl. destruct (cn_ID n); done. }
  unfold print_node. rewrite Split_Join by done.
  rewrite decide_False by (unfold node_fields; simpl; lia).
  assert (fieldAt (node_fields n) 2 = cn_NodeType n) as -> by done.
  replace (Contains (cn_NodeType n) "fail") with false by (by destruct Hty as [->|[-> _]]).
  assert (fieldAt (Split "@" (fieldAt (node_fields n) 1)) 0 = hostport (cn_IP n) (cn_Port n)) as ->.
  { unfold fieldAt at 2, node_fields. simpl. rewrite Split_app; [done|].
    unfold hostport. autorewrite with go_rw. by rewrite Ha. }
  unfold hostport. rewrite Utils.ParseIPPort_join by (done || (apply Itoa_no_char; done || lia)).
  rewrite decide_False by done. rewrite Utils.StringToUint16_Itoa by done.
  unfold fieldAt, node_fields; simpl. destruct n as [id ip p ty mid ls sl sn cn]; simpl in *. subst.
  destruct Hty as [->|[-> ->]]; [|done].
  case_decide as Hd; [unfold ParseSlots; by rewrite drop_0, ParseSlots_print_loop|].
  destruct sl as [|r sl]; [done|]. destruct Hd. split; [done|]. simpl. lia.
Qed.

Lemma parse_print_lines l :
  Forall node_wf l → ParseClusterNodeLines (map print_node l) None = (l, []).
Proof. induction 1 as [|n l Hn Hl IH]; simpl; [done|]. by rewrite IH, parseLine_print. Qed.

End Printer.

(** ** Properties of the parser *)
Module ParseProps.
Import Printer.

(** C18: round trip.  Printing any list of well-formed live nodes as a CLUSTER NODES answer,
    splitting the answer into lines and parsing the lines gives exactly these nodes, slot ranges
    included, and no failed id. *)
Theorem parse_print_roundtrip (l : list ClusterNode) :
  Forall node_wf l →
  ParseClusterNodeLines (Split newline (print_nodes l)) None = (l, []).
Proof.
  intros Hl. unfold print_nodes. destruct l as [|n l]; [done|].
  rewrite Split_Join; [by apply parse_print_lines|done|].
  apply Is_true_true, forallb_True, Forall_map. eapply Forall_impl; [done|].
  intros m Hm. apply Is_true_true. unfold print_node.
  apply Join_no_char; [|done]. by apply token_split, node_fields_token.
Qed.

Definition sample_nodes : list ClusterNode :=
  [mkClusterNode "147ff14e" "10.88.3.59" 6379 Master "-" "connected"
     [mkSlotRange 0 0; mkSlotRange 2 5460; mkSlotRange 6000 6000; mkSlotRange 7890 7890] 0 "";
   mkClusterNode "7964bf21" "10.88.3.63" 6379 Slave "147ff14e" "connected" [] 0 ""].

Lemma parse_print_roundtrip_witness :
  Forall node_wf sample_nodes ∧
  ParseClusterNodeLines (Split newline (print_nodes sample_nodes)) None = (sample_nodes, []).
Proof.
  assert (Forall node_wf sample_nodes) as H by (apply (bool_decide_unpack (Forall node_wf sample_nodes)); vm_compute; exact I).
  split; [exact H|exact (parse_print_roundtrip sample_nodes H)].
Defined.

(** The well-typedness of a parsed node under a filter. *)
Definition node_typed (clusterFilter : option (string → bool)) (n : ClusterNode) : Prop :=
  cn_IP n ≠ "" ∧ no_char ":" (cn_IP n) = true ∧ 0 ≤ cn_Port n < 65536 ∧
  (cn_NodeType n = Master ∨ cn_NodeType n = Slave ∧ cn_Slots n = []) ∧
  Forall (λ r, in_int64 (Start r) ∧ in_int64 (End_ r)) (cn_Slots n) ∧
  cn_SlotsNum n = 0 ∧ cn_ClusterName n = "" ∧
  (∀ f, clusterFilter = Some f → f (cn_IP n) = true).

Lemma parseRange_int64 s a b : parseRange s = Ret (a, b) → in_int64 a ∧ in_int64 b.
Proof.
  unfold parseRange. destruct (Split "-" s) as [|p0 [|p1 [|]]]; try done.
  destruct (Atoi p0) as [v0 [|]] eqn:E0; [done|]. destruct (Atoi p1) as [v1 [|]] eqn:E1; [done|].
  intros; simplify_eq. eauto using Atoi_range.
Qed.

Lemma ParseSlots_loop_int64 acc l r :
  Forall (λ r, in_int64 (Start r) ∧ in_int64 (End_ r)) acc →
  ParseSlots_loop acc l = Ret r → Forall (λ r, in_int64 (Start r) ∧ in_int64 (End_ r)) r.
Proof.
  revert acc; induction l as [|s l IH]; intros acc Hacc; simpl; [naive_solver|].
  destruct (Contains s "-").
  - destruct (parseRange s) as [[a b]|e|p|] eqn:E; [|done..]. apply parseRange_int64 in E as [??].
    apply IH. apply Forall_app; split; [done|]. by apply Forall_singleton.
  - unfold parseSingleSlot. destruct (Atoi s) as [v [e|]] eqn:E; [done|]. apply Atoi_range in E.
    apply IH. apply Forall_app; split; [done|]. by apply Forall_singleton.
Qed.

Lemma ParseIPPort_no_colon s ip port : Utils.ParseIPPort s = (ip, port) → no_char ":" ip = true.
Proof.
  unfold Utils.ParseIPPort. pose proof (Split_no_char ":" s) as H.
  destruct (Split ":" s) as [|a [|b [|]]]; simpl in *; intros; simplify_eq; try done.
  by apply andb_true_iff in H as [? _].
Qed.

Lemma parseLine_typed line f n : parseLine line f = LineNode n → node_typed f n.
Proof.
  unfold parseLine. case_decide; [done|]. case_decide; [done|].
  destruct (Contains _ _); [done|]. destruct (Utils.ParseIPPort _) as [ip port] eqn:Eip.
  apply ParseIPPort_no_colon in Eip. case_decide as Hip; [done|].
  destruct (match f with Some _ => _ | None => _ end) eqn:Ef; [done|].
  assert (∀ g, f = Some g → g ip = true) as Hf.
  { intros g ->. by apply negb_false_iff in Ef. }
  destruct (Utils.StringToUint16 port) as [p|e|pp|] eqn:Ep; [|done..].
  apply Utils.StringToUint16_range in Ep. unfold parseNodeType. case_decide as Hm.
  - destruct (ParseSlots _) as [sl|e|pp|] eqn:Es; [|done..].
    apply ParseSlots_loop_int64 in Es; [|done]. intros; simplify_eq.
    destruct Hm as [-> _]. unfold node_typed; split_and!; simpl; auto; lia.
  - intros; simplify_eq. unfold node_typed; split_and!; simpl; auto; [lia..|].
    destruct (Contains _ _); auto.
Qed.

(** C17: type invariant of the parser.  Whatever text the server sends, every node
    [ParseClusterNodeLines] returns has a non-empty host the filter accepted, a port inside
    uint16, type master or slave, slot bounds inside 64 bits, and slaves own no slots. *)
Theorem parsed_nodes_typed (lines : list string) (clusterFilter : option (string → bool)) :
  Forall (node_typed clusterFilter) (ParseClusterNodeLines lines clusterFilter).1.
Proof.
  induction lines as [|line lines IH]; simpl; [done|].
  destruct (ParseClusterNodeLines lines clusterFilter) as [nodes failed]; simpl in *.
  destruct (parseLine line clusterFilter) eqn:E; simpl; [done..|].
  constructor; [by eapply parseLine_typed|done].
Qed.

(** The token Redis appends to a master's own line while a slot moves out of it. *)
Definition migrating_token (slot : Z) (id : string) : string :=
  "[" +:+ Itoa slot +:+ "->-" +:+ id +:+ "]".

Lemma ParseSlots_loop_app_fail acc pre s post :
  (∀ acc', ∃ e, ParseSlots_loop acc' (s :: post) = Fail e) →
  ∃ e, ParseSlots_loop acc (pre ++ s :: post) = Fail e.
Proof.
  intros Hs. revert acc; induction pre as [|t pre IH]; intros acc; [apply Hs|]. simpl.
  destruct (Contains t "-").
  - unfold parseRange. destruct (Split "-" t) as [|p0 [|p1 [|]]]; eauto.
    destruct (Atoi p0) as [? [|]], (Atoi p1) as [? [|]]; eauto.
  - unfold parseSingleSlot. destruct (Atoi t) as [? [|]]; eauto.
Qed.

Lemma migrating_token_no_range slot id post acc :
  0 ≤ slot → ∃ e, ParseSlots_loop acc (migrating_token slot id :: post) = Fail e.
Proof.
  intros Hs. assert (migrating_token slot id =
    ("[" +:+ Itoa slot) +:+ String "-" (">" +:+ String "-" (id +:+ "]"))) as -> by done.
  cbn [ParseSlots_loop]. rewrite Contains_char, no_char_app, no_char_cons, andb_false_r.
  unfold parseRange. simpl negb. cbv iota.
  rewrite Split_app by (autorewrite with go_rw; done).
  rewrite Split_app by done.
  destruct (Split "-" (id +:+ "]")) as [|? ?] eqn:E; [by apply Split_not_nil in E|]. eauto.
Qed.

(** Also: a master with a slot in migration is invisible.  If the slot list of a master's line
    holds the token [[n->-id]] that Redis prints while slot [n] is being moved out,
    [ParseSlots] fails for the whole list, so the node's line is skipped. *)
Theorem migrating_master_dropped (pre post : list string) (slot : Z) (id : string) :
  0 ≤ slot →
  ∃ e, ParseSlots (pre ++ migrating_token slot id :: post) = Fail e.
Proof. intros. apply ParseSlots_loop_app_fail. intros. by apply migrating_token_no_range. Qed.

Lemma migrating_master_dropped_witness :
  0 ≤ 93 ∧ ∃ e, ParseSlots (["0-92"] ++ migrating_token 93 "292f8b36" :: []) = Fail e.
Proof. split; [lia|apply (migrating_master_dropped ["0-92"] [] 93 "292f8b36"); lia]. Defined.

(** The whole line of a node that only carries the flag [nofailover] counts as failed. *)
Lemma nofailover_line_failed :
  parseLine "a1 10.0.0.9:6379@16379 slave,nofailover b2 0 0 1 connected" None = LineFailed "a1".
Proof. reflexivity. Qed.

End ParseProps.
