(* ===== verification/Config.v ===== *)
(** * Configuration

    [cluster/config/config.go]: the YAML file and the environment are resolved into the
    configuration every command runs with.  The decoded file (or the error of reading it), the
    environment and the source root compiled into the binary are arguments.  Paths follow Go's
    [path/filepath] on Unix. *)
From S2P Require Import Prelude GoStrings.

(** ** [path/filepath] *)
Module Filepath.
Definition IsAbs (p : string) : bool := HasPrefix p "/".
(** One path element against the elements kept so far, the last one first. *)
Definition clean_step (rooted : bool) (kept : list string) (c : string) : list string :=
  if decide (c = "" ∨ c = ".") then kept
  else if decide (c = "..") then
    match kept with
    | top :: rest => if decide (top = "..") then c :: kept else rest
    | [] => if rooted then [] else [c]
    end
  else c :: kept.
Definition Clean (p : string) : string :=
  if decide (p = "") then "."
  else
    let rooted := IsAbs p in
    let body := Join "/" (reverse (foldl (clean_step rooted) [] (Split "/" p))) in
    if rooted then String "/" body else if decide (body = "") then "." else body.
(** Leading empty elements are ignored. *)
Definition Join2 (a b : string) : string :=
  if decide (a = "") then if decide (b = "") then "" else Clean b
  else Clean (a +:+ String "/" b).
End Filepath.

(** ** Data *)
Record CacheConfig : Type := mkCacheConfig {
  cc_Enabled : bool; cc_MaxBytes : Z; cc_TTL : Z; cc_HotKeyThreshold : Z; cc_HotReplicas : Z;
  cc_DBRateLimit : Z; cc_ServerIP : string; cc_ServerPort : Z; cc_GossipPort : Z; cc_APIGateway : bool;
  cc_CacheGroupName : string; cc_Seeds : list string; cc_TLSMode : string; cc_TLSCertFile : string;
  cc_TLSKeyFile : string; cc_TLSCAFile : string }.
Record DNSConfig : Type := mkDNSConfig { dns_Enabled : bool; dns_Domain : string; dns_NamingTemplate : string }.
Record PathsConfig : Type := mkPaths {
  pa_RedisHostConfigPath : string; pa_RedisConfigPath : string; pa_RedisHostDataPath : string;
  pa_RedisConfigDataPath : string; pa_RuntimeStateDir : string }.
Record ConfigsConfig : Type := mkConfigs { co_SaveFileName : string; co_ImageName : string; co_RedisPort : Z }.
Record Config : Type := mkConfig {
  cf_Backend : string; cf_DBPath : string; cf_ContainerdSocket : string; cf_Paths : PathsConfig;
  cf_Configs : ConfigsConfig; cf_Cache : CacheConfig; cf_DNS : DNSConfig }.

(** The pointers to the cache and DNS parts may be nil. *)
Record RuntimeConfig : Type := mkRuntimeConfig {
  ProjectRoot : string; RedisHostConfigPath : string; RedisConfigPath : string; RedisHostDataPath : string;
  RedisConfigDataPath : string; RuntimeStateDir : string; ConfigSaveFileName : string; Backend : string;
  DBPath : string; ContainerdSocket : string; ImageName : string; RedisContainerPort : Z;
  Cache_ : option CacheConfig; DNS : option DNSConfig; CacheInvalidator : bool }.

(** The per-cluster file. *)
Record RedisClusterConfig : Type := mkRedisClusterConfig { NodesPerShard : Z; Port : Z }.
Definition EffectiveNodesPerShard (c : RedisClusterConfig) : Z := NodesPerShard c.

Module Conf.
Import Filepath.

(** ** Paths *)
Definition isUnixStyleAbsPath (p : string) : bool :=
  match p with String "/" _ => true | _ => false end.
Definition resolveLocalAbsPath (root p : string) : string :=
  if IsAbs p || bool_decide (p = "") then p else Join2 root p.
Definition resolveContainerHostPath (root p : string) : string :=
  if isUnixStyleAbsPath p then p else resolveLocalAbsPath root p.
Definition resolveStateFilePath (root name : string) : string :=
  if IsAbs name then name else Join2 root name.
(** [runtime.GOOS]: the paths of this file are those of linux. *)
Definition GOOS : string := "linux".
Definition defaultContainerdSocket (goos : string) : string :=
  if decide (goos = "windows") then "\\.\pipe\containerd-containerd" else "/run/containerd/containerd.sock".

Definition resolvePaths (root : string) (c : Config) : Config :=
  let p := cf_Paths c in
  mkConfig (cf_Backend c) (cf_DBPath c) (cf_ContainerdSocket c)
    (mkPaths (resolveContainerHostPath root (pa_RedisHostConfigPath p)) (pa_RedisConfigPath p)
       (resolveContainerHostPath root (pa_RedisHostDataPath p)) (pa_RedisConfigDataPath p)
       (resolveLocalAbsPath root (pa_RuntimeStateDir p)))
    (cf_Configs c) (cf_Cache c) (cf_DNS c).

(** ** The environment *)
Section env.
Context (Getenv : string → string).
(** [if v := os.Getenv(name); v != "" { field = v }] *)
Definition envString (name old : string) : string := if decide (Getenv name = "") then old else Getenv name.
(** The same with a conversion; a value that does not parse is ignored. *)
Definition envParsed {A} (parse : string → option A) (name : string) (old : A) : A :=
  if decide (Getenv name = "") then old else default old (parse (Getenv name)).
Definition noError {A} (r : Z * option A) : option Z := match r with (n, None) => Some n | _ => None end.

Definition loadFromEnv (c : Config) : Config :=
  let p := cf_Paths c in
  let o := cf_Configs c in
  let k := cf_Cache c in
  let d := cf_DNS c in
  mkConfig (envString "CLUSTER_BACKEND" (cf_Backend c)) (envString "CLUSTER_DB_PATH" (cf_DBPath c))
    (envString "CLUSTER_CONTAINERD_SOCKET" (cf_ContainerdSocket c))
    (mkPaths (envString "REDIS_HOST_CONFIG_PATH" (pa_RedisHostConfigPath p))
       (envString "REDIS_CONFIG_PATH" (pa_RedisConfigPath p))
       (envString "REDIS_HOST_DATA_PATH" (pa_RedisHostDataPath p))
       (envString "REDIS_CONFIG_DATA_PATH" (pa_RedisConfigDataPath p))
       (envString "CLUSTER_STATE_DIR" (pa_RuntimeStateDir p)))
    (mkConfigs (envString "CLUSTER_SAVE_FILE_NAME" (co_SaveFileName o))
       (envString "CLUSTER_IMAGE_NAME" (co_ImageName o))
       (envParsed (λ v, uint16 <$> noError (ParseUint v 16)) "CLUSTER_REDIS_PORT" (co_RedisPort o)))
    (mkCacheConfig (cc_Enabled k) (envParsed (λ v, noError (ParseInt64 v)) "CACHE_MAX_BYTES" (cc_MaxBytes k))
       (envParsed (λ v, noError (Atoi v)) "CACHE_TTL" (cc_TTL k)) (cc_HotKeyThreshold k) (cc_HotReplicas k)
       (cc_DBRateLimit k) (cc_ServerIP k) (envParsed (λ v, noError (Atoi v)) "CACHE_PORT" (cc_ServerPort k))
       (envParsed (λ v, noError (Atoi v)) "CACHE_GOSSIP_PORT" (cc_GossipPort k)) (cc_APIGateway k)
       (cc_CacheGroupName k) (cc_Seeds k) (envString "CACHE_TLS_MODE" (cc_TLSMode k)) (cc_TLSCertFile k)
       (cc_TLSKeyFile k) (cc_TLSCAFile k))
    (mkDNSConfig (envParsed ParseBool "CLUSTER_DNS_ENABLED" (dns_Enabled d))
       (envString "CLUSTER_DNS_DOMAIN" (dns_Domain d))
       (envString "CLUSTER_DNS_NAMING_TEMPLATE" (dns_NamingTemplate d))).
End env.

(** ** Defaults *)
Definition orString (s d : string) : string := if decide (s = "") then d else s.
Definition orInt (n d : Z) : Z := if decide (n = 0) then d else n.
Definition defaultTemplate : string := "{{.ClusterName}}-redis-{{.Index}}.{{.ClusterName}}-svc.{{.Namespace}}".
Definition resolveDNSDefaults (d : DNSConfig) : DNSConfig :=
  mkDNSConfig (dns_Enabled d) (dns_Domain d) (orString (dns_NamingTemplate d) defaultTemplate).
Definition resolveCacheDefaults (k : CacheConfig) : CacheConfig :=
  mkCacheConfig (cc_Enabled k) (orInt (cc_MaxBytes k) (Z.shiftl 1 30)) (orInt (cc_TTL k) 3600)
    (orInt (cc_HotKeyThreshold k) 100) (orInt (cc_HotReplicas k) 2) (orInt (cc_DBRateLimit k) 200)
    (cc_ServerIP k) (orInt (cc_ServerPort k) 8001) (orInt (cc_GossipPort k) 9001) (cc_APIGateway k)
    (orString (cc_CacheGroupName k) "default") (cc_Seeds k) (orString (cc_TLSMode k) "insecure")
    (cc_TLSCertFile k) (cc_TLSKeyFile k) (cc_TLSCAFile k).

(** ** Reading *)
Definition ReadConfig (root : string) (Getenv : string → string) (file : Config + error)
    : outcome RuntimeConfig :=
  match file with
  | inr err => Fail (Wrapf "failed to read YAML file" err)
  | inl c =>
      let c := resolvePaths root (loadFromEnv Getenv c) in
      let p := cf_Paths c in
      if decide (pa_RedisHostConfigPath p = "") then Fail (Errorf "redis host config path is empty")
      else if decide (pa_RedisHostDataPath p = "") then Fail (Errorf "redis host data path is empty")
      else
        let stateDir := orString (pa_RuntimeStateDir p) (Join2 root "runtime") in
        let configFileName := orString (co_SaveFileName (cf_Configs c)) "run_time_config.yaml" in
        if decide (co_ImageName (cf_Configs c) = "") then Fail (Errorf "image name is empty")
        else
          Ret (mkRuntimeConfig root (pa_RedisHostConfigPath p)
                 (orString (pa_RedisConfigPath p) "/data/redis/config") (pa_RedisHostDataPath p)
                 (orString (pa_RedisConfigDataPath p) "/data/redis/data") stateDir
                 (resolveStateFilePath stateDir configFileName) (orString (cf_Backend c) "podman")
                 (orString (cf_DBPath c) (Join2 stateDir "cluster.db"))
                 (orString (cf_ContainerdSocket c) (defaultContainerdSocket GOOS)) (co_ImageName (cf_Configs c))
                 (orInt (co_RedisPort (cf_Configs c)) 6379)
                 (Some (resolveCacheDefaults (cf_Cache c))) (Some (resolveDNSDefaults (cf_DNS c))) false)
  end.
Definition InitConfig (root : string) (Getenv : string → string) (file : Config + error)
    : outcome RuntimeConfig :=
  match ReadConfig root Getenv file with
  | Fail err => Fail (Wrapf "failed to initialize config" err)
  | r => r
  end.

(** ** Accessors *)
Section accessors.
Implicit Types cfg : RuntimeConfig.
Definition ClusterStateDir cfg (clusterName : string) : string := Join2 (RuntimeStateDir cfg) clusterName.
Definition ClusterRuntimeConfigPath cfg (clusterName : string) : string :=
  resolveStateFilePath (ClusterStateDir cfg clusterName) (ConfigSaveFileName cfg).

Definition CacheGroupName cfg : string := from_option cc_CacheGroupName "default" (Cache_ cfg).
Definition CacheMaxBytes cfg : Z := from_option cc_MaxBytes (Z.shiftl 1 30) (Cache_ cfg).
Definition CacheTTL cfg : Z := from_option cc_TTL 3600 (Cache_ cfg).
Definition CacheHotKeyThreshold cfg : Z := from_option cc_HotKeyThreshold 100 (Cache_ cfg).
Definition CacheHotReplicas cfg : Z := from_option cc_HotReplicas 2 (Cache_ cfg).
Definition CacheDBRateLimit cfg : Z := from_option cc_DBRateLimit 200 (Cache_ cfg).
Definition CachePort cfg : Z := from_option cc_ServerPort 8001 (Cache_ cfg).
Definition CacheGossipPort cfg : Z := from_option cc_GossipPort 9001 (Cache_ cfg).
Definition CacheSeeds cfg : list string := from_option cc_Seeds [] (Cache_ cfg).
Definition CacheTLSMode cfg : string := from_option cc_TLSMode "insecure" (Cache_ cfg).
Definition CacheAPIAddr cfg : string :=
  match Cache_ cfg with
  | Some k => if decide (cc_ServerIP k = "") then ":9999" else cc_ServerIP k +:+ ":9999"
  | None => ":9999"
  end.
Definition DNSEnabled cfg : bool := from_option dns_Enabled false (DNS cfg).
Definition DNSDomain cfg : string :=
  match DNS cfg with
  | Some d => if decide (dns_Domain d = "") then "svc.cluster.local" else dns_Domain d
  | None => "svc.cluster.local"
  end.
Definition DNSNamingTemplate cfg : string := from_option dns_NamingTemplate "" (DNS cfg).

Definition BuildHostname cfg (clusterName : string) (index : Z) : string :=
  match DNS cfg with
  | Some d =>
      if dns_Enabled d then
        if decide (dns_NamingTemplate d = "") then clusterName +:+ "-redis-" +:+ Itoa index
        else
          let name := ReplaceAll (dns_NamingTemplate d) "{{.ClusterName}}" clusterName in
          let name := ReplaceAll name "{{.Index}}" (Itoa index) in
          ReplaceAll name "{{.Namespace}}" "default"
      else ""
  | None => ""
  end.
End accessors.
End Conf.
