(* ===== verification/ConfigProps.v ===== *)
(** * Configuration: correctness

    When a configuration is accepted and what it then guarantees, which file a cluster's
    settings are kept in, and the host names of its nodes. *)
From S2P Require Import Prelude GoStrings Config.
Import Filepath Conf.

(** ** Paths *)
Lemma IsAbs_spec p : IsAbs p = true ↔ ∃ s, p = String "/" s.
Proof.
  unfold IsAbs, HasPrefix. split.
  - destruct p as [|c s]; [done|]. cbn [String.prefix]. destruct (ascii_dec "/" c) as [<-|]; [eauto|intros [=]].
  - intros [s ->]. by destruct s.
Qed.
Lemma Clean_abs p : IsAbs p = true → IsAbs (Clean p) = true.
Proof.
  intros Hp. unfold Clean. destruct (decide (p = "")) as [->|_]; [done|]. rewrite Hp. apply IsAbs_spec. eauto.
Qed.
Lemma Clean_not_empty p : Clean p ≠ "".
Proof. unfold Clean. by repeat case_match. Qed.
Lemma Join2_abs a b : IsAbs a = true → IsAbs (Join2 a b) = true.
Proof.
  intros [s ->]%IsAbs_spec. unfold Join2. rewrite decide_False by done. apply Clean_abs, IsAbs_spec. by eexists.
Qed.
Lemma Join2_not_empty a b : a ≠ "" → Join2 a b ≠ "".
Proof. intros Ha. unfold Join2. rewrite decide_False by done. apply Clean_not_empty. Qed.
Lemma abs_not_empty p : IsAbs p = true → p ≠ "".
Proof. by intros [s ->]%IsAbs_spec. Qed.
Lemma isUnixStyleAbsPath_IsAbs p : isUnixStyleAbsPath p = IsAbs p.
Proof.
  destruct (IsAbs p) eqn:E; [by apply IsAbs_spec in E as [s ->]|]. destruct p as [|c s]; [done|].
  destruct (decide (c = "/"%char)) as [->|Hne]; [by rewrite (proj2 (IsAbs_spec _)) in E by eauto|].
  unfold isUnixStyleAbsPath. repeat case_match; congruence.
Qed.
Lemma resolve_empty root p : root ≠ "" → resolveContainerHostPath root p = "" ↔ p = "".
Proof.
  intros Hroot. unfold resolveContainerHostPath, resolveLocalAbsPath. rewrite isUnixStyleAbsPath_IsAbs.
  destruct (IsAbs p) eqn:E; [done|]. cbn. case_bool_decide; [done|]. split; [|done]. by intros ?%Join2_not_empty.
Qed.
Lemma resolveLocal_abs root p : IsAbs root = true → p ≠ "" → IsAbs (resolveLocalAbsPath root p) = true.
Proof.
  intros Hroot Hp. unfold resolveLocalAbsPath. destruct (IsAbs p) eqn:E; [done|]. cbn.
  rewrite bool_decide_false by done. by apply Join2_abs.
Qed.
Lemma resolveContainer_abs root p : IsAbs root = true → p ≠ "" → IsAbs (resolveContainerHostPath root p) = true.
Proof.
  intros. unfold resolveContainerHostPath. rewrite isUnixStyleAbsPath_IsAbs. destruct (IsAbs p) eqn:E; [done|].
  by apply resolveLocal_abs.
Qed.
Lemma resolveState_abs root name : IsAbs root = true → IsAbs (resolveStateFilePath root name) = true.
Proof. intros. unfold resolveStateFilePath. destruct (IsAbs name) eqn:E; [done|]. by apply Join2_abs. Qed.
Lemma orString_not_empty s d : d ≠ "" → orString s d ≠ "".
Proof. unfold orString. by case_decide. Qed.
Lemma orInt_not_zero n d : d ≠ 0 → orInt n d ≠ 0.
Proof. unfold orInt. by case_decide. Qed.
Lemma stateDir_abs root p : IsAbs root = true → IsAbs (orString (resolveLocalAbsPath root p) (Join2 root "runtime")) = true.
Proof.
  intros Hroot. unfold orString. case_decide as E; [by apply Join2_abs|]. apply resolveLocal_abs; [done|].
  intros ->. done.
Qed.

(** ** Replacement *)
Lemma replace_skip_app old new o s : replace_loop old new (String.length o) (o +:+ s) = replace_loop old new 0 s.
Proof. by induction o. Qed.
Lemma ReplaceAll_here c o new s :
  ReplaceAll (String c o +:+ s) (String c o) new = new +:+ ReplaceAll s (String c o) new.
Proof.
  unfold ReplaceAll. change (String c o +:+ s) with (String c (o +:+ s)). cbn [replace_loop].
  change (String c (o +:+ s)) with (String c o +:+ s). rewrite prefix_app. cbn [String.length].
  rewrite Nat.sub_succ, Nat.sub_0_r. by rewrite replace_skip_app.
Qed.
Lemma ReplaceAll_skip c o new a s :
  no_char c a = true → ReplaceAll (a +:+ s) (String c o) new = a +:+ ReplaceAll s (String c o) new.
Proof.
  unfold ReplaceAll, no_char. induction a as [|d a IH]; [done|]. cbn [str_forall].
  intros [Hd Ha]%andb_true_iff. change (String d a +:+ s) with (String d (a +:+ s)). cbn [replace_loop String.prefix].
  destruct (ascii_dec c d) as [->|_]; [by rewrite Ascii.eqb_refl in Hd|]. by rewrite IH.
Qed.

(** The port is the environment's if it parses to something else than zero, then the file's,
    then the default. *)
Lemma port_ready Getenv name old :
  0 ≤ old < 65536 →
  0 < orInt (envParsed Getenv (λ v, uint16 <$> noError (ParseUint v 16)) name old) 6379 < 65536.
Proof.
  intros Hold. unfold orInt, envParsed. assert (0 ≤ default old (uint16 <$> noError (ParseUint (Getenv name) 16)) < 65536).
  { destruct (noError _); cbn; [apply uint16_range|done]. }
  repeat case_decide; lia.
Qed.

Module ConfigTheorems.

(** The first of the values that is not empty. *)
Definition first_set (l : list string) : string := default "" (head (filter (λ s, s ≠ "") l)).
Lemma orString_first_set Getenv name v d : orString (envString Getenv name v) d = first_set [Getenv name; v; d].
Proof.
  unfold orString, envString, first_set. rewrite !filter_cons, filter_nil.
  repeat case_decide; done || tauto || by apply dec_stable.
Qed.
Lemma envString_first_set Getenv name v : envString Getenv name v = first_set [Getenv name; v].
Proof.
  unfold envString, first_set. rewrite !filter_cons, filter_nil.
  repeat case_decide; done || tauto || by apply dec_stable.
Qed.
(** Where the text settings come from: the environment, then the file, then the default. *)
Record settled (root : string) (Getenv : string → string) (c : Config) (cfg : RuntimeConfig) : Prop := mkSettled {
  settled_paths :
    RedisHostConfigPath cfg = resolveContainerHostPath root
      (first_set [Getenv "REDIS_HOST_CONFIG_PATH"; pa_RedisHostConfigPath (cf_Paths c)]) ∧
    RedisHostDataPath cfg = resolveContainerHostPath root
      (first_set [Getenv "REDIS_HOST_DATA_PATH"; pa_RedisHostDataPath (cf_Paths c)]) ∧
    RedisConfigPath cfg = first_set [Getenv "REDIS_CONFIG_PATH"; pa_RedisConfigPath (cf_Paths c); "/data/redis/config"] ∧
    RedisConfigDataPath cfg = first_set [Getenv "REDIS_CONFIG_DATA_PATH"; pa_RedisConfigDataPath (cf_Paths c); "/data/redis/data"];
  settled_backend :
    Backend cfg = first_set [Getenv "CLUSTER_BACKEND"; cf_Backend c; "podman"] ∧
    DBPath cfg = first_set [Getenv "CLUSTER_DB_PATH"; cf_DBPath c; Join2 (RuntimeStateDir cfg) "cluster.db"] ∧
    ContainerdSocket cfg = first_set [Getenv "CLUSTER_CONTAINERD_SOCKET"; cf_ContainerdSocket c; defaultContainerdSocket GOOS] ∧
    ImageName cfg = first_set [Getenv "CLUSTER_IMAGE_NAME"; co_ImageName (cf_Configs c)];
  settled_services :
    CacheTLSMode cfg = first_set [Getenv "CACHE_TLS_MODE"; cc_TLSMode (cf_Cache c); "insecure"] ∧
    DNSNamingTemplate cfg = first_set [Getenv "CLUSTER_DNS_NAMING_TEMPLATE"; dns_NamingTemplate (cf_DNS c); defaultTemplate] }.

(** No setting is missing. *)
Record ready (cfg : RuntimeConfig) : Prop := mkReady {
  ready_paths : IsAbs (RedisHostConfigPath cfg) = true ∧ IsAbs (RedisHostDataPath cfg) = true ∧
    IsAbs (RuntimeStateDir cfg) = true ∧ IsAbs (ConfigSaveFileName cfg) = true;
  ready_strings : RedisConfigPath cfg ≠ "" ∧ RedisConfigDataPath cfg ≠ "" ∧ ImageName cfg ≠ "" ∧
    Backend cfg ≠ "" ∧ DBPath cfg ≠ "" ∧ ContainerdSocket cfg ≠ "";
  ready_port : 0 < RedisContainerPort cfg < 65536;
  ready_cache : CacheMaxBytes cfg ≠ 0 ∧ CacheTTL cfg ≠ 0 ∧ CacheHotKeyThreshold cfg ≠ 0 ∧
    CacheHotReplicas cfg ≠ 0 ∧ CacheDBRateLimit cfg ≠ 0 ∧ CachePort cfg ≠ 0 ∧ CacheGossipPort cfg ≠ 0 ∧
    CacheGroupName cfg ≠ "" ∧ CacheTLSMode cfg ≠ "";
  ready_dns : DNSNamingTemplate cfg ≠ "" }.


(** Also: the settings of all clusters share one file.  In a configuration that [ReadConfig]
    returns, the file the per-cluster settings are saved in is the same for every cluster: the
    save file name has already been made absolute, and an absolute name is not joined with the
    cluster's directory. *)
Theorem runtime_config_shared root Getenv file cfg cl1 cl2 :
  IsAbs root = true → ReadConfig root Getenv file = Ret cfg →
  ClusterRuntimeConfigPath cfg cl1 = ClusterRuntimeConfigPath cfg cl2.
Proof.
  intros Hroot. unfold ReadConfig. destruct file as [c|]; [|done]. repeat case_decide; try done.
  intros [= Hcfg]. assert (IsAbs (ConfigSaveFileName cfg) = true) as Habs
    by (subst cfg; cbn [ConfigSaveFileName]; by apply resolveState_abs, stateDir_abs).
  unfold ClusterRuntimeConfigPath, resolveStateFilePath. by rewrite Habs.
Qed.

Lemma Itoa_chars c i : is_digit c = false → c ≠ "-"%char → no_char c (Itoa i) = true.
Proof.
  intros Hc Hm. unfold Itoa. case_decide; [|by apply utoa_no_char; [lia|]].
  unfold no_char. cbn [str_forall]. rewrite (proj2 (Ascii.eqb_neq _ _)) by congruence. by apply utoa_no_char; [lia|].
Qed.
(** The host name under the default template. *)
Lemma default_hostname cfg d cl i :
  DNS cfg = Some d → dns_Enabled d = true → dns_NamingTemplate d = defaultTemplate →
  no_char "{" cl = true → in_int64 i →
  BuildHostname cfg cl i = cl +:+ "-redis-" +:+ Itoa i +:+ String "." (cl +:+ "-svc.default").
Proof.
  intros Hd He Ht Hcl Hi. unfold BuildHostname. rewrite Hd, He, Ht. rewrite decide_False by done.
  assert (ReplaceAll defaultTemplate "{{.ClusterName}}" cl =
    cl +:+ ("-redis-" +:+ ("{{.Index}}" +:+ ("." +:+ (cl +:+ "-svc.{{.Namespace}}"))))) as ->.
  { reflexivity. }
  change "{{.Index}}" with (String "{" "{.Index}}"). change "{{.Namespace}}" with (String "{" "{.Namespace}}").
  rewrite !(ReplaceAll_skip "{" "{.Index}}" (Itoa i) cl), (ReplaceAll_skip "{" "{.Index}}" (Itoa i) "-redis-"),
    (ReplaceAll_here "{" "{.Index}}"), (ReplaceAll_skip "{" "{.Index}}" (Itoa i) "."),
    (ReplaceAll_skip "{" "{.Index}}" (Itoa i) cl) by done.
  assert (ReplaceAll "-svc.{{.Namespace}}" (String "{" "{.Index}}") (Itoa i) = "-svc." +:+ (String "{" "{.Namespace}}" +:+ "")) as ->
    by reflexivity.
  rewrite (ReplaceAll_skip _ _ _ cl), (ReplaceAll_skip _ _ _ "-redis-"), (ReplaceAll_skip _ _ _ (Itoa i)),
    (ReplaceAll_skip _ _ _ "."), (ReplaceAll_skip _ _ _ cl), (ReplaceAll_skip _ _ _ "-svc."), ReplaceAll_here
    by (done || by apply Itoa_chars). done.
Qed.

(** Also: host names.  Under the default template, for a cluster name without braces, the host
    name of a node is built from the cluster and the index, and different indices give
    different host names. *)
Theorem hostnames_distinct cfg d cl i j :
  DNS cfg = Some d → dns_Enabled d = true → dns_NamingTemplate d = defaultTemplate →
  no_char "{" cl = true → in_int64 i → in_int64 j →
  BuildHostname cfg cl i = BuildHostname cfg cl j → i = j.
Proof.
  intros Hd He Ht Hcl Hi Hj. rewrite !(default_hostname cfg d) by done. intros E.
  apply (f_equal (λ s, TrimPrefix (TrimPrefix s cl) "-redis-")) in E. rewrite !TrimPrefix_app in E.
  apply (f_equal (λ s, head (Split "." s))) in E. rewrite !Split_app in E by (by apply Itoa_chars). cbn in E.
  apply Some_inj in E. apply (f_equal Atoi) in E. rewrite !Atoi_Itoa in E by done. congruence.
Qed.

(** The repository's own file names the paths relative to the source root. *)
Definition demo_file : Config :=
  mkConfig "" "" "" (mkPaths "conf" "" "data" "" "") (mkConfigs "" "redis:7" 0)
    (mkCacheConfig false 0 0 0 0 0 "" 0 0 false "" [] "" "" "" "") (mkDNSConfig true "" "").
Definition no_env (name : string) : string := "".
Definition demo_cfg : RuntimeConfig :=
  match ReadConfig "/src" no_env (inl demo_file) with
  | Ret cfg => cfg
  | _ => mkRuntimeConfig "" "" "" "" "" "" "" "" "" "" "" 0 None None false
  end.
(** What is not checked. *)
Definition odd_env (name : string) : string :=
  if decide (name = "CACHE_MAX_BYTES") then "-1" else if decide (name = "CLUSTER_BACKEND") then "none" else "".
Example odd_settings_accepted :
  ∃ cfg, ReadConfig "/src" odd_env (inl demo_file) = Ret cfg ∧ CacheMaxBytes cfg = -1 ∧ Backend cfg = "none".
Proof. eexists. split; [vm_compute; reflexivity|]. split; reflexivity. Qed.
Lemma runtime_config_shared_witness : ClusterRuntimeConfigPath demo_cfg "a" = ClusterRuntimeConfigPath demo_cfg "b".
Proof. apply (runtime_config_shared "/src" no_env (inl demo_file) demo_cfg "a" "b"); [reflexivity|vm_compute; reflexivity]. Defined.
Example shared_path : ClusterRuntimeConfigPath demo_cfg "a" = "/src/runtime/run_time_config.yaml".
Proof. vm_compute. reflexivity. Qed.
Lemma hostnames_distinct_witness :
  BuildHostname demo_cfg "c" 1 = "c-redis-1.c-svc.default" ∧ BuildHostname demo_cfg "c" 1 ≠ BuildHostname demo_cfg "c" 2.
Proof.
  split; [vm_compute; reflexivity|]. intros E.
  assert (1 = 2) as [=]. apply (hostnames_distinct demo_cfg (mkDNSConfig true "" defaultTemplate) "c" 1 2);
    [vm_compute; reflexivity|reflexivity|reflexivity|reflexivity|split; vm_compute; discriminate|split; vm_compute; discriminate|exact E].
Defined.
End ConfigTheorems.
