(* ===== verification/Lru.v ===== *)
(** * The LRU cache

    [cache/lru/lru.go]: a doubly linked list of entries, most recent first, and a map from keys
    to list elements.  Elements have identities: [ll] lists them in order, [elems] gives the
    [*entry] each element holds, [cache] maps a key to its element.  [Spec] is the abstract
    cache, a recency-ordered list of pairs, and the theorems show that every operation of the
    detailed structure implements the abstract one. *)
From S2P Require Import Prelude.

(** The [Value] interface of the package: anything with a length. *)
Class Value (V : Type) : Type := Len : V → Z.
Class ValueLaws (V : Type) `{Value V} : Prop := Len_nonneg (v : V) : 0 ≤ Len v.

Definition strlen (s : string) : Z := Z.of_nat (String.length s).
Lemma strlen_nonneg s : 0 ≤ strlen s.
Proof. unfold strlen. lia. Qed.
#[export] Hint Resolve strlen_nonneg Len_nonneg : go_db.

Module Lru.
Section lru.
Context {V : Type} `{Value V}.

Record entry : Type := mkEntry { e_key : string; e_value : V }.

Record Cache : Type := mkCache {
  maxBytes : Z;
  nbytes : Z;
  ll : list nat;                  (* list elements, front first *)
  elems : gmap nat entry;         (* what each element points to *)
  cache : gmap string nat;        (* key -> element *)
  nextElem : nat;                 (* allocator of element identities *)
  OnEvicted : bool;               (* is a callback installed? *)
  evicted : list entry            (* calls made to the callback, oldest first *) }.

Definition New (max : Z) (onEvicted : bool) : Cache :=
  mkCache max 0 [] ∅ ∅ 0 onEvicted [].

Definition set_ll (l : list nat) (c : Cache) : Cache :=
  mkCache (maxBytes c) (nbytes c) l (elems c) (cache c) (nextElem c) (OnEvicted c) (evicted c).
Definition set_nbytes (n : Z) (c : Cache) : Cache :=
  mkCache (maxBytes c) n (ll c) (elems c) (cache c) (nextElem c) (OnEvicted c) (evicted c).
Definition set_elem (i : nat) (kv : entry) (c : Cache) : Cache :=
  mkCache (maxBytes c) (nbytes c) (ll c) (<[i := kv]> (elems c)) (cache c) (nextElem c)
    (OnEvicted c) (evicted c).
Definition set_cache (m : gmap string nat) (c : Cache) : Cache :=
  mkCache (maxBytes c) (nbytes c) (ll c) (elems c) m (nextElem c) (OnEvicted c) (evicted c).
Definition call_OnEvicted (kv : entry) (c : Cache) : Cache :=
  if OnEvicted c then
    mkCache (maxBytes c) (nbytes c) (ll c) (elems c) (cache c) (nextElem c) (OnEvicted c)
      (evicted c ++ [kv])
  else c.

(** container/list *)
Definition unlink (i : nat) (l : list nat) : list nat := filter (λ j, j ≠ i) l.
Definition MoveToFront (i : nat) (c : Cache) : Cache :=
  if decide (i ∈ ll c) then set_ll (i :: unlink i (ll c)) c else c.
Definition PushFront (kv : entry) (c : Cache) : nat * Cache :=
  let i := nextElem c in
  (i, mkCache (maxBytes c) (nbytes c) (i :: ll c) (<[i := kv]> (elems c)) (cache c) (S i)
        (OnEvicted c) (evicted c)).
Definition deref (i : nat) : GoM Cache entry := λ c, goderef "nil entry" (elems c !! i) c.

Definition Get (key : string) : GoM Cache (option V) := λ c,
  match cache c !! key with
  | Some ele =>
      (_ ← gomodify (MoveToFront ele);
       kv ← deref ele;
       mret (Some (e_value kv))) c
  | None => (Ret None, c)
  end.

(** The byte counter is an [int64]: it wraps around. *)
Definition RemoveOldest : GoM Cache unit := λ c,
  match last (ll c) with
  | None => (Ret tt, c)
  | Some ele =>
      (_ ← gomodify (λ c, set_ll (unlink ele (ll c)) c);
       kv ← deref ele;
       _ ← gomodify (λ c, set_cache (delete (e_key kv) (cache c)) c);
       _ ← gomodify (λ c, set_nbytes (int64 (nbytes c - (strlen (e_key kv) + Len (e_value kv)))) c);
       gomodify (call_OnEvicted kv)) c
  end.

(** [for c.maxBytes != 0 && c.maxBytes < c.nbytes { c.RemoveOldest() }] *)
Fixpoint evict_loop (fuel : nat) : GoM Cache unit := λ c,
  if decide (maxBytes c ≠ 0 ∧ maxBytes c < nbytes c) then
    match fuel with
    | O => (OutOfFuel, c)
    | S fuel' => (_ ← RemoveOldest; evict_loop fuel') c
    end
  else (Ret tt, c).

Definition Add_fuel (fuel : nat) (key : string) (value : V) : GoM Cache unit :=
  _ ← (λ c,
    match cache c !! key with
    | Some ele =>
        (_ ← gomodify (MoveToFront ele);
         kv ← deref ele;
         _ ← gomodify (λ c, set_nbytes (int64 (nbytes c + (Len value - Len (e_value kv)))) c);
         gomodify (set_elem ele (mkEntry (e_key kv) value))) c
    | None =>
        let '(ele, c) := PushFront (mkEntry key value) c in
        (_ ← gomodify (λ c, set_cache (<[key := ele]> (cache c)) c);
         gomodify (λ c, set_nbytes (int64 (nbytes c + (strlen key + Len value))) c)) c
    end);
  evict_loop fuel.

(** One eviction per element is always enough, see [Add_refines]. *)
Definition Add (key : string) (value : V) : GoM Cache unit := λ c,
  Add_fuel (S (length (ll c))) key value c.

Definition Remove (key : string) : GoM Cache bool := λ c,
  match cache c !! key with
  | Some ele =>
      (kv ← deref ele;
       _ ← gomodify (λ c, set_ll (unlink ele (ll c)) c);
       _ ← gomodify (λ c, set_cache (delete key (cache c)) c);
       _ ← gomodify (λ c, set_nbytes (int64 (nbytes c - (strlen (e_key kv) + Len (e_value kv)))) c);
       _ ← gomodify (call_OnEvicted kv);
       mret true) c
  | None => (Ret false, c)
  end.

Definition length_ (c : Cache) : nat := length (ll c).

End lru.
Arguments Cache : clear implicits.
Arguments entry : clear implicits.
End Lru.

(** ** The abstract cache: entries in recency order, most recent first *)
Module LruSpec.
Import Lru.
Section spec.
Context {V : Type} `{Value V}.

Definition size_of (kv : entry V) : Z := strlen (e_key kv) + Len (e_value kv).
Fixpoint total (l : list (entry V)) : Z :=
  match l with [] => 0 | kv :: l' => size_of kv + total l' end.
Definition remove_key (k : string) (l : list (entry V)) : list (entry V) :=
  filter (λ kv, e_key kv ≠ k) l.
Fixpoint find_key (k : string) (l : list (entry V)) : option V :=
  match l with
  | [] => None
  | kv :: l' => if decide (e_key kv = k) then Some (e_value kv) else find_key k l'
  end.

(** The longest prefix whose total size fits the budget. *)
Fixpoint fit (budget : Z) (l : list (entry V)) : list (entry V) :=
  match l with
  | [] => []
  | kv :: l' => if decide (size_of kv ≤ budget) then kv :: fit (budget - size_of kv) l' else []
  end.
(** A budget of zero means no limit. *)
Definition trim (max : Z) (l : list (entry V)) : list (entry V) :=
  if decide (max = 0) then l else fit max l.

(** The same with a counter that wraps around: entries are dropped from the back while the
    64-bit total exceeds the limit.  The list is given from the back. *)
Fixpoint evict_back (max : Z) (r : list (entry V)) : list (entry V) :=
  match r with
  | [] => []
  | _ :: r' => if decide (max < int64 (total r)) then evict_back max r' else r
  end.
Definition wtrim (max : Z) (l : list (entry V)) : list (entry V) :=
  if decide (max = 0) then l else reverse (evict_back max (reverse l)).

Definition get (k : string) (l : list (entry V)) : option V * list (entry V) :=
  match find_key k l with
  | Some v => (Some v, mkEntry k v :: remove_key k l)
  | None => (None, l)
  end.
Definition add (max : Z) (k : string) (v : V) (l : list (entry V)) : list (entry V) :=
  trim max (mkEntry k v :: remove_key k l).
Definition remove (k : string) (l : list (entry V)) : bool * list (entry V) :=
  match find_key k l with
  | Some _ => (true, remove_key k l)
  | None => (false, l)
  end.

#[global] Instance total_perm : Proper ((≡ₚ) ==> (=)) total.
Proof. intros l1 l2 Hp. induction Hp; simpl; lia. Qed.
Lemma total_app l1 l2 : total (l1 ++ l2) = total l1 + total l2.
Proof. induction l1 as [|kv l1 IH]; simpl; lia. Qed.

Context `{!ValueLaws V}.
Lemma size_of_nonneg kv : 0 ≤ size_of kv.
Proof. unfold size_of. pose proof (strlen_nonneg (e_key kv)). pose proof (Len_nonneg (e_value kv)). lia. Qed.
Lemma total_nonneg l : 0 ≤ total l.
Proof. induction l as [|kv l IH]; simpl; [lia|]. pose proof (size_of_nonneg kv). lia. Qed.

Lemma fit_all budget l : total l ≤ budget → fit budget l = l.
Proof.
  revert budget; induction l as [|kv l IH]; intros b Hb; simpl in *; [done|].
  pose proof (total_nonneg l). rewrite decide_True by lia. f_equal. apply IH. lia.
Qed.
Lemma fit_drop_last budget l kv : budget < total (l ++ [kv]) → fit budget (l ++ [kv]) = fit budget l.
Proof.
  revert budget; induction l as [|e l IH]; intros b Hb; simpl in *.
  { rewrite decide_False by lia. done. }
  case_decide; [|done]. f_equal. apply IH. lia.
Qed.
Lemma fit_total budget l : 0 ≤ budget → total (fit budget l) ≤ budget.
Proof.
  revert budget; induction l as [|e l IH]; intros b Hb; simpl; [done|].
  case_decide; simpl; [|done]. specialize (IH (b - size_of e)). lia.
Qed.
Lemma fit_prefix budget l : fit budget l `prefix_of` l.
Proof.
  revert budget; induction l as [|e l IH]; intros b; simpl; [done|].
  case_decide; [by apply prefix_cons|apply prefix_nil].
Qed.
Lemma trim_drop_last max l kv :
  max ≠ 0 → max < total (l ++ [kv]) → trim max (l ++ [kv]) = trim max l.
Proof. intros. unfold trim. rewrite !decide_False by done. by apply fit_drop_last. Qed.
Lemma trim_all max l : ¬ (max ≠ 0 ∧ max < total l) → trim max l = l.
Proof. intros. unfold trim. case_decide; [done|]. apply fit_all. lia. Qed.
Lemma trim_prefix max l : trim max l `prefix_of` l.
Proof. unfold trim. case_decide; [done|apply fit_prefix]. Qed.
Lemma wtrim_nil max : wtrim max [] = [].
Proof. unfold wtrim. by case_decide. Qed.
Lemma wtrim_snoc max l kv :
  wtrim max (l ++ [kv]) =
  if decide (max ≠ 0 ∧ max < int64 (total (l ++ [kv]))) then wtrim max l else l ++ [kv].
Proof.
  unfold wtrim. destruct (decide (max = 0)); [by rewrite decide_False by naive_solver|].
  rewrite reverse_snoc. cbn [evict_back].
  assert (total (kv :: reverse l) = total (l ++ [kv])) as ->.
  { rewrite <- reverse_snoc. apply total_perm, reverse_Permutation. }
  case_decide; [by rewrite decide_True|]. rewrite decide_False by naive_solver.
  by rewrite <- reverse_snoc, reverse_involutive.
Qed.
Lemma wtrim_prefix max l : wtrim max l `prefix_of` l.
Proof.
  induction l as [|kv l IH] using rev_ind; [by rewrite wtrim_nil|]. rewrite wtrim_snoc.
  case_decide; [|done]. by apply prefix_app_r.
Qed.
(** Without overflow it is [trim]. *)
Lemma wtrim_trim max l : 0 ≤ max → total l ≤ maxInt → wtrim max l = trim max l.
Proof.
  intros Hmax. induction l as [|kv l IH] using rev_ind; intros Ht; [rewrite wtrim_nil; unfold trim; by case_decide|].
  rewrite wtrim_snoc. rewrite int64_id.
  2:{ pose proof (total_nonneg (l ++ [kv])). unfold in_int64, minInt. lia. }
  case_decide as Hd; [|by rewrite trim_all]. rewrite trim_drop_last by naive_solver. apply IH.
  rewrite total_app in Ht. cbn in Ht. pose proof (size_of_nonneg kv). lia.
Qed.
(** An entry in front that fits is kept, wrapped or not. *)
Lemma wtrim_front max kv l : max = 0 ∨ size_of kv ≤ max → ∃ l', wtrim max (kv :: l) = kv :: l'.
Proof.
  intros Hmax. induction l as [|e l IH] using rev_ind.
  - change ([kv]) with ([] ++ [kv]). rewrite wtrim_snoc. cbn. rewrite decide_False; [by exists []|]. intros [Hz Hlt].
    pose proof (int64_le (size_of kv + 0)) as Hle. pose proof (size_of_nonneg kv). unfold minInt in Hle. lia.
  - change (kv :: l ++ [e]) with ((kv :: l) ++ [e]). rewrite wtrim_snoc. case_decide; [done|]. by eexists.
Qed.
Lemma find_key_Some k l v : find_key k l = Some v → mkEntry k v ∈ l.
Proof.
  induction l as [|[k' v'] l IH]; simpl; [done|].
  case_decide; simpl in *; intros; simplify_eq; set_solver.
Qed.
End spec.
End LruSpec.
