(* ===== verification/LruRefine.v ===== *)
(** * The LRU cache implements the abstract cache

    The representation invariant [wf], the abstraction function [absr] and one refinement lemma
    per operation of [cache/lru/lru.go]. *)
From S2P Require Import Prelude Lru.
Import Lru LruSpec.

Section refine.
Context {V : Type} `{Value V, !ValueLaws V}.
Implicit Types (c : Cache V) (kv : entry V) (l : list nat).

Definition contents (m : gmap nat (entry V)) (l : list nat) : list (entry V) := omap (λ i, m !! i) l.
#[local] Arguments contents : simpl never.
Definition absr c : list (entry V) := contents (elems c) (ll c).

Record wf c : Prop := mkWf {
  wf_nodup : NoDup (ll c);
  wf_elem i : i ∈ ll c → ∃ kv, elems c !! i = Some kv ∧ cache c !! e_key kv = Some i;
  wf_cache k i : cache c !! k = Some i → i ∈ ll c ∧ ∃ v, elems c !! i = Some (mkEntry k v);
  wf_bytes : nbytes c = int64 (total (absr c));
  wf_next i : i ∈ ll c → (i < nextElem c)%nat }.

Lemma Lru_wf_New max cb : wf (New max cb).
Proof. by split; cbn; try constructor; try set_solver. Qed.

(** *** Lists of elements *)
Lemma unlink_not_elem i l : i ∉ l → unlink i l = l.
Proof. intros Hi. apply filter_all. set_solver. Qed.
Lemma unlink_last i l : NoDup (l ++ [i]) → unlink i (l ++ [i]) = l.
Proof.
  intros (Hn & Hd & _)%NoDup_app. unfold unlink. rewrite filter_app.
  rewrite (filter_cons_False (λ j, j ≠ i)) by auto. rewrite filter_nil, app_nil_r.
  apply unlink_not_elem. set_solver.
Qed.
Lemma elem_of_unlink i j l : j ∈ unlink i l ↔ j ≠ i ∧ j ∈ l.
Proof. unfold unlink. by rewrite list_elem_of_filter. Qed.
Lemma NoDup_unlink i l : NoDup l → NoDup (unlink i l).
Proof. apply NoDup_filter. Qed.
Lemma unlink_perm i l : NoDup l → i ∈ l → l ≡ₚ i :: unlink i l.
Proof.
  intros Hn Hi. apply NoDup_Permutation; [done| |].
  - constructor; [rewrite elem_of_unlink; naive_solver|by apply NoDup_unlink].
  - intros j. rewrite elem_of_cons, elem_of_unlink. destruct (decide (j = i)); naive_solver.
Qed.

Lemma contents_cons m i l kv : m !! i = Some kv → contents m (i :: l) = kv :: contents m l.
Proof. intros E. unfold contents. cbn. by rewrite E. Qed.
Lemma contents_app m l1 l2 : contents m (l1 ++ l2) = contents m l1 ++ contents m l2.
Proof. apply omap_app. Qed.
#[global] Instance contents_perm m : Proper ((≡ₚ) ==> (≡ₚ)) (contents m).
Proof. intros l1 l2 Hl. unfold contents. by rewrite Hl. Qed.
Lemma contents_insert m i kv l : i ∉ l → contents (<[i := kv]> m) l = contents m l.
Proof.
  intros Hi. unfold contents. apply list_omap_ext. apply Forall2_same_length_lookup_2; [done|].
  intros n x y Hx Hy. simplify_eq. rewrite lookup_insert_ne; [done|]. intros ->.
  by apply list_elem_of_lookup_2 in Hx.
Qed.

(** Unlinking the element of a key removes the key from the contents. *)
Lemma contents_unlink m i kv l :
  m !! i = Some kv →
  (∀ j, j ∈ l → ∃ kv', m !! j = Some kv' ∧ (e_key kv' = e_key kv → j = i)) →
  contents m (unlink i l) = remove_key (e_key kv) (contents m l).
Proof.
  intros Hi. induction l as [|j l IH]; intros Hl; [done|].
  destruct (Hl j) as (kvj & Ej & Hj); [set_solver|].
  rewrite (contents_cons _ _ _ _ Ej). unfold unlink, remove_key in *. rewrite !filter_cons.
  destruct (decide (j = i)) as [->|Hne].
  - rewrite decide_False by auto. simplify_eq. rewrite decide_False by auto. apply IH; set_solver.
  - rewrite decide_True by done. rewrite (contents_cons _ _ _ _ Ej).
    rewrite decide_True by auto. f_equal. apply IH; set_solver.
Qed.

Lemma wf_key_inj c i j kvi kvj :
  wf c → i ∈ ll c → j ∈ ll c → elems c !! i = Some kvi → elems c !! j = Some kvj →
  e_key kvi = e_key kvj → i = j.
Proof.
  intros Hwf Hi Hj Ei Ej Hk. destruct (wf_elem _ Hwf i Hi) as (? & ? & ?).
  destruct (wf_elem _ Hwf j Hj) as (? & ? & ?). naive_solver congruence.
Qed.

Lemma absr_unlink c i kv :
  wf c → i ∈ ll c → elems c !! i = Some kv →
  contents (elems c) (unlink i (ll c)) = remove_key (e_key kv) (absr c).
Proof.
  intros Hwf Hi Ei. apply contents_unlink; [done|]. intros j Hj.
  destruct (wf_elem _ Hwf j Hj) as (kvj & Ej & _). exists kvj. split; [done|].
  intros. by eapply wf_key_inj.
Qed.

Lemma absr_total_unlink c i kv :
  wf c → i ∈ ll c → elems c !! i = Some kv →
  nbytes c = int64 (size_of kv + total (contents (elems c) (unlink i (ll c)))).
Proof.
  intros Hwf Hi Ei. rewrite (wf_bytes _ Hwf). unfold absr.
  rewrite (unlink_perm i (ll c)) at 1 by (done || by apply wf_nodup).
  by rewrite (contents_cons _ _ _ _ Ei).
Qed.

Lemma absr_find c k :
  wf c → find_key k (absr c) = i ← cache c !! k; kv ← elems c !! i; Some (e_value kv).
Proof.
  intros Hwf. destruct (cache c !! k) as [i|] eqn:Ek; simpl.
  - destruct (wf_cache _ Hwf _ _ Ek) as (Hi & v & Ei). rewrite Ei. simpl.
    assert (∀ l, (∀ j, j ∈ l → j ∈ ll c) → i ∈ l → find_key k (contents (elems c) l) = Some v) as Hg.
    { induction l as [|j l IH]; intros Hl Hil; [set_solver|].
      destruct (wf_elem _ Hwf j) as (kvj & Ej & Cj); [set_solver|].
      rewrite (contents_cons _ _ _ _ Ej). simpl. case_decide as Hk.
      - subst k. assert (i = j) as -> by congruence. destruct kvj; simpl in *. congruence.
      - apply IH; [set_solver|]. apply elem_of_cons in Hil as [->|]; [|done].
        rewrite Ei in Ej. by simplify_eq/=. }
    by apply Hg.
  - assert (∀ l, (∀ j, j ∈ l → j ∈ ll c) → find_key k (contents (elems c) l) = None) as Hg; [|by apply Hg].
    induction l as [|j l IH]; intros Hl; [done|].
    destruct (wf_elem _ Hwf j) as (kvj & Ej & Cj); [set_solver|].
    rewrite (contents_cons _ _ _ _ Ej). simpl. rewrite decide_False by congruence. apply IH. set_solver.
Qed.

(** Taking an element out: list, map and byte count together keep the invariant. *)
Definition dropped c i kv : Cache V :=
  set_nbytes (int64 (nbytes c - (strlen (e_key kv) + Len (e_value kv))))
    (set_cache (delete (e_key kv) (cache c)) (set_ll (unlink i (ll c)) c)).
Lemma dropped_wf c i kv : wf c → i ∈ ll c → elems c !! i = Some kv → wf (dropped c i kv).
Proof.
  intros Hwf Hi Ei. pose proof (absr_total_unlink _ _ _ Hwf Hi Ei) as Hb. split; cbn.
  - by apply NoDup_unlink, wf_nodup.
  - intros j [Hne Hj]%elem_of_unlink. destruct (wf_elem _ Hwf j Hj) as (kvj & Ej & Cj).
    exists kvj. split; [done|]. rewrite lookup_delete_ne; [done|]. intros Hk.
    apply Hne. symmetry. by eapply wf_key_inj.
  - intros k j Hk. apply lookup_delete_Some in Hk as [Hne Hk].
    destruct (wf_cache _ Hwf _ _ Hk) as (Hj & v & Ej). split; [|eauto].
    apply elem_of_unlink. split; [|done]. intros ->. naive_solver.
  - unfold absr; cbn. rewrite Hb, <- Z.add_opp_r, int64_add_l. f_equal. unfold size_of. lia.
  - intros j [_ Hj]%elem_of_unlink. by apply wf_next.
Qed.
Lemma call_OnEvicted_wf c kv : wf c → wf (call_OnEvicted kv c).
Proof. intros [????]. unfold call_OnEvicted. by destruct (OnEvicted c). Qed.
Lemma call_OnEvicted_absr c kv : absr (call_OnEvicted kv c) = absr c.
Proof. unfold call_OnEvicted. by destruct (OnEvicted c). Qed.
Lemma call_OnEvicted_fields c kv :
  maxBytes (call_OnEvicted kv c) = maxBytes c ∧ OnEvicted (call_OnEvicted kv c) = OnEvicted c ∧
  ll (call_OnEvicted kv c) = ll c ∧
  evicted (call_OnEvicted kv c) = evicted c ++ (if OnEvicted c then [kv] else []).
Proof.
  unfold call_OnEvicted. destruct (OnEvicted c) eqn:E; split_and!; cbn; try done.
  by rewrite app_nil_r.
Qed.
#[local] Hint Resolve dropped_wf call_OnEvicted_wf : go_db.

Lemma RemoveOldest_step c l i :
  wf c → ll c = l ++ [i] →
  ∃ kv, elems c !! i = Some kv ∧ RemoveOldest c = (Ret tt, call_OnEvicted kv (dropped c i kv)) ∧
        absr c = absr (dropped c i kv) ++ [kv] ∧ ll (dropped c i kv) = l.
Proof.
  intros Hwf El. destruct (wf_elem _ Hwf i) as (kv & Ei & _); [rewrite El; set_solver|].
  assert (unlink i (ll c) = l) as Hu.
  { rewrite El. apply unlink_last. rewrite <- El. by apply wf_nodup. }
  exists kv. split_and!; [done| | |by cbn].
  - unfold RemoveOldest. rewrite El, last_snoc. unfold deref, goderef, mbind, GoM_bind; cbn.
    by rewrite Ei.
  - unfold absr; cbn. rewrite Hu, El, contents_app. f_equal. unfold contents; cbn. by rewrite Ei.
Qed.

(** The eviction loop drops entries from the back while the counter exceeds the limit, calling
    back for the evicted entries from the oldest on; one turn per element is enough. *)
Lemma evict_loop_step fuel c :
  wf c → 0 ≤ maxBytes c → (length (ll c) ≤ fuel)%nat →
  ∃ c', evict_loop fuel c = (Ret tt, c') ∧ wf c' ∧ absr c' = wtrim (maxBytes c) (absr c) ∧
        maxBytes c' = maxBytes c ∧ OnEvicted c' = OnEvicted c ∧
        evicted c' = evicted c ++
          (if OnEvicted c then reverse (drop (length (wtrim (maxBytes c) (absr c))) (absr c)) else []).
Proof.
  revert c; induction fuel as [|fuel IH]; intros c Hwf Hmax Hf.
  all: destruct (decide (maxBytes c ≠ 0 ∧ maxBytes c < nbytes c)) as [[Hz Hlt]|Hle].
  2,4: exists c; unfold evict_loop; rewrite decide_False by done; rewrite (wf_bytes _ Hwf) in Hle;
    assert (wtrim (maxBytes c) (absr c) = absr c) as ->
      by (destruct (absr c) as [|kv l _] using rev_ind; [apply wtrim_nil|by rewrite wtrim_snoc, decide_False]);
    split_and!; try done; rewrite drop_all; destruct (OnEvicted c); by rewrite app_nil_r.
  all: rewrite (wf_bytes _ Hwf) in Hlt; destruct (last (ll c)) as [i|] eqn:El;
    [apply last_Some in El as [l El]
    |apply last_None in El; unfold absr, contents in Hlt; rewrite El in Hlt; cbn in Hlt; rewrite int64_id in Hlt by (unfold in_int64, minInt, maxInt; lia); lia].
  { rewrite El, length_app in Hf. simpl in Hf. lia. }
  destruct (RemoveOldest_step c l i Hwf El) as (kv & Ei & Hr & Ha & Hl).
  assert (i ∈ ll c) as Hi by (rewrite El; set_solver).
  destruct (call_OnEvicted_fields (dropped c i kv) kv) as (Em & Eo & El' & Ev).
  destruct (IH (call_OnEvicted kv (dropped c i kv))) as (c' & He & Hwf' & Ha' & Hm & Ho & Hv).
  - auto with go_db.
  - by rewrite Em.
  - rewrite El' , Hl. rewrite El, length_app in Hf. simpl in Hf. lia.
  - rewrite Em, Eo, Ev, call_OnEvicted_absr in *. cbn in Hm, Ho, Ha', Hv.
    assert (wtrim (maxBytes c) (absr c) = wtrim (maxBytes c) (absr (dropped c i kv))) as Et.
    { rewrite Ha in Hlt |- *. by rewrite wtrim_snoc, decide_True. }
    exists c'. split_and!; [|done|congruence|done|done|].
    + cbn [evict_loop]. rewrite decide_True by (rewrite (wf_bytes _ Hwf); done).
      unfold mbind, GoM_bind. by rewrite Hr.
    + rewrite Hv, Et. destruct (OnEvicted c); [|by rewrite app_nil_r].
      rewrite Ha. rewrite <- app_assoc. f_equal.
      rewrite drop_app_le by apply prefix_length, wtrim_prefix. by rewrite reverse_app.
Qed.

(** A negative limit never ends the loop, if the counter does not wrap: no amount of fuel is
    enough. *)
Lemma evict_loop_negative fuel c :
  wf c → maxBytes c < 0 → total (absr c) ≤ maxInt → (evict_loop fuel c).1 = OutOfFuel.
Proof.
  revert c; induction fuel as [|fuel IH]; intros c Hwf Hm Hmax; cbn [evict_loop].
  all: pose proof (total_nonneg (absr c)) as Ht;
    rewrite (wf_bytes _ Hwf), int64_id by (unfold in_int64, minInt; lia); rewrite decide_True by lia.
  { done. }
  unfold mbind, GoM_bind. destruct (last (ll c)) as [i|] eqn:El.
  - apply last_Some in El as [l El]. destruct (RemoveOldest_step c l i Hwf El) as (kv & Ei & -> & Ha & _).
    apply IH; [|by destruct (call_OnEvicted_fields (dropped c i kv) kv) as (-> & _)|].
    + apply call_OnEvicted_wf, dropped_wf; [done| |done]. rewrite El. set_solver.
    + rewrite call_OnEvicted_absr. rewrite Ha, total_app in Hmax. cbn in Hmax. pose proof (size_of_nonneg kv). lia.
  - unfold RemoveOldest. rewrite El. by apply IH.
Qed.

(** *** The operations *)

(** Moving an element to the front. *)
Lemma MoveToFront_wf c i kv :
  wf c → i ∈ ll c → elems c !! i = Some kv →
  wf (MoveToFront i c) ∧ absr (MoveToFront i c) = kv :: remove_key (e_key kv) (absr c).
Proof.
  intros Hwf Hi Ei. unfold MoveToFront. rewrite decide_True by done.
  assert (absr (set_ll (i :: unlink i (ll c)) c) = kv :: remove_key (e_key kv) (absr c)) as Ha.
  { unfold absr at 1; cbn. rewrite (contents_cons _ _ _ _ Ei). f_equal. by apply absr_unlink. }
  split; [|done]. split; cbn.
  - constructor; [rewrite elem_of_unlink; naive_solver|by apply NoDup_unlink, wf_nodup].
  - intros j Hj. apply (wf_elem _ Hwf). rewrite elem_of_cons, elem_of_unlink in Hj. naive_solver.
  - intros k j Hk. destruct (wf_cache _ Hwf _ _ Hk) as (Hj & ?). split; [|done].
    rewrite elem_of_cons, elem_of_unlink. destruct (decide (j = i)); naive_solver.
  - rewrite Ha. cbn. rewrite <- (absr_unlink c i kv) by done. by apply absr_total_unlink.
  - intros j Hj. apply (wf_next _ Hwf). rewrite elem_of_cons, elem_of_unlink in Hj. naive_solver.
Qed.

Lemma Get_refines c key :
  wf c → ∃ c', Get key c = (Ret (get key (absr c)).1, c') ∧ wf c' ∧
               absr c' = (get key (absr c)).2 ∧ maxBytes c' = maxBytes c ∧ evicted c' = evicted c.
Proof.
  intros Hwf. unfold Get, get. rewrite (absr_find c key Hwf).
  destruct (cache c !! key) as [i|] eqn:Ek; cbn; [|by exists c].
  destruct (wf_cache _ Hwf _ _ Ek) as (Hi & v & Ei). rewrite Ei. cbn.
  destruct (MoveToFront_wf c i _ Hwf Hi Ei) as [Hwf' Ha']. exists (MoveToFront i c).
  unfold mbind, GoM_bind, gomodify, deref, goderef; cbn.
  assert (elems (MoveToFront i c) = elems c) as -> by (unfold MoveToFront; by case_decide).
  rewrite Ei. split_and!; [done..| |]; unfold MoveToFront; by case_decide.
Qed.

(** The part of [Add] before the eviction loop puts the entry in front. *)
Definition inserted c key value : Cache V :=
  match cache c !! key with
  | Some ele =>
      match elems c !! ele with
      | Some kv =>
          set_elem ele (mkEntry (e_key kv) value)
            (set_nbytes (int64 (nbytes c + (Len value - Len (e_value kv)))) (MoveToFront ele c))
      | None => c
      end
  | None =>
      let '(ele, c1) := PushFront (mkEntry key value) c in
      set_nbytes (int64 (nbytes c1 + (strlen key + Len value))) (set_cache (<[key := ele]> (cache c1)) c1)
  end.

Lemma Add_fuel_inserted fuel key value c :
  wf c → Add_fuel fuel key value c = evict_loop fuel (inserted c key value).
Proof.
  intros Hwf. unfold Add_fuel, inserted, mbind, GoM_bind.
  destruct (cache c !! key) as [i|] eqn:Ek; [|done].
  destruct (wf_cache _ Hwf _ _ Ek) as (Hi & v & Ei). unfold gomodify, deref, goderef; cbn.
  assert (elems (MoveToFront i c) = elems c) as Ee by (unfold MoveToFront; by case_decide).
  assert (nbytes (MoveToFront i c) = nbytes c) as En by (unfold MoveToFront; by case_decide).
  by rewrite Ee, Ei, En.
Qed.

(** Overwriting the value of the front element. *)
Lemma set_front_wf c i l k v v' :
  wf c → ll c = i :: l → elems c !! i = Some (mkEntry k v) →
  let c' := set_elem i (mkEntry k v') (set_nbytes (int64 (nbytes c + (Len v' - Len v))) c) in
  wf c' ∧ absr c' = mkEntry k v' :: contents (elems c) l.
Proof.
  intros Hwf El Ei c'. pose proof (wf_nodup _ Hwf) as Hn. rewrite El in Hn.
  apply NoDup_cons in Hn as [Hil Hn].
  assert (absr c' = mkEntry k v' :: contents (elems c) l) as Ha.
  { unfold absr; cbn. rewrite El. rewrite (contents_cons _ _ _ (mkEntry k v')) by apply lookup_insert_eq.
    f_equal. by apply contents_insert. }
  split; [|done]. split; cbn.
  - rewrite El. by constructor.
  - intros j Hj. destruct (wf_elem _ Hwf j Hj) as (kvj & Ej & Cj).
    destruct (decide (j = i)) as [->|]; [|rewrite lookup_insert_ne by done; eauto].
    rewrite lookup_insert_eq. simplify_eq. eauto.
  - intros k' j Hk. destruct (wf_cache _ Hwf _ _ Hk) as (Hj & w & Ej). split; [done|].
    destruct (decide (j = i)) as [->|]; [|rewrite lookup_insert_ne by done; eauto].
    rewrite lookup_insert_eq. simplify_eq. eauto.
  - change (absr _) with (absr c'). rewrite Ha, (wf_bytes _ Hwf). unfold absr. rewrite El.
    rewrite (contents_cons _ _ _ _ Ei). cbn. rewrite int64_add_l. f_equal. unfold size_of; cbn. lia.
  - intros j Hj. by apply (wf_next _ Hwf).
Qed.

Lemma remove_key_absent key (l : list (entry V)) :
  (∀ kv, kv ∈ l → e_key kv ≠ key) → remove_key key l = l.
Proof. apply filter_all. Qed.
Lemma absr_elem c kv : wf c → kv ∈ absr c → ∃ i, i ∈ ll c ∧ elems c !! i = Some kv ∧ cache c !! e_key kv = Some i.
Proof.
  intros Hwf Hkv. unfold absr, contents in Hkv. apply list_elem_of_omap in Hkv as (i & Hi & Ei).
  destruct (wf_elem _ Hwf i Hi) as (kv' & Ei' & Ci). naive_solver.
Qed.

Lemma inserted_spec c key value :
  wf c →
  wf (inserted c key value) ∧
  absr (inserted c key value) = mkEntry key value :: remove_key key (absr c) ∧
  maxBytes (inserted c key value) = maxBytes c ∧ OnEvicted (inserted c key value) = OnEvicted c ∧
  evicted (inserted c key value) = evicted c ∧
  (length (ll (inserted c key value)) ≤ S (length (ll c)))%nat.
Proof.
  intros Hwf. unfold inserted. destruct (cache c !! key) as [i|] eqn:Ek.
  - destruct (wf_cache _ Hwf _ _ Ek) as (Hi & v & Ei). rewrite Ei. cbn [e_key e_value].
    destruct (MoveToFront_wf c i _ Hwf Hi Ei) as [Hwf' Ha'].
    unfold MoveToFront in *. rewrite decide_True in * by done. cbn in Ha'.
    destruct (set_front_wf _ i (unlink i (ll c)) key v value Hwf' eq_refl Ei) as [Hw Hab].
    cbn in Hw, Hab. split_and!; [done| |done..|].
    + rewrite Hab. f_equal. by apply (absr_unlink c i (mkEntry key v)).
    + cbn. pose proof (length_filter (λ j, j ≠ i) (ll c)). unfold unlink. lia.
  - cbn. assert (nextElem c ∉ ll c) as Hfresh by (intros Hin%(wf_next _ Hwf); lia).
    rewrite remove_key_absent.
    2:{ intros kv (i & _ & _ & Ci)%absr_elem <-; [|done]. congruence. }
    set (c' := set_nbytes _ _).
    assert (absr c' = mkEntry key value :: absr c) as Ha.
    { unfold absr; cbn. rewrite (contents_cons _ _ _ (mkEntry key value)) by apply lookup_insert_eq.
      f_equal. by apply contents_insert. }
    split_and!; [|done..|by cbn]. split; cbn.
    + constructor; [done|by apply wf_nodup].
    + intros j [->|Hj]%elem_of_cons.
      { exists (mkEntry key value). by rewrite !lookup_insert_eq. }
      destruct (wf_elem _ Hwf j Hj) as (kvj & Ej & Cj). exists kvj.
      rewrite lookup_insert_ne by set_solver. split; [done|]. rewrite lookup_insert_ne; [done|congruence].
    + intros k j [[-> ->]|[Hne Hk]]%lookup_insert_Some.
      { rewrite lookup_insert_eq. split; [set_solver|eauto]. }
      destruct (wf_cache _ Hwf _ _ Hk) as (Hj & ?). rewrite lookup_insert_ne by set_solver. set_solver.
    + change (absr _) with (absr c'). rewrite Ha, (wf_bytes _ Hwf), int64_add_l. cbn. f_equal. unfold size_of; cbn. lia.
    + intros j [->|Hj%(wf_next _ Hwf)]%elem_of_cons; lia.
Qed.

Lemma Remove_refines c key :
  wf c → ∃ c', Remove key c = (Ret (remove key (absr c)).1, c') ∧ wf c' ∧
               absr c' = (remove key (absr c)).2 ∧ maxBytes c' = maxBytes c.
Proof.
  intros Hwf. unfold Remove, remove. rewrite (absr_find c key Hwf).
  destruct (cache c !! key) as [i|] eqn:Ek; cbn; [|by exists c].
  destruct (wf_cache _ Hwf _ _ Ek) as (Hi & v & Ei).
  exists (call_OnEvicted (mkEntry key v) (dropped c i (mkEntry key v))).
  unfold mbind, GoM_bind, gomodify, deref, goderef; cbn. rewrite Ei; cbn.
  destruct (call_OnEvicted_fields (dropped c i (mkEntry key v)) (mkEntry key v)) as (-> & _).
  rewrite call_OnEvicted_absr. split_and!; [done|auto with go_db| |done].
  by apply (absr_unlink c i (mkEntry key v)).
Qed.
Lemma Add_spec c key value :
  wf c → 0 ≤ maxBytes c →
  ∃ c', Add key value c = (Ret tt, c') ∧ wf c' ∧
        absr c' = wtrim (maxBytes c) (mkEntry key value :: remove_key key (absr c)) ∧
        maxBytes c' = maxBytes c ∧
        evicted c' = evicted c ++
          (if OnEvicted c then
             reverse (drop (length (absr c')) (mkEntry key value :: remove_key key (absr c)))
           else []).
Proof.
  intros Hwf Hmax. destruct (inserted_spec c key value Hwf) as (Hw & Ha & Hm & Ho & He & Hl).
  destruct (evict_loop_step (S (length (ll c))) (inserted c key value)) as (c' & Hr & H1 & H2 & H3 & H4 & H5);
    [done|lia|done|].
  exists c'. unfold Add. rewrite Add_fuel_inserted by done. rewrite Hm, Ha in H2.
  rewrite Ho, He, Hm, Ha, <- H2 in H5. split_and!; [done..|congruence|done].
Qed.
End refine.

(** ** Properties *)
Module LruProps.
Section props.
Context {V : Type} `{Value V, !ValueLaws V}.

(** C9: refinement and termination of [Add].  On every well-formed cache with a limit that is
    not negative, [Add] returns (its eviction loop ends), keeps the cache well formed, and its
    contents are the new entry in front of the other keys, cut off at the back while the 64-bit
    byte counter exceeds the limit; the callback has been called exactly for the entries cut
    off, least recently used first.  As long as the sizes add up to no more than the largest
    [int64], this is the abstract cache: the longest prefix of the recency order whose bytes
    fit the limit. *)
Theorem Add_refines (c : Cache V) (key : string) (value : V) :
  wf c → 0 ≤ maxBytes c →
  let l := mkEntry key value :: remove_key key (absr c) in
  ∃ c', Add key value c = (Ret tt, c') ∧ wf c' ∧
        absr c' = wtrim (maxBytes c) l ∧
        (total l ≤ maxInt → absr c' = LruSpec.add (maxBytes c) key value (absr c)) ∧
        maxBytes c' = maxBytes c ∧
        evicted c' = evicted c ++ (if OnEvicted c then reverse (drop (length (absr c')) l) else []).
Proof.
  intros Hwf Hmax l. destruct (Add_spec c key value Hwf Hmax) as (c' & Hr & Hw & Ha & Hm & He).
  exists c'. split_and!; [done..| |done|done]. intros Ht. rewrite Ha. by apply wtrim_trim.
Qed.

(** C25: the limit holds.  After [Add] on a cache with a positive limit, if the sizes of the entries
    before eviction add up to no more than the largest [int64], the byte counter is the total
    size of the entries held and does not exceed the limit. *)
Theorem Add_within_limit (c c' : Cache V) (key : string) (value : V) :
  wf c → 0 < maxBytes c → total (mkEntry key value :: remove_key key (absr c)) ≤ maxInt →
  Add key value c = (Ret tt, c') →
  nbytes c' = total (absr c') ∧ nbytes c' ≤ maxBytes c'.
Proof.
  intros Hwf Hmax Ht Ha. destruct (Add_spec c key value Hwf) as (c'' & Hr & H1 & H2 & H3 & _); [lia|].
  rewrite Hr in Ha. simplify_eq. rewrite wtrim_trim in H2 by (done || lia).
  assert (total (absr c') ≤ maxBytes c') as Hle.
  { rewrite H2, H3. unfold trim. rewrite decide_False by lia. apply fit_total. lia. }
  assert (total (absr c') ≤ maxInt) as Hi.
  { destruct (trim_prefix (maxBytes c) (mkEntry key value :: remove_key key (absr c))) as [l' Hl'].
    rewrite <- H2 in Hl'. rewrite Hl', total_app in Ht. pose proof (total_nonneg l'). lia. }
  rewrite (wf_bytes _ H1), int64_id; [done|]. pose proof (total_nonneg (absr c')). unfold in_int64, minInt. lia.
Qed.

(** Also: a counter that wraps stops evicting.  When the sizes add up to more than the largest
    [int64] but less than twice as much, the counter is negative and [Add] evicts nothing: the
    cache holds more bytes than any limit allows. *)
Theorem Add_wraps (c : Cache V) (key : string) (value : V) :
  wf c → 0 ≤ maxBytes c →
  let l := mkEntry key value :: remove_key key (absr c) in
  maxInt < total l ≤ 2 * maxInt + 1 →
  ∃ c', Add key value c = (Ret tt, c') ∧ absr c' = l ∧ nbytes c' < 0.
Proof.
  intros Hwf Hmax l Ht. assert (int64 (total l) = total l - 18446744073709551616) as Hi.
  { unfold int64, minInt, maxInt in *.
    rewrite <- (Z_mod_plus_full (total l - _) (-1)), Z.mod_small; lia. }
  assert (int64 (total l) < 0) as Hneg by (rewrite Hi; unfold maxInt in Ht; lia).
  destruct (Add_spec c key value Hwf Hmax) as (c' & Hr & Hw & Ha & _).
  assert (absr c' = l) as Hl.
  { rewrite Ha. fold l. destruct l as [|kv l' _] using rev_ind; [apply wtrim_nil|].
    rewrite wtrim_snoc, decide_False; [done|]. lia. }
  exists c'. split_and!; [done..|]. by rewrite (wf_bytes _ Hw), Hl.
Qed.

(** Also: a negative limit makes [Add] loop forever: from any well-formed cache whose sizes add up
    to no more than the largest [int64], no number of turns of the eviction loop is enough. *)
Theorem Add_negative_limit_diverges (fuel : nat) (c : Cache V) (key : string) (value : V) :
  wf c → maxBytes c < 0 → total (mkEntry key value :: remove_key key (absr c)) ≤ maxInt →
  (Add_fuel fuel key value c).1 = OutOfFuel.
Proof.
  intros Hwf Hmax Ht. destruct (inserted_spec c key value Hwf) as (Hw & Ha & Hm & _).
  rewrite Add_fuel_inserted by done. apply evict_loop_negative; [done|lia|by rewrite Ha].
Qed.

(** Also: refinement of [Get] and [Remove].  [Get] returns the abstract lookup and moves the key
    to the front; [Remove] reports whether the key was present and drops it; both keep the
    representation invariant. *)
Theorem Get_Remove_refine (c : Cache V) (key : string) :
  wf c →
  (∃ c', Get key c = (Ret (LruSpec.get key (absr c)).1, c') ∧ wf c' ∧
         absr c' = (LruSpec.get key (absr c)).2 ∧ maxBytes c' = maxBytes c ∧ evicted c' = evicted c) ∧
  (∃ c', Remove key c = (Ret (LruSpec.remove key (absr c)).1, c') ∧ wf c' ∧
         absr c' = (LruSpec.remove key (absr c)).2 ∧ maxBytes c' = maxBytes c).
Proof. intros. split; [by apply Get_refines|by apply Remove_refines]. Qed.

End props.
End LruProps.

(** The [String] values of [lru_test.go]. *)
#[global] Instance string_Value : Value string := strlen.
#[global] Instance string_ValueLaws : ValueLaws string := strlen_nonneg.

Module LruWitness.
Import LruProps.

(** The scenario of [TestOnEvicted]: limit 10, four insertions, the first two keys evicted. *)
Definition test_cache : Cache string :=
  snd ((_ ← Add "key1" "123456"; _ ← Add "k2" "k2"; _ ← Add "k3" "k3"; Add "k4" "k4")
    (New 10 true : Cache string)).
Example TestOnEvicted : e_key <$> evicted test_cache = ["key1"; "k2"].
Proof. vm_compute. reflexivity. Qed.

Lemma Add_refines_witness :
  ∃ c', Add "key1" "123456" (New 10 true : Cache string) = (Ret tt, c') ∧ wf c' ∧
        absr c' = LruSpec.add 10 "key1" "123456" [] ∧
        evicted c' = [] ++ reverse (drop (length (absr c')) [mkEntry "key1" "123456"]).
Proof.
  destruct (Add_refines (New 10 true : Cache string) "key1" "123456") as (c' & H1 & H2 & _ & H3 & _ & H4);
    [apply Lru_wf_New|cbn; lia|].
  exists c'. split_and!; [exact H1|exact H2|apply H3; vm_compute; discriminate|exact H4].
Defined.

Lemma Add_within_limit_witness :
  ∃ c', Add "key1" "123456" (New 10 true) = (Ret tt, c') ∧
        nbytes c' = total (absr c') ∧ nbytes c' ≤ maxBytes c'.
Proof.
  eexists. split; [vm_compute; reflexivity|].
  apply (Add_within_limit (New 10 true) _ "key1" "123456");
    [apply Lru_wf_New|cbn; lia|vm_compute; discriminate|vm_compute; reflexivity].
Defined.

(** A value that claims the largest length a Go [int] can hold. *)
Record huge : Type := mkHuge { hugeLen : Z; hugeLen_nonneg : bool_decide (0 ≤ hugeLen) }.
#[global] Instance huge_Value : Value huge := hugeLen.
#[global] Instance huge_ValueLaws : ValueLaws huge.
Proof. intros [n Hn]. exact (bool_decide_unpack _ Hn). Qed.
Lemma Add_wraps_witness :
  ∃ c', Add "k" (mkHuge maxInt I) (New 10 false) = (Ret tt, c') ∧ absr c' = [mkEntry "k" (mkHuge maxInt I)] ∧ nbytes c' < 0.
Proof.
  apply (Add_wraps (New 10 false : Cache huge) "k" (mkHuge maxInt I)); [apply Lru_wf_New|cbn; lia|].
  vm_compute. split; [reflexivity|discriminate].
Defined.

Lemma Add_negative_limit_diverges_witness :
  wf (New (-1) false : Cache string) ∧ -1 < 0 ∧
  (Add_fuel 1000 "k" "v" (New (-1) false)).1 = OutOfFuel.
Proof.
  split_and!; [apply Lru_wf_New|lia|].
  apply (Add_negative_limit_diverges 1000 (New (-1) false) "k" "v"); [apply Lru_wf_New|cbn; lia|vm_compute; discriminate].
Defined.

Lemma Get_Remove_refine_witness :
  wf (New 10 true : Cache string) ∧
  ∃ c', Get "key1" (New 10 true : Cache string) = (Ret None, c') ∧ wf c' ∧ absr c' = [] ∧
        maxBytes c' = 10 ∧ evicted c' = [].
Proof.
  split; [apply Lru_wf_New|].
  apply (Get_Remove_refine (New 10 true : Cache string) "key1"). apply Lru_wf_New.
Defined.
End LruWitness.
