(* ===== verification/ConsistentHash.v ===== *)
(** * The consistent-hash ring

    [cache/consistenthash/consistenthash.go]: virtual-node hashes kept sorted in [keys], and the
    real node of each hash in [hashMap].  The theorems characterise the owner of a key as the
    clockwise successor of its hash and show that adding or removing a node moves only the keys
    that must move. *)
From S2P Require Import Prelude GoStrings.

(** [hash/crc32.ChecksumIEEE]: the reflected CRC-32 with polynomial 0xEDB88320. *)
Definition crc_step (crc : Z) : Z :=
  if Z.testbit crc 0 then Z.lxor (Z.shiftr crc 1) 0xEDB88320 else Z.shiftr crc 1.
Definition crc_byte (crc : Z) (b : ascii) : Z :=
  Nat.iter 8 crc_step (Z.lxor crc (Z.of_nat (nat_of_ascii b))).
Fixpoint crc_loop (crc : Z) (s : string) : Z :=
  match s with EmptyString => crc | String b s' => crc_loop (crc_byte crc b) s' end.
Definition ChecksumIEEE (data : string) : Z := Z.lxor (crc_loop 0xFFFFFFFF data) 0xFFFFFFFF.
Example crc32_check : ChecksumIEEE "123456789" = 0xCBF43926.
Proof. vm_compute. reflexivity. Qed.

Module CH.

(** [type Hash func(data []byte) uint32] *)
Definition Hash : Type := string → Z.

Record Map : Type := mkMap {
  hash : Hash;
  replicas : Z;
  keys : list Z;
  hashMap : gmap Z string }.

Definition New (reps : Z) (fn : option Hash) : Map :=
  mkMap (default ChecksumIEEE fn) reps [] ∅.

(** The virtual-node hashes of one real node, in insertion order. *)
Definition vnode (m : Map) (key : string) (i : Z) : Z := hash m (Itoa i +:+ key).
Definition add_vnode (key : string) (m : Map) (i : Z) : Map :=
  mkMap (hash m) (replicas m) (keys m ++ [vnode m key i]) (<[vnode m key i := key]> (hashMap m)).
Definition add_node (m : Map) (key : string) : Map :=
  foldl (add_vnode key) m (seqZ 0 (replicas m)).
Definition Add (nodes : list string) (m : Map) : Map :=
  let m' := foldl add_node m nodes in
  mkMap (hash m') (replicas m') (sort_Ints (keys m')) (hashMap m').

(** [m.hashMap[h]]: a missing entry reads as the empty string. *)
Definition hashMap_at (m : Map) (h : Z) : string := default "" (hashMap m !! h).
Definition key_at (m : Map) (i : nat) : Z := default 0 (keys m !! i).

Definition search (m : Map) (h : Z) : nat :=
  sort_Search (length (keys m)) (λ i, bool_decide (h ≤ key_at m i)).

Definition Get (key : string) (m : Map) : string :=
  if decide (length (keys m) = 0)%nat then ""
  else
    let h := hash m key in
    let idx := search m h in
    hashMap_at m (key_at m (idx mod length (keys m))%nat).

(** [for i := 0; i < len(m.keys) && len(result) < n; i++]; [fuel] is [len(m.keys) - i]. *)
Fixpoint GetN_loop (m : Map) (idx : nat) (n : Z) (fuel i : nat) (result : list string)
    (seen : gset string) : list string :=
  match fuel with
  | O => result
  | S fuel' =>
      if decide (Z.of_nat (length result) < n) then
        let addr := hashMap_at m (key_at m ((idx + i) mod length (keys m))%nat) in
        if decide (addr ∈ seen) then GetN_loop m idx n fuel' (S i) result seen
        else GetN_loop m idx n fuel' (S i) (result ++ [addr]) ({[addr]} ∪ seen)
      else result
  end.

(** A negative [n] makes the allocation of the result panic. *)
Definition GetN (key : string) (n : Z) (m : Map) : outcome (list string) :=
  if decide (length (keys m) = 0)%nat then Ret []
  else
    let h := hash m key in
    let idx := search m h in
    if decide (n < 0) then Panic "makeslice: cap out of range"
    else Ret (GetN_loop m idx n (length (keys m)) 0 [] ∅).

Definition Remove (addr : string) (m : Map) : Map :=
  mkMap (hash m) (replicas m)
    (filter (λ h, hashMap_at m h ≠ addr) (keys m))
    (filter (λ p, p.2 ≠ addr) (hashMap m)).

(** ** The ring invariant *)
Record wf (m : Map) : Prop := mkWf {
  wf_sorted : StronglySorted Z.le (keys m);
  wf_dom h : h ∈ keys m ↔ is_Some (hashMap m !! h) }.

Lemma wf_New reps fn : wf (New reps fn).
Proof.
  split; cbn; [constructor|]. intros h. rewrite lookup_empty. split; [set_solver|intros [? ?]; done].
Qed.

(** Insertion of virtual nodes, as maps and as sets of points. *)
Lemma add_vnode_fields key js m :
  let m' := foldl (add_vnode key) m js in
  hash m' = hash m ∧ replicas m' = replicas m ∧
  (∀ h, h ∈ keys m' ↔ h ∈ keys m ∨ ∃ i, i ∈ js ∧ h = vnode m key i) ∧
  (∀ h, hashMap m' !! h =
        if decide (h ∈ (vnode m key <$> js)) then Some key else hashMap m !! h).
Proof.
  revert m; induction js as [|i js IH]; intros m; cbn [foldl].
  { split_and!; [done..| |]; intros h; [set_solver|]. by rewrite decide_False by set_solver. }
  destruct (IH (add_vnode key m i)) as (H1 & H2 & H3 & H4). split_and!; [done..| |].
  - intros h. rewrite H3. cbn. set_solver.
  - intros h. rewrite H4. cbn. change (vnode (add_vnode key m i) key) with (vnode m key).
    destruct (decide (h ∈ vnode m key <$> js)); [by rewrite decide_True by set_solver|].
    destruct (decide (h = vnode m key i)) as [->|].
    + by rewrite lookup_insert_eq, decide_True by set_solver.
    + by rewrite lookup_insert_ne, decide_False by set_solver.
Qed.

Definition points (m : Map) (key : string) : list Z := vnode m key <$> seqZ 0 (replicas m).

Lemma add_node_fields m key :
  let m' := add_node m key in
  hash m' = hash m ∧ replicas m' = replicas m ∧
  (∀ h, h ∈ keys m' ↔ h ∈ keys m ∨ h ∈ points m key) ∧
  (∀ h, hashMap m' !! h = if decide (h ∈ points m key) then Some key else hashMap m !! h).
Proof.
  destruct (add_vnode_fields key (seqZ 0 (replicas m)) m) as (H1 & H2 & H3 & H4).
  split_and!; [done..| |done]. intros h. fold (add_node m key) in H3. rewrite H3.
  unfold points. rewrite list_elem_of_fmap. naive_solver.
Qed.

(** Domain and key list agree through every unsorted insertion. *)
Lemma add_nodes_dom nodes m :
  (∀ h, h ∈ keys m ↔ is_Some (hashMap m !! h)) →
  ∀ h, h ∈ keys (foldl add_node m nodes) ↔ is_Some (hashMap (foldl add_node m nodes) !! h).
Proof.
  revert m; induction nodes as [|a nodes IH]; intros m Hm; [done|]. cbn [foldl]. apply IH.
  destruct (add_node_fields m a) as (_ & _ & H3 & H4). intros h. rewrite H3, H4, Hm.
  case_decide; naive_solver.
Qed.
Lemma Add_wf nodes m : wf m → wf (Add nodes m).
Proof.
  intros [Hs Hd]. split; cbn; [apply sort_Ints_sorted|]. intros h.
  rewrite sort_Ints_perm. by apply add_nodes_dom.
Qed.

Lemma StronglySorted_filter {A} (R : relation A) (P : A → Prop) `{∀ x, Decision (P x)} l :
  StronglySorted R l → StronglySorted R (filter P l).
Proof.
  induction 1 as [|x l Hl IH Hx]; [constructor|]. rewrite filter_cons. case_decide; [|done].
  constructor; [done|]. apply Forall_forall. intros y [_ Hy]%list_elem_of_filter.
  rewrite Forall_forall in Hx. auto.
Qed.
Lemma Remove_lookup addr m h :
  hashMap (Remove addr m) !! h = Some addr → False.
Proof. cbn. intros [_ Hne]%map_lookup_filter_Some. done. Qed.
Lemma Remove_wf addr m : wf m → wf (Remove addr m).
Proof.
  intros [Hs Hd]. split; cbn; [by apply StronglySorted_filter|]. intros h.
  rewrite list_elem_of_filter. unfold hashMap_at. split.
  - intros [Hne [a Ha]%Hd]. exists a. apply map_lookup_filter_Some. rewrite Ha in Hne. done.
  - intros [a [Ha Hne]%map_lookup_filter_Some]. rewrite Ha. split; [done|]. apply Hd. eauto.
Qed.
#[export] Hint Resolve wf_New Add_wf Remove_wf : go_db.

(** ** The owner of a hash: its clockwise successor on the ring *)
Definition owner_point (ks : list Z) (h p : Z) : Prop :=
  p ∈ ks ∧ ((h ≤ p ∧ ∀ q, q ∈ ks → h ≤ q → p ≤ q) ∨
            ((∀ q, q ∈ ks → q < h) ∧ ∀ q, q ∈ ks → p ≤ q)).

Lemma owner_point_unique ks h p q : owner_point ks h p → owner_point ks h q → p = q.
Proof.
  intros [Hp [[Hp1 Hp2]|[Hp1 Hp2]]] [Hq [[Hq1 Hq2]|[Hq1 Hq2]]].
  - specialize (Hp2 q Hq Hq1). specialize (Hq2 p Hp Hp1). lia.
  - specialize (Hq1 p Hp). lia.
  - specialize (Hp1 q Hq). lia.
  - specialize (Hp2 q Hq). specialize (Hq2 p Hp). lia.
Qed.

(** Fewer points: an owner that stays on the ring stays the owner. *)
Lemma owner_point_mono ks ks' h p :
  (∀ q, q ∈ ks' → q ∈ ks) → p ∈ ks' → owner_point ks h p → owner_point ks' h p.
Proof. intros Hsub Hp [_ [[H1 H2]|[H1 H2]]]; split; [done| |done|]; [left|right]; naive_solver. Qed.

Lemma sorted_key_at m i j :
  StronglySorted Z.le (keys m) → (i ≤ j < length (keys m))%nat → key_at m i ≤ key_at m j.
Proof.
  unfold key_at. generalize (keys m). intros ks Hs. revert i j.
  induction Hs as [|x ks Hs IH Hx]; intros i j Hij; simpl in *; [lia|].
  rewrite Forall_forall in Hx.
  destruct i as [|i], j as [|j]; simpl; [lia| |lia|apply IH; lia].
  destruct (ks !! j) as [y|] eqn:Ey; [apply Hx; by eapply list_elem_of_lookup_2|].
  apply lookup_ge_None in Ey. lia.
Qed.
Lemma key_at_elem m i : (i < length (keys m))%nat → key_at m i ∈ keys m.
Proof.
  intros Hi. unfold key_at. destruct (lookup_lt_is_Some_2 _ _ Hi) as [x Hx]. rewrite Hx.
  by eapply list_elem_of_lookup_2.
Qed.
Lemma elem_key_at m x : x ∈ keys m → ∃ i, (i < length (keys m))%nat ∧ key_at m i = x.
Proof.
  intros [i Hi]%list_elem_of_lookup_1. exists i. split; [by eapply lookup_lt_Some|].
  unfold key_at. by rewrite Hi.
Qed.

(** The index [sort.Search] finds, taken modulo the ring size, is the owner point. *)
Lemma search_owner m h :
  wf m → keys m ≠ [] →
  owner_point (keys m) h (key_at m (search m h mod length (keys m))%nat).
Proof.
  intros Hwf Hne. assert (0 < length (keys m))%nat as Hlen by (destruct (keys m); simpl; done || lia).
  destruct (sort_Search_spec (length (keys m)) (λ i, bool_decide (h ≤ key_at m i))) as (H1 & H2 & H3).
  { intros a b Hab Hb. rewrite !bool_decide_eq_true.
    pose proof (sorted_key_at m a b (wf_sorted _ Hwf)). lia. }
  fold (search m h) in *. split; [apply key_at_elem, Nat.mod_upper_bound; lia|].
  destruct (decide (search m h < length (keys m))%nat) as [Hlt|Hge].
  - left. rewrite Nat.mod_small by done. specialize (H3 Hlt). apply bool_decide_eq_true in H3.
    split; [done|]. intros q (j & Hj & <-)%elem_key_at Hq.
    destruct (decide (j < search m h)%nat) as [Hjs|].
    + specialize (H2 j Hjs). apply bool_decide_eq_false in H2. lia.
    + apply sorted_key_at; [by apply wf_sorted|lia].
  - right. assert (search m h = length (keys m)) as E by lia.
    rewrite E, Nat.Div0.mod_same. split; intros q (j & Hj & <-)%elem_key_at.
    + specialize (H2 j ltac:(lia)). apply bool_decide_eq_false in H2. lia.
    + apply sorted_key_at; [by apply wf_sorted|lia].
Qed.

Lemma Get_owner m key :
  wf m → keys m ≠ [] →
  ∃ p, owner_point (keys m) (hash m key) p ∧ hashMap m !! p = Some (Get key m).
Proof.
  intros Hwf Hne. pose proof (search_owner m (hash m key) Hwf Hne) as Ho. eexists. split; [exact Ho|].
  unfold Get. rewrite decide_False by (by destruct (keys m)). unfold hashMap_at.
  destruct Ho as [Hin _]. apply (wf_dom _ Hwf) in Hin as [a ->]. done.
Qed.
Lemma Get_eq m key p a :
  wf m → owner_point (keys m) (hash m key) p → hashMap m !! p = Some a → Get key m = a.
Proof.
  intros Hwf Hp Ha. assert (keys m ≠ []) as Hne by (destruct Hp as [Hin _]; intros E; rewrite E in Hin; by apply not_elem_of_nil in Hin).
  destruct (Get_owner m key Hwf Hne) as (q & Hq & Hg). rewrite (owner_point_unique _ _ _ _ Hp Hq) in Ha.
  congruence.
Qed.
Lemma Get_empty m key : keys m = [] → Get key m = "".
Proof. intros E. unfold Get. by rewrite E. Qed.

End CH.

(** ** The clockwise walk of [GetN] *)
Module Walk.
Import CH.

Fixpoint first_occ (seen : gset string) (l : list string) : list string :=
  match l with
  | [] => []
  | a :: l' => if decide (a ∈ seen) then first_occ seen l' else a :: first_occ ({[a]} ∪ seen) l'
  end.
Definition addr_at (m : Map) (idx i : nat) : string :=
  hashMap_at m (key_at m ((idx + i) mod length (keys m))%nat).
Definition walk (m : Map) (idx : nat) : list string := addr_at m idx <$> seq 0 (length (keys m)).

Lemma first_occ_elem seen l a : a ∈ first_occ seen l ↔ a ∈ l ∧ a ∉ seen.
Proof.
  revert seen; induction l as [|b l IH]; intros seen; simpl; [set_solver|].
  case_decide; [rewrite IH; set_solver|]. rewrite elem_of_cons, IH.
  destruct (decide (a = b)); set_solver.
Qed.
Lemma first_occ_NoDup seen l : NoDup (first_occ seen l).
Proof.
  revert seen; induction l as [|b l IH]; intros seen; simpl; [constructor|].
  case_decide; [done|]. constructor; [|done]. rewrite first_occ_elem. set_solver.
Qed.

Lemma GetN_loop_walk m idx n fuel i result seen :
  Z.of_nat (length result) ≤ n →
  GetN_loop m idx n fuel i result seen =
    result ++ take (Z.to_nat n - length result) (first_occ seen (addr_at m idx <$> seq i fuel)).
Proof.
  revert i result seen; induction fuel as [|fuel IH]; intros i result seen Hn; simpl.
  { by rewrite take_nil, app_nil_r. }
  fold (addr_at m idx i). case_decide as Hlt.
  - case_decide; [by apply IH|]. rewrite IH by (rewrite length_app; simpl; lia).
    rewrite length_app, <- app_assoc. f_equal. simpl.
    replace (Z.to_nat n - length result)%nat with (S (Z.to_nat n - (length result + 1)))%nat by lia.
    done.
  - replace (Z.to_nat n - length result)%nat with 0%nat by lia. by rewrite take_0, app_nil_r.
Qed.

(** Every index of the ring is visited exactly as the offset runs once around. *)
Lemma rotation_covers len idx j : (j < len)%nat → ∃ i, (i < len)%nat ∧ ((idx + i) mod len = j)%nat.
Proof.
  intros Hj. exists ((j + (len - idx mod len)) mod len)%nat.
  split; [apply Nat.mod_upper_bound; lia|].
  rewrite Nat.Div0.add_mod_idemp_r.
  pose proof (Nat.div_mod_eq idx len). pose proof (Nat.mod_upper_bound idx len ltac:(lia)).
  replace (idx + (j + (len - idx mod len)))%nat with (j + (idx / len + 1) * len)%nat by nia.
  rewrite Nat.Div0.mod_add. by apply Nat.mod_small.
Qed.

Lemma walk_elem m idx a : wf m → a ∈ walk m idx ↔ a ∈ (map_img (hashMap m) : gset string).
Proof.
  intros Hwf. rewrite elem_of_map_img. unfold walk. rewrite list_elem_of_fmap. split.
  - intros (i & -> & Hi). rewrite elem_of_seq in Hi. unfold addr_at, hashMap_at.
    assert (key_at m ((idx + i) mod length (keys m)) ∈ keys m) as Hk
      by (apply key_at_elem, Nat.mod_upper_bound; lia).
    apply (wf_dom _ Hwf) in Hk as [b Hb]. rewrite Hb. eauto.
  - intros (h & Hh). assert (h ∈ keys m) as (j & Hj & <-)%elem_key_at by (apply (wf_dom _ Hwf); eauto).
    destruct (rotation_covers (length (keys m)) idx j Hj) as (i & Hi & Hm).
    exists i. rewrite elem_of_seq. split; [|lia]. unfold addr_at, hashMap_at. by rewrite Hm, Hh.
Qed.

(** The points of the ring clockwise from a hash: those at or above it, then the others, both in
    ascending order. *)
Definition clockwise (ks : list Z) (h : Z) : list Z := filter (λ p, h ≤ p) ks ++ filter (λ p, p < h) ks.
Lemma search_splits m h :
  wf m → (search m h ≤ length (keys m))%nat ∧
  clockwise (keys m) h = drop (search m h) (keys m) ++ take (search m h) (keys m).
Proof.
  intros Hwf. destruct (sort_Search_spec (length (keys m)) (λ i, bool_decide (h ≤ key_at m i))) as (H1 & H2 & H3).
  { intros a b Hab Hb. rewrite !bool_decide_eq_true. pose proof (sorted_key_at m a b (wf_sorted _ Hwf)). lia. }
  fold (search m h) in *. set (i := search m h) in *. split; [done|].
  assert (∀ x, x ∈ take i (keys m) → x < h) as Hlo.
  { intros x [j Hj]%list_elem_of_lookup. apply lookup_take_Some in Hj as [Hj Hji]. specialize (H2 j Hji).
    apply bool_decide_eq_false in H2. unfold key_at in H2. rewrite Hj in H2. cbn in H2. lia. }
  assert (∀ x, x ∈ drop i (keys m) → h ≤ x) as Hhi.
  { intros x [j Hj]%list_elem_of_lookup. rewrite lookup_drop in Hj. pose proof (lookup_lt_Some _ _ _ Hj).
    specialize (H3 ltac:(lia)). apply bool_decide_eq_true in H3.
    pose proof (sorted_key_at m i (i + j) (wf_sorted _ Hwf) ltac:(lia)) as Hs.
    unfold key_at in Hs at 2. rewrite Hj in Hs. cbn in Hs. lia. }
  unfold clockwise. rewrite <- (take_drop i (keys m)) at 1 2. rewrite !filter_app.
  rewrite (filter_none _ (take i (keys m))), (filter_all _ (drop i (keys m))) by (intros x Hx; specialize (Hlo x); specialize (Hhi x); naive_solver lia).
  rewrite (filter_all _ (take i (keys m))), (filter_none _ (drop i (keys m))) by (intros x Hx; specialize (Hlo x); specialize (Hhi x); naive_solver lia).
  cbn. by rewrite app_nil_r.
Qed.
Lemma walk_clockwise m h : wf m → walk m (search m h) = hashMap_at m <$> clockwise (keys m) h.
Proof.
  intros Hwf. destruct (search_splits m h Hwf) as [Hi ->]. set (i := search m h) in *.
  apply list_eq. intros j. unfold walk. rewrite !list_lookup_fmap.
  destruct (decide (j < length (keys m))%nat) as [Hj|Hj].
  2:{ rewrite !lookup_ge_None_2; [done|rewrite length_app, length_drop, length_take; lia|rewrite length_seq; lia]. }
  rewrite lookup_seq_lt by done. cbn. unfold addr_at, key_at.
  assert ((drop i (keys m) ++ take i (keys m)) !! j = keys m !! ((i + j) mod length (keys m))%nat) as ->.
  { destruct (decide (i + j < length (keys m))%nat).
    - rewrite lookup_app_l by (rewrite length_drop; lia). by rewrite lookup_drop, Nat.mod_small by lia.
    - rewrite lookup_app_r by (rewrite length_drop; lia). rewrite length_drop, lookup_take_lt by lia.
      replace (i + j)%nat with ((i + j - length (keys m)) + 1 * length (keys m))%nat by lia.
      rewrite Nat.Div0.mod_add, Nat.mod_small by lia. f_equal. lia. }
  destruct (lookup_lt_is_Some_2 (keys m) ((i + j) mod length (keys m))) as [x Hx]; [apply Nat.mod_upper_bound; lia|].
  by rewrite Hx.
Qed.

Lemma GetN_first_occ key n m :
  keys m ≠ [] → 0 ≤ n →
  GetN key n m = Ret (take (Z.to_nat n) (first_occ ∅ (walk m (search m (hash m key))))).
Proof.
  intros Hne Hn. unfold GetN. rewrite decide_False by (by destruct (keys m)).
  rewrite decide_False by lia. f_equal. rewrite GetN_loop_walk by (simpl; lia). simpl.
  by rewrite Nat.sub_0_r.
Qed.

Lemma walk_head m key :
  keys m ≠ [] → ∃ l, walk m (search m (hash m key)) = Get key m :: l.
Proof.
  intros Hne. unfold walk, Get. rewrite decide_False by (by destruct (keys m)).
  destruct (length (keys m)) as [|len] eqn:El; [by destruct (keys m)|].
  simpl. unfold addr_at. rewrite El, Nat.add_0_r. eauto.
Qed.

Lemma first_occ_length l :
  length (first_occ ∅ l) = size (list_to_set l : gset string).
Proof.
  rewrite <- (size_list_to_set (C := gset string) (first_occ ∅ l)) by apply first_occ_NoDup.
  f_equal. apply set_eq. intros a. rewrite !elem_of_list_to_set, first_occ_elem. set_solver.
Qed.
End Walk.

(** ** Properties *)
Module RingProps.
Import CH Walk.

(** A ring built from [New] by any sequence of additions and removals. *)
Inductive reachable (reps : Z) (fn : option Hash) : Map → Prop :=
  | reach_new : reachable reps fn (New reps fn)
  | reach_add m nodes : reachable reps fn m → reachable reps fn (Add nodes m)
  | reach_remove m addr : reachable reps fn m → reachable reps fn (Remove addr m).

Lemma reachable_wf reps fn m : reachable reps fn m → wf m.
Proof. induction 1; auto with go_db. Qed.

(** C26: invariant and meaning of [Get].  In every reachable ring the hash list is sorted and
    holds exactly the hashes of the map, and when it is not empty [Get] returns the node of the
    clockwise successor of the key's hash: the least point at or above it, or the least point
    of the ring when the hash is above them all. *)
Theorem Get_successor (reps : Z) (fn : option Hash) (m : Map) (key : string) :
  reachable reps fn m →
  StronglySorted Z.le (keys m) ∧ (∀ h, h ∈ keys m ↔ is_Some (hashMap m !! h)) ∧
  (keys m ≠ [] →
   ∃ p, owner_point (keys m) (hash m key) p ∧ hashMap m !! p = Some (Get key m)).
Proof.
  intros Hr%reachable_wf. split_and!; [by apply wf_sorted|by apply wf_dom|by apply Get_owner].
Qed.

(** C10: minimal movement on join.  When a node joins a non-empty ring, every key keeps its
    owner or moves to the new node, whatever the hash function and its collisions. *)
Theorem Add_moves_only_to_new (reps : Z) (fn : option Hash) (m : Map) (addr key : string) :
  reachable reps fn m → keys m ≠ [] →
  Get key (Add [addr] m) = Get key m ∨ Get key (Add [addr] m) = addr.
Proof.
  intros Hr Hne. pose proof (reachable_wf _ _ _ Hr) as Hwf.
  pose proof (Add_wf [addr] m Hwf) as Hwf'. destruct (add_node_fields m addr) as (Eh & _ & Hk & Hm).
  assert (∀ h, h ∈ keys (Add [addr] m) ↔ h ∈ keys m ∨ h ∈ points m addr) as Hk'
    by (intros h; cbn; by rewrite sort_Ints_perm).
  destruct (Get_owner (Add [addr] m) key Hwf') as (p & Hp & Hg).
  { intros E. apply Hne. destruct (keys m) as [|x l]; [done|].
    assert (x ∈ keys (Add [addr] m)) as Hx by (apply Hk'; set_solver). rewrite E in Hx. set_solver. }
  cbn [hashMap Add foldl] in Hg. rewrite Hm in Hg. case_decide as Hn; [right; congruence|left].
  symmetry. assert (hash (Add [addr] m) = hash m) as Eh' by done. rewrite Eh' in Hp.
  eapply Get_eq; [done| |exact Hg]. eapply owner_point_mono; [|apply (wf_dom _ Hwf); eauto|exact Hp].
  intros q Hq. apply Hk'. auto.
Qed.

(** C27: minimal movement on leave.  After a node is removed no key maps to it, and every key
    that another node owned keeps its owner. *)
Theorem Remove_moves_only_orphans (reps : Z) (fn : option Hash) (m : Map) (addr key : string) :
  reachable reps fn m →
  (Get key m ≠ addr → Get key (Remove addr m) = Get key m) ∧
  (addr ≠ "" → Get key (Remove addr m) ≠ addr).
Proof.
  intros Hr. pose proof (reachable_wf _ _ _ Hr) as Hwf. pose proof (Remove_wf addr m Hwf) as Hwf'.
  split.
  - intros Hg. destruct (decide (keys m = [])) as [E|Hne].
    { rewrite !Get_empty; [done|done|]. cbn. by rewrite E. }
    destruct (Get_owner m key Hwf Hne) as (p & Hp & Hgp). eapply Get_eq; [done| |].
    + eapply owner_point_mono; [| |exact Hp]; cbn.
      * intros q. rewrite list_elem_of_filter. tauto.
      * apply list_elem_of_filter. unfold hashMap_at. rewrite Hgp. split; [done|apply Hp].
    + cbn. apply map_lookup_filter_Some. done.
  - intros Hne. destruct (decide (keys (Remove addr m) = [])) as [E|Hk]; [by rewrite Get_empty|].
    destruct (Get_owner _ key Hwf' Hk) as (p & _ & Hg). intros E. rewrite E in Hg.
    by eapply Remove_lookup.
Qed.

(** C28: [GetN] returns the first [n] distinct nodes met clockwise from the key's hash: of the nodes
    of the points at or above the hash and then of those below it, in ascending order, the
    first occurrences, cut off after [n].  So the list has no duplicates, starts with the owner
    [Get] returns, holds only nodes of the ring, and is as long as [n] or the number of nodes on
    the ring, whichever is smaller. *)
Theorem GetN_distinct_owners (reps : Z) (fn : option Hash) (m : Map) (key : string) (n : Z) :
  reachable reps fn m → keys m ≠ [] → 0 ≤ n →
  ∃ l, GetN key n m = Ret l ∧
       l = take (Z.to_nat n) (first_occ ∅ (hashMap_at m <$> clockwise (keys m) (hash m key))) ∧
       NoDup l ∧ (0 < n → head l = Some (Get key m)) ∧
       (∀ a, a ∈ l → a ∈ (map_img (hashMap m) : gset string)) ∧
       length l = Nat.min (Z.to_nat n) (size (map_img (hashMap m) : gset string)).
Proof.
  intros Hr Hne Hn. pose proof (reachable_wf _ _ _ Hr) as Hwf. rewrite GetN_first_occ by done.
  set (w := walk m (search m (hash m key))).
  assert (∀ a, a ∈ w ↔ a ∈ (map_img (hashMap m) : gset string)) as Hw by (intros; by apply walk_elem).
  eexists. split_and!; [reflexivity|by rewrite <- walk_clockwise| | | |].
  - eapply sublist_NoDup, sublist_take. apply first_occ_NoDup.
  - intros Hn0. destruct (walk_head m key Hne) as (l & El). fold w in El. rewrite El. simpl.
    rewrite decide_False by set_solver. by destruct (Z.to_nat n) eqn:En; [lia|].
  - intros a Ha%subseteq_take. apply Hw. apply first_occ_elem in Ha. tauto.
  - rewrite length_take, first_occ_length. f_equal. f_equal. apply set_eq. intros a.
    by rewrite elem_of_list_to_set.
Qed.

(** The ring of [TestConsistenthash]: three replicas, the hash is the number itself. *)
Definition test_hash : Hash := λ s, (Atoi s).1 mod 2 ^ 32.
Definition test_ring : Map := Add ["6"; "4"; "2"] (New 3 (Some test_hash)).
Lemma test_ring_reachable : reachable 3 (Some test_hash) test_ring.
Proof. apply reach_add, reach_new. Qed.
Example TestConsistenthash :
  (λ k, Get k test_ring) <$> ["2"; "11"; "23"; "27"] = ["2"; "2"; "4"; "2"] ∧
  Get "27" (Add ["8"] test_ring) = "8".
Proof. vm_compute. split; reflexivity. Qed.

Lemma Get_successor_witness :
  ∃ p, owner_point (keys test_ring) (hash test_ring "11") p ∧
       hashMap test_ring !! p = Some (Get "11" test_ring).
Proof.
  apply (Get_successor 3 (Some test_hash) test_ring "11"); [apply reach_add, reach_new|by vm_compute].
Defined.
Lemma Add_moves_only_to_new_witness :
  Get "27" (Add ["8"] test_ring) = Get "27" test_ring ∨ Get "27" (Add ["8"] test_ring) = "8".
Proof.
  apply (Add_moves_only_to_new 3 (Some test_hash) test_ring "8" "27"); [apply reach_add, reach_new|by vm_compute].
Defined.
Lemma Remove_moves_only_orphans_witness :
  (Get "23" test_ring ≠ "6" → Get "23" (Remove "6" test_ring) = Get "23" test_ring) ∧
  ("6" ≠ "" → Get "23" (Remove "6" test_ring) ≠ "6").
Proof.
  apply (Remove_moves_only_orphans 3 (Some test_hash) test_ring "6" "23"). apply reach_add, reach_new.
Defined.
Lemma GetN_distinct_owners_witness :
  ∃ l, GetN "23" 2 test_ring = Ret l ∧
       l = take 2 (first_occ ∅ (hashMap_at test_ring <$> clockwise (keys test_ring) (hash test_ring "23"))) ∧
       NoDup l ∧ (0 < 2 → head l = Some (Get "23" test_ring)) ∧
       (∀ a, a ∈ l → a ∈ (map_img (hashMap test_ring) : gset string)) ∧
       length l = Nat.min (Z.to_nat 2) (size (map_img (hashMap test_ring) : gset string)).
Proof.
  apply (GetN_distinct_owners 3 (Some test_hash) test_ring "23" 2);
    [apply reach_add, reach_new|by vm_compute|lia].
Defined.
End RingProps.
