(* ===== verification/Pipeline.v ===== *)
(** * The step pipeline with rollback

    [cluster/pipeline/pipeline.go].  A pipeline runs over a world [W] that its steps and its
    optional persister change; its own state is the set of completed step names.  [Persister]
    is the interface to the storage component, implemented by the store in [Store.v]. *)
From S2P Require Import Prelude GoStrings.

(** [context.Context] as the chain of deadlines put around the caller's context. *)
Inductive context : Type := Background | WithTimeout (parent : context) (d : Z).

(** The [Persister] interface. *)
Record Persister (W : Type) : Type := mkPersister {
  SavePipelineStep : string → string → GoM W unit;
  StartPipelineStep : string → string → GoM W unit;
  FailPipelineStep : string → string → GoM W unit;
  LoadPipelineSteps : string → GoM W (list string);
  DeletePipeline : string → GoM W unit }.
Arguments SavePipelineStep {W}.
Arguments StartPipelineStep {W}.
Arguments FailPipelineStep {W}.
Arguments LoadPipelineSteps {W}.
Arguments DeletePipeline {W}.

Module Pipe.
Section pipeline.
Context {W : Type}.

Definition StepFn : Type := context → GoM W unit.
Record Step : Type := mkStep {
  s_Name : string;
  s_Do : StepFn;
  s_Undo : option StepFn;
  s_Retry : Z;
  s_Timeout : Z }.

Record Pipeline : Type := mkPipeline {
  p_Name : string;
  p_Steps : list Step;
  p_Persist : option (Persister W) }.

(** The mutable part: [p.state.Completed] and the world. *)
Record PState : Type := mkPState { Completed_ : gset string; world : W }.

Definition onWorld {A} (m : GoM W A) : GoM PState A :=
  golift world (λ w s, mkPState (Completed_ s) w) m.
Definition markCompleted (n : string) (s : PState) : PState :=
  mkPState ({[n]} ∪ Completed_ s) (world s).
Definition unmarkCompleted (n : string) (s : PState) : PState :=
  mkPState (Completed_ s ∖ {[n]}) (world s).

(** [if p.Persist != nil { p.Persist.f(...) }], the error dropped (or only logged). *)
Definition persisting (p : Pipeline) (f : Persister W → GoM W unit) : GoM PState unit :=
  match p_Persist p with
  | Some ps => _ ← onWorld (gotry (f ps)); mret tt
  | None => mret tt
  end.

(** [New]: the state restored from storage. *)
Definition New (name : string) (persist : option (Persister W)) : GoM W (Pipeline * gset string) :=
  match persist with
  | Some ps =>
      r ← gotry (LoadPipelineSteps ps name);
      mret (mkPipeline name [] persist,
            match r with inl steps => list_to_set steps | inr _ => ∅ end)
  | None => mret (mkPipeline name [] persist, ∅)
  end.

Definition Add (step : Step) (p : Pipeline) : Pipeline :=
  let step := if decide (s_Retry step < 0)
              then mkStep (s_Name step) (s_Do step) (s_Undo step) 0 (s_Timeout step) else step in
  mkPipeline (p_Name p) (p_Steps p ++ [step]) (p_Persist p).

(** [for attempt := 1; attempt <= attempts; attempt++]; the result is the last error, if no
    attempt succeeded. *)
Fixpoint attempt_loop (attempts : nat) (do : GoM W unit) (lastErr : option error)
    : GoM W (option (option error)) :=
  match attempts with
  | O => mret (Some lastErr)
  | S k =>
      r ← gotry do;
      match r with
      | inl _ => mret None
      | inr err => attempt_loop k do (Some err)
      end
  end.

Definition executeStep (ctx : context) (step : Step) : GoM W unit :=
  let ctx := if decide (s_Timeout step > 0) then WithTimeout ctx (s_Timeout step) else ctx in
  let attempts := s_Retry step + 1 in
  r ← attempt_loop (Z.to_nat attempts) (s_Do step ctx) None;
  match r with
  | None => mret tt
  | Some lastErr =>
      gofail (Wrapf ("after " +:+ Itoa attempts +:+ " attempts")
                (default (Errorf "<nil>") lastErr))
  end.

(** [rollback]: the steps before the failed one, last first. *)
Definition rollback_step (p : Pipeline) (ctx : context) (step : Step) : GoM PState unit :=
  match s_Undo step with
  | None => mret tt
  | Some undo =>
      _ ← onWorld (gotry (undo ctx));
      _ ← gomodify (unmarkCompleted (s_Name step));
      persisting p (λ ps, DeletePipeline ps (p_Name p))
  end.
Definition rollback (p : Pipeline) (ctx : context) (failedAt : nat) : GoM PState unit :=
  goforeach (rollback_step p ctx) (reverse (take failedAt (p_Steps p))).

Fixpoint Run_loop (p : Pipeline) (ctx : context) (i : nat) (steps : list Step) : GoM PState unit :=
  match steps with
  | [] => mret tt
  | step :: rest => λ s,
      if decide (s_Name step ∈ Completed_ s) then Run_loop p ctx (S i) rest s
      else
        (_ ← persisting p (λ ps, StartPipelineStep ps (p_Name p) (s_Name step));
         r ← gotry (onWorld (executeStep ctx step));
         match r with
         | inr err =>
             _ ← persisting p (λ ps, FailPipelineStep ps (p_Name p) (s_Name step));
             _ ← rollback p ctx i;
             gofail (Wrapf ("pipeline " +:+ p_Name p +:+ " step " +:+ s_Name step) err)
         | inl _ =>
             _ ← gomodify (markCompleted (s_Name step));
             _ ← persisting p (λ ps, SavePipelineStep ps (p_Name p) (s_Name step));
             Run_loop p ctx (S i) rest
         end) s
  end.
Definition Run (p : Pipeline) (ctx : context) : GoM PState unit := Run_loop p ctx 0 (p_Steps p).

(** The marks [RetryFrom] clears: from the named step to the end. *)
Fixpoint retry_unmark (stepName : string) (found : bool) (steps : list Step) (c : gset string)
    : bool * gset string :=
  match steps with
  | [] => (found, c)
  | s :: rest =>
      let found := bool_decide (s_Name s = stepName) || found in
      retry_unmark stepName found rest (if found then c ∖ {[s_Name s]} else c)
  end.
Definition RetryFrom (p : Pipeline) (ctx : context) (stepName : string) : GoM PState unit := λ s,
  let '(found, c) := retry_unmark stepName false (p_Steps p) (Completed_ s) in
  let s := mkPState c (world s) in
  if found then Run p ctx s
  else (Fail (Errorf ("step " +:+ stepName +:+ " not found in pipeline " +:+ p_Name p)), s).

Definition Completed (p : Pipeline) (s : PState) : list string :=
  filter (λ n, n ∈ Completed_ s) (s_Name <$> p_Steps p).
Definition Reset (s : PState) : PState := mkPState ∅ (world s).

End pipeline.
Arguments Step : clear implicits.
Arguments Pipeline : clear implicits.
Arguments PState : clear implicits.
End Pipe.
