(* ===== verification/PipelineProps.v ===== *)
(** * Properties of the pipeline

    The order of the calls a run makes, for steps of arbitrary behaviour.  The steps here log
    every call to their [Do] and [Undo]; whether a call succeeds is decided by two arbitrary
    functions of the calls made so far, so the theorems quantify over every behaviour of the
    steps.  The run may be a resumed one (some steps are marked completed already) and may have
    a persister, whose storage [D] and errors are arbitrary. *)
From S2P Require Import Prelude GoStrings Pipeline.
Import Pipe.

Inductive event : Type := EvDo (name : string) | EvUndo (name : string).
#[global] Instance event_eq_dec : EqDecision event.
Proof. solve_decision. Defined.

(** What is fixed when a step is written down: its name, its retries, whether it has an Undo. *)
Record stepSpec : Type := mkSpec { sp_name : string; sp_retry : nat; sp_undo : bool }.

(** A persister of [D] that always returns, with or without an error. *)
Definition returns {D A} (m : GoM D A) : Prop := ∀ d, (∃ a, (m d).1 = Ret a) ∨ ∃ e, (m d).1 = Fail e.
Record returning {D} (ps : Persister D) : Prop := mkReturning {
  rt_save p s : returns (SavePipelineStep ps p s);
  rt_start p s : returns (StartPipelineStep ps p s);
  rt_fail p s : returns (FailPipelineStep ps p s);
  rt_delete p : returns (DeletePipeline ps p) }.

Section traced.
Context {D : Type}.
Context (beh ubeh : list event → string → option error).
Abbreviation world_ := (list event * D)%type.

Definition logged (reply : list event → string → option error) (ev : string → event)
    (name : string) : GoM world_ unit := λ w,
  (match reply w.1 name with None => Ret tt | Some e => Fail e end, (w.1 ++ [ev name], w.2)).
Definition traced (sp : stepSpec) : Step world_ :=
  mkStep (sp_name sp) (λ _, logged beh EvDo (sp_name sp))
    (if sp_undo sp then Some (λ _, logged ubeh EvUndo (sp_name sp)) else None)
    (Z.of_nat (sp_retry sp)) 0.
(** A persister of the storage part. *)
Definition onStorage (ps : Persister D) : Persister world_ :=
  let on {A} (m : GoM D A) : GoM world_ A := golift snd (λ d w, (w.1, d)) m in
  mkPersister _ (λ p s, on (SavePipelineStep ps p s)) (λ p s, on (StartPipelineStep ps p s))
    (λ p s, on (FailPipelineStep ps p s)) (λ p, on (LoadPipelineSteps ps p)) (λ p, on (DeletePipeline ps p)).
Definition tracedPipeline (name : string) (specs : list stepSpec) (ps : option (Persister D)) : Pipeline world_ :=
  mkPipeline name (traced <$> specs) (onStorage <$> ps).

(** ** The behaviour of the steps *)

(** The first [k] attempts fail, and the next one succeeds. *)
Definition succeeds_after (tr : list event) (name : string) (k : nat) : Prop :=
  (∀ j, (j < k)%nat → is_Some (beh (tr ++ replicate j (EvDo name)) name)) ∧
  beh (tr ++ replicate k (EvDo name)) name = None.
(** All of [S n] attempts fail, the last one with [err]. *)
Definition always_fails (tr : list event) (name : string) (n : nat) (err : error) : Prop :=
  (∀ j, (j < n)%nat → is_Some (beh (tr ++ replicate j (EvDo name)) name)) ∧
  beh (tr ++ replicate n (EvDo name)) name = Some err.
(** Every step in turn, attempted until it succeeds, takes the log from [tr] to [tr']. *)
Inductive succeed : list stepSpec → list event → list event → Prop :=
  | succeed_nil tr : succeed [] tr tr
  | succeed_snoc pre sp k tr tr1 :
      succeed pre tr tr1 → (k ≤ sp_retry sp)%nat → succeeds_after tr1 (sp_name sp) k →
      succeed (pre ++ [sp]) tr (tr1 ++ replicate (S k) (EvDo (sp_name sp))).

Definition undo_events (pre : list stepSpec) : list event :=
  (λ sp, EvUndo (sp_name sp)) <$> reverse (filter (λ sp, sp_undo sp = true) pre).
Definition names (specs : list stepSpec) : gset string := list_to_set (sp_name <$> specs).
Definition undone (pre : list stepSpec) : gset string := names (filter (λ sp, sp_undo sp = true) pre).
Definition pending (c : gset string) (specs : list stepSpec) : list stepSpec := filter (λ sp, sp_name sp ∉ c) specs.

(** ** One step *)
Lemma attempt_loop_traced n name lastErr tr d :
  (∃ k, (k < n)%nat ∧ succeeds_after tr name k ∧
     attempt_loop n (logged beh EvDo name) lastErr (tr, d) = (Ret None, (tr ++ replicate (S k) (EvDo name), d))) ∨
  ((∀ j, (j < n)%nat → is_Some (beh (tr ++ replicate j (EvDo name)) name)) ∧
     attempt_loop n (logged beh EvDo name) lastErr (tr, d) =
       (Ret (Some (match n with O => lastErr | S n' => beh (tr ++ replicate n' (EvDo name)) name end)),
        (tr ++ replicate n (EvDo name), d))).
Proof.
  revert lastErr tr; induction n as [|n IH]; intros lastErr tr.
  { right. split; [lia|]. by rewrite app_nil_r. }
  cbn [attempt_loop]. unfold mbind, GoM_bind, gotry, logged at 1 3. cbn [fst snd].
  destruct (beh tr name) as [e|] eqn:Eb.
  2:{ left. exists 0%nat. split_and!; [lia| |done]. split; [lia|]. by rewrite app_nil_r. }
  assert (∀ j, (tr ++ [EvDo name]) ++ replicate j (EvDo name) = tr ++ replicate (S j) (EvDo name)) as Hsh
    by (intros j; by rewrite <- app_assoc).
  destruct (IH (Some e) (tr ++ [EvDo name])) as [(k & Hk & [Hs1 Hs2] & ->)|[Hf ->]].
  - left. exists (S k). split_and!; [lia| |by rewrite Hsh]. split; [|by rewrite <- Hsh].
    intros [|j] Hj; [rewrite app_nil_r; eauto|]. rewrite <- Hsh. apply Hs1. lia.
  - right. split; [|].
    + intros [|j] Hj; [rewrite app_nil_r; eauto|]. rewrite <- Hsh. apply Hf. lia.
    + rewrite Hsh. do 3 f_equal. destruct n; [by rewrite app_nil_r|]. by rewrite Hsh.
Qed.

Lemma executeStep_traced ctx sp tr d :
  (∃ k, (k ≤ sp_retry sp)%nat ∧ succeeds_after tr (sp_name sp) k ∧
     executeStep ctx (traced sp) (tr, d) = (Ret tt, (tr ++ replicate (S k) (EvDo (sp_name sp)), d))) ∨
  (∃ err, always_fails tr (sp_name sp) (sp_retry sp) err ∧
     executeStep ctx (traced sp) (tr, d) =
     (Fail (Wrapf ("after " +:+ Itoa (Z.of_nat (sp_retry sp) + 1) +:+ " attempts") err),
      (tr ++ replicate (S (sp_retry sp)) (EvDo (sp_name sp)), d))).
Proof.
  unfold executeStep, mbind, GoM_bind. cbn [s_Retry s_Do traced].
  replace (Z.to_nat (Z.of_nat (sp_retry sp) + 1)) with (S (sp_retry sp)) by lia.
  destruct (attempt_loop_traced (S (sp_retry sp)) (sp_name sp) None tr d) as [(k & Hk & Hs & ->)|[Hf ->]].
  - left. exists k. split_and!; [lia|done..].
  - destruct (Hf (sp_retry sp) ltac:(lia)) as [e He]. right. exists e. rewrite He.
    split; [split; [|done]|done]. intros j Hj. apply Hf. lia.
Qed.

(** ** Persisting touches the storage only *)
Lemma persisting_traced name specs ps f c tr d :
  (∀ p, ps = Some p → ∃ m : GoM D unit, f (onStorage p) = golift snd (λ d w, (w.1, d)) m ∧ returns m) →
  ∃ d', persisting (tracedPipeline name specs ps) f (mkPState c (tr, d)) = (Ret tt, mkPState c (tr, d')).
Proof.
  unfold persisting. cbn [p_Persist tracedPipeline]. destruct ps as [p|]; cbn [fmap option_fmap option_map]; intros Hf; [|by exists d].
  destruct (Hf p eq_refl) as (m & -> & Hm). unfold mbind, GoM_bind, onWorld, golift, gotry. cbn.
  specialize (Hm d). destruct (m d) as [o d'] eqn:Em. cbn in Hm. exists d'. destruct Hm as [[a ->]|[e ->]]; done.
Qed.

Context (name : string) (ps : option (Persister D)) (Hps : ∀ p, ps = Some p → returning p).

Lemma rollback_traced specs ctx pre c tr d :
  ∃ d', goforeach (rollback_step (tracedPipeline name specs ps) ctx) (traced <$> reverse pre) (mkPState c (tr, d)) =
    (Ret tt, mkPState (c ∖ undone pre) (tr ++ undo_events pre, d')).
Proof.
  unfold undo_events, undone, names.
  replace (list_to_set (sp_name <$> filter (λ sp, sp_undo sp = true) pre) : gset string)
    with (list_to_set (sp_name <$> filter (λ sp, sp_undo sp = true) (reverse pre)) : gset string)
    by (apply set_eq; intros x; by rewrite !elem_of_list_to_set, reverse_Permutation).
  replace (reverse (filter (λ sp, sp_undo sp = true) pre))
    with (filter (λ sp, sp_undo sp = true) (reverse pre)).
  2:{ clear. induction pre as [|sp pre IH]; [done|]. rewrite reverse_cons, filter_app, IH, !filter_cons, filter_nil.
      case_decide; [by rewrite reverse_cons|by rewrite app_nil_r]. }
  generalize (reverse pre). clear pre. intros l. revert c tr d.
  induction l as [|sp l IH]; intros c tr d; cbn [fmap list_fmap goforeach].
  { exists d. rewrite app_nil_r, filter_nil. do 2 f_equal. set_solver. }
  rewrite filter_cons. unfold mbind at 1, GoM_bind at 1. unfold rollback_step at 1. cbn [s_Undo s_Name traced].
  destruct (sp_undo sp) eqn:Eu; [|rewrite decide_False by done; apply IH]. rewrite decide_True by done.
  assert (onWorld (gotry (logged ubeh EvUndo (sp_name sp))) (mkPState c (tr, d)) =
    (Ret (match ubeh tr (sp_name sp) with None => inl tt | Some e => inr e end),
     mkPState c (tr ++ [EvUndo (sp_name sp)], d))) as Hu.
  { unfold onWorld, golift, gotry, logged. cbn. by destruct (ubeh tr (sp_name sp)). }
  unfold mbind, GoM_bind. rewrite Hu. unfold gomodify, unmarkCompleted. cbn [Completed_ world].
  destruct (persisting_traced name specs ps (λ q, DeletePipeline q (p_Name (tracedPipeline name specs ps)))
    (c ∖ {[sp_name sp]}) (tr ++ [EvUndo (sp_name sp)]) d) as [d1 ->].
  { intros p Hp. eexists. split; [reflexivity|]. apply (rt_delete _ (Hps p Hp)). }
  destruct (IH (c ∖ {[sp_name sp]}) (tr ++ [EvUndo (sp_name sp)]) d1) as [d2 ->].
  exists d2. rewrite <- app_assoc. do 2 f_equal. set_solver.
Qed.

(** ** The run *)
Definition ended_ok (c : gset string) (specs : list stepSpec) (tr : list event)
    (r : outcome unit * PState world_) : Prop :=
  r.1 = Ret tt ∧ Completed_ r.2 = c ∪ names specs ∧ succeed (pending c specs) tr (world r.2).1.
Definition ended_failed (c : gset string) (specs : list stepSpec) (tr : list event)
    (r : outcome unit * PState world_) : Prop :=
  ∃ pre sp post tr1 err,
    specs = pre ++ sp :: post ∧ sp_name sp ∉ c ∧ succeed (pending c pre) tr tr1 ∧
    always_fails tr1 (sp_name sp) (sp_retry sp) err ∧
    r.1 = Fail (Wrapf ("pipeline " +:+ name +:+ " step " +:+ sp_name sp)
                 (Wrapf ("after " +:+ Itoa (Z.of_nat (sp_retry sp) + 1) +:+ " attempts") err)) ∧
    (world r.2).1 = tr1 ++ replicate (S (sp_retry sp)) (EvDo (sp_name sp)) ++ undo_events pre ∧
    Completed_ r.2 = (c ∪ names pre) ∖ undone pre.

Lemma names_snoc pre sp : names (pre ++ [sp]) = {[sp_name sp]} ∪ names pre.
Proof. unfold names. rewrite fmap_app. set_solver. Qed.
Lemma pending_snoc c pre sp : pending c (pre ++ [sp]) = pending c pre ++ (if decide (sp_name sp ∈ c) then [] else [sp]).
Proof. unfold pending. rewrite filter_app, filter_cons, filter_nil. do 2 case_decide; done. Qed.

Lemma Run_loop_traced ctx c pre todo tr0 tr d :
  let p := tracedPipeline name (pre ++ todo) ps in
  NoDup (sp_name <$> pre ++ todo) → succeed (pending c pre) tr0 tr →
  let r := Run_loop p ctx (length pre) (traced <$> todo) (mkPState (c ∪ names pre) (tr, d)) in
  ended_ok c (pre ++ todo) tr0 r ∨ ended_failed c (pre ++ todo) tr0 r.
Proof.
  revert pre tr d; induction todo as [|sp todo IH]; intros pre tr d p Hn Hs r.
  { left. rewrite app_nil_r in *. by split_and!. }
  subst r. cbn [fmap list_fmap Run_loop]. cbn [Completed_ s_Name traced].
  assert (pre ++ sp :: todo = (pre ++ [sp]) ++ todo) as E by by rewrite <- app_assoc.
  assert (sp_name sp ∉ names pre) as Hnew.
  { unfold names. rewrite elem_of_list_to_set. rewrite fmap_app in Hn. apply NoDup_app in Hn as (_ & Hd & _).
    intros Hin. apply (Hd _ Hin). cbn. set_solver. }
  case_decide as Hc.
  { specialize (IH (pre ++ [sp]) tr d). rewrite <- E, length_app, Nat.add_1_r, pending_snoc, names_snoc in IH.
    rewrite decide_True, app_nil_r in IH by set_solver.
    replace (c ∪ names pre) with (c ∪ ({[sp_name sp]} ∪ names pre)) by set_solver. by apply IH. }
  assert (sp_name sp ∉ c) as Hc' by set_solver.
  unfold mbind, GoM_bind. fold p.
  destruct (persisting_traced name (pre ++ sp :: todo) ps (λ q, StartPipelineStep q (p_Name p) (sp_name sp))
    (c ∪ names pre) tr d) as [d1 Hd1].
  { intros q Hq. eexists. split; [reflexivity|]. apply (rt_start _ (Hps q Hq)). }
  fold p in Hd1. rewrite Hd1. unfold gotry, onWorld, golift. cbn [world Completed_].
  destruct (executeStep_traced ctx sp tr d1) as [(k & Hk & Hsk & ->)|(err & Hf & ->)].
  - unfold gomodify, markCompleted. cbn [world Completed_].
    destruct (persisting_traced name (pre ++ sp :: todo) ps (λ q, SavePipelineStep q (p_Name p) (sp_name sp))
      ({[sp_name sp]} ∪ (c ∪ names pre)) (tr ++ replicate (S k) (EvDo (sp_name sp))) d1) as [d2 Hd2].
    { intros q Hq. eexists. split; [reflexivity|]. apply (rt_save _ (Hps q Hq)). }
    fold p in Hd2. rewrite Hd2. specialize (IH (pre ++ [sp]) (tr ++ replicate (S k) (EvDo (sp_name sp))) d2).
    rewrite <- E, length_app, Nat.add_1_r, pending_snoc, names_snoc, decide_False in IH by done.
    replace ({[sp_name sp]} ∪ (c ∪ names pre)) with (c ∪ ({[sp_name sp]} ∪ names pre)) by set_solver.
    apply IH; [done|]. by constructor.
  - right. exists pre, sp, todo, tr, err. cbn [world Completed_].
    destruct (persisting_traced name (pre ++ sp :: todo) ps (λ q, FailPipelineStep q (p_Name p) (sp_name sp))
      (c ∪ names pre) (tr ++ replicate (S (sp_retry sp)) (EvDo (sp_name sp))) d1) as [d2 Hd2].
    { intros q Hq. eexists. split; [reflexivity|]. apply (rt_fail _ (Hps q Hq)). }
    fold p in Hd2. rewrite Hd2. unfold rollback. cbn [p_Steps p tracedPipeline].
    rewrite fmap_app, take_app_length' by (by rewrite length_fmap). rewrite <- fmap_reverse. fold p.
    destruct (rollback_traced (pre ++ sp :: todo) ctx pre (c ∪ names pre)
      (tr ++ replicate (S (sp_retry sp)) (EvDo (sp_name sp))) d2) as [d3 Hd3].
    unfold p. rewrite Hd3. cbn. split_and!; try done. by rewrite <- app_assoc.
Qed.
End traced.

Module PipelineTheorems.

(** C7: order of execution and of rollback.  Take steps with distinct names and any behaviour, any
    set [c] of steps marked completed before, and any persister or none, which may fail but
    returns.  The run does the steps that are not marked, in order, each attempted until it
    succeeds.  If none of them fails [Retry]+1 attempts, [Run] returns nil with exactly these
    steps marked in addition.  Otherwise the first one that does stops it: no later step is
    attempted, the error returned wraps the step's last error, and then the [Undo]s of all
    steps before it that have one (also those skipped) run exactly once each, in reverse order,
    whether or not an [Undo] fails; those with an [Undo] lose their mark. *)
Theorem Run_order_and_rollback {D} (beh ubeh : list event → string → option error)
    (name : string) (ps : option (Persister D)) (ctx : context) (specs : list stepSpec)
    (c : gset string) (tr : list event) (d : D) :
  NoDup (sp_name <$> specs) → (∀ p, ps = Some p → returning p) →
  let r := Run (tracedPipeline beh ubeh name specs ps) ctx (mkPState c (tr, d)) in
  ended_ok beh c specs tr r ∨ ended_failed beh name c specs tr r.
Proof.
  intros Hn Hps. pose proof (Run_loop_traced beh ubeh name ps Hps ctx c [] specs tr tr d Hn (succeed_nil _ _)) as H.
  cbn [app length] in H. unfold names in H. cbn in H. rewrite (right_id_L ∅ (∪) c) in H. apply H.
Qed.

(** Create, resumed after its first step; the persister keeps a count and always fails. *)
Definition demo_specs : list stepSpec :=
  [mkSpec "validate" 0 false; mkSpec "create-containers" 1 true; mkSpec "meet-nodes" 0 false].
Definition demo_beh : list event → string → option error :=
  λ _ n, if decide (n = "meet-nodes") then Some (Errorf "no node found") else None.
Definition counting : Persister nat :=
  let op : GoM nat unit := λ n, (Fail (Errorf "database is locked"), S n) in
  mkPersister _ (λ _ _, op) (λ _ _, op) (λ _ _, op) (λ _, mret []) (λ _, op).
Lemma Run_order_and_rollback_witness :
  let r := Run (tracedPipeline demo_beh demo_beh "create" demo_specs (Some counting)) Background
             (mkPState {["validate"]} ([], 0%nat)) in
  ended_ok demo_beh {["validate"]} demo_specs [] r ∨ ended_failed demo_beh "create" {["validate"]} demo_specs [] r.
Proof.
  apply (Run_order_and_rollback demo_beh demo_beh "create" (Some counting) Background demo_specs {["validate"]} [] 0%nat).
  - apply (bool_decide_unpack (NoDup (sp_name <$> demo_specs))). vm_compute. exact I.
  - intros p [= <-]. split; intros; intros d; right; eexists; reflexivity.
Defined.
Example demo_run :
  let r := Run (tracedPipeline demo_beh demo_beh "create" demo_specs (Some counting)) Background
             (mkPState {["validate"]} ([], 0%nat)) in
  world r.2 = ([EvDo "create-containers"; EvDo "meet-nodes"; EvUndo "create-containers"], 5%nat).
Proof. vm_compute. reflexivity. Qed.
End PipelineTheorems.
