(* ===== verification/Store.v ===== *)
(** * The SQLite store

    [cluster/data/records.go] and [cluster/data/store/store.go].  A database is its four tables,
    rows in rowid order; each method is the meaning of the SQL statements it sends.  The engine
    is an environment: [faults] says, statement by statement, whether the driver reports an
    error (a failed statement changes nothing), and [now] is the formatted current time. *)
From S2P Require Import Prelude GoStrings Pipeline.

Record ClusterRecord : Type := mkClusterRecord {
  cr_Name : string; cr_Backend : string; cr_Shards : Z; cr_NodesPerShard : Z; cr_RedisPort : Z;
  cr_Image : string; cr_Status : string; cr_CreatedAt : string; cr_UpdatedAt : string }.
Record ContainerRecord : Type := mkContainerRecord {
  ct_ClusterName : string; ct_Name : string; ct_ContainerID : string; ct_HostIP : string;
  ct_HostPort : Z; ct_ContainerIP : string; ct_ContainerPort : Z; ct_NodeIndex : Z;
  ct_Role : string; ct_Status : string; ct_Hostname : string }.
#[global] Instance ClusterRecord_eq_dec : EqDecision ClusterRecord.
Proof. solve_decision. Defined.
#[global] Instance ContainerRecord_eq_dec : EqDecision ContainerRecord.
Proof. solve_decision. Defined.

Module Store.

(** Rows; the columns the Go code never reads back ([id], [created_at] of a container) are kept
    where a statement orders by them. *)
Record opRow : Type := mkOpRow {
  op_cluster : string; op_operation : string; op_detail : string; op_success : Z;
  op_created_at : string }.
Record runRow : Type := mkRunRow {
  run_pipeline : string; run_step : string; run_status : string;
  run_started_at : string; run_finished_at : option string }.

(** [clusters], [containers], [operations] and [pipeline_runs], each in rowid order. *)
Record DB : Type := mkDB {
  clusters : list ClusterRecord;
  containers : list ContainerRecord;
  operations : list opRow;
  pipeline_runs : list runRow;
  hasHostname : bool;
  now : string;
  faults : list bool }.

Definition empty_db (t : string) : DB := mkDB [] [] [] [] true t [].
Definition set_clusters (l : list ClusterRecord) (d : DB) : DB :=
  mkDB l (containers d) (operations d) (pipeline_runs d) (hasHostname d) (now d) (faults d).
Definition set_containers (l : list ContainerRecord) (d : DB) : DB :=
  mkDB (clusters d) l (operations d) (pipeline_runs d) (hasHostname d) (now d) (faults d).
Definition set_operations (l : list opRow) (d : DB) : DB :=
  mkDB (clusters d) (containers d) l (pipeline_runs d) (hasHostname d) (now d) (faults d).
Definition set_runs (l : list runRow) (d : DB) : DB :=
  mkDB (clusters d) (containers d) (operations d) l (hasHostname d) (now d) (faults d).
Definition set_hostname (b : bool) (d : DB) : DB :=
  mkDB (clusters d) (containers d) (operations d) (pipeline_runs d) b (now d) (faults d).
Definition set_faults (fs : list bool) (d : DB) : DB :=
  mkDB (clusters d) (containers d) (operations d) (pipeline_runs d) (hasHostname d) (now d) fs.

Definition dbError : error := Errorf "sqlite error".
(** [s.db.Exec]: one statement, which fails without effect or happens. *)
Definition Exec (f : DB → DB) : GoM DB unit := λ d,
  match faults d with
  | true :: fs => (Fail dbError, set_faults fs d)
  | false :: fs => (Ret tt, f (set_faults fs d))
  | [] => (Ret tt, f d)
  end.
(** [s.db.Query]: the rows a SELECT returns. *)
Definition Query {A} (f : DB → A) : GoM DB A := λ d,
  match faults d with
  | true :: fs => (Fail dbError, set_faults fs d)
  | false :: fs => (Ret (f d), set_faults fs d)
  | [] => (Ret (f d), d)
  end.

(** INSERT ... ON CONFLICT(key) DO UPDATE: the unique key decides between update and append. *)
Definition upsert {R K} `{EqDecision K} (key : R → K) (new : R) (update : R → R) (l : list R)
    : list R :=
  if decide (key new ∈ key <$> l)
  then (λ r, if decide (key r = key new) then update r else r) <$> l
  else l ++ [new].

(** ** Schema: [OpenStore] after [sql.Open] *)
Definition migrate : GoM DB unit :=
  _ ← Exec id;                                   (* CREATE TABLE IF NOT EXISTS ... *)
  r ← gotry (Query hasHostname);
  match r with
  | inl false => gowrap (Wrapf "add hostname column") (Exec (set_hostname true))
  | _ => mret tt
  end.
Definition OpenStore : GoM DB unit := gowrap (Wrapf "migrate") migrate.

(** ** Clusters *)
Definition UpsertCluster (c : ClusterRecord) : GoM DB unit := λ d,
  let created := if decide (cr_CreatedAt c = "") then now d else cr_CreatedAt c in
  let row := mkClusterRecord (cr_Name c) (cr_Backend c) (cr_Shards c) (cr_NodesPerShard c)
               (cr_RedisPort c) (cr_Image c) (cr_Status c) created (now d) in
  Exec (λ d, set_clusters
    (upsert cr_Name row
       (λ r, mkClusterRecord (cr_Name r) (cr_Backend r) (cr_Shards row) (cr_NodesPerShard row)
               (cr_RedisPort row) (cr_Image row) (cr_Status row) (cr_CreatedAt r) (cr_UpdatedAt row))
       (clusters d)) d) d.

Definition UpdateClusterStatus (name status : string) : GoM DB unit := λ d,
  Exec (λ d', set_clusters
    ((λ r, if decide (cr_Name r = name)
           then mkClusterRecord (cr_Name r) (cr_Backend r) (cr_Shards r) (cr_NodesPerShard r)
                  (cr_RedisPort r) (cr_Image r) status (cr_CreatedAt r) (now d)
           else r) <$> clusters d') d') d.

(** [sql.ErrNoRows] is turned into a nil record without error. *)
Definition GetCluster (name : string) : GoM DB (option ClusterRecord) :=
  Query (λ d, head (filter (λ r, cr_Name r = name) (clusters d))).

Definition name_le (r1 r2 : ClusterRecord) : Prop := String.le (cr_Name r1) (cr_Name r2).
#[global] Instance name_le_dec : RelDecision name_le.
Proof. intros r1 r2. unfold name_le. apply _. Defined.
Definition ListClusters : GoM DB (list ClusterRecord) :=
  Query (λ d, merge_sort name_le (clusters d)).

Definition DeleteCluster (name : string) : GoM DB unit :=
  _ ← Exec (λ d, set_containers (filter (λ r, ct_ClusterName r ≠ name) (containers d)) d);
  Exec (λ d, set_clusters (filter (λ r, cr_Name r ≠ name) (clusters d)) d).

(** ** Containers *)
Definition ct_key (r : ContainerRecord) : string * string := (ct_ClusterName r, ct_Name r).
Definition UpsertContainer (c : ContainerRecord) : GoM DB unit :=
  Exec (λ d, set_containers
    (upsert ct_key c
       (λ r, mkContainerRecord (ct_ClusterName r) (ct_Name r) (ct_ContainerID c) (ct_HostIP c)
               (ct_HostPort c) (ct_ContainerIP c) (ct_ContainerPort c) (ct_NodeIndex c)
               (ct_Role c) (ct_Status c) (ct_Hostname c))
       (containers d)) d).

Definition index_le (r1 r2 : ContainerRecord) : Prop := ct_NodeIndex r1 ≤ ct_NodeIndex r2.
#[global] Instance index_le_dec : RelDecision index_le.
Proof. intros r1 r2. unfold index_le. apply _. Defined.
Definition ListContainersByCluster (clusterName : string) : GoM DB (list ContainerRecord) :=
  Query (λ d, merge_sort index_le (filter (λ r, ct_ClusterName r = clusterName) (containers d))).

(** ** Operations log *)
Definition LogOperation (clusterName operation detail : string) (success : bool) : GoM DB unit := λ d,
  Exec (λ d', set_operations
    (operations d' ++ [mkOpRow clusterName operation detail (if success then 1 else 0) (now d)]) d') d.

(** Each row as the Go map: operation, detail, success text, created_at. *)
Definition ListOperations (clusterName : string) : GoM DB (list (gmap string string)) :=
  Query (λ d,
    (λ r, {["operation" := op_operation r; "detail" := op_detail r;
            "success" := if decide (op_success r = 1) then "true" else "false";
            "created_at" := op_created_at r]} : gmap string string) <$>
    take 50 (reverse (filter (λ r, op_cluster r = clusterName) (operations d)))).

(** ** Pipeline progress *)
Definition run_key (r : runRow) : string * string := (run_pipeline r, run_step r).

Definition SavePipelineStep (pipelineName stepName : string) : GoM DB unit := λ d,
  Exec (λ d', set_runs
    (upsert run_key (mkRunRow pipelineName stepName "completed" (now d) None)
       (λ r, mkRunRow (run_pipeline r) (run_step r) "completed" (run_started_at r) (Some (now d)))
       (pipeline_runs d')) d') d.

(** INSERT OR IGNORE *)
Definition StartPipelineStep (pipelineName stepName : string) : GoM DB unit := λ d,
  Exec (λ d', set_runs
    (upsert run_key (mkRunRow pipelineName stepName "running" (now d) None) (λ r, r)
       (pipeline_runs d')) d') d.

Definition FailPipelineStep (pipelineName stepName : string) : GoM DB unit := λ d,
  Exec (λ d', set_runs
    (upsert run_key (mkRunRow pipelineName stepName "failed" (now d) (Some (now d)))
       (λ r, mkRunRow (run_pipeline r) (run_step r) "failed" (run_started_at r) (Some (now d)))
       (pipeline_runs d')) d') d.

Definition LoadPipelineSteps (pipelineName : string) : GoM DB (list string) :=
  Query (λ d, run_step <$>
    filter (λ r, run_pipeline r = pipelineName ∧ run_status r = "completed") (pipeline_runs d)).

Definition DeletePipeline (pipelineName : string) : GoM DB unit :=
  Exec (λ d, set_runs (filter (λ r, run_pipeline r ≠ pipelineName) (pipeline_runs d)) d).

(** The store is a [Persister]. *)
Definition storePersister : Persister DB :=
  mkPersister DB SavePipelineStep StartPipelineStep FailPipelineStep LoadPipelineSteps DeletePipeline.

End Store.
