(* ===== verification/StoreProps.v ===== *)
(** * Properties of the store, and of a pipeline that persists its progress in it *)
From S2P Require Import Prelude GoStrings Pipeline Store.
Import Pipe Store.

(** ** INSERT ... ON CONFLICT *)
Section upsert.
Context {R K : Type} `{EqDecision K} (key : R → K).
Implicit Types (new : R) (update : R → R) (l : list R).

Lemma upsert_keys new update l :
  (∀ r, key (update r) = key r) →
  key <$> upsert key new update l =
    if decide (key new ∈ key <$> l) then key <$> l else (key <$> l) ++ [key new].
Proof.
  intros Hu. unfold upsert. case_decide; [|by rewrite fmap_app].
  rewrite <- list_fmap_compose. apply list_fmap_ext. intros i r _. cbn. by case_decide; rewrite ?Hu.
Qed.
Lemma upsert_NoDup new update l :
  (∀ r, key (update r) = key r) → NoDup (key <$> l) → NoDup (key <$> upsert key new update l).
Proof.
  intros Hu Hn. rewrite upsert_keys by done. case_decide; [done|]. apply NoDup_app.
  split_and!; [done| |apply NoDup_singleton]. intros x Hx ->%list_elem_of_singleton. done.
Qed.
Lemma elem_of_upsert new update l r :
  (∀ r, key (update r) = key r) →
  r ∈ upsert key new update l ↔
    (key r ≠ key new ∧ r ∈ l) ∨
    (∃ r0, r0 ∈ l ∧ key r0 = key new ∧ r = update r0) ∨ ((key new ∉ key <$> l) ∧ r = new).
Proof.
  intros Hu. unfold upsert. case_decide as Hin.
  - rewrite list_elem_of_fmap. split.
    + intros (r0 & -> & Hr0). case_decide; [right; left; eauto|left; done].
    + intros [[Hne Hr]|[(r0 & Hr0 & Hk & ->)|[? _]]]; [| |done].
      * exists r. by rewrite decide_False.
      * exists r0. by rewrite decide_True.
  - rewrite elem_of_app, list_elem_of_singleton. split.
    + intros [Hr| ->]; [left|auto]. split; [|done]. intros E. apply Hin. rewrite <- E.
      by apply list_elem_of_fmap_2.
    + intros [[_ Hr]|[(r0 & Hr0 & Hk & ->)|[_ ->]]]; [auto| |auto].
      destruct Hin. rewrite <- Hk. by apply list_elem_of_fmap_2.
Qed.
End upsert.

(** ** The key constraints *)
Definition db_wf (d : DB) : Prop :=
  NoDup (cr_Name <$> clusters d) ∧ NoDup (ct_key <$> containers d) ∧
  NoDup (run_key <$> pipeline_runs d).

(** A statement that keeps an invariant keeps it whether it fails or not. *)
Lemma Exec_inv (P : DB → Prop) f d :
  (∀ d fs, P d → P (set_faults fs d)) → (∀ d, P d → P (f d)) → P d → P (Exec f d).2.
Proof. intros Hf Hs Hd. unfold Exec. destruct (faults d) as [|[] ?]; simpl; auto. Qed.
Lemma Query_inv {A} (P : DB → Prop) (f : DB → A) d :
  (∀ d fs, P d → P (set_faults fs d)) → P d → P (Query f d).2.
Proof. intros Hf Hd. unfold Query. destruct (faults d) as [|[] ?]; simpl; auto. Qed.
Lemma db_wf_faults d fs : db_wf d → db_wf (set_faults fs d).
Proof. done. Qed.
Lemma NoDup_fmap_filter {A B} (f : A → B) (P : A → Prop) `{∀ x, Decision (P x)} l :
  NoDup (f <$> l) → NoDup (f <$> filter P l).
Proof. intros. eapply sublist_NoDup; [done|]. apply fmap_sublist, sublist_filter. Qed.
#[export] Hint Resolve db_wf_faults NoDup_fmap_filter upsert_NoDup : go_db.

(** The writing methods as data, so that histories of calls can be quantified over. *)
Inductive storeOp : Type :=
  | OpOpen
  | OpUpsertCluster (c : ClusterRecord)
  | OpUpdateStatus (name status : string)
  | OpDeleteCluster (name : string)
  | OpUpsertContainer (c : ContainerRecord)
  | OpLog (cl op detail : string) (ok : bool)
  | OpSave (p s : string)
  | OpStart (p s : string)
  | OpFail (p s : string)
  | OpDeletePipeline (p : string).
Definition run_op (o : storeOp) : GoM DB unit :=
  match o with
  | OpOpen => OpenStore
  | OpUpsertCluster c => UpsertCluster c
  | OpUpdateStatus n s => UpdateClusterStatus n s
  | OpDeleteCluster n => DeleteCluster n
  | OpUpsertContainer c => UpsertContainer c
  | OpLog cl op de ok => LogOperation cl op de ok
  | OpSave p s => Store.SavePipelineStep p s
  | OpStart p s => Store.StartPipelineStep p s
  | OpFail p s => Store.FailPipelineStep p s
  | OpDeletePipeline p => Store.DeletePipeline p
  end.
(** A history: every call is made, its result is not looked at, time passes between calls. *)
Definition set_now (t : string) (d : DB) : DB :=
  mkDB (clusters d) (containers d) (operations d) (pipeline_runs d) (hasHostname d) t (faults d).
Definition run_history (h : list (string * storeOp)) (d : DB) : DB :=
  foldl (λ d o, (run_op o.2 (set_now o.1 d)).2) d h.

Ltac db_wf_stmt :=
  apply (Exec_inv db_wf); [done| |done];
  let d := fresh "d" in let H := fresh in
  intros d [? [? ?]]; split_and!; cbn; auto with go_db.

Lemma UpdateStatus_keys name status t (l : list ClusterRecord) :
  cr_Name <$> ((λ r, if decide (cr_Name r = name)
           then mkClusterRecord (cr_Name r) (cr_Backend r) (cr_Shards r) (cr_NodesPerShard r)
                  (cr_RedisPort r) (cr_Image r) status (cr_CreatedAt r) t
           else r) <$> l) = cr_Name <$> l.
Proof. rewrite <- list_fmap_compose. apply list_fmap_ext. intros ? r _. cbn. by case_decide. Qed.

Lemma run_op_wf o d : db_wf d → db_wf (run_op o d).2.
Proof.
  intros Hd. destruct o; cbn [run_op]; try db_wf_stmt.
  - unfold OpenStore, migrate, gowrap, gotry, mbind, GoM_bind, Exec, Query.
    destruct d as [cl ct op pr hh nw fs].
    destruct fs as [|[] [|[] [|[] fs]]]; cbn; try done; destruct hh; cbn; done.
  - rewrite UpdateStatus_keys. done.
  - unfold DeleteCluster, mbind, GoM_bind.
    assert (db_wf (Exec (λ d, set_containers (filter (λ r, ct_ClusterName r ≠ name) (containers d)) d) d).2)
      as H1 by db_wf_stmt.
    destruct (Exec _ d) as [[] d1]; cbn in *; try done. db_wf_stmt.
Qed.

Module StoreTheorems.

(** Also: the UNIQUE constraints are an invariant.  Starting from an empty database, after any
    history of store calls, at any times and with any pattern of statement failures, cluster
    names, (cluster, container) pairs and (pipeline, step) pairs are unique. *)
Theorem store_keys_unique (t : string) (fs : list bool) (h : list (string * storeOp)) :
  db_wf (run_history h (set_faults fs (empty_db t))).
Proof.
  unfold run_history. assert (db_wf (set_faults fs (empty_db t))) as H by (split_and!; constructor).
  revert H. generalize (set_faults fs (empty_db t)). induction h as [|o h IH]; intros d Hd; [done|].
  apply IH, run_op_wf. done.
Qed.

Lemma filter_unique_key {R K} `{EqDecision K} (key : R → K) (k : K) (l : list R) r :
  NoDup (key <$> l) → r ∈ l → key r = k → filter (λ r, key r = k) l = [r].
Proof.
  intros Hn Hr Hk. induction l as [|x l IH]; [by apply not_elem_of_nil in Hr|].
  cbn in Hn. apply NoDup_cons in Hn as [Hx Hn]. rewrite filter_cons.
  apply elem_of_cons in Hr as [<-|Hr].
  - rewrite decide_True by done. f_equal. apply filter_none. intros y Hy Ey.
    apply Hx. rewrite Hk, <- Ey. by apply list_elem_of_fmap_2.
  - rewrite decide_False; [by apply IH|]. intros E. apply Hx. rewrite E, <- Hk. by apply list_elem_of_fmap_2.
Qed.

(** What [UpsertCluster c] leaves for the cluster, given the row that was there before. *)
Definition merged (old : option ClusterRecord) (c : ClusterRecord) (t : string) : ClusterRecord :=
  mkClusterRecord (cr_Name c) (from_option cr_Backend (cr_Backend c) old) (cr_Shards c)
    (cr_NodesPerShard c) (cr_RedisPort c) (cr_Image c) (cr_Status c)
    (from_option cr_CreatedAt (if decide (cr_CreatedAt c = "") then t else cr_CreatedAt c) old) t.

(** Also: round trip of a cluster record.  When the statements succeed, [GetCluster] after
    [UpsertCluster c] returns the fields of [c], the time of the call as updated-at, and, if
    the cluster was already recorded, the backend and creation time of the old row; the rows
    of other clusters read as before. *)
Theorem upsert_get_cluster (d : DB) (c : ClusterRecord) (other : string) :
  db_wf d → faults d = [] → other ≠ cr_Name c →
  let d' := (UpsertCluster c d).2 in
  (UpsertCluster c d).1 = Ret tt ∧
  ∃ old, GetCluster (cr_Name c) d = (Ret old, d) ∧
    GetCluster (cr_Name c) d' = (Ret (Some (merged old c (now d))), d') ∧
    (GetCluster other d').1 = (GetCluster other d).1.
Proof.
  intros (Hn & _) Hf Ho d'. subst d'. unfold UpsertCluster, Exec, GetCluster, Query. rewrite Hf. cbn. rewrite Hf.
  set (row := mkClusterRecord _ _ _ _ _ _ _ _ _). set (upd := λ r : ClusterRecord, mkClusterRecord _ _ _ _ _ _ _ _ _).
  assert (∀ r, cr_Name (upd r) = cr_Name r) as Hu by done.
  pose proof (upsert_NoDup cr_Name row upd _ Hu Hn) as Hn'.
  split; [done|]. eexists. split; [reflexivity|].
  destruct (filter (λ r, cr_Name r = cr_Name c) (clusters d)) as [|r0 l] eqn:E; cbn [head].
  - assert (cr_Name c ∉ cr_Name <$> clusters d) as Hnew.
    { intros (r & Hk & Hr)%list_elem_of_fmap_1.
      assert (r ∈ filter (λ r, cr_Name r = cr_Name c) (clusters d)) as Hin by (apply list_elem_of_filter; done).
      rewrite E in Hin. by apply not_elem_of_nil in Hin. }
    unfold upsert. rewrite decide_False by done. rewrite !filter_app, E. cbn [app].
    rewrite !filter_cons, !filter_nil, decide_True by done. rewrite decide_False by done.
    rewrite app_nil_r. done.
  - assert (r0 ∈ filter (λ r, cr_Name r = cr_Name c) (clusters d)) as [Hk Hr0]%list_elem_of_filter
      by (rewrite E; set_solver).
    rewrite (filter_unique_key cr_Name (cr_Name c) _ (upd r0)); [|done| |done].
    2:{ apply elem_of_upsert; [done|]. right; left. eauto. }
    split; [unfold merged, upd; cbn; by rewrite Hk|]. cbn [fst]. do 2 f_equal.
    unfold upsert. rewrite decide_True by (apply list_elem_of_fmap; eauto).
    clear - Ho Hu. induction (clusters d) as [|r l IH]; [done|]. rewrite fmap_cons, !filter_cons, IH.
    destruct (decide (cr_Name r = cr_Name row)) as [E'|]; [|done].
    cbn in E'. by rewrite !decide_False by (rewrite ?Hu; congruence).
Qed.

(** Also: deletion of a cluster.  When the statements succeed, [DeleteCluster] leaves no row of
    the cluster in the tables of clusters and containers and keeps the rows of every other
    cluster, in order; the log of operations and the pipeline's table keep their rows. *)
Theorem delete_cluster_complete (d : DB) (name : string) :
  faults d = [] →
  let d' := (DeleteCluster name d).2 in
  (DeleteCluster name d).1 = Ret tt ∧
  GetCluster name d' = (Ret None, d') ∧ ListContainersByCluster name d' = (Ret [], d') ∧
  clusters d' = filter (λ r, cr_Name r ≠ name) (clusters d) ∧
  containers d' = filter (λ r, ct_ClusterName r ≠ name) (containers d) ∧
  operations d' = operations d ∧ pipeline_runs d' = pipeline_runs d.
Proof.
  intros Hf. unfold DeleteCluster, GetCluster, ListContainersByCluster, mbind, GoM_bind, Exec, Query.
  cbn. rewrite Hf. cbn. rewrite Hf. cbn. rewrite Hf. split_and!; try done.
  - rewrite (filter_none (λ r, cr_Name r = name)); [done|].
    intros r [? _]%list_elem_of_filter. done.
  - rewrite (filter_none (λ r, ct_ClusterName r = name)); [done|].
    intros r [? _]%list_elem_of_filter. done.
Qed.

Definition demo_cluster : ClusterRecord := mkClusterRecord "c1" "podman" 3 2 6379 "img" "running" "" "".

Lemma upsert_get_cluster_witness :
  let d := (UpsertCluster demo_cluster (empty_db "t0")).2 in
  let c := mkClusterRecord "c1" "containerd" 4 2 6379 "img" "scaling" "" "" in
  let d' := (UpsertCluster c d).2 in
  GetCluster "c1" d' =
    (Ret (Some (mkClusterRecord "c1" "podman" 4 2 6379 "img" "scaling" "t0" "t0")), d').
Proof.
  pose proof (upsert_get_cluster (UpsertCluster demo_cluster (empty_db "t0")).2
    (mkClusterRecord "c1" "containerd" 4 2 6379 "img" "scaling" "" "") "c2") as H.
  destruct H as (_ & old & Hold & Hnew & _); [|done|done|].
  - split_and!; repeat constructor; by intros ?%not_elem_of_nil.
  - vm_compute in Hold. simplify_eq. exact Hnew.
Defined.

Lemma delete_cluster_complete_witness :
  let d := (UpsertCluster demo_cluster (empty_db "t0")).2 in
  GetCluster "c1" (DeleteCluster "c1" d).2 = (Ret None, (DeleteCluster "c1" d).2).
Proof.
  apply (delete_cluster_complete (UpsertCluster demo_cluster (empty_db "t0")).2 "c1"). reflexivity.
Defined.

End StoreTheorems.
