(* ===== verification/PipelineStore.v ===== *)
(** * A pipeline whose progress is kept in the store

    How [pipeline.New]/[Run] and the store's [pipeline_runs] table work together: crash
    recovery, and what a step that deletes the pipeline's records leaves behind. *)
From S2P Require Import Prelude GoStrings Pipeline Store StoreProps.
Import Pipe Store.

(** A world that holds a database: the interface the pipeline's clients rely on. *)
Class HasDB (W : Type) : Type := { db_of : W → DB; set_db : DB → W → W }.
Class HasDBLaws (W : Type) `{HasDB W} : Prop := {
  db_of_set d w : db_of (set_db d w) = d;
  set_db_of w : set_db (db_of w) w = w }.
Definition onDB {W A} `{HasDB W} (m : GoM DB A) : GoM W A := golift db_of set_db m.
Definition persisterOf {W} `{HasDB W} : Persister W :=
  mkPersister W (λ p s, onDB (Store.SavePipelineStep p s)) (λ p s, onDB (Store.StartPipelineStep p s))
    (λ p s, onDB (Store.FailPipelineStep p s)) (λ p, onDB (Store.LoadPipelineSteps p))
    (λ p, onDB (Store.DeletePipeline p)).

#[global] Instance DB_HasDB : HasDB DB := {| db_of := id; set_db := λ d _, d |}.
#[global] Instance DB_HasDBLaws : HasDBLaws DB.
Proof. by split. Qed.

(** The steps of a pipeline recorded as completed. *)
Definition comp (name : string) (d : DB) : gset string :=
  list_to_set (run_step <$>
    filter (λ r, run_pipeline r = name ∧ run_status r = "completed") (pipeline_runs d)).

Lemma elem_of_comp name d s :
  s ∈ comp name d ↔ ∃ r, r ∈ pipeline_runs d ∧ run_key r = (name, s) ∧ run_status r = "completed".
Proof.
  unfold comp, run_key. rewrite elem_of_list_to_set, list_elem_of_fmap.
  setoid_rewrite list_elem_of_filter. naive_solver.
Qed.

(** A database with unique keys whose statements succeed from here on. *)
Definition quiet (d : DB) : Prop := faults d = [] ∧ db_wf d.

Section statements.
Context (d : DB) (Hq : quiet d) (name s : string).

Lemma Save_quiet :
  ∃ d', Store.SavePipelineStep name s d = (Ret tt, d') ∧ quiet d' ∧ comp name d' = {[s]} ∪ comp name d.
Proof.
  destruct Hq as [Hf Hwf]. pose proof (run_op_wf (OpSave name s) d Hwf) as Hwf'. cbn [run_op] in Hwf'.
  unfold Store.SavePipelineStep, Exec in *. rewrite Hf in *. cbn in *.
  eexists. split_and!; [reflexivity|by split|]. apply set_eq. intros x.
  rewrite elem_of_union, elem_of_singleton, !elem_of_comp. cbn.
  setoid_rewrite elem_of_upsert; [|done]. split.
  - intros (r & [[Hk Hr]|[(r0 & Hr0 & Hk0 & ->)|[_ ->]]] & Hk' & Hs); [right; eauto| |];
      left; unfold run_key in *; cbn in *; congruence.
  - destruct (decide (x = s)) as [->|Hne].
    + intros _. destruct (decide ((name, s) ∈ run_key <$> pipeline_runs d)) as [Hin|Hin].
      * apply list_elem_of_fmap in Hin as (r0 & Hk & Hr0). eexists. split; [right; left; eauto|].
        done.
      * eexists. split; [right; right; eauto|]. done.
    + intros [|(r & Hr & Hk & Hs)]; [done|]. exists r. split_and!; [|done..].
      left. split; [|done]. rewrite Hk. unfold run_key; cbn. intros ?; simplify_eq.
Qed.

Lemma Start_quiet :
  ∃ d', Store.StartPipelineStep name s d = (Ret tt, d') ∧ quiet d' ∧ comp name d' = comp name d.
Proof.
  destruct Hq as [Hf Hwf]. pose proof (run_op_wf (OpStart name s) d Hwf) as Hwf'. cbn [run_op] in Hwf'.
  unfold Store.StartPipelineStep, Exec in *. rewrite Hf in *. cbn in *.
  eexists. split_and!; [reflexivity|by split|]. apply set_eq. intros x. rewrite !elem_of_comp. cbn.
  setoid_rewrite elem_of_upsert; [|done]. split.
  - intros (r & [[Hk Hr]|[(r0 & Hr0 & Hk0 & ->)|[_ ->]]] & Hk' & Hs); [eauto..|done].
  - intros (r & Hr & Hk & Hs). exists r. split_and!; [|done..].
    destruct (decide (run_key r = (name, s))); [right; left; eauto|left; done].
Qed.

Lemma Load_quiet : ∃ l, Store.LoadPipelineSteps name d = (Ret l, d) ∧ list_to_set l = comp name d.
Proof. destruct Hq as [Hf _]. unfold Store.LoadPipelineSteps, Query. rewrite Hf. eauto. Qed.

Lemma Delete_quiet :
  ∃ d', Store.DeletePipeline name d = (Ret tt, d') ∧ quiet d' ∧ comp name d' = ∅.
Proof.
  destruct Hq as [Hf Hwf]. pose proof (run_op_wf (OpDeletePipeline name) d Hwf) as Hwf'. cbn [run_op] in Hwf'.
  unfold Store.DeletePipeline, Exec in *. rewrite Hf in *. cbn in *.
  eexists. split_and!; [reflexivity|by split|]. unfold comp; cbn.
  rewrite (filter_none (λ r, run_pipeline r = name ∧ _)); [done|].
  intros r [? _]%list_elem_of_filter. naive_solver.
Qed.
End statements.

Section recovery.
Context {W : Type} `{HasDB W, !HasDBLaws W}.
Context (name : string).

(** A step that leaves this pipeline's records alone. *)
Definition keeps_records (st : Step W) : Prop := ∀ ctx w,
  quiet (db_of w) →
  quiet (db_of (s_Do st ctx w).2) ∧ comp name (db_of (s_Do st ctx w).2) = comp name (db_of w).
(** A step that ends by deleting the pipeline's records when it succeeds. *)
Definition clears_records (st : Step W) : Prop := ∀ ctx w,
  quiet (db_of w) →
  quiet (db_of (s_Do st ctx w).2) ∧
  ((s_Do st ctx w).1 = Ret tt → comp name (db_of (s_Do st ctx w).2) = ∅).

Lemma attempt_loop_ind (P : W → Prop) n do lastErr w :
  (∀ w, P w → P (do w).2) → P w → P (attempt_loop n do lastErr w).2.
Proof.
  intros Hdo. revert lastErr w; induction n as [|n IH]; intros lastErr w Hw; [done|].
  cbn [attempt_loop]. unfold mbind, GoM_bind, gotry. specialize (Hdo w Hw).
  destruct (do w) as [[] w1]; cbn in *; auto.
Qed.
Lemma executeStep_keeps ctx st w w' r :
  keeps_records st → quiet (db_of w) → executeStep ctx st w = (r, w') →
  quiet (db_of w') ∧ comp name (db_of w') = comp name (db_of w).
Proof.
  intros Hk Hq He. unfold executeStep, mbind, GoM_bind in He.
  set (c := if decide (s_Timeout st > 0) then _ else _) in He.
  pose proof (attempt_loop_ind (λ x, quiet (db_of x) ∧ comp name (db_of x) = comp name (db_of w))
    (Z.to_nat (s_Retry st + 1)) (s_Do st c) None w) as Hl.
  unfold gofail, mret, GoM_ret in He.
  destruct (attempt_loop _ _ _ w) as [[[]| | |] w1]; cbn in *; simplify_eq;
    (apply Hl; [intros x [Hx Hc]; destruct (Hk c x Hx); split; congruence|done]).
Qed.
Lemma executeStep_clears ctx st w w' :
  clears_records st → quiet (db_of w) → executeStep ctx st w = (Ret tt, w') →
  quiet (db_of w') ∧ comp name (db_of w') = ∅.
Proof.
  intros Hk Hq He. unfold executeStep, mbind, GoM_bind in He.
  set (c := if decide (s_Timeout st > 0) then _ else _) in He.
  assert (∀ n le w, quiet (db_of w) → ∀ w1, attempt_loop n (s_Do st c) le w = (Ret None, w1) →
    quiet (db_of w1) ∧ comp name (db_of w1) = ∅) as Hl.
  { clear -Hk. induction n as [|n IH]; intros le w Hq w1; [done|]. cbn [attempt_loop].
    unfold mbind, GoM_bind, gotry, mret, GoM_ret. destruct (Hk c w Hq) as [Hq1 Hc1].
    destruct (s_Do st c w) as [[[]| | |] w2]; cbn in *; intros; simplify_eq; eauto. }
  unfold gofail, mret, GoM_ret in He.
  destruct (attempt_loop _ _ _ w) as [[[]| | |] w1] eqn:E; cbn in *; simplify_eq. by eapply Hl.
Qed.

Lemma persisting_onDB p (f : GoM DB unit) s d' :
  p_Persist p = Some persisterOf →
  ∀ g : Persister W → GoM W unit, g persisterOf = onDB f → f (db_of (world s)) = (Ret tt, d') →
  persisting p g s = (Ret tt, mkPState (Completed_ s) (set_db d' (world s))).
Proof.
  intros Hp g Hg Hf. unfold persisting. rewrite Hp. unfold mbind, GoM_bind, onWorld, gotry, golift.
  rewrite Hg. unfold onDB, golift. by rewrite Hf.
Qed.

Lemma Run_loop_pending p ctx i st rest s s' :
  p_Persist p = Some persisterOf → p_Name p = name → quiet (db_of (world s)) →
  s_Name st ∉ Completed_ s →
  Run_loop p ctx i (st :: rest) s = (Ret tt, s') →
  ∃ w1 w2 w3,
    quiet (db_of w1) ∧ comp name (db_of w1) = comp name (db_of (world s)) ∧
    executeStep ctx st w1 = (Ret tt, w2) ∧
    (quiet (db_of w2) → quiet (db_of w3) ∧ comp name (db_of w3) = {[s_Name st]} ∪ comp name (db_of w2) ∧
       Run_loop p ctx (S i) rest (mkPState ({[s_Name st]} ∪ Completed_ s) w3) = (Ret tt, s')).
Proof.
  intros Hp Hnm Hq Hnew Hr. cbn [Run_loop] in Hr. rewrite decide_False in Hr by done.
  destruct (Start_quiet (db_of (world s)) Hq (p_Name p) (s_Name st)) as (d1 & Hd1 & Hq1 & Hc1).
  unfold mbind at 1, GoM_bind at 1 in Hr.
  rewrite (persisting_onDB p _ s d1 Hp _ eq_refl Hd1) in Hr.
  unfold mbind, GoM_bind, gotry, onWorld, golift in Hr. cbn [world Completed_] in Hr.
  exists (set_db d1 (world s)). rewrite db_of_set.
  destruct (executeStep ctx st (set_db d1 (world s))) as [[[]| | |] w2] eqn:He; cbn in Hr;
    [|repeat case_match; simplify_eq..].
  exists w2, (set_db (Store.SavePipelineStep name (s_Name st) (db_of w2)).2 w2).
  rewrite <- Hnm in *. split_and!; [done..|]. intros Hq2.
  destruct (Save_quiet (db_of w2) Hq2 (p_Name p) (s_Name st)) as (d3 & Hd3 & Hq3 & Hc3).
  rewrite Hd3. cbn [snd]. rewrite db_of_set. split_and!; [done..|].
  unfold gomodify, markCompleted in Hr. cbn [world Completed_] in Hr.
  rewrite (persisting_onDB p (Store.SavePipelineStep (p_Name p) (s_Name st))
    (mkPState ({[s_Name st]} ∪ Completed_ s) w2) d3 Hp _ eq_refl Hd3) in Hr.
  exact Hr.
Qed.

(** A successful run of steps that keep the records: every step is marked, and those that were
    not marked before are added to the table. *)
Lemma Run_loop_records p ctx i todo s s' :
  p_Persist p = Some persisterOf → p_Name p = name → Forall keeps_records todo →
  quiet (db_of (world s)) → Run_loop p ctx i todo s = (Ret tt, s') →
  quiet (db_of (world s')) ∧
  Completed_ s' = Completed_ s ∪ list_to_set (s_Name <$> todo) ∧
  comp name (db_of (world s')) =
    comp name (db_of (world s)) ∪ (list_to_set (s_Name <$> todo) ∖ Completed_ s).
Proof.
  intros Hp Hnm Hk. revert i s; induction Hk as [|st todo Hst Hk IH]; intros i s Hq Hr.
  { cbn in Hr. unfold mret, GoM_ret in Hr. simplify_eq. split; [done|]. set_solver. }
  destruct (decide (s_Name st ∈ Completed_ s)) as [Hin|Hnew].
  { cbn [Run_loop] in Hr. rewrite decide_True in Hr by done.
    destruct (IH _ _ Hq Hr) as (H1 & H2 & H3). rewrite H2, H3. split; [done|]. set_solver. }
  destruct (Run_loop_pending p ctx i st todo s s') as (w1 & w2 & w3 & Hq1 & Hc1 & He & Hrest); [done..|].
  destruct (executeStep_keeps ctx st w1 w2 _ Hst Hq1 He) as [Hq2 Hc2].
  destruct (Hrest Hq2) as (Hq3 & Hc3 & Hr3).
  destruct (IH _ (mkPState _ _) Hq3 Hr3) as (H1 & H2 & H3). cbn [world Completed_] in *.
  rewrite H2, H3, Hc3, Hc2, Hc1. clear -H1 Hnew. split; [done|]. cbn.
  generalize (list_to_set (s_Name <$> todo) : gset string) (comp name (db_of (world s))).
  intros N C. split; [set_solver|].
  apply set_eq. intros x. destruct (decide (x = s_Name st)); set_solver.
Qed.

Lemma Run_loop_app (p : Pipeline W) ctx i pre post s s' :
  Run_loop p ctx i (pre ++ post) s = (Ret tt, s') →
  ∃ s1, Run_loop p ctx i pre s = (Ret tt, s1) ∧
        Run_loop p ctx (i + length pre) post s1 = (Ret tt, s').
Proof.
  revert i s; induction pre as [|st pre IH]; intros i s Hr; cbn [app length] in *.
  { exists s. by rewrite Nat.add_0_r. }
  cbn [Run_loop] in *. replace (i + S (length pre))%nat with (S i + length pre)%nat by lia.
  case_decide; [by apply IH|].
  apply gobind_Ret_inv in Hr as (? & s1 & E1 & Hr). apply gobind_Ret_inv in Hr as (r & s2 & E2 & Hr).
  unfold mbind at 1, GoM_bind at 1. rewrite E1. unfold mbind at 1, GoM_bind at 1. rewrite E2.
  destruct r as [u|e].
  - apply gobind_Ret_inv in Hr as (? & s3 & E3 & Hr). apply gobind_Ret_inv in Hr as (? & s4 & E4 & Hr).
    unfold mbind, GoM_bind. rewrite E3, E4. by apply IH.
  - apply gobind_Ret_inv in Hr as (? & s3 & E3 & Hr). by apply gobind_Ret_inv in Hr as (? & s4 & E4 & ?).
Qed.

(** Steps already marked are skipped wherever they are at the front. *)
Lemma Run_loop_skip_front (p : Pipeline W) ctx i pre post s :
  (∀ st, st ∈ pre → s_Name st ∈ Completed_ s) →
  Run_loop p ctx i (pre ++ post) s = Run_loop p ctx (i + length pre) post s.
Proof.
  revert i; induction pre as [|st pre IH]; intros i Ht; cbn [app length].
  { by rewrite Nat.add_0_r. }
  cbn [Run_loop]. rewrite decide_True by (apply Ht; set_solver).
  rewrite IH by set_solver. f_equal. lia.
Qed.

Lemma New_quiet w :
  quiet (db_of w) →
  New name (Some persisterOf) w =
    (Ret (mkPipeline name [] (Some persisterOf), comp name (db_of w)), w).
Proof.
  intros Hq. unfold New, mbind, GoM_bind, gotry. unfold persisterOf; cbn.
  destruct (Load_quiet (db_of w) Hq name) as (l & Hl & Hs). unfold onDB, golift. rewrite Hl, Hs.
  by rewrite set_db_of.
Qed.

(** On the success path marks are only added, and a tail already marked is skipped. *)
Lemma Run_loop_skip (p : Pipeline W) ctx i pre tail s :
  (∀ st, st ∈ tail → s_Name st ∈ Completed_ s) →
  Run_loop p ctx i (pre ++ tail) s = Run_loop p ctx i pre s.
Proof.
  revert i s; induction pre as [|st pre IH]; intros i s Ht; cbn [app].
  - revert i. induction tail as [|st tail IHt]; intros i; [done|]. cbn [Run_loop].
    rewrite decide_True by (apply Ht; set_solver). apply IHt. set_solver.
  - cbn [Run_loop]. case_decide; [by apply IH|].
    assert (∀ g s r s', persisting p g s = (r, s') → Completed_ s' = Completed_ s) as Hpc.
    { intros g s0 r s0'. unfold persisting, mret, GoM_ret. destruct (p_Persist p); [|naive_solver].
      unfold mbind, GoM_bind, onWorld, golift, gotry. intros. repeat case_match; by simplify_eq. }
    apply gobind_ext. intros ? s1 E1. apply gobind_ext. intros [?|?] s2 E2; [|done].
    apply gobind_ext. intros ? s3 E3. apply gobind_ext. intros ? s4 E4. apply IH.
    apply Hpc in E1, E4.
    assert (Completed_ s2 = Completed_ s1) as H2.
    { unfold gotry, onWorld, golift in E2. repeat case_match; by simplify_eq. }
    unfold gomodify in E3. simplify_eq.
    intros st' Hst'. rewrite E4. cbn. rewrite H2, E1. set_solver.
Qed.
(** When a step [st] deletes the pipeline's records from inside its own [Do], a fully successful
    run leaves [st] and the steps after it recorded as completed. *)
Lemma stale_records (p : Pipeline W) ctx pre st post w s1 :
  p_Persist p = Some persisterOf → p_Name p = name → p_Steps p = pre ++ st :: post →
  NoDup (s_Name <$> p_Steps p) → Forall keeps_records (pre ++ post) → clears_records st →
  quiet (db_of w) → Run p ctx (mkPState ∅ w) = (Ret tt, s1) →
  quiet (db_of (world s1)) ∧ comp name (db_of (world s1)) = list_to_set (s_Name <$> st :: post).
Proof.
  intros Hp Hnm Hs Hnd [Hk1 Hk2]%Forall_app Hc Hq Hr. unfold Run in Hr. rewrite Hs in Hr.
  apply Run_loop_app in Hr as (s0 & Hr0 & Hr).
  destruct (Run_loop_records _ _ _ _ (mkPState _ _) _ Hp Hnm Hk1 Hq Hr0) as (Hq0 & Hm0 & _).
  rewrite Hs, fmap_app in Hnd. apply NoDup_app in Hnd as (_ & Hdis & [Hst _]%NoDup_cons).
  cbn [Completed_ world] in *.
  assert (∀ x, x ∈ Completed_ s0 → x ∉ s_Name <$> st :: post) as Hdis0.
  { intros x. rewrite Hm0. intros Hx. apply Hdis. set_solver. }
  apply Run_loop_pending in Hr as (w1 & w2 & w3 & Hq1 & _ & He & Hrest); [|done..|set_solver].
  destruct (executeStep_clears _ _ _ _ Hc Hq1 He) as [Hq2 Hc2].
  destruct (Hrest Hq2) as (Hq3 & Hc3 & Hr3).
  destruct (Run_loop_records _ _ _ _ (mkPState _ _) _ Hp Hnm Hk2 Hq3 Hr3) as (Hq4 & _ & Hc4).
  split; [done|]. cbn [world Completed_] in *. rewrite Hc4, Hc3, Hc2. apply set_eq. intros x. cbn.
  specialize (Hdis0 x). clear -Hdis0 Hst. rewrite fmap_cons, not_elem_of_cons in Hdis0.
  rewrite !elem_of_union, elem_of_difference, elem_of_union, !elem_of_singleton, elem_of_list_to_set.
  destruct (decide (x = s_Name st)) as [->|]; [tauto|]. rewrite elem_of_empty. tauto.
Qed.
End recovery.

Module PipelineStoreTheorems.
Section theorems.
Context {W : Type} `{HasDB W, !HasDBLaws W}.

(** C8: crash recovery.  When a pipeline kept in the store is cut off after its first steps
    [pre] have completed, the pipeline that [New] builds afterwards restores exactly the set of
    completed steps the interrupted process had in memory, leaves the world as it was, and its
    [Run] goes straight to the remaining steps [post], at the same positions. *)
Theorem recovery_resumes p ctx pre post w s1 :
  p_Persist p = Some persisterOf → p_Steps p = pre ++ post →
  Forall (keeps_records (p_Name p)) pre → quiet (db_of w) →
  Run_loop p ctx 0 pre (mkPState (comp (p_Name p) (db_of w)) w) = (Ret tt, s1) →
  New (p_Name p) (Some persisterOf) (world s1) =
    (Ret (mkPipeline (p_Name p) [] (Some persisterOf), Completed_ s1), world s1) ∧
  Run p ctx s1 = Run_loop p ctx (length pre) post s1.
Proof.
  intros Hp Hs Hk Hq Hr.
  destruct (Run_loop_records _ _ _ _ _ (mkPState _ _) _ Hp eq_refl Hk Hq Hr) as (Hq1 & Hc & Hd).
  cbn [world Completed_] in *. split.
  - rewrite New_quiet by done. rewrite Hc, Hd. do 3 f_equal. apply set_eq. intros x.
    destruct (decide (x ∈ comp (p_Name p) (db_of w))); set_solver.
  - unfold Run. rewrite Hs. apply (Run_loop_skip_front p ctx 0).
    intros st Hst. rewrite Hc. apply elem_of_union_r, elem_of_list_to_set. set_solver.
Qed.

(** Also: stale progress.  When a step [st] deletes the pipeline's records from inside its own
    [Do], as the persist-db steps of create, scale and delete do, the runner saves [st] and
    the steps after it again: after a fully successful run the next pipeline of the same name
    starts with these marked as completed, and its [Run] executes only the steps before
    [st]. *)
Theorem cleared_records_leave_stale_steps p ctx pre st post w s1 :
  p_Persist p = Some persisterOf → p_Steps p = pre ++ st :: post →
  NoDup (s_Name <$> p_Steps p) →
  Forall (keeps_records (p_Name p)) (pre ++ post) → clears_records (p_Name p) st →
  quiet (db_of w) → Run p ctx (mkPState ∅ w) = (Ret tt, s1) →
  let stale := list_to_set (s_Name <$> st :: post) in
  New (p_Name p) (Some persisterOf) (world s1) =
    (Ret (mkPipeline (p_Name p) [] (Some persisterOf), stale), world s1) ∧
  ∀ w', Run p ctx (mkPState stale w') = Run_loop p ctx 0 pre (mkPState stale w').
Proof.
  intros Hp Hs Hnd Hk Hc Hq Hr stale.
  destruct (stale_records (p_Name p) p ctx pre st post w s1 Hp eq_refl Hs Hnd Hk Hc Hq Hr) as [Hq1 Hc1].
  split; [by rewrite New_quiet, Hc1|]. intros w'. unfold Run. rewrite Hs. apply Run_loop_skip. intros x Hx.
  unfold stale; cbn [Completed_]. apply elem_of_list_to_set. set_solver.
Qed.
End theorems.
(** A pipeline of two steps over the database itself; the second one forgets the records. *)
Definition demo_step : Step DB := mkStep "a" (λ _, mret tt) None 0 0.
Definition demo_clear : Step DB := mkStep "b" (λ _, Store.DeletePipeline "p") None 0 0.
Definition demo_pipeline : Pipeline DB :=
  mkPipeline "p" [demo_step; demo_clear; mkStep "c" (λ _, mret tt) None 0 0] (Some persisterOf).
Definition demo_db : DB := empty_db "t0".

Lemma demo_quiet : quiet demo_db.
Proof. by repeat split; constructor. Qed.

Lemma recovery_resumes_witness :
  let s1 := (Run_loop demo_pipeline Background 0 [demo_step] (mkPState ∅ demo_db)).2 in
  New "p" (Some persisterOf) (world s1) =
    (Ret (mkPipeline "p" [] (Some persisterOf), {["a"]}), world s1).
Proof.
  pose proof (recovery_resumes demo_pipeline Background [demo_step] (drop 1 (p_Steps demo_pipeline))
    demo_db (Run_loop demo_pipeline Background 0 [demo_step] (mkPState ∅ demo_db)).2) as H.
  apply H; [done..| |apply demo_quiet|vm_compute; reflexivity].
  apply Forall_cons; split; [|constructor]. intros ctx w Hq; done.
Defined.

Lemma cleared_records_leave_stale_steps_witness :
  let s1 := (Run demo_pipeline Background (mkPState ∅ demo_db)).2 in
  New "p" (Some persisterOf) (world s1) =
    (Ret (mkPipeline "p" [] (Some persisterOf), {["b"; "c"]}), world s1).
Proof.
  pose proof (cleared_records_leave_stale_steps demo_pipeline Background [demo_step] demo_clear
    (drop 2 (p_Steps demo_pipeline)) demo_db
    (Run demo_pipeline Background (mkPState ∅ demo_db)).2) as H.
  apply H; [done..| | | |apply demo_quiet|vm_compute; reflexivity].
  - apply (bool_decide_unpack _). vm_compute. done.
  - repeat (apply Forall_cons; split; [by intros ctx w Hq|]). constructor.
  - intros ctx w Hq. cbn. destruct (Delete_quiet w Hq "p") as (d' & -> & ? & ?). done.
Defined.
End PipelineStoreTheorems.
