(* ===== verification/Redis.v ===== *)
(** * Redis servers, commands and pod managers

    The outside world of the cluster manager: the Redis servers behind go-redis clients, the
    container backends behind the [PodManager] interface, and the programs that talk to them.

    The servers are not part of the repository.  They are an oracle [srv]: what a server
    answers to a command is any function of everything that happened before (the history of
    commands, pod creations and cache invalidations) and of the command itself. *)
From S2P Require Import Prelude GoStrings Data.

(** The commands the code sends.  The arguments of [client.Do] are written as the strings
    that go on the wire, where go-redis prints integers in decimal. *)
Inductive cmd : Type :=
  | ClusterNodes
  | ClusterMeet (host port : string)
  | ClusterReplicate (id : string)
  | ClusterAddSlots (slots : list Z)
  | ClusterForget (id : string)
  | ClusterGetKeysInSlot (slot count : Z)
  | MemoryUsage (key : string)
  | Exists (key : string)
  | Del (key : string)
  | Do (args : list string).

Inductive reply : Type :=
  | RStr (s : string)
  | RInt (n : Z)
  | RList (l : list string)
  | RErr (e : error).

Inductive event : Type :=
  | EvCmd (addr : string) (c : cmd)
  | EvCreatePods (n : Z) (clusterName : string)
  | EvInvalidate (start end_ : Z).

#[global] Instance cmd_eq_dec : EqDecision cmd.
Proof. solve_decision. Defined.
#[global] Instance event_eq_dec : EqDecision event.
Proof. solve_decision. Defined.

Definition badReply : error := Errorf "redis: unexpected reply type".
(** [.Result()] of string, integer and slice commands; [.Err()] of any. *)
Definition asStr (r : reply) : string + error :=
  match r with RStr s => inl s | RErr e => inr e | _ => inr badReply end.
Definition asInt (r : reply) : Z + error :=
  match r with RInt n => inl n | RErr e => inr e | _ => inr badReply end.
Definition asList (r : reply) : list string + error :=
  match r with RList l => inl l | RErr e => inr e | _ => inr badReply end.
Definition asErr (r : reply) : option error :=
  match r with RErr e => Some e | _ => None end.
(** [.Val()]: the zero value on any error. *)
Definition valList (r : reply) : list string :=
  match asList r with inl l => l | inr _ => [] end.

(** What the program cannot control: the servers' answers and the order in which Go ranges
    over the keys of a map. *)
Class Env : Type := {
  srv : list event → string → cmd → reply;
  range_order : list event → list string → list string }.
(** Ranging over a map visits every key once. *)
Class EnvLaws `{Env} : Prop := range_order_perm h l : range_order h l ≡ₚ l.

(** ** Programs of commands

    A call sequence as a tree: the next command depends on the replies so far.  [PSpin] is a
    loop that goes round forever without sending anything more: it neither returns nor calls.
    A program is run alone by [run_prog], or interleaved with others by the worker pool. *)
Inductive prog (A : Type) : Type :=
  | PRet (a : A)
  | PCall (addr : string) (c : cmd) (k : reply → prog A)
  | PSpin.
Arguments PRet {A} a.
Arguments PCall {A} addr c k.
Arguments PSpin {A}.

#[global] Instance prog_ret : MRet prog := @PRet.
Fixpoint pbind {A B} (k : A → prog B) (p : prog A) : prog B :=
  match p with
  | PRet a => k a
  | PCall addr c kr => PCall addr c (λ r, pbind k (kr r))
  | PSpin => PSpin
  end.
#[global] Instance prog_bind : MBind prog := @pbind.
Definition pcall (addr : string) (c : cmd) : prog reply := PCall addr c PRet.

(** The result of a run alone, if it ends, and the history it leaves. *)
Fixpoint run_prog `{Env} {A} (p : prog A) (h : list event) : option A * list event :=
  match p with
  | PRet a => (Some a, h)
  | PCall addr c k => run_prog (k (srv h addr c)) (h ++ [EvCmd addr c])
  | PSpin => (None, h)
  end.

(** Whatever is answered, the program comes to its end. *)
Inductive ends {A} : prog A → Prop :=
  | ends_ret a : ends (PRet a)
  | ends_call addr c k : (∀ r, ends (k r)) → ends (PCall addr c k).
Lemma ends_bind {A B} (p : prog A) (k : A → prog B) : ends p → (∀ a, ends (k a)) → ends (p ≫= k).
Proof. intros Hp Hk. induction Hp as [a|addr c kr _ IH]; [apply Hk|]. by constructor. Qed.
Lemma ends_mret {A} (a : A) : ends (mret a).
Proof. constructor. Qed.
Lemma ends_pcall addr c : ends (pcall addr c).
Proof. repeat constructor. Qed.
Create HintDb ends_db.
#[export] Hint Resolve ends_mret ends_pcall : ends_db.
Ltac ends_tac :=
  repeat first [solve [auto with ends_db] | apply ends_bind; [|intros ?]
               | match goal with |- ends (match ?x with _ => _ end) => destruct x end].

(** ** [PodManager]

    The interface of the container backends. *)
Class PodManager (P : Type) : Type := {
  CreatePods : Z → string → GoM P unit;
  ListPodsByCluster : string → GoM P unit;
  DeleteResources : string → GoM P unit;
  HasCluster : P → string → bool;
  CountByCluster : P → string → Z;
  GetNodes : P → list RuntimeNode;
  GetNodeByIP : P → string → option RuntimeNode;
  GetNodeByHost : P → string → option RuntimeNode;
  GetNodeCount : P → Z }.
(** What the backends promise: an invariant of theirs, kept by every operation on every
    exit, under which the counts are those of the node list and a node found by address or host
    is one of the list. *)
Class PodManagerLaws (P : Type) `{PodManager P} : Type := {
  pods_ok : P → Prop;
  GetNodeCount_length p : pods_ok p → GetNodeCount p = Z.of_nat (length (GetNodes p));
  CountByCluster_length p cl :
    CountByCluster p cl = Z.of_nat (length (filter (λ n, rn_ClusterName n = cl) (GetNodes p)));
  HasCluster_count p cl : HasCluster p cl = bool_decide (CountByCluster p cl ≠ 0);
  GetNodeByIP_listed p h n : pods_ok p → GetNodeByIP p h = Some n → n ∈ GetNodes p;
  GetNodeByHost_listed p h n : pods_ok p → GetNodeByHost p h = Some n → n ∈ GetNodes p;
  CreatePods_ok n c : pres pods_ok (CreatePods n c);
  ListPodsByCluster_ok c : pres pods_ok (ListPodsByCluster c);
  DeleteResources_ok c : pres pods_ok (DeleteResources c) }.
