(* ===== verification/Backend.v ===== *)
(** * Container backends

    [cluster/backend/base.go] (the tables of known nodes), [podman.go] (the backend that runs the
    [podman] command line) and [backend.go] (the choice of a backend).

    The host is an oracle: what a [podman] invocation prints or how it fails, whether a
    directory can be made, whether the caller's context has ended, and how many turns of the
    readiness loop start before its two-minute deadline are functions of what happened so far. *)
From S2P Require Import Prelude GoStrings Data Config Redis.

Inductive hostEvent : Type :=
  | HExec (args : list string)
  | HMkdir (path : string).
#[global] Instance hostEvent_eq_dec : EqDecision hostEvent.
Proof. solve_decision. Defined.
Class Host : Type := {
  exec : list hostEvent → list string → string + error;
  mkdirAll : list hostEvent → string → option error;
  ctxErr : list hostEvent → option error;
  patience : list hostEvent → nat }.

(** ** [baseNodeManager] *)
Module Base.
Record baseNodeManager : Type := mkBase {
  IPToNode : gmap string RuntimeNode;
  HostToNode : gmap string RuntimeNode;
  IDToNode : gmap string RuntimeNode;
  Nodes : list RuntimeNode;
  Num : Z }.
Definition emptyBase : baseNodeManager := mkBase ∅ ∅ ∅ [] 0.
Implicit Types b : baseNodeManager.

Definition addNode (node : RuntimeNode) b : baseNodeManager :=
  mkBase (<[rn_ConIp node := node]> (IPToNode b))
    (if decide (rn_Hostname node ≠ "") then <[rn_Hostname node := node]> (HostToNode b) else HostToNode b)
    (<[rn_ID node := node]> (IDToNode b)) (Nodes b ++ [node]) (Num b + 1).
Definition hasCluster b (clusterName : string) : bool :=
  existsb (λ node, bool_decide (rn_ClusterName node = clusterName)) (Nodes b).
Definition getNodes b : list RuntimeNode := Nodes b.
Definition getNodeByIP b (ip : string) : option RuntimeNode := IPToNode b !! ip.
Definition getNodeByHost b (host : string) : option RuntimeNode :=
  match HostToNode b !! host with
  | Some node => Some node
  | None => IPToNode b !! host
  end.
Definition getNodeCount b : Z := Num b.
Definition countByCluster b (name : string) : Z :=
  foldl (λ count node, if decide (rn_ClusterName node = name) then count + 1 else count) 0 (Nodes b).
Definition resetMaps (_ : baseNodeManager) : baseNodeManager := emptyBase.
End Base.

(** ** [PodmanNodeManager] *)
Module Podman.
Import Base.
Record PodmanNodeManager : Type := mkPodman {
  config : RuntimeConfig;
  base : baseNodeManager;
  hostHist : list hostEvent }.
Definition NewPodmanNodeManager (cfg : RuntimeConfig) : PodmanNodeManager := mkPodman cfg emptyBase [].

Section podman.
Context `{Host}.
Abbreviation M := (GoM PodmanNodeManager).

Definition logHost (e : hostEvent) (c : PodmanNodeManager) : PodmanNodeManager :=
  mkPodman (config c) (base c) (hostHist c ++ [e]).
Definition onBase (f : baseNodeManager → baseNodeManager) : M unit :=
  gomodify (λ c, mkPodman (config c) (f (base c)) (hostHist c)).
(** [exec.Command("podman", args...).Output()] *)
Definition podman (args : list string) : M string := λ c,
  (match exec (hostHist c) args with inl out => Ret out | inr err => Fail err end, logHost (HExec args) c).
Definition MkdirAll (path : string) : M unit := λ c,
  (match mkdirAll (hostHist c) path with Some err => Fail err | None => Ret tt end, logHost (HMkdir path) c).
(** [select { case <-ctx.Done(): return ctx.Err(); default: }] *)
Definition checkCtx : M unit := λ c,
  (match ctxErr (hostHist c) with Some err => Fail err | None => Ret tt end, c).
(** [s[:12]] *)
Definition short (s : string) : M string :=
  if decide (String.length s < 12)%nat then gopanic "slice bounds out of range" else mret (str_take 12 s).

(** The address is filled in through the pointer the tables already hold. *)
Definition AddRuntimeNode (node : RuntimeNode) : M unit :=
  let addr :=
    if decide (ClientAddr (rn_Address node) = "") then
      mkNodeAddress (hostport (rn_ConIp node) (rn_ConPort node)) (hostport (rn_HostIP node) (rn_HostPort node))
    else rn_Address node in
  onBase (addNode (mkRuntimeNode (rn_HostIP node) (rn_HostPort node) (rn_ConIp node) (rn_ConPort node)
    (rn_Hostname node) (rn_Name node) (rn_ID node) (rn_ClusterName node) addr)).

Definition getContainerIP (containerID : string) : M string :=
  out ← podman ["inspect"; "-f"; "{{range .NetworkSettings.Networks}}{{.IPAddress}}{{end}}"; containerID];
  let ip := TrimSpace out in
  if decide (ip = "<nil>") then gofail (Errorf "container IP is nil") else mret ip.
Definition getContainerHostPort (containerID : string) (containerPort : Z) : M Z :=
  out ← podman ["port"; containerID; Itoa containerPort];
  let line := TrimSpace out in
  match after_last ":" line with
  | None => gofail (Errorf ("unexpected port output: " +:+ line))
  | Some rest =>
      match ParseUint (TrimSpace rest) 16 with
      | (portVal, None) => mret (uint16 portVal)
      | (_, Some e) =>
          gofail (Wrapf ("failed to parse port from " +:+ Quote line) (NumError "ParseUint" (TrimSpace rest) e))
      end
  end.
Definition getContainerFullID (name : string) : M string :=
  out ← podman ["inspect"; "-f"; "{{.Id}}"; name]; mret (TrimSpace out).

Definition containerName (clusterName : string) (i : Z) : string := clusterName +:+ "-redis-" +:+ Itoa i.
Definition cleanupContainers (clusterName : string) (fromIdx toIdx : Z) : M unit :=
  goforeach (λ i, _ ← gotry (podman ["rm"; "-f"; containerName clusterName i]); mret tt)
    (range_incl fromIdx toIdx).

(** The readiness loop; [turns] start before the deadline. *)
Fixpoint waitReady (turns : nat) (clusterName : string) (start i : Z) (containerID : string) (port : Z)
    : M (string * Z) :=
  match turns with
  | O =>
      _ ← cleanupContainers clusterName start i;
      gofail (Errorf ("timed out waiting for container " +:+ containerName clusterName i +:+ " to be ready"))
  | S k =>
      done ← gotry checkCtx;
      match done with
      | inr err => _ ← cleanupContainers clusterName start i; gofail err
      | inl _ =>
          r ← gotry (getContainerIP containerID);
          match r with
          | inr _ => waitReady k clusterName start i containerID port
          | inl ip =>
              if decide (ip = "") then waitReady k clusterName start i containerID port
              else
                r ← gotry (getContainerHostPort containerID port);
                match r with
                | inl hostPort =>
                    if decide (hostPort = 0) then waitReady k clusterName start i containerID port
                    else mret (ip, hostPort)
                | inr _ => waitReady k clusterName start i containerID port
                end
          end
      end
  end.

Definition runArgs (cfg : RuntimeConfig) (clusterName : string) (i : Z) : list string :=
  let port := RedisContainerPort cfg in
  let busPort := port + 10000 in
  let dataHostPath := Filepath.Join2 (RedisHostDataPath cfg) clusterName in
  ["run"; "-d"; "--name"; containerName clusterName i; "-p"; Itoa port; "-p"; Itoa busPort;
   "-v"; RedisHostConfigPath cfg +:+ String ":" (RedisConfigPath cfg);
   "-v"; dataHostPath +:+ String ":" (RedisConfigDataPath cfg);
   ImageName cfg; "redis-server"; RedisConfigPath cfg +:+ "/redis.conf";
   "--port"; Itoa port; "--cluster-announce-bus-port"; Itoa busPort] ++
  (if Conf.DNSEnabled cfg then ["--cluster-announce-ip"; containerName clusterName i] else []).
Definition nodeOf (cfg : RuntimeConfig) (clusterName name : string) (i : Z) (hostPort : Z) (ip id : string)
    : RuntimeNode :=
  mkRuntimeNode "127.0.0.1" hostPort ip (RedisContainerPort cfg)
    (if Conf.DNSEnabled cfg then Conf.BuildHostname cfg clusterName i else "") name id clusterName
    (mkNodeAddress "" "").

(** One turn of the loop of [CreatePods]. *)
Definition createPod (clusterName : string) (start i : Z) : M unit :=
  c ← goget;
  let cfg := config c in
  let dataHostPath := Filepath.Join2 (RedisHostDataPath cfg) clusterName in
  _ ← checkCtx;
  _ ← gowrap (Wrapf ("failed to create data dir " +:+ dataHostPath)) (MkdirAll dataHostPath);
  out ← gowrap (Wrapf ("failed to run container " +:+ containerName clusterName i)) (podman (runArgs cfg clusterName i));
  let containerID := TrimSpace out in
  id ← short containerID;
  c ← goget;
  '(ip, hostPort) ← waitReady (patience (hostHist c)) clusterName start i containerID (RedisContainerPort cfg);
  AddRuntimeNode (nodeOf cfg clusterName (containerName clusterName i) i hostPort ip id).
Definition PodmanCreatePods (nodeNum : Z) (clusterName : string) : M unit :=
  c ← goget;
  let start := Num (base c) + 1 in
  let end_ := int64 (Num (base c) + nodeNum) in
  goforeach (createPod clusterName start) (range_incl start end_).

(** A container that cannot be inspected is skipped. *)
Definition listPod (clusterName name0 : string) : M unit :=
  c ← goget;
  let cfg := config c in
  let name := TrimSpace name0 in
  if decide (name = "") then mret tt
  else
    r ← gotry (getContainerIP name);
    match r with
    | inr _ => mret tt
    | inl ip =>
        r ← gotry (getContainerHostPort name (RedisContainerPort cfg));
        match r with
        | inr _ => mret tt
        | inl hostPort =>
            r ← gotry (getContainerFullID name);
            match r with
            | inr _ => mret tt
            | inl fullID =>
                id ← short fullID;
                let nodeIndex := (Atoi (TrimPrefix name (clusterName +:+ "-redis-"))).1 in
                onBase (addNode (nodeOf cfg clusterName name nodeIndex hostPort ip id))
            end
        end
    end.
Definition names (out : string) : list string := Split "010" (TrimSpace out).
Definition PodmanListPods (clusterName : string) : M unit :=
  _ ← onBase resetMaps;
  out ← gowrap (Wrapf "failed to list containers")
          (podman ["ps"; "--filter"; "name=" +:+ clusterName +:+ "-redis"; "--format"; "{{.Names}}"]);
  goforeach (listPod clusterName) (names out).

Definition removePod (name0 : string) : M unit :=
  let name := TrimSpace name0 in
  if decide (name = "") then mret tt
  else _ ← gotry (podman ["rm"; "-f"; name]); mret tt.
Definition PodmanDeleteResources (clusterName : string) : M unit :=
  out ← gowrap (Wrapf "failed to list containers")
          (podman ["ps"; "-a"; "--filter"; "name=" +:+ clusterName +:+ "-redis"; "--format"; "{{.Names}}"]);
  goforeach removePod (names out).

#[global] Instance podman_pods : PodManager PodmanNodeManager := {|
  CreatePods := PodmanCreatePods;
  ListPodsByCluster := PodmanListPods;
  DeleteResources := PodmanDeleteResources;
  HasCluster c := hasCluster (base c);
  CountByCluster c := countByCluster (base c);
  GetNodes c := getNodes (base c);
  GetNodeByIP c := getNodeByIP (base c);
  GetNodeByHost c := getNodeByHost (base c);
  GetNodeCount c := getNodeCount (base c) |}.
End podman.
End Podman.

(** ** The choice of a backend, in a build without containerd support *)
Definition newContainerdOrError (cfg : RuntimeConfig) : outcome Podman.PodmanNodeManager :=
  Fail (Errorf "containerd backend not compiled in: rebuild with -tags containerd").
Definition NewNodeManager (cfg : RuntimeConfig) : outcome Podman.PodmanNodeManager :=
  if decide (Backend cfg = "podman") then Ret (Podman.NewPodmanNodeManager cfg)
  else if decide (Backend cfg = "containerd") then newContainerdOrError cfg
  else Fail (Errorf ("unsupported backend: " +:+ Backend cfg)).
