(* ===== verification/BackendProps.v ===== *)
(** * Container backends: correctness

    The tables of known nodes stay consistent on every exit of every operation, so that the
    podman backend keeps the promises of the [PodManager] interface; which nodes pod creation
    adds, and what a retry of it adds; which containers deletion removes. *)
From S2P Require Import Prelude GoStrings Data Config Redis Backend.
Import Base Podman.

(** ** The tables *)
Record base_ok (b : baseNodeManager) : Prop := mkBaseOk {
  ok_num : Num b = Z.of_nat (length (Nodes b));
  ok_ip : ∀ k n, IPToNode b !! k = Some n → n ∈ Nodes b ∧ rn_ConIp n = k;
  ok_host : ∀ k n, HostToNode b !! k = Some n → n ∈ Nodes b ∧ rn_Hostname n = k;
  ok_id : ∀ k n, IDToNode b !! k = Some n → n ∈ Nodes b ∧ rn_ID n = k;
  ok_all : ∀ n, n ∈ Nodes b → is_Some (IPToNode b !! rn_ConIp n) ∧ is_Some (IDToNode b !! rn_ID n) }.
Lemma base_ok_empty : base_ok emptyBase.
Proof. split; cbn; [done|set_solver..]. Qed.
(** An inserted entry and the entries there before. *)
Lemma table_insert (f : RuntimeNode → string) (m : gmap string RuntimeNode) l node :
  (∀ k n, m !! k = Some n → n ∈ l ∧ f n = k) →
  ∀ k n, <[f node := node]> m !! k = Some n → n ∈ l ++ [node] ∧ f n = k.
Proof.
  intros Hm k n. destruct (decide (f node = k)) as [<-|Hne].
  - rewrite lookup_insert_eq. intros [= <-]. set_solver.
  - rewrite lookup_insert_ne by done. intros [? ?]%Hm. set_solver.
Qed.
Lemma insert_is_Some (m : gmap string RuntimeNode) k k' n : is_Some (m !! k') → is_Some (<[k := n]> m !! k').
Proof. intros. destruct (decide (k = k')) as [->|]; [rewrite lookup_insert_eq|rewrite lookup_insert_ne by done]; eauto. Qed.
Lemma addNode_ok node b : base_ok b → base_ok (addNode node b).
Proof.
  intros [Hn Hip Hh Hid Hall]. split; cbn.
  - rewrite length_app; cbn. lia.
  - by apply table_insert.
  - case_decide; [by apply table_insert|]. intros k n [? ?]%Hh. set_solver.
  - by apply table_insert.
  - intros n [Hin|Hin]%elem_of_app.
    + destruct (Hall n Hin). split; by apply insert_is_Some.
    + apply list_elem_of_singleton in Hin as ->. rewrite !lookup_insert_eq. eauto.
Qed.

(** ** What the queries of the tables return *)
Lemma count_filter cl l k :
  foldl (λ count node, if decide (rn_ClusterName node = cl) then count + 1 else count) k l =
  k + Z.of_nat (length (filter (λ n, rn_ClusterName n = cl) l)).
Proof.
  revert k. induction l as [|n l IH]; intros k; [cbn; lia|]. cbn [foldl]. rewrite IH, filter_cons. case_decide; cbn [length]; lia.
Qed.
Lemma has_count b cl : hasCluster b cl = bool_decide (countByCluster b cl ≠ 0).
Proof.
  unfold countByCluster, hasCluster. rewrite count_filter. induction (Nodes b) as [|n l IH]; [done|].
  cbn [existsb]. rewrite filter_cons. destruct (decide (rn_ClusterName n = cl)) as [E|E].
  - rewrite (bool_decide_true (rn_ClusterName n = cl)) by done. rewrite bool_decide_true; [done|]. cbn [length]. lia.
  - rewrite (bool_decide_false (rn_ClusterName n = cl)) by done. exact IH.
Qed.
Lemma byHost_listed b h n : base_ok b → getNodeByHost b h = Some n → n ∈ Nodes b.
Proof.
  intros Hb. unfold getNodeByHost. destruct (HostToNode b !! h) eqn:E.
  - intros [= <-]. by apply (ok_host _ Hb h).
  - intros Hn. by apply (ok_ip _ Hb h n).
Qed.

Section podman.
Context `{Host}.
Definition ok (c : PodmanNodeManager) : Prop := base_ok (base c).
Lemma podman_ok args : pres ok (podman args).
Proof. by intros c. Qed.
Lemma MkdirAll_ok p : pres ok (MkdirAll p).
Proof. by intros c. Qed.
Lemma checkCtx_ok : pres ok checkCtx.
Proof. by intros c. Qed.
Lemma short_ok s : pres ok (short s).
Proof. unfold short. pres_tac. Qed.
Lemma onBase_add_ok node : pres ok (onBase (addNode node)).
Proof. intros c. apply addNode_ok. Qed.
Lemma onBase_reset_ok : pres ok (onBase resetMaps).
Proof. intros c _. apply base_ok_empty. Qed.
Hint Resolve podman_ok MkdirAll_ok checkCtx_ok short_ok onBase_add_ok onBase_reset_ok : go_pres.
Lemma getContainerIP_ok id : pres ok (getContainerIP id).
Proof. unfold getContainerIP. pres_tac. Qed.
Lemma getContainerHostPort_ok id p : pres ok (getContainerHostPort id p).
Proof. unfold getContainerHostPort. pres_tac. Qed.
Lemma getContainerFullID_ok id : pres ok (getContainerFullID id).
Proof. unfold getContainerFullID. pres_tac. Qed.
Lemma cleanup_ok cl a b : pres ok (cleanupContainers cl a b).
Proof. unfold cleanupContainers. pres_tac. Qed.
Hint Resolve getContainerIP_ok getContainerHostPort_ok getContainerFullID_ok cleanup_ok : go_pres.
Lemma waitReady_ok k cl a i id p : pres ok (waitReady k cl a i id p).
Proof. induction k; cbn [waitReady]; pres_tac. Qed.
Hint Resolve waitReady_ok : go_pres.
Lemma createPod_ok cl a i : pres ok (createPod cl a i).
Proof. unfold createPod, AddRuntimeNode. pres_tac. Qed.
Lemma listPod_ok cl n : pres ok (listPod cl n).
Proof. unfold listPod. pres_tac. Qed.
Hint Resolve createPod_ok listPod_ok : go_pres.

(** The podman backend implements the interface. *)
#[global] Instance podman_laws : PodManagerLaws PodmanNodeManager.
Proof.
  refine {| pods_ok := ok |}; cbn.
  - intros c Hc. apply (ok_num _ Hc).
  - intros c cl. unfold countByCluster. rewrite count_filter. done.
  - intros c cl. apply has_count.
  - intros c h n Hc Hn. by apply (ok_ip _ Hc h n).
  - intros c h n Hc. by apply byHost_listed.
  - intros n c. unfold PodmanCreatePods. pres_tac.
  - intros c. unfold PodmanListPods. pres_tac.
  - intros c. unfold PodmanDeleteResources, removePod. pres_tac.
Defined.
End podman.

(** ** What pod creation adds *)
Section create.
Context `{Host}.
(** Everything but the registration of a node leaves the tables alone. *)
Definition same (c0 c : PodmanNodeManager) : Prop := base c = base c0 ∧ config c = config c0.
Lemma podman_same c0 args : pres (same c0) (podman args).
Proof. by intros c. Qed.
Lemma MkdirAll_same c0 p : pres (same c0) (MkdirAll p).
Proof. by intros c. Qed.
Lemma checkCtx_same c0 : pres (same c0) checkCtx.
Proof. by intros c. Qed.
Lemma short_same c0 s : pres (same c0) (short s).
Proof. unfold short. pres_tac. Qed.
Hint Resolve podman_same MkdirAll_same checkCtx_same short_same : go_pres.
Lemma getContainerIP_same c0 id : pres (same c0) (getContainerIP id).
Proof. unfold getContainerIP. pres_tac. Qed.
Lemma getContainerHostPort_same c0 id p : pres (same c0) (getContainerHostPort id p).
Proof. unfold getContainerHostPort. pres_tac. Qed.
Lemma cleanup_same c0 cl a b : pres (same c0) (cleanupContainers cl a b).
Proof. unfold cleanupContainers. pres_tac. Qed.
Hint Resolve getContainerIP_same getContainerHostPort_same cleanup_same : go_pres.
Lemma waitReady_same c0 k cl a i id p : pres (same c0) (waitReady k cl a i id p).
Proof. induction k; cbn [waitReady]; pres_tac. Qed.

Lemma getContainerHostPort_range id p c n c' : getContainerHostPort id p c = (Ret n, c') → 0 ≤ n < 65536.
Proof.
  unfold getContainerHostPort. intros (out & c1 & _ & Hk)%gobind_Ret_inv.
  destruct (after_last _ _); [|done]. destruct (ParseUint _ 16) as [v []]; [done|].
  injection Hk as <- _. apply uint16_range.
Qed.
(** A container is ready only with an address and a port. *)
Lemma waitReady_result k cl a i id p c ip hp c' :
  waitReady k cl a i id p c = (Ret (ip, hp), c') → ip ≠ "" ∧ 0 < hp < 65536.
Proof.
  revert c. induction k as [|k IH]; intros c; cbn [waitReady].
  - by intros (? & ? & _ & ?)%gobind_Ret_inv.
  - intros (d & c1 & _ & Hk)%gobind_Ret_inv. destruct d as [_|err]; [|by apply gobind_Ret_inv in Hk as (? & ? & _ & ?)].
    apply gobind_Ret_inv in Hk as (r & c2 & _ & Hk). destruct r as [ip'|]; [|by eapply IH].
    case_decide; [by eapply IH|]. apply gobind_Ret_inv in Hk as (r & c3 & Hport & Hk).
    destruct r as [hp'|]; [|by eapply IH]. case_decide; [by eapply IH|]. injection Hk as -> -> _.
    split; [done|]. unfold gotry in Hport. destruct (getContainerHostPort _ _ _) as [[n| | |] c4] eqn:E; simplify_eq.
    apply getContainerHostPort_range in E. lia.
Qed.

(** A freshly started pod of cluster [cl] with index [i]. *)
Record pod_of (cfg : RuntimeConfig) (cl : string) (i : Z) (n : RuntimeNode) : Prop := mkPodOf {
  pod_name : rn_Name n = containerName cl i;
  pod_cluster : rn_ClusterName n = cl;
  pod_addr : rn_HostIP n = "127.0.0.1" ∧ rn_ConIp n ≠ "" ∧ 0 < rn_HostPort n < 65536;
  pod_port : rn_ConPort n = RedisContainerPort cfg;
  pod_client : ClientConnAddr n = hostport "127.0.0.1" (rn_HostPort n) }.

Lemma createPod_spec cl a i c :
  match createPod cl a i c with
  | (Ret _, c') => config c' = config c ∧ ∃ n, pod_of (config c) cl i n ∧ base c' = addNode n (base c)
  | (_, c') => same c c'
  end.
Proof.
  set (Q := λ r : outcome unit * PodmanNodeManager, match r with
    | (Ret _, c') => config c' = config c ∧ ∃ n, pod_of (config c) cl i n ∧ base c' = addNode n (base c)
    | (_, c') => same c c' end). change (Q (createPod cl a i c)).
  assert (∀ o c', same c c' → (∀ b, o ≠ Ret b) → Q (o, c')) as Hexit
    by (intros [b| | |] c' Hs Ho; [by destruct (Ho b)|done..]).
  unfold createPod. apply (bind_cases (same c)); [apply pres_get|done| |done]. intros ? ? _ [= <- <-].
  do 3 (apply (bind_cases (same c)); [auto 10 using pres_wrap with go_pres|done| |done]; intros ? ? ? ?).
  apply (bind_cases (same c)); [auto with go_pres|done| |done]. intros id c4 Hc4 Hid.
  apply (bind_cases (same c)); [apply pres_get|done| |done]. intros ? ? Hc5 [= <- <-].
  apply (bind_cases (same c)); [apply waitReady_same|done| |done]. intros [ip hp] c6 [Hb6 Hcfg6] Hw.
  apply waitReady_result in Hw as [Hip Hhp]. unfold AddRuntimeNode, onBase, gomodify. cbn.
  split; [done|]. eexists. split; [|by rewrite Hb6]. split; cbn; [done|done|done|done|].
  unfold ClientConnAddr. cbn. rewrite decide_True; [done|]. unfold hostport. done.
Qed.
(** The loop adds pods in index order and stops at the first that fails. *)
Lemma create_loop cl a k i c :
  let '(r, c') := goforeach (createPod cl a) (seqZ i (Z.of_nat k)) c in
  config c' = config c ∧ ∃ new, Nodes (base c') = Nodes (base c) ++ new ∧
    (∀ j n, new !! j = Some n → pod_of (config c) cl (i + Z.of_nat j) n) ∧
    (length new ≤ k)%nat ∧ (r = Ret tt ↔ length new = k).
Proof.
  revert i c. induction k as [|k IH]; intros i c.
  { cbn. split; [done|]. exists []. by rewrite app_nil_r. }
  replace (Z.of_nat (S k)) with (Z.succ (Z.of_nat k)) by lia. rewrite seqZ_cons by lia. rewrite Z.pred_succ.
  cbn [goforeach]. unfold mbind, GoM_bind. pose proof (createPod_spec cl a i c) as Hone.
  destruct (createPod cl a i c) as [[[]|e|p|] c1].
  2-4: (destruct Hone as [Hb Hc]; split; [done|]; exists []; rewrite Hb, app_nil_r; split_and!; [done|intros j n'; by rewrite lookup_nil|cbn; lia|done]).
  destruct Hone as (Hc1 & n & Hn & Hb1). specialize (IH (Z.succ i) c1).
  destruct (goforeach _ _ c1) as [r c2]. destruct IH as (Hc2 & new & Hnew & Hall & Hle & Hiff).
  split; [congruence|]. exists (n :: new). rewrite Hnew, Hb1. cbn [Nodes addNode]. rewrite <- app_assoc.
  split_and!; [done| |cbn; lia|rewrite Hiff; cbn; lia].
  intros [|j] n' Hj; cbn in Hj; [simplify_eq; by replace (i + Z.of_nat 0) with i by lia|].
  apply Hall in Hj. rewrite Hc1 in Hj. by replace (i + Z.of_nat (S j)) with (Z.succ i + Z.of_nat j) by lia.
Qed.
Lemma CreatePods_spec n cl c :
  0 ≤ n → in_int64 (Num (base c) + n) →
  let '(r, c') := PodmanCreatePods n cl c in
  config c' = config c ∧ ∃ new, Nodes (base c') = Nodes (base c) ++ new ∧
    (∀ j p, new !! j = Some p → pod_of (config c) cl (Num (base c) + 1 + Z.of_nat j) p) ∧
    Z.of_nat (length new) ≤ n ∧ (r = Ret tt ↔ Z.of_nat (length new) = n).
Proof.
  intros Hn Hint. unfold PodmanCreatePods. go_run. rewrite int64_id by done. unfold range_incl.
  pose proof (create_loop cl (Num (base c) + 1) (Z.to_nat n) (Num (base c) + 1) c) as Hl.
  replace (Num (base c) + n - (Num (base c) + 1) + 1) with (Z.of_nat (Z.to_nat n)) by lia.
  destruct (goforeach _ _ c) as [r c']. destruct Hl as (Hc & new & H1 & H2 & H3 & H4).
  split; [done|]. exists new. split_and!; [done|done|lia|rewrite H4; lia].
Qed.
End create.

Module BackendTheorems.
Section theorems.
Context `{Host}.

(** C35: pod creation.  Whatever podman does, [CreatePods] only appends nodes: pods of the cluster
    whose names continue the numbering of the known nodes without a gap, each with an address,
    a valid host port and a client address on the loopback interface.  It returns without an
    error exactly when it has added all of them; on an error the ones added so far stay. *)
Theorem created_pods_appended n cl c :
  base_ok (base c) → 0 ≤ n → in_int64 (Num (base c) + n) →
  let '(r, c') := PodmanCreatePods n cl c in
  base_ok (base c') ∧ ∃ new, Nodes (base c') = Nodes (base c) ++ new ∧
    (∀ j p, new !! j = Some p → pod_of (config c) cl (Z.of_nat (length (Nodes (base c)) + j + 1)) p) ∧
    Z.of_nat (length new) ≤ n ∧ (r = Ret tt ↔ Z.of_nat (length new) = n).
Proof.
  intros Hok Hn Hint. pose proof (CreatePods_spec n cl c Hn Hint) as Hs.
  pose proof (CreatePods_ok n cl c Hok) as Hok'. cbn [CreatePods podman_pods] in Hok'.
  destruct (PodmanCreatePods n cl c) as [r c']. destruct Hs as (_ & new & H1 & H2 & H3 & H4).
  split; [exact Hok'|]. exists new. split_and!; [done| |done|done]. intros j p Hj. apply H2 in Hj.
  rewrite (ok_num _ Hok) in Hj. by replace (Z.of_nat (length (Nodes (base c)) + j + 1))
    with (Z.of_nat (length (Nodes (base c))) + 1 + Z.of_nat j) by lia.
Qed.

(** Also: a retry creates a full set again.  If a first attempt to create [n] pods fails after
    it has added [k] of them and the second attempt succeeds, [k + n] pods have been added. *)
Theorem retry_creates_full_set n cl c e c1 c2 :
  base_ok (base c) → 0 ≤ n → in_int64 (Num (base c) + n + n) →
  PodmanCreatePods n cl c = (Fail e, c1) → PodmanCreatePods n cl c1 = (Ret tt, c2) →
  ∃ k, 0 ≤ k < n ∧ getNodeCount (base c1) = getNodeCount (base c) + k ∧
    getNodeCount (base c2) = getNodeCount (base c) + k + n.
Proof.
  intros Hok Hn Hint H1 H2. pose proof (ok_num _ Hok) as Hnum.
  assert (in_int64 (Num (base c) + n)) as Hi1 by (unfold in_int64 in *; unfold minInt in *; lia).
  pose proof (CreatePods_spec n cl c Hn Hi1) as S1. rewrite H1 in S1. destruct S1 as (_ & new1 & E1 & _ & L1 & I1).
  pose proof (CreatePods_ok n cl c Hok) as Hok1. cbn [CreatePods podman_pods] in Hok1. rewrite H1 in Hok1.
  pose proof (CreatePods_ok n cl c1 Hok1) as Hok2. cbn [CreatePods podman_pods] in Hok2. rewrite H2 in Hok2.
  pose proof (ok_num _ Hok1) as Hnum1. pose proof (ok_num _ Hok2) as Hnum2. cbn [snd] in *.
  rewrite E1, length_app in Hnum1.
  assert (Z.of_nat (length new1) ≠ n) as Hlt by (intros E; by apply I1 in E).
  assert (in_int64 (Num (base c1) + n)) as Hi2 by (unfold in_int64 in *; unfold minInt in *; lia).
  pose proof (CreatePods_spec n cl c1 Hn Hi2) as S2. rewrite H2 in S2. destruct S2 as (_ & new2 & E2 & _ & L2 & I2).
  rewrite E2, E1, !length_app in Hnum2. exists (Z.of_nat (length new1)). unfold getNodeCount.
  assert (Z.of_nat (length new2) = n) by (by apply I2). lia.
Qed.

(** Also: deletion.  [DeleteResources] asks podman for the containers whose name matches the
    cluster's prefix and removes every one it lists, one after another, whether or not
    earlier removals failed. *)
Theorem deletes_what_podman_lists cl c out :
  let ps := ["ps"; "-a"; "--filter"; "name=" +:+ cl +:+ "-redis"; "--format"; "{{.Names}}"] in
  exec (hostHist c) ps = inl out →
  let '(r, c') := PodmanDeleteResources cl c in
  r = Ret tt ∧ base c' = base c ∧
  hostHist c' = hostHist c ++ HExec ps ::
    ((λ n, HExec ["rm"; "-f"; n]) <$> filter (λ n, n ≠ "") (TrimSpace <$> names out)).
Proof.
  intros ps Hps. unfold PodmanDeleteResources. fold ps. unfold gowrap, podman, mbind, GoM_bind. rewrite Hps.
  set (c0 := logHost (HExec ps) c).
  rewrite (goforeach_fold removePod (λ c n, if decide (TrimSpace n = "") then c
    else logHost (HExec ["rm"; "-f"; TrimSpace n]) c)).
  2:{ intros s x. unfold removePod. case_decide; [done|]. unfold gotry, podman, mbind, GoM_bind. by destruct (exec (hostHist s) _). }
  assert (∀ l c1, let c2 := foldl (λ c n, if decide (TrimSpace n = "") then c
      else logHost (HExec ["rm"; "-f"; TrimSpace n]) c) c1 l in
    base c2 = base c1 ∧ hostHist c2 = hostHist c1 ++
      ((λ n, HExec ["rm"; "-f"; n]) <$> filter (λ n, n ≠ "") (TrimSpace <$> l))) as Hfold.
  { induction l as [|x l IH]; intros c1; [split; [done|]; exact (eq_sym (app_nil_r _))|]. cbn [foldl fmap list_fmap].
    rewrite filter_cons. destruct (decide (TrimSpace x = "")) as [E|E].
    - rewrite decide_False by (by intros ?). apply IH.
    - rewrite decide_True by done. destruct (IH (logHost (HExec ["rm"; "-f"; TrimSpace x]) c1)) as [-> ->].
      split; [done|]. cbn. by rewrite <- app_assoc. }
  destruct (Hfold (names out) c0) as [Hb Hh]. split_and!; [done|by rewrite Hb|]. rewrite Hh. cbn. by rewrite <- app_assoc.
Qed.
End theorems.
End BackendTheorems.

(** A host where the second container that is started fails, and all others start at once. *)
Module BackendWitness.
Definition isRun (e : hostEvent) : bool := match e with HExec ("run" :: _) => true | _ => false end.
Definition flaky (hist : list hostEvent) (args : list string) : string + error :=
  match args with
  | "run" :: _ =>
      if decide (length (List.filter isRun hist) = 1)%nat then inr (Errorf "exit status 125")
      else inl "4f1c0ffee0ddba11"
  | "inspect" :: _ => inl "10.88.0.2"
  | "port" :: _ => inl "0.0.0.0:40001"
  | _ => inl "foo-redis-1"
  end.
#[local] Instance flaky_host : Host :=
  {| exec := flaky; mkdirAll := λ _ _, None; ctxErr := λ _, None; patience := λ _, 60%nat |}.
Definition cfg0 : RuntimeConfig :=
  mkRuntimeConfig "/src" "/conf" "/c" "/data" "/d" "/run" "/run/c.yaml" "podman" "" "" "redis" 6379 None None false.
Definition fresh : PodmanNodeManager := NewPodmanNodeManager cfg0.
Definition after1 : PodmanNodeManager := (PodmanCreatePods 2 "c" fresh).2.
Definition after2 : PodmanNodeManager := (PodmanCreatePods 2 "c" after1).2.

Lemma created_pods_appended_witness :
  base_ok (base after1) ∧ ∃ new, Nodes (base after1) = new ∧ Z.of_nat (length new) ≤ 2.
Proof.
  pose proof (BackendTheorems.created_pods_appended 2 "c" fresh base_ok_empty ltac:(lia)
    ltac:(split; vm_compute; discriminate)) as Hc.
  unfold after1. destruct (PodmanCreatePods 2 "c" fresh) as [r c'].
  destruct Hc as (Hok & new & Hn & _ & Hl & _). split; [exact Hok|]. exists new. split; [exact Hn|exact Hl].
Defined.
Lemma retry_creates_full_set_witness :
  ∃ k, 0 ≤ k < 2 ∧ getNodeCount (base after1) = 0 + k ∧ getNodeCount (base after2) = 0 + k + 2.
Proof.
  apply (BackendTheorems.retry_creates_full_set 2 "c" fresh
    (Wrapf "failed to run container c-redis-2" (Errorf "exit status 125")) after1 after2);
    [apply base_ok_empty|lia|split; vm_compute; discriminate|vm_compute; reflexivity|vm_compute; reflexivity].
Defined.
Example three_pods : getNodeCount (base after2) = 3.
Proof. vm_compute. reflexivity. Qed.
(** Deleting the cluster "oo" removes a container of "foo": the name filter matches it. *)
Lemma deletes_what_podman_lists_witness :
  HExec ["rm"; "-f"; "foo-redis-1"] ∈ hostHist (PodmanDeleteResources "oo" fresh).2.
Proof.
  pose proof (BackendTheorems.deletes_what_podman_lists "oo" fresh "foo-redis-1" eq_refl) as Hd. cbv zeta in Hd.
  destruct (PodmanDeleteResources "oo" fresh) as [r c']. destruct Hd as (_ & _ & Hh). cbn [snd]. rewrite Hh. vm_compute. set_solver.
Defined.
End BackendWitness.
