(* ===== verification/Containerd.v ===== *)
(** * The containerd backend

    [cluster/backend/containerd.go], the backend of a build with the containerd tag.

    The containerd client is a library.  It is an oracle here: what a call answers is a
    function of the calls made so far.  [CtrLaws] states what its documentation says about a
    listing: it holds the containers that match at least one of the filters. *)
From S2P Require Import Prelude GoStrings Data Config Redis Backend.

(** ** OCI runtime specifications *)
Record Mount : Type := mkMount {
  m_Destination : string; m_Type : string; m_Source : string; m_Options : list string }.
Record LinuxCapabilities : Type := mkCaps {
  Bounding : list string; Permitted : list string; Inheritable : list string; Effective : list string }.
Record POSIXRlimit : Type := mkRlimit { rl_Type : string; rl_Hard : Z; rl_Soft : Z }.
Inductive LinuxNamespace : Type := PIDNamespace | IPCNamespace | UTSNamespace | MountNamespace | NetworkNamespace.
Record Spec : Type := mkSpec {
  sp_Version : string;
  sp_Terminal : bool;
  sp_UID : Z;
  sp_GID : Z;
  sp_Args : list string;
  sp_Env : list string;
  sp_Cwd : string;
  sp_Capabilities : LinuxCapabilities;
  sp_Rlimits : list POSIXRlimit;
  sp_RootPath : string;
  sp_Readonly : bool;
  sp_Mounts : list Mount;
  sp_Namespaces : list LinuxNamespace }.
#[global] Instance Mount_eq_dec : EqDecision Mount.
Proof. solve_decision. Defined.
#[global] Instance LinuxCapabilities_eq_dec : EqDecision LinuxCapabilities.
Proof. solve_decision. Defined.
#[global] Instance POSIXRlimit_eq_dec : EqDecision POSIXRlimit.
Proof. solve_decision. Defined.
#[global] Instance LinuxNamespace_eq_dec : EqDecision LinuxNamespace.
Proof. solve_decision. Defined.
#[global] Instance Spec_eq_dec : EqDecision Spec.
Proof. solve_decision. Defined.

Definition defaultCaps : list string :=
  ["CAP_CHOWN"; "CAP_DAC_OVERRIDE"; "CAP_FSETID"; "CAP_FOWNER"; "CAP_MKNOD"; "CAP_NET_RAW"; "CAP_SETGID";
   "CAP_SETUID"; "CAP_SETFCAP"; "CAP_SETPCAP"; "CAP_NET_BIND_SERVICE"; "CAP_SYS_CHROOT"; "CAP_KILL"; "CAP_AUDIT_WRITE"].
Definition defaultSpec : Spec := {|
  sp_Version := "1.0.0";
  sp_Terminal := false;
  sp_UID := 0;
  sp_GID := 0;
  sp_Args := [];
  sp_Env := ["PATH=/usr/local/sbin:/usr/local/bin:/usr/sbin:/usr/bin:/sbin:/bin"];
  sp_Cwd := "/";
  sp_Capabilities := mkCaps defaultCaps defaultCaps defaultCaps defaultCaps;
  sp_Rlimits := [mkRlimit "RLIMIT_NOFILE" 1024 1024];
  sp_RootPath := "rootfs";
  sp_Readonly := false;
  sp_Mounts :=
    [mkMount "/proc" "proc" "proc" [];
     mkMount "/dev" "tmpfs" "tmpfs" ["nosuid"; "strictatime"; "mode=755"; "size=65536k"];
     mkMount "/dev/pts" "devpts" "devpts" ["nosuid"; "noexec"; "newinstance"; "ptmxmode=0666"; "mode=0620"];
     mkMount "/sys" "sysfs" "sysfs" ["nosuid"; "noexec"; "nodev"; "ro"]];
  sp_Namespaces := [PIDNamespace; IPCNamespace; UTSNamespace; MountNamespace] |}.
(** [spec.Process.Args = args; spec.Mounts = mounts] *)
Definition set_spec (args : list string) (mounts : list Mount) (s : Spec) : Spec :=
  mkSpec (sp_Version s) (sp_Terminal s) (sp_UID s) (sp_GID s) args (sp_Env s) (sp_Cwd s) (sp_Capabilities s)
    (sp_Rlimits s) (sp_RootPath s) (sp_Readonly s) mounts (sp_Namespaces s).

(** ** The client *)
Inductive ctrEvent : Type :=
  | CtrPull (image : string)
  | CtrNewContainer (id snapshot image : string) (spec : Spec) (labels : list (string * string))
  | CtrNewTask (id : string)
  | CtrStart (id : string)
  | CtrTask (id : string)
  | CtrDeleteTask (id : string)
  | CtrDeleteContainer (id : string)
  | CtrList (filters : list string)
  | CtrInfo (id : string).
#[global] Instance ctrEvent_eq_dec : EqDecision ctrEvent.
Proof. solve_decision. Defined.
Class Ctr : Type := {
  ctrDial : string → option error;                                    (* containerd.New *)
  ctrErr : list ctrEvent → ctrEvent → option error;                   (* does the call fail? *)
  ctrContainers : list ctrEvent → gmap string (gmap string string);   (* containers and their labels *)
  ctrMatches : string → gmap string string → bool;                    (* a filter on labels *)
  ctrListed : list ctrEvent → list string → list string;              (* the result of a listing *)
  ctrCtxErr : list ctrEvent → option error;
  ctrCwd : string + error }.

(** [labels.*k*==v], with the label quoted *)
Definition quote : ascii := "034".
Definition labelFilter (k v : string) : string := "labels." +:+ Quote k +:+ "==" +:+ v.
(** A value the filter language reads as it stands: letters, digits, dashes, underscores, dots. *)
Definition plainValue (v : string) : bool :=
  negb (bool_decide (v = "")) && str_forall (λ a,
    let n := Z.of_N (N_of_ascii a) in
    bool_decide (97 ≤ n ≤ 122 ∨ 65 ≤ n ≤ 90 ∨ 48 ≤ n ≤ 57 ∨ n = 45 ∨ n = 95 ∨ n = 46)) v.
(** The documentation of the API: a filter on a label (without quotes in it) compares
    its value; a listing holds the containers that match any of the filters. *)
Class CtrLaws `{Ctr} : Prop := {
  matches_label k v ls : no_char quote k = true → plainValue v = true → ctrMatches (labelFilter k v) ls = bool_decide (ls !! k = Some v);
  listed_any h fs id :
    id ∈ ctrListed h fs ↔ ∃ ls, ctrContainers h !! id = Some ls ∧ existsb (λ f, ctrMatches f ls) fs = true }.

Module Containerd.
Import Base.
Definition containerdNamespace : string := "cluster-manager".
Record ContainerdNodeManager : Type := mkContainerd {
  config : RuntimeConfig;
  base : baseNodeManager;
  ctrHist : list ctrEvent }.

Section containerd.
Context `{Ctr}.
Abbreviation M := (GoM ContainerdNodeManager).

Definition NewContainerdNodeManager (cfg : RuntimeConfig) : outcome ContainerdNodeManager :=
  match ctrDial (ContainerdSocket cfg) with
  | Some err => Fail (Wrapf ("failed to connect to containerd at " +:+ ContainerdSocket cfg) err)
  | None => Ret (mkContainerd cfg emptyBase [])
  end.

(** A call of the client. *)
Definition call (e : ctrEvent) : M unit := λ c,
  (match ctrErr (ctrHist c) e with Some err => Fail err | None => Ret tt end,
   mkContainerd (config c) (base c) (ctrHist c ++ [e])).
Definition dropErr (e : ctrEvent) : M unit := _ ← gotry (call e); mret tt.
Definition checkCtx : M unit := λ c,
  (match ctrCtxErr (ctrHist c) with Some err => Fail err | None => Ret tt end, c).
Definition onBase (f : baseNodeManager → baseNodeManager) : M unit :=
  gomodify (λ c, mkContainerd (config c) (f (base c)) (ctrHist c)).
Definition short (s : string) : M string :=
  if decide (String.length s < 12)%nat then gopanic "slice bounds out of range" else mret (str_take 12 s).

Definition AddRuntimeNode (node : RuntimeNode) : M unit :=
  let addr :=
    if decide (ClientAddr (rn_Address node) = "") then
      mkNodeAddress (hostport (rn_ConIp node) (rn_ConPort node)) (hostport (rn_HostIP node) (rn_HostPort node))
    else rn_Address node in
  onBase (addNode (mkRuntimeNode (rn_HostIP node) (rn_HostPort node) (rn_ConIp node) (rn_ConPort node)
    (rn_Hostname node) (rn_Name node) (rn_ID node) (rn_ClusterName node) addr)).

(** [filepath.Abs] *)
Definition Abs (p : string) : string + error :=
  if Filepath.IsAbs p then inl (Filepath.Clean p)
  else match ctrCwd with inl d => inl (Filepath.Join2 d p) | inr err => inr err end.

Definition containerName (clusterName : string) (i : Z) : string := clusterName +:+ "-redis-" +:+ Itoa i.
Definition redisArgs (cfg : RuntimeConfig) (name : string) (port : Z) : list string :=
  ["redis-server"; RedisConfigPath cfg +:+ "/redis.conf"; "--port"; Itoa port;
   "--cluster-announce-bus-port"; Itoa (int64 (port + 10000))] ++
  (if Conf.DNSEnabled cfg then ["--cluster-announce-ip"; name] else []).
Definition specOf (cfg : RuntimeConfig) (clusterName name : string) (port : Z) : Spec :=
  let configHostPath := match Abs (RedisHostConfigPath cfg) with inl p => p | inr _ => RedisHostConfigPath cfg end in
  let dataHostPath := Filepath.Join2 (RedisHostDataPath cfg) clusterName in
  set_spec (redisArgs cfg name port)
    [mkMount (RedisConfigPath cfg) "bind" configHostPath ["rbind"; "ro"];
     mkMount (RedisConfigDataPath cfg) "bind" dataHostPath ["rbind"; "rw"]] defaultSpec.
Definition labelsOf (clusterName : string) (i : Z) : list (string * string) :=
  [("cluster-name", clusterName); ("managed-by", "clusterManager"); ("node-index", Itoa i)].
Definition nodeOf (cfg : RuntimeConfig) (hostCluster name id cluster : string) (i port : Z) : RuntimeNode :=
  mkRuntimeNode "127.0.0.1" (uint16 port) "127.0.0.1" (uint16 port)
    (if Conf.DNSEnabled cfg then Conf.BuildHostname cfg hostCluster i else "") name id cluster (mkNodeAddress "" "").

(** One turn of the loop of [CreatePods]. *)
Definition createPod (clusterName : string) (i : Z) : M unit :=
  c ← goget;
  let cfg := config c in
  let name := containerName clusterName i in
  let port := int64 (RedisContainerPort cfg + (i - 1)) in
  _ ← checkCtx;
  _ ← gowrap (Wrapf ("create container " +:+ name +:+ " fail"))
        (call (CtrNewContainer name (name +:+ "-snapshot") (ImageName cfg) (specOf cfg clusterName name port)
                 (labelsOf clusterName i)));
  task ← gotry (call (CtrNewTask name));
  match task with
  | inr err =>
      _ ← dropErr (CtrDeleteContainer name);
      gofail (Wrapf ("create task for " +:+ name +:+ " fail") err)
  | inl _ =>
      started ← gotry (call (CtrStart name));
      match started with
      | inr err =>
          _ ← dropErr (CtrDeleteTask name);
          _ ← dropErr (CtrDeleteContainer name);
          gofail (Wrapf ("start task for " +:+ name +:+ " fail") err)
      | inl _ =>
          id ← short name;
          AddRuntimeNode (nodeOf cfg clusterName name id clusterName i port)
      end
  end.
Definition CtrCreatePods (nodeNum : Z) (clusterName : string) : M unit :=
  c ← goget;
  let start := Num (base c) + 1 in
  let end_ := int64 (Num (base c) + nodeNum) in
  _ ← gowrap (Wrapf ("pull image " +:+ ImageName (config c) +:+ " fail")) (call (CtrPull (ImageName (config c))));
  goforeach (createPod clusterName) (range_incl start end_).

(** [client.Containers(ctx, filters...)] *)
Definition containers (clusterName : string) : M (list string) :=
  let fs := [labelFilter "cluster-name" clusterName; labelFilter "managed-by" "clusterManager"] in
  c ← goget;
  _ ← gowrap (Wrapf "list containers fail") (call (CtrList fs));
  mret (ctrListed (ctrHist c) fs).

(** The listing fills the tables itself, except the one by host name. *)
Definition recordNode (node : RuntimeNode) (b : baseNodeManager) : baseNodeManager :=
  mkBase (<[rn_ConIp node := node]> (IPToNode b)) (HostToNode b) (<[rn_ID node := node]> (IDToNode b))
    (Nodes b ++ [node]) (Num b + 1).
Definition listPod (clusterName id : string) : M unit :=
  c ← goget;
  let cfg := config c in
  r ← gotry (call (CtrInfo id));
  match r with
  | inr _ => mret tt
  | inl _ =>
      let labels := default ∅ (ctrContainers (ctrHist c) !! id) in
      let nodeIndex := (Atoi (default "" (labels !! "node-index"))).1 in
      let port := int64 (RedisContainerPort cfg + (nodeIndex - 1)) in
      sid ← short id;
      onBase (recordNode (nodeOf cfg clusterName id sid (default "" (labels !! "cluster-name")) nodeIndex port))
  end.
Definition CtrListPods (clusterName : string) : M unit :=
  _ ← onBase resetMaps;
  ids ← containers clusterName;
  goforeach (listPod clusterName) ids.

Definition removePod (id : string) : M unit :=
  task ← gotry (call (CtrTask id));
  _ ← match task with inl _ => dropErr (CtrDeleteTask id) | inr _ => mret tt end;
  dropErr (CtrDeleteContainer id).
Definition CtrDeleteResources (clusterName : string) : M unit :=
  ids ← containers clusterName;
  goforeach removePod ids.

#[global] Instance containerd_pods : PodManager ContainerdNodeManager := {|
  CreatePods := CtrCreatePods;
  ListPodsByCluster := CtrListPods;
  DeleteResources := CtrDeleteResources;
  HasCluster c := hasCluster (base c);
  CountByCluster c := countByCluster (base c);
  GetNodes c := getNodes (base c);
  GetNodeByIP c := getNodeByIP (base c);
  GetNodeByHost c := getNodeByHost (base c);
  GetNodeCount c := getNodeCount (base c) |}.
End containerd.
End Containerd.
