(* ===== verification/ContainerdProps.v ===== *)
(** * The containerd backend: correctness

    The backend keeps the promises of the [PodManager] interface.  Which nodes creation
    adds and with which ports; that a short cluster name makes creation panic after the
    container was started; which containers deletion removes, given what the client documents
    about filters. *)
From S2P Require Import Prelude GoStrings Data Config Redis Backend BackendProps Containerd.
Import Base Containerd.

Lemma recordNode_ok node b : base_ok b → base_ok (recordNode node b).
Proof.
  intros [Hn Hip Hh Hid Hall]. split; cbn.
  - rewrite length_app; cbn. lia.
  - by apply table_insert.
  - intros k n [? ?]%Hh. set_solver.
  - by apply table_insert.
  - intros n [Hin|Hin]%elem_of_app.
    + destruct (Hall n Hin). split; by apply insert_is_Some.
    + apply list_elem_of_singleton in Hin as ->. rewrite !lookup_insert_eq. eauto.
Qed.

Section laws.
Context `{Ctr}.
Definition ctr_ok (c : ContainerdNodeManager) : Prop := base_ok (base c).
Lemma call_ctr_ok e : pres ctr_ok (call e).
Proof. by intros c. Qed.
Lemma checkCtx_ctr_ok : pres ctr_ok checkCtx.
Proof. by intros c. Qed.
Lemma short_ctr_ok s : pres ctr_ok (short s).
Proof. unfold short. pres_tac. Qed.
Lemma add_ctr_ok node : pres ctr_ok (onBase (addNode node)).
Proof. intros c. apply addNode_ok. Qed.
Lemma record_ctr_ok node : pres ctr_ok (onBase (recordNode node)).
Proof. intros c. apply recordNode_ok. Qed.
Lemma reset_ctr_ok : pres ctr_ok (onBase resetMaps).
Proof. intros c _. apply base_ok_empty. Qed.
Hint Resolve call_ctr_ok checkCtx_ctr_ok short_ctr_ok add_ctr_ok record_ctr_ok reset_ctr_ok : go_pres.
Lemma drop_ctr_ok e : pres ctr_ok (dropErr e).
Proof. unfold dropErr. pres_tac. Qed.
Lemma containers_ctr_ok cl : pres ctr_ok (containers cl).
Proof. unfold containers. pres_tac. Qed.
Hint Resolve drop_ctr_ok containers_ctr_ok : go_pres.
Lemma createPod_ctr_ok cl i : pres ctr_ok (createPod cl i).
Proof. unfold createPod, AddRuntimeNode. pres_tac. Qed.
Lemma listPod_ctr_ok cl id : pres ctr_ok (listPod cl id).
Proof. unfold listPod. pres_tac. Qed.
Lemma removePod_ctr_ok id : pres ctr_ok (removePod id).
Proof. unfold removePod. pres_tac. Qed.
Hint Resolve createPod_ctr_ok listPod_ctr_ok removePod_ctr_ok : go_pres.

(** The containerd backend implements the interface. *)
#[global] Instance containerd_laws : PodManagerLaws ContainerdNodeManager.
Proof.
  refine {| pods_ok := ctr_ok |}; cbn.
  - intros c Hc. apply (ok_num _ Hc).
  - intros c cl. unfold countByCluster. by rewrite count_filter.
  - intros c cl. apply has_count.
  - intros c h n Hc Hn. by apply (ok_ip _ Hc h n).
  - intros c h n Hc. by apply byHost_listed.
  - intros n c. unfold CtrCreatePods. pres_tac.
  - intros c. unfold CtrListPods. pres_tac.
  - intros c. unfold CtrDeleteResources. pres_tac.
Defined.
End laws.

(** ** What creation adds *)
Section create.
Context `{Ctr}.
Definition ctr_same (c0 c : ContainerdNodeManager) : Prop := base c = base c0 ∧ config c = config c0.
Lemma call_ctr_same c0 e : pres (ctr_same c0) (call e).
Proof. by intros c. Qed.
Lemma checkCtx_ctr_same c0 : pres (ctr_same c0) checkCtx.
Proof. by intros c. Qed.
Hint Resolve call_ctr_same checkCtx_ctr_same : go_pres.
Lemma drop_ctr_same c0 e : pres (ctr_same c0) (dropErr e).
Proof. unfold dropErr. pres_tac. Qed.
Hint Resolve drop_ctr_same : go_pres.

(** A freshly started container of cluster [cl] with index [i]: all of them listen on the
    loopback address, on ports that follow the index. *)
Record ctr_pod (cfg : RuntimeConfig) (cl : string) (i : Z) (n : RuntimeNode) : Prop := mkCtrPod {
  cp_name : rn_Name n = containerName cl i;
  cp_cluster : rn_ClusterName n = cl;
  cp_ip : rn_ConIp n = "127.0.0.1" ∧ rn_HostIP n = "127.0.0.1";
  cp_port : rn_HostPort n = uint16 (RedisContainerPort cfg + (i - 1)) ∧ rn_ConPort n = rn_HostPort n;
  cp_id : rn_ID n = str_take 12 (containerName cl i) ∧ (12 ≤ String.length (containerName cl i))%nat }.

(** Wrapping to 64 bits first does not change the low sixteen. *)
Lemma uint16_int64 x : uint16 (int64 x) = uint16 x.
Proof.
  unfold uint16, int64, minInt.
  rewrite (Z.mod_eq (x - -9223372036854775808) 18446744073709551616) by lia.
  set (q := (x - -9223372036854775808) / 18446744073709551616).
  replace (x - -9223372036854775808 - 18446744073709551616 * q + -9223372036854775808)
    with (x + (- (281474976710656 * q)) * 65536) by lia.
  by rewrite Z.mod_add by lia.
Qed.

Lemma createPod_adds cl i c :
  match createPod cl i c with
  | (Ret _, c') => config c' = config c ∧ ∃ n, ctr_pod (config c) cl i n ∧ base c' = addNode n (base c)
  | (_, c') => ctr_same c c'
  end.
Proof.
  set (Q := λ r : outcome unit * ContainerdNodeManager, match r with
    | (Ret _, c') => config c' = config c ∧ ∃ n, ctr_pod (config c) cl i n ∧ base c' = addNode n (base c)
    | (_, c') => ctr_same c c' end). change (Q (createPod cl i c)).
  assert (∀ o c', ctr_same c c' → (∀ b, o ≠ Ret b) → Q (o, c')) as Hexit
    by (intros [b| | |] c' Hs Ho; [by destruct (Ho b)|done..]).
  unfold createPod. apply (bind_cases (ctr_same c)); [apply pres_get|done| |done]. intros ? ? _ [= <- <-].
  do 2 (apply (bind_cases (ctr_same c)); [auto using pres_wrap with go_pres|done| |done]; intros ? ? ? ?).
  apply (bind_cases (ctr_same c)); [auto using pres_try with go_pres|done| |done]. intros [_|err] c3 Hc3 _.
  2:{ apply (bind_cases (ctr_same c)); [auto with go_pres|done| |done]. intros ? c4 Hc4 _. by apply Hexit. }
  apply (bind_cases (ctr_same c)); [auto using pres_try with go_pres|done| |done]. intros [_|err] c4 Hc4 _.
  2:{ do 2 (apply (bind_cases (ctr_same c)); [auto with go_pres|done| |done]; intros ? ? ? ?). by apply Hexit. }
  unfold short. case_decide; [by apply Hexit|]. destruct Hc4 as [Hb4 Hcfg4].
  unfold AddRuntimeNode, onBase, gomodify, mbind, GoM_bind, mret, GoM_ret. cbn. split; [done|].
  eexists. split; [|by rewrite Hb4]. split; cbn; [done|done|done|by rewrite uint16_int64|split; [done|lia]].
Qed.
(** The loop adds containers in index order and stops at the first that fails. *)
Lemma ctr_create_loop cl k i c :
  let '(r, c') := goforeach (createPod cl) (seqZ i (Z.of_nat k)) c in
  config c' = config c ∧ ∃ new, Nodes (base c') = Nodes (base c) ++ new ∧
    (∀ j n, new !! j = Some n → ctr_pod (config c) cl (i + Z.of_nat j) n) ∧
    (length new ≤ k)%nat ∧ (r = Ret tt ↔ length new = k).
Proof.
  revert i c. induction k as [|k IH]; intros i c.
  { cbn. split; [done|]. exists []. by rewrite app_nil_r. }
  replace (Z.of_nat (S k)) with (Z.succ (Z.of_nat k)) by lia. rewrite seqZ_cons by lia. rewrite Z.pred_succ.
  cbn [goforeach]. unfold mbind, GoM_bind. pose proof (createPod_adds cl i c) as Hone.
  destruct (createPod cl i c) as [[[]|e|p|] c1].
  2-4: (destruct Hone as [Hb Hc]; split; [done|]; exists []; rewrite Hb, app_nil_r; split_and!;
        [done|intros j n'; by rewrite lookup_nil|cbn; lia|done]).
  destruct Hone as (Hc1 & n & Hn & Hb1). specialize (IH (Z.succ i) c1).
  destruct (goforeach _ _ c1) as [r c2] eqn:Er. destruct IH as (Hc2 & new & Hnew & Hall & Hle & Hiff).
  split; [congruence|]. exists (n :: new). rewrite Hnew, Hb1. cbn [Nodes addNode]. rewrite <- app_assoc.
  split_and!; [done| |cbn; lia|rewrite Hiff; cbn; lia].
  intros [|j] n' Hj; cbn in Hj; [simplify_eq; by replace (i + Z.of_nat 0) with i by lia|].
  apply Hall in Hj. rewrite Hc1 in Hj. by replace (i + Z.of_nat (S j)) with (Z.succ i + Z.of_nat j) by lia.
Qed.
End create.

(** ** One address for all nodes *)
Section address.
Context `{Ctr}.
Definition loopback : string := "127.0.0.1".
Definition one_ip (c : ContainerdNodeManager) : Prop :=
  Forall (λ n, rn_ConIp n = loopback) (Nodes (base c)) ∧ IPToNode (base c) !! loopback = last (Nodes (base c)).
Lemma call_one_ip e : pres one_ip (call e).
Proof. by intros c. Qed.
Lemma checkCtx_one_ip : pres one_ip checkCtx.
Proof. by intros c. Qed.
Lemma short_one_ip s : pres one_ip (short s).
Proof. unfold short. pres_tac. Qed.
Lemma reset_one_ip : pres one_ip (onBase resetMaps).
Proof. intros c _. split; [constructor|done]. Qed.
Lemma add_one_ip f node : rn_ConIp node = loopback →
  (∀ b, Nodes (f b) = Nodes b ++ [node] ∧ IPToNode (f b) = <[rn_ConIp node := node]> (IPToNode b)) →
  pres one_ip (onBase f).
Proof.
  intros Hn Hf c [Hall Hlast]. unfold one_ip. cbn. destruct (Hf (base c)) as [-> ->]. split.
  - apply Forall_app. auto.
  - rewrite Hn, lookup_insert_eq. by rewrite last_snoc.
Qed.
Hint Resolve call_one_ip checkCtx_one_ip short_one_ip reset_one_ip : go_pres.
Lemma addNode_one_ip node : rn_ConIp node = loopback → pres one_ip (onBase (addNode node)).
Proof. intros. by apply (add_one_ip _ node). Qed.
Lemma recordNode_one_ip node : rn_ConIp node = loopback → pres one_ip (onBase (recordNode node)).
Proof. intros. by apply (add_one_ip _ node). Qed.
Hint Extern 5 (pres one_ip (onBase (addNode _))) => apply addNode_one_ip; reflexivity : go_pres.
Hint Extern 5 (pres one_ip (onBase (recordNode _))) => apply recordNode_one_ip; reflexivity : go_pres.
Lemma drop_one_ip e : pres one_ip (dropErr e).
Proof. unfold dropErr. pres_tac. Qed.
Lemma containers_one_ip cl : pres one_ip (containers cl).
Proof. unfold containers. pres_tac. Qed.
Hint Resolve drop_one_ip containers_one_ip : go_pres.
Lemma createPod_one_ip cl i : pres one_ip (createPod cl i).
Proof. unfold createPod, AddRuntimeNode. pres_tac. Qed.
Lemma listPod_one_ip cl id : pres one_ip (listPod cl id).
Proof. unfold listPod. pres_tac. Qed.
Lemma removePod_one_ip id : pres one_ip (removePod id).
Proof. unfold removePod. pres_tac. Qed.
Hint Resolve createPod_one_ip listPod_one_ip removePod_one_ip : go_pres.

(** The operations of a backend, and their effect. *)
Inductive podOp : Type := OpCreate (n : Z) (cl : string) | OpList (cl : string) | OpDelete (cl : string).
Definition runPodOp {P} `{PodManager P} (p : P) (o : podOp) : P :=
  match o with
  | OpCreate n cl => (CreatePods n cl p).2
  | OpList cl => (ListPodsByCluster cl p).2
  | OpDelete cl => (DeleteResources cl p).2
  end.
Lemma runPodOp_one_ip c o : one_ip c → one_ip (runPodOp c o).
Proof.
  destruct o as [n cl|cl|cl]; cbn; revert c;
    change (pres one_ip (CtrCreatePods n cl)) || change (pres one_ip (CtrListPods cl)) ||
    change (pres one_ip (CtrDeleteResources cl)).
  - unfold CtrCreatePods. pres_tac.
  - unfold CtrListPods. pres_tac.
  - unfold CtrDeleteResources. pres_tac.
Qed.
End address.

(** ** What deletion removes *)
Section delete.
Context `{Ctr}.
Lemma removePod_events id c : ∃ pre, (∀ i, CtrDeleteContainer i ∉ pre) ∧
  removePod id c = (Ret tt, mkContainerd (config c) (base c) (ctrHist c ++ pre ++ [CtrDeleteContainer id])).
Proof.
  unfold removePod, dropErr, gotry, call, mbind, GoM_bind, mret, GoM_ret. cbn.
  destruct (ctrErr (ctrHist c) (CtrTask id)) as [err|]; cbn.
  - exists [CtrTask id]. split; [set_solver|].
    destruct (ctrErr _ (CtrDeleteContainer id)); cbn; by rewrite <- app_assoc.
  - exists [CtrTask id; CtrDeleteTask id]. split; [set_solver|].
    destruct (ctrErr _ (CtrDeleteTask id)); cbn; destruct (ctrErr _ (CtrDeleteContainer id)); cbn;
      by rewrite <- !app_assoc.
Qed.
Lemma remove_loop_events ids c : ∃ ev, (∀ i, CtrDeleteContainer i ∈ ev ↔ i ∈ ids) ∧
  goforeach removePod ids c = (Ret tt, mkContainerd (config c) (base c) (ctrHist c ++ ev)).
Proof.
  revert c. induction ids as [|id ids IH]; intros c.
  { exists []. split; [set_solver|]. cbn. rewrite app_nil_r. by destruct c. }
  cbn [goforeach]. destruct (removePod_events id c) as (pre & Hpre & Hr).
  unfold mbind, GoM_bind. rewrite Hr. destruct (IH (mkContainerd (config c) (base c) (ctrHist c ++ pre ++ [CtrDeleteContainer id])))
    as (ev & Hev & ->). exists (pre ++ [CtrDeleteContainer id] ++ ev). cbn. split; [|by rewrite <- !app_assoc].
  intros i. specialize (Hpre i). specialize (Hev i). set_solver.
Qed.
End delete.

Module ContainerdTheorems.
Section theorems.
Context `{Ctr}.

(** Also: creation with containerd.  Whatever the client answers, [CreatePods] only appends
    nodes, named and numbered consecutively, each on the loopback address and on the
    configured port plus its index less one, cut to sixteen bits.  Asked for at least one, it
    returns without an error exactly when it has added all of them. *)
Theorem containerd_pods_numbered n cl c :
  base_ok (base c) → 0 < n → in_int64 (Num (base c) + n) →
  let '(r, c') := CtrCreatePods n cl c in
  base_ok (base c') ∧ ∃ new, Nodes (base c') = Nodes (base c) ++ new ∧
    (∀ j p, new !! j = Some p → ctr_pod (config c) cl (Z.of_nat (length (Nodes (base c)) + j + 1)) p) ∧
    Z.of_nat (length new) ≤ n ∧ (r = Ret tt ↔ Z.of_nat (length new) = n).
Proof.
  intros Hok Hn Hint. pose proof (CreatePods_ok n cl c Hok) as Hok'. cbn [CreatePods containerd_pods] in Hok'.
  revert Hok'. unfold CtrCreatePods. unfold mbind at 1 3, GoM_bind at 1 3, goget.
  rewrite int64_id by done. unfold range_incl. unfold mbind, GoM_bind, gowrap, call.
  destruct (ctrErr _ _) as [err|]; cbn [fst snd].
  { intros Hok'. split; [exact Hok'|]. exists []. cbn. rewrite app_nil_r. split_and!; [done|set_solver|lia|].
    split; [done|lia]. }
  set (c1 := mkContainerd _ _ _). pose proof (ctr_create_loop cl (Z.to_nat n) (Num (base c) + 1) c1) as Hl.
  replace (Num (base c) + n - (Num (base c) + 1) + 1) with (Z.of_nat (Z.to_nat n)) by lia.
  destruct (goforeach _ _ c1) as [r c']. destruct Hl as (Hc & new & H1 & H2 & H3 & H4). intros Hok'.
  split; [exact Hok'|]. exists new. split_and!; [done| |lia|rewrite H4; lia].
  intros j p Hj. apply H2 in Hj. change (config c1) with (config c) in Hj. rewrite (ok_num _ Hok) in Hj.
  by replace (Z.of_nat (length (Nodes (base c)) + j + 1)) with (Z.of_nat (length (Nodes (base c))) + 1 + Z.of_nat j) by lia.
Qed.

(** Also: a short cluster name crashes the program.  The first twelve bytes of the container's
    name serve as its identifier.  With a name of at most three bytes and a client that never
    fails, the creation of the first container panics, after the container was started and
    before it is recorded: it keeps running, unknown to the program. *)
Theorem short_names_panic n cl c :
  (String.length cl ≤ 3)%nat → Num (base c) = 0 → 0 < n → in_int64 n →
  (∀ h e, ctrErr h e = None) → (∀ h, ctrCtxErr h = None) →
  let '(r, c') := CtrCreatePods n cl c in
  (∃ msg, r = Panic msg) ∧ base c' = base c ∧
  ∃ ev, ctrHist c' = ctrHist c ++ ev ∧ CtrStart (containerName cl 1) ∈ ev ∧ ∀ id, CtrDeleteContainer id ∉ ev.
Proof.
  intros Hcl Hnum Hn Hint Herr Hctx. unfold CtrCreatePods, mbind, GoM_bind, goget, gowrap, call.
  rewrite Herr, Hnum, Z.add_0_l, int64_id by done. unfold range_incl. rewrite seqZ_cons by lia. cbn [goforeach].
  set (c1 := mkContainerd _ _ _).
  assert (createPod cl 1 c1 = (Panic "slice bounds out of range", mkContainerd (config c) (base c) (ctrHist c1 ++
    [CtrNewContainer (containerName cl 1) (containerName cl 1 +:+ "-snapshot") (ImageName (config c))
       (specOf (config c) cl (containerName cl 1) (int64 (RedisContainerPort (config c) + 0))) (labelsOf cl 1);
     CtrNewTask (containerName cl 1); CtrStart (containerName cl 1)]))) as Hone.
  { unfold createPod, mbind, GoM_bind, goget, checkCtx, gowrap, gotry, call. cbn -[int64]. rewrite Hctx. cbn -[int64].
    rewrite !Herr. cbn -[int64]. unfold short. rewrite decide_True; [by rewrite <- !app_assoc|].
    unfold containerName. rewrite !str_length_app. change (String.length (Itoa 1)) with 1%nat. cbn. lia. }
  unfold mbind, GoM_bind. rewrite Hone. split_and!; [eauto|done|]. cbn [ctrHist c1]. rewrite <- app_assoc.
  eexists. split; [done|]. split; [set_solver|]. intros id. set_solver.
Qed.

(** C39: deletion with containerd.  A listing holds the containers that match any of its
    filters, and [DeleteResources] lists with two: so it removes, besides the containers of the
    cluster, every container the program manages, whatever its cluster.  (The name of the
    cluster is one the filter language reads as it stands.) *)
Theorem containerd_deletes_every_cluster cl c :
  CtrLaws → plainValue cl = true → (∀ fs, ctrErr (ctrHist c) (CtrList fs) = None) →
  let '(r, c') := CtrDeleteResources cl c in
  r = Ret tt ∧ base c' = base c ∧ ∃ ev, ctrHist c' = ctrHist c ++ ev ∧
  ∀ id, CtrDeleteContainer id ∈ ev ↔ ∃ ls, ctrContainers (ctrHist c) !! id = Some ls ∧
    (ls !! "cluster-name" = Some cl ∨ ls !! "managed-by" = Some "clusterManager").
Proof.
  intros Hlaws Hcl Hlist. unfold CtrDeleteResources, containers, mbind, GoM_bind, goget, gowrap, call.
  rewrite Hlist. cbn [mret GoM_ret]. unfold mret, GoM_ret. set (fs := [labelFilter _ _; _]). set (c1 := mkContainerd _ _ _).
  destruct (remove_loop_events (ctrListed (ctrHist c) fs) c1) as (ev & Hev & ->). split_and!; [done|done|].
  cbn [ctrHist c1]. rewrite <- app_assoc. eexists. split; [done|]. intros id.
  rewrite elem_of_app, Hev, listed_any. transitivity (∃ ls, ctrContainers (ctrHist c) !! id = Some ls ∧
    existsb (λ f, ctrMatches f ls) fs = true); [set_solver|].
  f_equiv. intros ls. cbn. rewrite !matches_label by done. rewrite orb_false_r, orb_true_iff, !bool_decide_eq_true. done.
Qed.

(** Also: one address for all.  After any sequence of operations on a new containerd backend,
    whatever they answered, all its nodes share the loopback address, and a lookup by address
    returns the node added last. *)
Theorem containerd_nodes_share_address cfg c0 ops :
  NewContainerdNodeManager cfg = Ret c0 →
  let c := foldl runPodOp c0 ops in
  Forall (λ n, rn_ConIp n = loopback) (GetNodes c) ∧ GetNodeByIP c loopback = last (GetNodes c).
Proof.
  unfold NewContainerdNodeManager. destruct (ctrDial _); [done|]. intros [= <-]. cbv zeta.
  assert (∀ ops c, one_ip c → one_ip (foldl runPodOp c ops)) as Hind.
  { intros l. induction l as [|o l IH]; intros c Hc; [done|]. cbn. by apply IH, runPodOp_one_ip. }
  apply Hind. split; [constructor|done].
Qed.
End theorems.
End ContainerdTheorems.

(** ** A concrete client

    It never fails, and knows one container of another cluster. *)
Module ContainerdWitness.
Definition others : gmap string (gmap string string) :=
  {["other-redis-1" := {["cluster-name" := "other"; "managed-by" := "clusterManager"; "node-index" := "1"]}]}.
(** A filter on a label, taken apart: the label is between the quotes, the value follows. *)
Definition matchesLabel (f : string) (ls : gmap string string) : bool :=
  match Split quote f with
  | _ :: k :: _ => bool_decide (ls !! k = Some (TrimPrefix f (labelFilter k "")))
  | _ => false
  end.
Definition sound (h : list ctrEvent) (fs : list string) : list string :=
  (filter (λ kv, existsb (λ f, matchesLabel f kv.2) fs = true) (map_to_list others)).*1.
#[local] Instance demo_ctr : Ctr := {|
  ctrDial _ := None;
  ctrErr _ _ := None;
  ctrContainers _ := others;
  ctrMatches := matchesLabel;
  ctrListed := sound;
  ctrCtxErr _ := None;
  ctrCwd := inl "/" |}.
Lemma label_split k v : labelFilter k v = "labels." +:+ String quote (k +:+ String quote ("==" +:+ v)).
Proof.
  unfold labelFilter. change (Quote k +:+ "==" +:+ v) with (String quote ((k +:+ String quote "") +:+ "==" +:+ v)).
  by rewrite str_app_assoc.
Qed.
#[local] Instance demo_ctr_laws : CtrLaws.
Proof.
  split.
  - intros k v ls Hk _. cbn. unfold matchesLabel. rewrite label_split, !Split_app by done.
    rewrite <- label_split. replace (labelFilter k v) with (labelFilter k "" +:+ v); [by rewrite TrimPrefix_app|].
    rewrite !label_split.
    rewrite str_app_assoc. f_equal. change (String quote (k +:+ String quote ("==" +:+ "")) +:+ v) with
      (String quote ((k +:+ String quote ("==" +:+ "")) +:+ v)). by rewrite str_app_assoc.
  - intros h fs id. cbn. unfold sound. rewrite list_elem_of_fmap. split.
    + intros ([i ls] & -> & [Hm Hin]%list_elem_of_filter). exists ls. by apply elem_of_map_to_list in Hin.
    + intros (ls & Hl & Hm). exists (id, ls). split; [done|]. apply list_elem_of_filter.
      by rewrite elem_of_map_to_list.
Qed.
Definition cfg0 : RuntimeConfig :=
  mkRuntimeConfig "/src" "/conf" "/c" "/data" "/d" "/run" "/run/c.yaml" "containerd" "" "" "redis" 65535 None None false.
Definition fresh : ContainerdNodeManager := mkContainerd cfg0 emptyBase [].
Definition after : ContainerdNodeManager := (CtrCreatePods 2 "demo" fresh).2.

Lemma containerd_pods_numbered_witness :
  ∃ new, Nodes (base after) = new ∧ Z.of_nat (length new) = 2 ∧ Forall (λ n, rn_ConIp n = loopback) new.
Proof.
  pose proof (ContainerdTheorems.containerd_pods_numbered 2 "demo" fresh base_ok_empty ltac:(lia)
    ltac:(split; vm_compute; discriminate)) as Hc.
  assert ((CtrCreatePods 2 "demo" fresh).1 = Ret tt) as Hr by (vm_compute; reflexivity). unfold after.
  destruct (CtrCreatePods 2 "demo" fresh) as [r c'].
  destruct Hc as (_ & new & Hn & Hall & _ & Hiff). exists new. split; [exact Hn|]. split; [by apply Hiff|].
  apply Forall_lookup. intros j p Hj. apply (cp_ip _ _ _ _ (Hall j p Hj)).
Defined.
(** The second port wraps around to zero. *)
Example containerd_ports : rn_HostPort <$> Nodes (base after) = [65535; 0].
Proof. vm_compute. reflexivity. Qed.
Lemma short_names_panic_witness : CtrStart "c-redis-1" ∈ ctrHist (CtrCreatePods 1 "c" fresh).2.
Proof.
  pose proof (ContainerdTheorems.short_names_panic 1 "c" fresh ltac:(cbn; lia) eq_refl ltac:(lia)
    ltac:(split; vm_compute; discriminate) (λ _ _, eq_refl) (λ _, eq_refl)) as Hp.
  destruct (CtrCreatePods 1 "c" fresh) as [r c']. destruct Hp as (_ & _ & ev & Hh & Hin & _).
  cbn [snd]. rewrite Hh. exact Hin.
Defined.
(** Deleting a cluster that does not exist removes the container of another. *)
Lemma containerd_deletes_every_cluster_witness :
  CtrDeleteContainer "other-redis-1" ∈ ctrHist (CtrDeleteResources "demo" fresh).2.
Proof.
  pose proof (ContainerdTheorems.containerd_deletes_every_cluster "demo" fresh demo_ctr_laws eq_refl (λ _, eq_refl)) as Hd.
  destruct (CtrDeleteResources "demo" fresh) as [r c']. destruct Hd as (_ & _ & ev & Hh & Hev).
  cbn [snd]. rewrite Hh. apply Hev. eexists. split; [vm_compute; reflexivity|right; vm_compute; reflexivity].
Defined.
Lemma containerd_nodes_share_address_witness :
  let c := foldl runPodOp fresh [OpCreate 2 "demo"] in
  GetNodeByIP c loopback = last (GetNodes c) ∧ length (GetNodes c) = 2%nat.
Proof.
  split; [|vm_compute; reflexivity].
  exact (proj2 (ContainerdTheorems.containerd_nodes_share_address cfg0 fresh [OpCreate 2 "demo"] eq_refl)).
Defined.
End ContainerdWitness.
