(* ===== verification/Manager.v ===== *)
(** * The cluster manager: topology, roles, slots

    [cluster/model/manager.go] and [cluster/model/interfaces.go], the part that builds a
    cluster: meeting nodes, assigning roles, allocating slots, refreshing and verifying the
    topology.  Slot migration is in [Plan.v] and [Migration.v].

    [*data.ClusterNode] values are shared between [topo.nodes], [topo.list] and [topo.empty],
    and [SlotsNum] is updated through them: they are locations of a heap.  Location 0 is the
    nil pointer; reading it panics.  Every ranged-over [node] variable whose address is taken
    is a new location (Go 1.22 and later). *)
From S2P Require Import Prelude GoStrings Data Redis.

Definition TotalSlots : Z := 16384.
Abbreviation loc := nat.
Definition nil_ : loc := 0%nat.

Record clusterTopology : Type := mkTopology {
  nodes : gmap string loc;
  ipToID : gmap string string;
  list_ : list loc;
  masterIDs : list string;
  masterSet : gset string;
  empty : list loc }.
Definition newTopology : clusterTopology := mkTopology ∅ ∅ [] [] ∅ [].

Record clusterRoles : Type := mkRoles {
  masterToSlave : gmap string (list string);
  set : gset string }.
Definition newRoles : clusterRoles := mkRoles ∅ ∅.

Record meetState : Type := mkMeet { met : gset string }.
Definition newMeetState : meetState := mkMeet ∅.

Record ClusterManager (P : Type) : Type := mkCM {
  topo : clusterTopology;
  roles : clusterRoles;
  meet : meetState;
  nodeManager : P;
  nodesPerShard : Z;
  cacheInvalidator : bool;          (* is one registered? *)
  heap : gmap loc ClusterNode;
  next : loc;
  hist : list event }.
Arguments mkCM {P}.
Arguments topo {P}.
Arguments roles {P}.
Arguments meet {P}.
Arguments nodeManager {P}.
Arguments nodesPerShard {P}.
Arguments cacheInvalidator {P}.
Arguments heap {P}.
Arguments next {P}.
Arguments hist {P}.

Definition NewClusterManager {P} (nodesPerShard : Z) (nodeManager : P) : ClusterManager P :=
  mkCM newTopology newRoles newMeetState nodeManager nodesPerShard false ∅ 1%nat [].

(** ** Field updates *)
Section setters.
Context {P : Type}.
Implicit Types c : ClusterManager P.
Definition set_topo (f : clusterTopology → clusterTopology) c : ClusterManager P :=
  mkCM (f (topo c)) (roles c) (meet c) (nodeManager c) (nodesPerShard c) (cacheInvalidator c)
    (heap c) (next c) (hist c).
Definition set_roles (f : clusterRoles → clusterRoles) c : ClusterManager P :=
  mkCM (topo c) (f (roles c)) (meet c) (nodeManager c) (nodesPerShard c) (cacheInvalidator c)
    (heap c) (next c) (hist c).
Definition set_met (f : gset string → gset string) c : ClusterManager P :=
  mkCM (topo c) (roles c) (mkMeet (f (met (meet c)))) (nodeManager c) (nodesPerShard c)
    (cacheInvalidator c) (heap c) (next c) (hist c).
Definition set_pods (p : P) c : ClusterManager P :=
  mkCM (topo c) (roles c) (meet c) p (nodesPerShard c) (cacheInvalidator c)
    (heap c) (next c) (hist c).
Definition set_heap (f : gmap loc ClusterNode → gmap loc ClusterNode) c : ClusterManager P :=
  mkCM (topo c) (roles c) (meet c) (nodeManager c) (nodesPerShard c) (cacheInvalidator c)
    (f (heap c)) (next c) (hist c).
Definition set_hist (h : list event) c : ClusterManager P :=
  mkCM (topo c) (roles c) (meet c) (nodeManager c) (nodesPerShard c) (cacheInvalidator c)
    (heap c) (next c) h.
Definition SetCacheInvalidator (inv : bool) c : ClusterManager P :=
  mkCM (topo c) (roles c) (meet c) (nodeManager c) (nodesPerShard c) inv
    (heap c) (next c) (hist c).
Definition log_event (e : event) c : ClusterManager P := set_hist (hist c ++ [e]) c.
(** [&node]: a new object *)
Definition alloc (n : ClusterNode) : GoM (ClusterManager P) loc := λ c,
  (Ret (next c),
   mkCM (topo c) (roles c) (meet c) (nodeManager c) (nodesPerShard c) (cacheInvalidator c)
     (<[next c := n]> (heap c)) (S (next c)) (hist c)).
End setters.

Definition set_nodes (f : gmap string loc → gmap string loc) (t : clusterTopology) :=
  mkTopology (f (nodes t)) (ipToID t) (list_ t) (masterIDs t) (masterSet t) (empty t).
Definition set_ipToID (f : gmap string string → gmap string string) (t : clusterTopology) :=
  mkTopology (nodes t) (f (ipToID t)) (list_ t) (masterIDs t) (masterSet t) (empty t).
Definition set_list (f : list loc → list loc) (t : clusterTopology) :=
  mkTopology (nodes t) (ipToID t) (f (list_ t)) (masterIDs t) (masterSet t) (empty t).
Definition set_masterIDs (f : list string → list string) (t : clusterTopology) :=
  mkTopology (nodes t) (ipToID t) (list_ t) (f (masterIDs t)) (masterSet t) (empty t).
Definition set_masterSet (f : gset string → gset string) (t : clusterTopology) :=
  mkTopology (nodes t) (ipToID t) (list_ t) (masterIDs t) (f (masterSet t)) (empty t).
Definition set_empty (f : list loc → list loc) (t : clusterTopology) :=
  mkTopology (nodes t) (ipToID t) (list_ t) (masterIDs t) (masterSet t) (f (empty t)).
Definition set_masterToSlave (f : gmap string (list string) → gmap string (list string))
    (r : clusterRoles) := mkRoles (f (masterToSlave r)) (set r).
Definition set_set (f : gset string → gset string) (r : clusterRoles) :=
  mkRoles (masterToSlave r) (f (set r)).

Definition set_cn_SlotsNum (k : Z) (n : ClusterNode) : ClusterNode :=
  mkClusterNode (cn_ID n) (cn_IP n) (cn_Port n) (cn_NodeType n) (cn_MasterID n) (cn_LinkState n)
    (cn_Slots n) k (cn_ClusterName n).
Definition set_cn_ClusterName (s : string) (n : ClusterNode) : ClusterNode :=
  mkClusterNode (cn_ID n) (cn_IP n) (cn_Port n) (cn_NodeType n) (cn_MasterID n) (cn_LinkState n)
    (cn_Slots n) (cn_SlotsNum n) s.

Module CM.
Section manager.
Context {P : Type} {PM : PodManager P} {EV : Env}.
Abbreviation M := (GoM (ClusterManager P)).
Implicit Types c : ClusterManager P.

(** ** Primitives *)
Definition derefNode (l : loc) : M ClusterNode := λ c,
  goderef "invalid memory address or nil pointer dereference" (heap c !! l) c.
Definition call (cli : redisClient) (q : cmd) : M reply := λ c,
  (Ret (srv (hist c) cli q), log_event (EvCmd cli q) c).
Definition goResult {A} (wrap : error → error) (r : A + error) : M A :=
  match r with inl a => mret a | inr e => gofail (wrap e) end.
(** A Go map read with a missing key: the zero value. *)
Definition idOf (ip : string) c : string := default "" (ipToID (topo c) !! ip).
Definition podNodes c : list RuntimeNode := GetNodes (nodeManager c).

(** ** Accessors *)
Definition MasterCount c : Z := Z.of_nat (length (masterIDs (topo c))).
Definition NodeIDByIP (ip : string) c : string := idOf ip c.
Definition ClusterNodeByID (id : string) c : loc := default nil_ (nodes (topo c) !! id).
Definition ResetEmptyMasters : M unit := gomodify (set_topo (set_empty (λ _, []))).
Definition AddNewMaster (masterID : string) : M unit := λ c,
  let c := set_topo (set_masterIDs (λ l, l ++ [masterID])) c in
  match nodes (topo c) !! masterID with
  | Some node => (Ret tt, set_topo (set_empty (λ l, l ++ [node])) c)
  | None => (Ret tt, c)
  end.

(** ** Pods *)
Definition CreatePodsForCluster (clusterName : string) (sum : Z) : M unit := λ c,
  match CreatePods sum clusterName (nodeManager c) with
  | (r, p) =>
      let c := log_event (EvCreatePods sum clusterName) (set_pods p c) in
      gowrap (λ err, Errorf ("create pods fail " +:+ Error err)) (gocall r) c
  end.
Definition createPodsForCluster (shardCount : Z) (clusterName : string) : M unit := λ c,
  let sum := int64 (shardCount * nodesPerShard c) in
  CreatePodsForCluster clusterName sum c.
Definition createPodsForNewShards (shardCount : Z) (clusterName : string) : M unit :=
  createPodsForCluster shardCount clusterName.

(** The first pod of the cluster. *)
Definition findFirstClusterNode (clusterName : string) : M RuntimeNode := λ c,
  if decide (podNodes c = []) then gofail (Errorf "no cluster node found for meeting") c
  else
    match list_find (λ n, rn_ClusterName n = clusterName) (podNodes c) with
    | Some (_, node) => (Ret node, c)
    | None => gofail (Wrapf ("no node found for cluster " +:+ clusterName) ErrClusterNotFound) c
    end.
Definition connectToClusterNode (clusterName : string) : M redisClient :=
  node ← findFirstClusterNode clusterName;
  gowrap (λ _, Errorf "create redis client fail") (gocall (RuntimeNode_CreateRedisClient node)).

(** [for i := 0; i < limit; i++]: indexing past the list panics. *)
Fixpoint findExistingNode_loop (clusterName : string) (limit : nat) (l : list RuntimeNode)
    : M RuntimeNode :=
  match limit with
  | O => gofail (Errorf ("no existing node found for cluster " +:+ clusterName))
  | S k =>
      match l with
      | [] => gopanic "index out of range"
      | n :: l' =>
          if decide (rn_ClusterName n = clusterName) then mret n
          else findExistingNode_loop clusterName k l'
      end
  end.
Definition findExistingNode (clusterName : string) (shardCount : Z) : M RuntimeNode := λ c,
  let sum := int64 (shardCount * nodesPerShard c) in
  let limit := int64 (GetNodeCount (nodeManager c) - sum) in
  findExistingNode_loop clusterName (Z.to_nat limit) (podNodes c) c.
Definition connectToExistingNode (clusterName : string) (shardCount : Z) : M redisClient :=
  node ← findExistingNode clusterName shardCount;
  gowrap (Wrapf "create redis client fail") (gocall (RuntimeNode_CreateRedisClient node)).

(** ** Parsing the topology *)
Definition forgetFailedClusterNodes (clusterName : string) (failedIDs : list string) : M unit := λ c,
  if decide (podNodes c = []) then (Ret tt, c)
  else
    match list_find (λ n, rn_ClusterName n = clusterName) (podNodes c) with
    | None => (Ret tt, c)
    | Some (_, node) =>
        match CreateRedisClient (ClientConnAddr node) with
        | Ret client => goforeach (λ id, _ ← call client (ClusterForget id); mret tt) failedIDs c
        | _ => (Ret tt, c)
        end
    end.

Definition clusterFilter (clusterName : string) c (ip : string) : bool :=
  match GetNodeByHost (nodeManager c) ip with
  | Some node => bool_decide (rn_ClusterName node = clusterName)
  | None => false
  end.
Definition ParseRedisClusterNodes (nodeData clusterName : string) : M (list ClusterNode) := λ c,
  let lines := Split "010" nodeData in
  let '(parsed, failedIDs) := ParseClusterNodeLines lines (Some (clusterFilter clusterName c)) in
  let parsed := set_cn_ClusterName clusterName <$> parsed in
  (_ ← (if decide (failedIDs = []) then mret tt else forgetFailedClusterNodes clusterName failedIDs);
   mret parsed) c.

Definition GetClusterNodes (LoginNode : RuntimeNode) (clusterName : string)
    : M (list ClusterNode) := λ c,
  if decide (podNodes c = []) then gofail (Wrapf "no pods found" ErrClusterNotFound) c
  else
    (client ← gowrap (Wrapf "failed to create Redis client")
       (gocall (CreateRedisClient (ClientConnAddr LoginNode)));
     r ← call client ClusterNodes;
     nodesInfo ← goResult (Wrapf "failed to get cluster nodes") (asStr r);
     ParseRedisClusterNodes nodesInfo clusterName) c.

(** ** Sorting by IP

    [sort.Sort] on [ByIP].  Comparing elements dereferences them, so a nil element panics as
    soon as there is something to compare it with.  (Nodes with equal IPs keep their order;
    [sort.Sort] promises that only for short slices.) *)
Definition ip_le (x y : string * loc) : Prop := String.le x.1 y.1.
#[global] Instance ip_le_dec : RelDecision ip_le.
Proof. intros x y. unfold ip_le. apply _. Defined.
Definition ipAt c (l : loc) : option (string * loc) := (λ n, (cn_IP n, l)) <$> heap c !! l.
Definition sortClusterNodesByIP (ls : list loc) : M (list loc) := λ c,
  if decide (length ls ≤ 1)%nat then (Ret ls, c)
  else
    match mapM (ipAt c) ls with
    | Some keyed => (Ret ((merge_sort ip_le keyed).*2), c)
    | None => (Panic "invalid memory address or nil pointer dereference", c)
    end.
Definition SortInfo : M unit :=
  c ← goget;
  l ← sortClusterNodesByIP (list_ (topo c));
  _ ← gomodify (set_topo (set_list (λ _, l)));
  e ← sortClusterNodesByIP (empty (topo c));
  gomodify (set_topo (set_empty (λ _, e))).

(** ** Refreshing the topology *)
Definition UpdateAfterMeet_node (clusterName : string) (node : ClusterNode) : M unit := λ c,
  if decide (cn_ClusterName node ≠ clusterName) then (Ret tt, c)
  else
    match nodes (topo c) !! cn_ID node with
    | Some _ => (Ret tt, c)
    | None =>
        (_ ← gomodify (set_met (λ s, {[cn_IP node]} ∪ s));
         l ← alloc node;
         _ ← gomodify (set_topo (set_nodes (insert (cn_ID node) l)));
         _ ← gomodify (set_topo (set_ipToID (insert (cn_IP node) (cn_ID node))));
         gomodify (set_topo (set_list (λ ls, ls ++ [l])))) c
    end.
Definition UpdateAfterMeet (LoginNode : RuntimeNode) (clusterName : string) : M unit := λ c,
  if decide (GetNodeCount (nodeManager c) = 0) then (Ret tt, c)
  else
    (ns ← GetClusterNodes LoginNode clusterName;
     _ ← goforeach (UpdateAfterMeet_node clusterName) ns;
     SortInfo) c.

Definition classifyNodesByType (ns : list ClusterNode) : list ClusterNode * list ClusterNode :=
  (filter (λ n, cn_NodeType n = "master") ns,
   filter (λ n, cn_NodeType n ≠ "master" ∧ cn_NodeType n = "slave") ns).

Definition addMaster (master : ClusterNode) : M unit := gomodify (λ c,
  set_roles (set_masterToSlave (insert (cn_ID master) []))
    (set_topo (set_masterSet (λ s, {[cn_ID master]} ∪ s))
      (set_topo (set_masterIDs (λ l, l ++ [cn_ID master])) c))).
Definition addSlave (slave : ClusterNode) : M unit := λ c,
  if decide (cn_MasterID slave ∈ masterSet (topo c)) then
    (Ret tt, set_roles (set_masterToSlave (λ m,
       <[cn_MasterID slave := default [] (m !! cn_MasterID slave) ++ [cn_ID slave]]> m)) c)
  else
    (Fail (Errorf ("master node " +:+ cn_MasterID slave +:+ " not found for slave " +:+ cn_ID slave)), c).
Definition buildMasterSlaveTopology (masters slaves : list ClusterNode) : M unit :=
  _ ← goforeach addMaster masters;
  _ ← goforeach addSlave slaves;
  _ ← gomodify (set_roles (set_masterToSlave (fmap sort_Strings)));
  gomodify (set_topo (set_masterIDs sort_Strings)).

Definition UpdateAfterSetNodeRole (LoginNode : RuntimeNode) (clusterName : string) : M unit :=
  _ ← gomodify (set_roles (set_masterToSlave (λ _, ∅)));
  _ ← gomodify (set_topo (λ t, set_masterSet (λ _, ∅) (set_masterIDs (λ _, []) t)));
  c ← goget;
  if decide (GetNodeCount (nodeManager c) = 0) then mret tt
  else
    ns ← GetClusterNodes LoginNode clusterName;
    if decide (ns = []) then mret tt
    else
      let '(masters, slaves) := classifyNodesByType ns in
      buildMasterSlaveTopology masters slaves.

(** [End - Start + 1] summed over the ranges, in 64-bit arithmetic. *)
Definition calculateSlots (slots : list SlotRange) : Z :=
  foldl (λ totalSlots slot, int64 (totalSlots + (End_ slot - Start slot + 1))) 0 slots.

Definition UpdateSlots_node (node : ClusterNode) : M unit := λ c,
  if decide (cn_NodeType node ≠ Master) then (Ret tt, c)
  else
    match nodes (topo c) !! cn_ID node with
    | None => (Ret tt, c)
    | Some l =>
        (n ← derefNode l;
         _ ← gomodify (set_heap (insert l (set_cn_SlotsNum (calculateSlots (cn_Slots node)) n)));
         if decide (cn_Slots node = []) then
           l' ← alloc node;
           gomodify (set_topo (set_empty (λ e, e ++ [l'])))
         else mret tt) c
    end.
Definition UpdateSlots (LoginNode : RuntimeNode) (clusterName : string) : M unit := λ c,
  if decide (GetNodeCount (nodeManager c) = 0) then (Ret tt, c)
  else
    (_ ← gomodify (set_topo (set_empty (λ _, [])));
     ns ← GetClusterNodes LoginNode clusterName;
     if decide (ns = []) then mret tt else goforeach UpdateSlots_node ns) c.

(** ** Meeting *)
Definition sendMeet (client : redisClient) (clusterName : string) (node : RuntimeNode) : M unit := λ c,
  if decide (rn_ClusterName node ≠ clusterName ∨ rn_ConIp node ∈ met (meet c)) then (Ret tt, c)
  else
    let '(host, portStr) := Utils.ParseIPPort (ClusterMeetAddr node) in
    if decide (host = "") then (Ret tt, c)
    else
      match Utils.StringToUint16 portStr with
      | Ret port =>
          (r ← call client (ClusterMeet host (Itoa port));
           _ ← goResult (λ err, Errorf ("could not meet node " +:+ rn_ConIp node +:+ ": " +:+ Error err))
                 (asStr r);
           mret tt) c
      | _ => (Ret tt, c)
      end.
Definition sendMeetCommands (client : redisClient) (clusterName : string) : M unit :=
  c ← goget; goforeach (sendMeet client clusterName) (podNodes c).

Definition activeLine (line : string) : bool :=
  let fields := Split " " line in
  if decide (length fields < 8)%nat then false
  else if Contains (fieldAt fields 2) "fail" then false
  else Contains line "connected".
Definition countActiveNodes (nodesInfo : string) : Z :=
  Z.of_nat (length (filter (λ l, activeLine l = true) (Split "010" nodesInfo))).

Fixpoint waitForMeetSync_loop (retries : nat) (client : redisClient) (expectedNodes : Z) : M unit :=
  match retries with
  | O => gofail (Errorf "cluster did not synchronize within the expected time")
  | S k =>
      r ← call client ClusterNodes;
      nodesInfo ← goResult (λ err, Errorf ("failed to get cluster nodes info: " +:+ Error err)) (asStr r);
      if decide (countActiveNodes nodesInfo = expectedNodes) then mret tt
      else waitForMeetSync_loop k client expectedNodes
  end.
Definition waitForMeetSync : redisClient → Z → M unit := waitForMeetSync_loop 10.

Definition waitForAllMeetSync (clusterName : string) : M unit :=
  c ← goget;
  let clusterNodeCount :=
    Z.of_nat (length (filter (λ n, rn_ClusterName n = clusterName) (podNodes c))) in
  goforeach (λ node,
    if decide (rn_ClusterName node ≠ clusterName) then mret tt
    else
      cli ← gowrap (λ err, Errorf ("failed to create Redis client for node " +:+ rn_ID node +:+ ": " +:+ Error err))
              (gocall (RuntimeNode_CreateRedisClient node));
      gowrap (λ err, Errorf ("failed to wait for cluster sync: " +:+ Error err))
        (waitForMeetSync cli clusterNodeCount)) (podNodes c).

Definition MeetNodes (client : redisClient) (clusterName : string) : M unit :=
  _ ← sendMeetCommands client clusterName; waitForAllMeetSync clusterName.

(** ** Verification of roles *)
(** Only the keys and the number of slaves of each are compared. *)
Definition equalClusterNodeType (m1 m2 : gmap string (list string)) : bool :=
  bool_decide (size m1 = size m2) &&
  forallb (λ '(k, v), match m2 !! k with
                      | Some v2 => bool_decide (length v = length v2)
                      | None => false
                      end) (map_to_list m1).

Fixpoint checkNodeType_loop (tries : nat) (node : RuntimeNode) (m2s : gmap string (list string))
    (clusterName : string) : M bool :=
  match tries with
  | O => gofail (Errorf "failed to verify node type set")
  | S k =>
      r ← gotry (UpdateAfterSetNodeRole node clusterName);
      match r with
      | inr _ => checkNodeType_loop k node m2s clusterName
      | inl _ =>
          c ← goget;
          if equalClusterNodeType m2s (masterToSlave (roles c)) then mret true
          else checkNodeType_loop k node m2s clusterName
      end
  end.
Definition checkNodeTypeWithRetry := checkNodeType_loop 10.

Fixpoint verifyNodeTypeSet_loop (ns : list RuntimeNode) (m2s : gmap string (list string))
    (clusterName : string) : M bool :=
  match ns with
  | [] => mret true
  | node :: rest =>
      if decide (rn_ClusterName node ≠ clusterName) then verifyNodeTypeSet_loop rest m2s clusterName
      else
        ok ← checkNodeTypeWithRetry node m2s clusterName;
        if ok : bool then verifyNodeTypeSet_loop rest m2s clusterName else mret false
  end.
Definition verifyNodeTypeSet (m2s : gmap string (list string)) (clusterName : string) : M bool :=
  c ← goget; verifyNodeTypeSet_loop (podNodes c) m2s clusterName.

(** ** Roles *)
Definition connectToSlaveNode (slaveIP : string) : M redisClient := λ c,
  match GetNodeByHost (nodeManager c) slaveIP with
  | None => (Fail (Errorf ("slave node not found for IP " +:+ slaveIP)), c)
  | Some slaveNode =>
      gowrap (Wrapf "failed to create Redis client")
        (gocall (CreateRedisClient (ClientConnAddr slaveNode))) c
  end.

Definition SetNodeAsSlave (masterIP slaveIP clusterName : string) : M unit :=
  cli ← connectToSlaveNode slaveIP;
  c ← goget;
  r ← call cli (ClusterReplicate (idOf masterIP c));
  match asErr r with
  | Some err =>
      gofail (Errorf ("failed to set node " +:+ slaveIP +:+ " as replica of master " +:+ masterIP
                      +:+ ": " +:+ Error err))
  | None =>
      match podNodes c with
      | [] => gofail (Wrapf "no nodes available" ErrNoNodesAvailable)
      | n0 :: _ => UpdateAfterSetNodeRole n0 clusterName
      end
  end.

Definition listAt (i : Z) : M ClusterNode :=
  c ← goget;
  l ← goderef "index out of range" (if decide (i < 0) then None else list_ (topo c) !! Z.to_nat i);
  derefNode l.
Definition markSet (ids : list string) : M unit :=
  gomodify (set_roles (set_set (λ s, list_to_set ids ∪ s))).

(** The inner loop: the [j]-th node becomes a slave of the [i]-th. *)
Definition assignSlave (masterIP masterID clusterName : string) (m2s : gmap string (list string))
    (j : Z) : M (gmap string (list string)) :=
  n ← listAt j;
  if decide (cn_ClusterName n ≠ clusterName) then mret m2s
  else
    let slaveIP := cn_IP n in
    c ← goget;
    let slaveID := idOf slaveIP c in
    if decide (masterID ∈ set (roles c) ∧ slaveID ∈ set (roles c)) then mret m2s
    else
      let m2s := <[masterID := default [] (m2s !! masterID) ++ [slaveID]]> m2s in
      _ ← SetNodeAsSlave masterIP slaveIP clusterName;
      _ ← markSet [masterID; slaveID];
      mret m2s.
Definition assignMaster (n expectedNodes : Z) (clusterName : string)
    (m2s : gmap string (list string)) (i : Z) : M (gmap string (list string)) :=
  node ← listAt i;
  if decide (cn_ClusterName node ≠ clusterName) then mret m2s
  else
    let masterIP := cn_IP node in
    c ← goget;
    let masterID := idOf masterIP c in
    let m2s := <[masterID := []]> m2s in
    _ ← gomodify (set_topo (set_masterIDs (λ l, l ++ [masterID])));
    let slaveStart := n + i * (nodesPerShard c - 1) in
    let slaveEnd := slaveStart + nodesPerShard c - 1 in
    gofold (assignSlave masterIP masterID clusterName) m2s
      (seqZ slaveStart (Z.min slaveEnd expectedNodes - slaveStart)).
Definition assignMastersAndSlaves (m2s : gmap string (list string)) (clusterName : string)
    : M (gmap string (list string)) :=
  c ← goget;
  if decide (nodesPerShard c = 0) then gopanic "integer divide by zero"
  else
    let expectedNodes := Z.of_nat (length (list_ (topo c))) in
    let n := Z.quot expectedNodes (nodesPerShard c) in
    gofold (assignMaster n expectedNodes clusterName) m2s (seqZ 0 n).

Definition SetAllNodeRole (clusterName : string) : M unit :=
  m2s ← assignMastersAndSlaves ∅ clusterName;
  _ ← gowrap (λ _, Errorf "sync failed") (verifyNodeTypeSet m2s clusterName);
  mret tt.

(** ** Slot allocation *)
Definition slotRangeOf (numMasters i : Z) : Z * Z :=
  let slotsPerMaster := Z.quot TotalSlots numMasters in
  let startPoint := i * slotsPerMaster in
  let endPoint := if decide (i = numMasters - 1) then TotalSlots - 1
                  else startPoint + slotsPerMaster - 1 in
  (startPoint, endPoint).
Definition slotsOf (r : Z * Z) : list Z := seqZ r.1 (r.2 - r.1 + 1).

Definition assignSlots (numMasters : Z) (i : Z) : M unit :=
  c ← goget;
  masterID ← goderef "index out of range" (masterIDs (topo c) !! Z.to_nat i);
  match nodes (topo c) !! masterID with
  | None => gofail (Errorf ("master node not found for ID " +:+ masterID))
  | Some l =>
      masterNode ← derefNode l;
      match GetNodeByHost (nodeManager c) (cn_IP masterNode) with
      | None => gofail (Errorf ("runtime node not found for IP " +:+ cn_IP masterNode))
      | Some port =>
          cli ← gowrap (Wrapf "failed to create Redis client")
                  (gocall (CreateRedisClient (ClientConnAddr port)));
          r ← call cli (ClusterAddSlots (slotsOf (slotRangeOf numMasters i)));
          match asErr r with
          | Some err => gofail (Wrapf ("failed to add slots to master " +:+ masterID) err)
          | None => mret tt
          end
      end
  end.
Definition assignSlotsToMasters (clusterName : string) : M unit :=
  c ← goget;
  let numMasters := MasterCount c in
  if decide (numMasters = 0) then
    gofail (Wrapf "no available master nodes for slot allocation" ErrNoNodesAvailable)
  else goforeach (assignSlots numMasters) (seqZ 0 numMasters).

(** The count [checkSlotCounts] expects of the [i]-th master. *)
Definition expectedSlotsOf (numMasters i : Z) : Z :=
  let slotsPerMaster := Z.quot TotalSlots numMasters in
  let remainder := Z.rem TotalSlots numMasters in
  if decide (i = numMasters - 1 ∧ remainder ≠ 0) then slotsPerMaster + remainder else slotsPerMaster.
(** Does every master hold the expected number of slots? *)
Definition slotCountOk c (i : Z) : bool :=
  match id ← masterIDs (topo c) !! Z.to_nat i; l ← nodes (topo c) !! id; heap c !! l with
  | Some masterNode => bool_decide (cn_SlotsNum masterNode = expectedSlotsOf (MasterCount c) i)
  | None => false
  end.
Fixpoint checkSlotCounts_loop (tries : nat) (container : RuntimeNode) (clusterName : string) : M unit :=
  match tries with
  | O => mret tt
  | S k =>
      _ ← UpdateSlots container clusterName;
      c ← goget;
      if decide (MasterCount c = 0) then mret tt
      else if forallb (slotCountOk c) (seqZ 0 (MasterCount c)) then mret tt
      else checkSlotCounts_loop k container clusterName
  end.
Definition checkSlotCounts := checkSlotCounts_loop 10.
Definition VerifyAllocateSlots (clusterName : string) : M unit :=
  c ← goget; goforeach (λ container, checkSlotCounts container clusterName) (podNodes c).

Definition AllocateSlots (clusterName : string) : M unit :=
  c ← goget;
  match podNodes c with
  | [] => gofail (Wrapf "no nodes available" ErrNoNodesAvailable)
  | n0 :: _ =>
      _ ← UpdateSlots n0 clusterName;
      _ ← assignSlotsToMasters clusterName;
      VerifyAllocateSlots clusterName
  end.

(** ** Bootstrap *)
Definition initCluster (cli : redisClient) (clusterName : string) : M unit :=
  _ ← gowrap (λ err, Errorf ("meet nodes fail " +:+ Error err)) (MeetNodes cli clusterName);
  loginNode ← findFirstClusterNode clusterName;
  _ ← UpdateAfterMeet loginNode clusterName;
  _ ← gowrap (λ err, Errorf ("set node type fail: " +:+ Error err)) (SetAllNodeRole clusterName);
  AllocateSlots clusterName.
Definition Bootstrap (shardCount : Z) (clusterName : string) : M unit :=
  _ ← createPodsForCluster shardCount clusterName;
  cli ← connectToClusterNode clusterName;
  initCluster cli clusterName.

(** ** New shards *)
Definition meetAndSyncNewNodes (cli : redisClient) (clusterName : string) (shardCount : Z) : M unit :=
  _ ← gowrap (Wrapf "meet nodes fail") (MeetNodes cli clusterName);
  loginNode ← findExistingNode clusterName shardCount;
  UpdateAfterMeet loginNode clusterName.

(** One turn of the loop over the new nodes; [count] and [masterID] are its variables. *)
Definition assignNewNode (st : Z * string * gmap string string) (i : Z)
    : M (Z * string * gmap string string) :=
  let '(count, masterID, IDToIP) := st in
  c ← goget;
  node ← goderef "index out of range" (if decide (i < 0) then None else podNodes c !! Z.to_nat i);
  let ip := rn_ConIp node in
  let id := idOf ip c in
  let IDToIP := <[id := ip]> IDToIP in
  let count := if decide (count = nodesPerShard c) then 0 else count in
  if decide (count = 0) then
    _ ← gomodify (set_roles (set_masterToSlave (insert id [])));
    _ ← gomodify (set_topo (set_masterIDs (λ l, l ++ [id])));
    _ ← gomodify (set_topo (set_empty (λ l, l ++ [ClusterNodeByID id c])));
    mret (count + 1, id, IDToIP)
  else
    _ ← gomodify (set_roles (set_masterToSlave (λ m,
          <[masterID := default [] (m !! masterID) ++ [id]]> m)));
    mret (count + 1, masterID, IDToIP).

Definition replicateNewSlaves (IDToIP : gmap string string) (clusterName masterIP masterID : string)
    : list string → M unit :=
  goforeach (λ slaveID,
    _ ← SetNodeAsSlave masterIP (default "" (IDToIP !! slaveID)) clusterName;
    markSet [masterID; slaveID]).
Definition configureNewNodeReplication (m2s : gmap string (list string)) (IDToIP : gmap string string)
    (clusterName : string) : M unit :=
  c ← goget;
  _ ← goforeach (λ masterID,
        match IDToIP !! masterID with
        | None => mret tt
        | Some masterIP =>
            c ← goget;
            match GetNodeByHost (nodeManager c) masterIP with
            | None => mret tt
            | Some masterRuntime =>
                if decide (rn_ClusterName masterRuntime ≠ clusterName) then mret tt
                else replicateNewSlaves IDToIP clusterName masterIP masterID (default [] (m2s !! masterID))
            end
        end) (range_order (hist c) ((map_to_list m2s).*1));
  _ ← gowrap (λ _, Errorf "sync failed") (verifyNodeTypeSet m2s clusterName);
  mret tt.
Definition assignRolesToNewNodes (clusterName : string) (shardCount : Z) : M unit :=
  c ← goget;
  let sum := int64 (shardCount * nodesPerShard c) in
  let newNodeStartIndex := int64 (GetNodeCount (nodeManager c) - sum) in
  '(_, _, IDToIP) ← gofold assignNewNode (0, "", ∅) (seqZ newNodeStartIndex sum);
  c ← goget;
  configureNewNodeReplication (masterToSlave (roles c)) IDToIP clusterName.

Definition AddShards (shardCount : Z) (clusterName : string) : M unit :=
  _ ← createPodsForNewShards shardCount clusterName;
  cli ← connectToExistingNode clusterName shardCount;
  _ ← meetAndSyncNewNodes cli clusterName shardCount;
  _ ← ResetEmptyMasters;
  assignRolesToNewNodes clusterName shardCount.

(** ** Printing *)
Definition printedLines (nodesInfo : string) : list string :=
  filter (λ line, line ≠ "" ∧ ¬ (length (Split " " line) < 8)%nat ∧
                  Contains (fieldAt (Split " " line) 2) "fail" = false) (Split "010" nodesInfo).
Definition PrintClusterNodesInfo : M (list string) :=
  c ← goget;
  match podNodes c with
  | [] => gofail (Wrapf "no nodes available" ErrNoNodesAvailable)
  | n0 :: _ =>
      client ← gowrap (Wrapf "failed to create Redis client")
                 (gocall (CreateRedisClient (ClientConnAddr n0)));
      r ← call client ClusterNodes;
      nodesInfo ← goResult (Wrapf "failed to get cluster nodes info") (asStr r);
      mret (printedLines nodesInfo)
  end.

End manager.
End CM.
