(* ===== verification/ManagerProps.v ===== *)
(** * The cluster manager: invariant and correctness of its operations

    The topology invariant of [Manager.v] under every operation, the partition of the slots by
    [assignSlotsToMasters], the role map built by [UpdateAfterSetNodeRole], and the retry
    loops. *)
From S2P Require Import Prelude GoStrings Data Redis Manager.
Import CM.

Section invariant.
Context {P : Type} `{PodManager P} `{Env}.
Implicit Types c : ClusterManager P.

(** ** The topology invariant

    Every known node id points to an allocated node of that id, [list_] lists each known node
    once, and the IP table and the set of met IPs agree with the nodes. *)
Record topo_wf (c : ClusterManager P) : Prop := mk_topo_wf {
  wf_fresh : ∀ l n, heap c !! l = Some n → (0 < l < next c)%nat;
  wf_next : (0 < next c)%nat;
  wf_nodes : ∀ id l, nodes (topo c) !! id = Some l →
    ∃ n, heap c !! l = Some n ∧ cn_ID n = id ∧ cn_IP n ∈ met (meet c);
  wf_list : list_ (topo c) ≡ₚ (map_to_list (nodes (topo c))).*2;
  wf_ip : ∀ ip id, ipToID (topo c) !! ip = Some id →
    ∃ l n, nodes (topo c) !! id = Some l ∧ heap c !! l = Some n ∧ cn_IP n = ip }.

Lemma topo_wf_New k (p : P) : topo_wf (NewClusterManager k p).
Proof. split; cbn; [done|lia|done|done|done]. Qed.

Lemma call_wf cli q : pres topo_wf (call cli q : GoM (ClusterManager P) reply).
Proof. intros c []. by split. Qed.
Lemma derefNode_wf l : pres topo_wf (derefNode l : GoM (ClusterManager P) ClusterNode).
Proof. intros c Hc. unfold derefNode. by destruct (heap c !! l). Qed.
Lemma goResult_wf {A} w (r : A + error) : pres topo_wf (goResult w r : GoM (ClusterManager P) A).
Proof. intros c Hc. by destruct r. Qed.
Lemma set_hist_wf h c : topo_wf c → topo_wf (set_hist h c).
Proof. intros []. by split. Qed.
Hint Resolve call_wf derefNode_wf goResult_wf : go_pres.

(** Writing a count keeps ids and IPs. *)
Lemma set_SlotsNum_wf l n k c :
  topo_wf c → heap c !! l = Some n → topo_wf (set_heap (insert l (set_cn_SlotsNum k n)) c).
Proof.
  intros [Hf Hx Hn Hl Hi] Hln. split; [|exact Hx| |exact Hl|]; cbn.
  - intros l' n'. rewrite lookup_insert_Some. naive_solver.
  - intros id l' Hid. destruct (Hn id l' Hid) as (n' & Hn' & Hid' & Hm).
    destruct (decide (l = l')) as [->|].
    + simplify_eq. eexists. by rewrite lookup_insert_eq.
    + exists n'. by rewrite lookup_insert_ne.
  - intros ip id Hip. destruct (Hi ip id Hip) as (l' & n' & Hl' & Hn' & Hip').
    destruct (decide (l = l')) as [->|]; simplify_eq; eexists l', _;
      [rewrite lookup_insert_eq|rewrite lookup_insert_ne by done]; done.
Qed.
Lemma alloc_heap_wf n c : topo_wf c → topo_wf (alloc n c).2.
Proof.
  intros [Hf Hx Hn Hl Hi].
  assert (∀ l n', heap c !! l = Some n' → <[next c := n]> (heap c) !! l = Some n') as Hold.
  { intros l n' Hl'. rewrite lookup_insert_ne; [done|]. specialize (Hf _ _ Hl'). lia. }
  split; [|cbn; lia| |exact Hl|]; cbn.
  - intros l' n'. rewrite lookup_insert_Some. intros [[<- _]|[_ ?%Hf]]; lia.
  - intros id l' (n' & ? & ?)%Hn. eauto.
  - intros ip id (l' & n' & ? & ? & ?)%Hi. eauto 6.
Qed.

Lemma UpdateAfterMeet_node_wf cl n : pres topo_wf (UpdateAfterMeet_node cl n).
Proof.
  intros c Hc. unfold UpdateAfterMeet_node. case_decide; [done|].
  destruct (nodes (topo c) !! cn_ID n) eqn:Hid; [done|].
  apply (alloc_heap_wf n) in Hc as [Hf Hx Hn Hl Hi]. go_run.
  split; [exact Hf|exact Hx| | |]; cbn.
  - intros id l. rewrite lookup_insert_Some. intros [[<- <-]|[_ (n' & Hh & Hi' & Hm)%Hn]].
    + exists n. rewrite lookup_insert_eq. set_solver.
    + exists n'. set_solver.
  - change (list_ (topo c) ++ [next c] ≡ₚ (map_to_list (<[cn_ID n:=next c]> (nodes (topo c)))).*2).
    rewrite map_to_list_insert by done. cbn. rewrite Permutation_app_comm. cbn. by constructor.
  - intros ip id. rewrite lookup_insert_Some. intros [[<- <-]|[Hne (l' & n' & Hl' & Hn' & ?)%Hi]].
    + exists (next c), n. by rewrite !lookup_insert_eq.
    + exists l', n'. rewrite lookup_insert_ne; [done|]. congruence.
Qed.

Lemma sortClusterNodesByIP_perm ls c :
  (sortClusterNodesByIP ls c).2 = c ∧ ∀ ls', (sortClusterNodesByIP ls c).1 = Ret ls' → ls' ≡ₚ ls.
Proof.
  unfold sortClusterNodesByIP. case_decide; cbn; [split; naive_solver|].
  destruct (mapM (ipAt c) ls) as [keyed|] eqn:E; cbn; [|done]. split; [done|]. intros ls' [= <-].
  rewrite (merge_sort_Permutation ip_le keyed). apply mapM_Some_1 in E. clear -E.
  induction E as [|l x ls keyed Hx E IH]; [done|]. cbn. rewrite IH.
  unfold ipAt in Hx. destruct (heap c !! l); naive_solver.
Qed.
Lemma SortInfo_wf : pres topo_wf (SortInfo : GoM (ClusterManager P) unit).
Proof.
  intros c Hc. unfold SortInfo, goget, gomodify, mbind, GoM_bind.
  destruct (sortClusterNodesByIP_perm (list_ (topo c)) c) as [E1 H1].
  destruct (sortClusterNodesByIP _ c) as [[l| | |] c1]; cbn in *; subst c1; [|done..].
  specialize (H1 l eq_refl).
  assert (topo_wf (set_topo (set_list (λ _, l)) c)) as Hc1.
  { destruct Hc as [Hf Hx Hn Hl Hi]. split; [done..| |done]. cbn. by rewrite H1. }
  set (c1 := set_topo _ c) in *. clearbody c1.
  destruct (sortClusterNodesByIP_perm (empty (topo c)) c1) as [E2 _].
  destruct (sortClusterNodesByIP _ c1) as [[e| | |] c2]; cbn in *; subst c2; [|done..].
  by destruct Hc1.
Qed.
Hint Resolve UpdateAfterMeet_node_wf SortInfo_wf : go_pres.

Lemma forget_wf cl ids : pres topo_wf (forgetFailedClusterNodes cl ids : GoM (ClusterManager P) unit).
Proof.
  unfold forgetFailedClusterNodes. pres_tac. intros c Hc. cbv beta.
  repeat case_match; try done. apply pres_foreach; [|done]. intros id. pres_tac.
Qed.
Hint Resolve forget_wf : go_pres.
Lemma ParseRedisClusterNodes_wf s cl :
  pres topo_wf (ParseRedisClusterNodes s cl : GoM (ClusterManager P) (list ClusterNode)).
Proof.
  intros c Hc. unfold ParseRedisClusterNodes. destruct (ParseClusterNodeLines _ _).
  match goal with |- topo_wf (?m c).2 => enough (pres topo_wf m) as Hm by (by apply Hm) end. pres_tac.
Qed.
Hint Resolve ParseRedisClusterNodes_wf : go_pres.
Lemma GetClusterNodes_wf n cl :
  pres topo_wf (GetClusterNodes n cl : GoM (ClusterManager P) (list ClusterNode)).
Proof. unfold GetClusterNodes. pres_tac. Qed.
Hint Resolve GetClusterNodes_wf : go_pres.
Lemma UpdateAfterMeet_wf n cl : pres topo_wf (UpdateAfterMeet n cl : GoM (ClusterManager P) unit).
Proof. unfold UpdateAfterMeet. pres_tac. Qed.
Lemma addSlave_wf n : pres topo_wf (addSlave n : GoM (ClusterManager P) unit).
Proof. intros c Hc. unfold addSlave. case_decide; [by destruct Hc|done]. Qed.
Hint Resolve UpdateAfterMeet_wf addSlave_wf : go_pres.
Lemma UpdateAfterSetNodeRole_wf n cl :
  pres topo_wf (UpdateAfterSetNodeRole n cl : GoM (ClusterManager P) unit).
Proof.
  unfold UpdateAfterSetNodeRole, buildMasterSlaveTopology, addMaster. pres_tac; by destruct H1.
Qed.
Lemma UpdateSlots_node_wf n : pres topo_wf (UpdateSlots_node n : GoM (ClusterManager P) unit).
Proof.
  intros c Hc. unfold UpdateSlots_node. case_decide; [done|].
  destruct (nodes (topo c) !! cn_ID n) as [l|] eqn:Hl; [|done].
  destruct (wf_nodes _ Hc _ _ Hl) as (n' & Hn' & _). unfold derefNode, goderef. go_run. rewrite Hn'.
  apply (set_SlotsNum_wf _ _ (calculateSlots (cn_Slots n)) _ Hc) in Hn'.
  case_decide; [|done]. apply (alloc_heap_wf n) in Hn'. by destruct Hn'.
Qed.
Hint Resolve UpdateAfterSetNodeRole_wf UpdateSlots_node_wf : go_pres.
Lemma UpdateSlots_wf n cl : pres topo_wf (UpdateSlots n cl : GoM (ClusterManager P) unit).
Proof. unfold UpdateSlots. pres_tac. by destruct H1. Qed.
Hint Resolve UpdateSlots_wf : go_pres.
Lemma sendMeet_wf cli cl n : pres topo_wf (sendMeet cli cl n : GoM (ClusterManager P) unit).
Proof.
  intros c Hc. unfold sendMeet. repeat case_match; try done.
  match goal with |- topo_wf (?m c).2 => enough (pres topo_wf m) as Hm by (by apply Hm) end. pres_tac.
Qed.
Lemma waitForMeetSync_wf k cli e :
  pres topo_wf (waitForMeetSync_loop k cli e : GoM (ClusterManager P) unit).
Proof. induction k as [|k IH]; cbn; pres_tac. Qed.
Hint Resolve sendMeet_wf waitForMeetSync_wf : go_pres.
Lemma MeetNodes_wf cli cl : pres topo_wf (MeetNodes cli cl : GoM (ClusterManager P) unit).
Proof. unfold MeetNodes, sendMeetCommands, waitForAllMeetSync, waitForMeetSync. pres_tac. Qed.
Lemma checkNodeType_wf k n m cl :
  pres topo_wf (checkNodeType_loop k n m cl : GoM (ClusterManager P) bool).
Proof. induction k as [|k IH]; cbn; pres_tac. Qed.
Hint Resolve MeetNodes_wf checkNodeType_wf : go_pres.
Lemma verifyNodeTypeSet_wf m cl : pres topo_wf (verifyNodeTypeSet m cl : GoM (ClusterManager P) bool).
Proof.
  unfold verifyNodeTypeSet. pres_tac.
  induction (podNodes a) as [|n ns IH]; cbn [verifyNodeTypeSet_loop]; pres_tac.
  unfold checkNodeTypeWithRetry. pres_tac.
Qed.
Lemma findFirst_wf cl : pres topo_wf (findFirstClusterNode cl : GoM (ClusterManager P) RuntimeNode).
Proof. intros c Hc. unfold findFirstClusterNode. by repeat case_match. Qed.
Lemma findExisting_wf cl k : pres topo_wf (findExistingNode cl k : GoM (ClusterManager P) RuntimeNode).
Proof.
  intros c Hc. unfold findExistingNode. generalize (Z.to_nat (int64 (GetNodeCount (nodeManager c) -
    int64 (k * nodesPerShard c)))) (podNodes c).
  intros j l. revert l. induction j as [|j IH]; intros [|x l]; cbn; try done. by case_decide.
Qed.
Lemma CreatePods_wf cl k : pres topo_wf (createPodsForCluster k cl : GoM (ClusterManager P) unit).
Proof.
  intros c Hc. unfold createPodsForCluster, CreatePodsForCluster.
  destruct (CreatePods _ _ _) as [r p]. apply pres_wrap; [apply pres_call|]. by destruct Hc.
Qed.
Lemma connectToSlave_wf ip : pres topo_wf (connectToSlaveNode ip : GoM (ClusterManager P) redisClient).
Proof. intros c Hc. unfold connectToSlaveNode. by case_match. Qed.
Hint Resolve verifyNodeTypeSet_wf findFirst_wf findExisting_wf CreatePods_wf connectToSlave_wf : go_pres.
Lemma SetNodeAsSlave_wf a b cl : pres topo_wf (SetNodeAsSlave a b cl : GoM (ClusterManager P) unit).
Proof. unfold SetNodeAsSlave. pres_tac. Qed.
Lemma markSet_wf ids : pres topo_wf (markSet ids : GoM (ClusterManager P) unit).
Proof. unfold markSet. pres_tac. by destruct H1. Qed.
Hint Resolve SetNodeAsSlave_wf markSet_wf : go_pres.
Lemma SetAllNodeRole_wf cl : pres topo_wf (SetAllNodeRole cl : GoM (ClusterManager P) unit).
Proof.
  unfold SetAllNodeRole, assignMastersAndSlaves, assignMaster, assignSlave, listAt.
  pres_tac; by destruct H1.
Qed.
Lemma checkSlotCounts_wf k n cl :
  pres topo_wf (checkSlotCounts_loop k n cl : GoM (ClusterManager P) unit).
Proof. induction k as [|k IH]; cbn; pres_tac. Qed.
Hint Resolve SetAllNodeRole_wf checkSlotCounts_wf : go_pres.
Lemma AllocateSlots_wf cl : pres topo_wf (AllocateSlots cl : GoM (ClusterManager P) unit).
Proof.
  unfold AllocateSlots, assignSlotsToMasters, assignSlots, VerifyAllocateSlots, checkSlotCounts. pres_tac.
Qed.
Hint Resolve AllocateSlots_wf : go_pres.
Lemma Bootstrap_wf k cl : pres topo_wf (Bootstrap k cl : GoM (ClusterManager P) unit).
Proof. unfold Bootstrap, connectToClusterNode, initCluster. pres_tac. Qed.
Lemma assignNewNode_wf st i : pres topo_wf (assignNewNode st i :
  GoM (ClusterManager P) (Z * string * gmap string string)).
Proof. unfold assignNewNode. pres_tac; by destruct H1. Qed.
Hint Resolve Bootstrap_wf assignNewNode_wf : go_pres.
Lemma AddShards_wf k cl : pres topo_wf (AddShards k cl : GoM (ClusterManager P) unit).
Proof.
  unfold AddShards, createPodsForNewShards, connectToExistingNode, meetAndSyncNewNodes,
    ResetEmptyMasters, assignRolesToNewNodes, configureNewNodeReplication, replicateNewSlaves.
  pres_tac. by destruct H1.
Qed.
Lemma AddNewMaster_wf id : pres topo_wf (AddNewMaster id : GoM (ClusterManager P) unit).
Proof. intros c Hc. unfold AddNewMaster. case_match; by destruct Hc. Qed.

End invariant.
