(* ===== verification/Fixtures.v ===== *)
(** * A small cluster to evaluate on

    Two pods, servers that always report the same two masters and accept every command, and
    the cluster manager after it has met them.  The witnesses of the cluster manager's
    theorems run on it. *)
From S2P Require Import Prelude GoStrings Data Redis Manager.

Module Fixtures.

(** A pod manager that is a fixed list. *)
#[global] Instance list_pods : PodManager (list RuntimeNode) := {|
  CreatePods n cl := mret tt;
  ListPodsByCluster cl := mret tt;
  DeleteResources cl := gomodify (filter (λ n, rn_ClusterName n ≠ cl));
  HasCluster p cl := bool_decide (Z.of_nat (length (filter (λ n, rn_ClusterName n = cl) p)) ≠ 0);
  CountByCluster p cl := Z.of_nat (length (filter (λ n, rn_ClusterName n = cl) p));
  GetNodes p := p;
  GetNodeByIP p h := snd <$> list_find (λ n, rn_ConIp n = h) p;
  GetNodeByHost p h := snd <$> list_find (λ n, rn_ConIp n = h) p;
  GetNodeCount p := Z.of_nat (length p) |}.
Lemma list_find_listed (p : list RuntimeNode) h n :
  snd <$> list_find (λ n, rn_ConIp n = h) p = Some n → n ∈ p.
Proof.
  destruct (list_find _ p) as [[i x]|] eqn:E; cbn; [|done]. intros [= <-].
  apply list_find_Some in E as (E & _). by eapply list_elem_of_lookup_2.
Qed.
#[global] Instance list_pods_laws : PodManagerLaws (list RuntimeNode).
Proof.
  refine {| pods_ok := λ _, True |}; cbn; try done; intros p h n _; apply list_find_listed.
Defined.

Definition pod1 : RuntimeNode :=
  mkRuntimeNode "127.0.0.1" 7001 "10.0.0.1" 6379 "" "p1" "u1" "cl" (mkNodeAddress "" "").
Definition pod2 : RuntimeNode :=
  mkRuntimeNode "127.0.0.1" 7002 "10.0.0.2" 6379 "" "p2" "u2" "cl" (mkNodeAddress "" "").
Definition node1 : ClusterNode := mkClusterNode "a" "10.0.0.1" 6379 Master "-" "connected" [] 0 "".
Definition node2 : ClusterNode := mkClusterNode "b" "10.0.0.2" 6379 Master "-" "connected" [] 0 "".

(** Servers that answer CLUSTER NODES with [text] and accept everything else. *)
Definition steady (text : string) : Env := {|
  srv h addr q := match q with
                  | ClusterNodes => RStr text
                  | ClusterGetKeysInSlot _ _ => RList []
                  | MemoryUsage _ | Exists _ | Del _ => RInt 1
                  | _ => RStr "OK"
                  end;
  range_order h l := l |}.
Definition demo_text : string := Printer.print_nodes [node1; node2].
Definition demo_env : Env := steady demo_text.
(** Servers that refuse everything. *)
Definition down_env : Env := {| srv h addr q := RErr (Errorf "connection refused"); range_order h l := l |}.

Definition demo_met : ClusterManager (list RuntimeNode) :=
  (CM.UpdateAfterMeet (EV := demo_env) pod1 "cl" (NewClusterManager 1 [pod1; pod2])).2.
Definition demo_cm : ClusterManager (list RuntimeNode) :=
  (CM.UpdateAfterSetNodeRole (EV := demo_env) pod1 "cl" demo_met).2.

Example demo_cm_masters : masterIDs (topo demo_cm) = ["a"; "b"].
Proof. vm_compute. reflexivity. Qed.

End Fixtures.
