(* ===== verification/Allocation.v ===== *)
(** * Slot allocation and role assignment: correctness

    [assignSlotsToMasters] hands out every slot exactly once, the counts that
    [checkSlotCounts] expects are the ones it hands out, and [UpdateAfterSetNodeRole] builds
    the role tables from the nodes the cluster reports. *)
From S2P Require Import Prelude GoStrings Data Redis Manager ManagerProps Fixtures.
Import CM.

(** ** Arithmetic of the partition *)
Lemma seqZ_one x : seqZ x 1 = [x].
Proof. reflexivity. Qed.
Section partition.
Context (n : Z) (Hn : 1 ≤ n).
Abbreviation q := (Z.quot TotalSlots n).

Lemma quot_bounds : 0 ≤ q ∧ n * q ≤ TotalSlots < n * q + n ∧ Z.rem TotalSlots n = TotalSlots - n * q.
Proof.
  pose proof (Z.quot_rem' TotalSlots n). pose proof (Z.rem_bound_pos TotalSlots n).
  pose proof (Z.quot_pos TotalSlots n). unfold TotalSlots in *. lia.
Qed.

Lemma slotsOf_inner i : i ≠ n - 1 → slotsOf (slotRangeOf n i) = seqZ (i * q) q.
Proof. intros Hi. unfold slotsOf, slotRangeOf. rewrite decide_False by done. cbn. f_equal. lia. Qed.
Lemma slotsOf_last : slotsOf (slotRangeOf n (n - 1)) = seqZ ((n - 1) * q) (TotalSlots - (n - 1) * q).
Proof. unfold slotsOf, slotRangeOf. rewrite decide_True by done. cbn [fst snd]. f_equal. lia. Qed.

(** The first [k] masters, none of them the last, hold the first [k * q] slots. *)
Lemma slots_prefix (k : nat) : Z.of_nat k ≤ n - 1 →
  mjoin ((λ i, slotsOf (slotRangeOf n i)) <$> seqZ 0 (Z.of_nat k)) = seqZ 0 (Z.of_nat k * q).
Proof.
  destruct quot_bounds as (Hq & _). induction k as [|k IH]; intros Hk; [done|].
  replace (Z.of_nat (S k)) with (Z.of_nat k + 1) by lia.
  rewrite seqZ_app, fmap_app, join_app by lia. rewrite IH by lia.
  rewrite seqZ_one. cbn [fmap list_fmap mjoin list_join]. rewrite slotsOf_inner by lia. rewrite app_nil_r.
  replace ((Z.of_nat k + 1) * q) with (Z.of_nat k * q + q) by lia.
  by rewrite (seqZ_app 0 (Z.of_nat k * q) q) by nia.
Qed.

Lemma slots_partition :
  mjoin ((λ i, slotsOf (slotRangeOf n i)) <$> seqZ 0 n) = seqZ 0 TotalSlots.
Proof.
  destruct quot_bounds as (Hq & Hb & _).
  assert (seqZ 0 n = seqZ 0 (Z.of_nat (Z.to_nat (n - 1))) ++ [n - 1]) as ->.
  { rewrite Z2Nat.id by lia.  replace n with (n - 1 + 1) at 1 by lia. rewrite seqZ_app by lia. by rewrite seqZ_one. }
  rewrite fmap_app, join_app, slots_prefix by lia. cbn [fmap list_fmap mjoin list_join].
  rewrite slotsOf_last, app_nil_r, Z2Nat.id by lia.
  transitivity (seqZ 0 ((n - 1) * q + (TotalSlots - (n - 1) * q))); [|f_equal; lia].
  by rewrite (seqZ_app 0 ((n - 1) * q)) by nia.
Qed.

Lemma expected_matches i : 0 ≤ i < n →
  expectedSlotsOf n i = Z.of_nat (length (slotsOf (slotRangeOf n i))).
Proof.
  intros Hi. destruct quot_bounds as (Hq & Hb & Hr). unfold expectedSlotsOf. rewrite Hr.
  destruct (decide (i = n - 1)) as [->|Hne].
  - rewrite slotsOf_last, length_seqZ. case_decide; nia.
  - rewrite slotsOf_inner, length_seqZ by done. rewrite decide_False by tauto. lia.
Qed.
End partition.

(** ** The allocation loop *)
Section allocation.
Context {P : Type} `{PodManager P} `{Env}.
Implicit Types c : ClusterManager P.

(** Where the master with this id listens. *)
Definition podAddr c (id : string) : option string :=
  l ← nodes (topo c) !! id; n ← heap c !! l;
  p ← GetNodeByHost (nodeManager c) (cn_IP n); Some (ClientConnAddr p).
(** The parts handed out to [n] masters. *)
Definition parts (n : Z) : list (list Z) := (λ i, slotsOf (slotRangeOf n i)) <$> seqZ 0 n.
Definition addSlotsEvents (addrs : list string) (ps : list (list Z)) : list event :=
  zip_with (λ a s, EvCmd a (ClusterAddSlots s)) addrs ps.

Lemma assignSlots_spec n i id c :
  masterIDs (topo c) !! Z.to_nat i = Some id →
  (assignSlots n i c).1 = Ret tt ↔
  ∃ a, podAddr c id = Some a ∧
    asErr (srv (hist c) a (ClusterAddSlots (slotsOf (slotRangeOf n i)))) = None.
Proof.
  intros Hid. unfold assignSlots, podAddr, derefNode, goderef, gowrap, gocall, call. go_run. rewrite Hid.
  destruct (nodes (topo c) !! id) as [l|]; cbn; [|naive_solver].
  destruct (heap c !! l) as [m|]; cbn; [|naive_solver].
  destruct (GetNodeByHost _ _) as [p|]; cbn; [|naive_solver].
  destruct (asErr _) eqn:E; cbn; naive_solver.
Qed.
Lemma assignSlots_state n i id a c :
  masterIDs (topo c) !! Z.to_nat i = Some id → podAddr c id = Some a →
  (assignSlots n i c).2 = log_event (EvCmd a (ClusterAddSlots (slotsOf (slotRangeOf n i)))) c.
Proof.
  intros Hid. unfold assignSlots, podAddr, derefNode, goderef, gowrap, gocall, call. go_run. rewrite Hid.
  destruct (nodes (topo c) !! id) as [l|]; cbn; [|done].
  destruct (heap c !! l) as [m|]; cbn; [|done].
  destruct (GetNodeByHost _ _) as [p|]; cbn; [|done]. intros [= <-].
  by destruct (asErr _).
Qed.

(** The loop from master [k] on: it succeeds when every master is reachable and no server
    refuses, and then its trace is the list of the remaining commands. *)
Lemma assignSlots_loop n k ids c :
  drop k (masterIDs (topo c)) = ids → 
  let work := (λ i, slotsOf (slotRangeOf n i)) <$> seqZ (Z.of_nat k) (Z.of_nat (length ids)) in
  (∀ c', goforeach (assignSlots n) (seqZ (Z.of_nat k) (Z.of_nat (length ids))) c = (Ret tt, c') →
     ∃ addrs, mapM (podAddr c) ids = Some addrs ∧ c' = set_hist (hist c ++ addSlotsEvents addrs work) c) ∧
  (∀ addrs, mapM (podAddr c) ids = Some addrs →
     (∀ h a s, asErr (srv h a (ClusterAddSlots s)) = None) →
     (goforeach (assignSlots n) (seqZ (Z.of_nat k) (Z.of_nat (length ids))) c).1 = Ret tt).
Proof.
  revert k c. induction ids as [|id ids IH]; intros k c Hd work.
  { split; [|done]. intros c' [= <-]. exists []. cbn. rewrite app_nil_r. by destruct c. }
  assert (masterIDs (topo c) !! Z.to_nat (Z.of_nat k) = Some id) as Hid.
  { rewrite Nat2Z.id. by apply (f_equal head) in Hd; rewrite head_lookup, lookup_drop, Nat.add_0_r in Hd. }
  assert (drop (S k) (masterIDs (topo c)) = ids) as Hd'.
  { replace (S k) with (k + 1)%nat by lia. by rewrite <- drop_drop, Hd. }
  pose proof (assignSlots_spec n (Z.of_nat k) id c Hid) as Hspec.
  subst work. cbn [length]. rewrite Nat2Z.inj_succ. rewrite seqZ_cons by lia.
  replace (Z.pred (Z.succ (Z.of_nat (length ids)))) with (Z.of_nat (length ids)) by lia.
  replace (Z.succ (Z.of_nat k)) with (Z.of_nat (S k)) by lia.
  cbn [goforeach fmap list_fmap]. unfold mbind at 1, GoM_bind at 1. split.
  - intros c'. unfold mbind, GoM_bind. destruct (assignSlots n (Z.of_nat k) c) as [[[]| | |] c1] eqn:E1; try done.
    destruct Hspec as [[a [Ha _]] _]; [done|].
    pose proof (assignSlots_state n (Z.of_nat k) id a c Hid Ha) as Hc1. rewrite E1 in Hc1; cbn in Hc1. subst c1.
    intros Hrest. match type of Hrest with goforeach _ _ ?c1 = _ => destruct (IH (S k) c1 Hd') as [IH1 _] end.
    destruct (IH1 _ Hrest) as (addrs & Ham & ->). exists (a :: addrs). split.
    + change (mapM (podAddr c) ids = Some addrs) in Ham. cbn. rewrite Ha. cbn. by rewrite Ham.
    + cbn. by rewrite <- app_assoc.
  - intros addrs Ham Hok. cbn in Ham. destruct (podAddr c id) as [a|] eqn:Ha; [|done].
    cbn in Ham. destruct (mapM (podAddr c) ids) as [addrs'|] eqn:Ham'; [|done].
    pose proof (assignSlots_state n (Z.of_nat k) id a c Hid Ha) as Hc1.
    assert ((assignSlots n (Z.of_nat k) c).1 = Ret tt) as Hr by (apply Hspec; eauto).
    unfold mbind, GoM_bind. destruct (assignSlots n (Z.of_nat k) c) as [o c1]; cbn in Hr, Hc1; subst o c1.
    match goal with |- (goforeach _ _ ?c1).1 = _ => destruct (IH (S k) c1 Hd') as [_ IH2] end.
    by eapply IH2.
Qed.
End allocation.

(** ** The role tables *)
Section roles_tables.
Context {P : Type} `{PodManager P} `{Env}.
Implicit Types c : ClusterManager P.

Lemma addMaster_loop masters c :
  ∃ c', goforeach addMaster masters c = (Ret tt, c') ∧
    masterIDs (topo c') = masterIDs (topo c) ++ (cn_ID <$> masters) ∧
    masterSet (topo c') = list_to_set (cn_ID <$> masters) ∪ masterSet (topo c) ∧
    ∀ id, masterToSlave (roles c') !! id =
      if decide (id ∈ cn_ID <$> masters) then Some [] else masterToSlave (roles c) !! id.
Proof.
  revert c; induction masters as [|n ms IH]; intros c.
  { exists c. cbn [fmap list_fmap list_to_set]. rewrite app_nil_r, (left_id_L ∅ (∪)). split_and!; done. }
  cbn [goforeach]. unfold mbind, GoM_bind. unfold addMaster at 1, gomodify at 1.
  edestruct IH as (c' & -> & H1 & H2 & H3). exists c'. rewrite H1, H2. split_and!; [done|..].
  - cbn [topo set_roles set_topo masterIDs set_masterIDs set_masterSet]. by rewrite <- app_assoc.
  - cbn [topo set_roles set_topo masterSet set_masterIDs set_masterSet fmap list_fmap list_to_set].
    rewrite (assoc_L (∪)), (comm_L (∪) _ {[_]}). done.
  - intros id. rewrite H3. rewrite fmap_cons.
    cbn [roles set_roles set_topo masterToSlave set_masterToSlave].
    destruct (decide (id = cn_ID n)) as [->|Hne].
    + rewrite lookup_insert_eq, (decide_True (P := _ ∈ _ :: _)) by set_solver. by case_decide.
    + rewrite lookup_insert_ne by done. repeat case_decide; set_solver.
Qed.

Definition slavesOf (slaves : list ClusterNode) (id : string) : list string :=
  cn_ID <$> filter (λ n, cn_MasterID n = id) slaves.

(** The slaves of every master are appended to its entry, in report order. *)
Lemma addSlave_loop slaves c :
  Forall (λ n, cn_MasterID n ∈ masterSet (topo c)) slaves →
  ∃ m, goforeach addSlave slaves c = (Ret tt, set_roles (set_masterToSlave (λ _, m)) c) ∧
    (∀ id, id ∈ masterSet (topo c) → default [] (m !! id) =
       default [] (masterToSlave (roles c) !! id) ++ slavesOf slaves id) ∧
    ∀ id, is_Some (m !! id) ↔
      is_Some (masterToSlave (roles c) !! id) ∨ List.Exists (λ n, cn_MasterID n = id) slaves.
Proof.
  revert c; induction slaves as [|n ss IH]; intros c Hall.
  { exists (masterToSlave (roles c)). split; [destruct c as [? [] ? ? ? ? ? ? ?]; done|].
    split; [intros; unfold slavesOf; cbn; by rewrite app_nil_r|]. intros id.
    rewrite Exists_nil. tauto. }
  apply Forall_cons in Hall as [Hn Hall].
  cbn [goforeach]. unfold mbind, GoM_bind. unfold addSlave at 1. rewrite decide_True by done.
  set (c1 := set_roles _ c).
  destruct (IH c1 Hall) as (m & -> & Hm & Hs). exists m. split; [done|]. split.
  - intros id Hid. rewrite Hm by done. unfold slavesOf. rewrite filter_cons.
    unfold c1; cbn [roles set_roles masterToSlave set_masterToSlave].
    destruct (decide (cn_MasterID n = id)) as [<-|Hne].
    + rewrite lookup_insert_eq. cbn. by rewrite <- app_assoc.
    + by rewrite lookup_insert_ne.
  - intros id. rewrite Hs, Exists_cons. unfold c1; cbn [roles set_roles masterToSlave set_masterToSlave]. rewrite lookup_insert_is_Some'. tauto.
Qed.
Lemma addSlave_loop_fails slaves c :
  List.Exists (λ n, cn_MasterID n ∉ masterSet (topo c)) slaves →
  ∃ e, (goforeach addSlave slaves c).1 = Fail e.
Proof.
  revert c; induction slaves as [|n ss IH]; intros c; [by intros ?%Exists_nil|].
  rewrite Exists_cons. cbn [goforeach]. unfold mbind, GoM_bind. unfold addSlave at 1.
  case_decide; [|eauto]. intros [|Hss]; [done|]. by apply IH.
Qed.
End roles_tables.

(** ** Reading the cluster changes nothing but the history *)
Section reads.
Context {P : Type} `{PodManager P} `{Env}.
Implicit Types c : ClusterManager P.

Definition same_but_hist (c0 c : ClusterManager P) : Prop := ∃ h, c = set_hist h c0.
Lemma same_refl c : same_but_hist c c.
Proof. exists (hist c). by destruct c. Qed.
Lemma call_same c0 cli q : pres (same_but_hist c0) (call cli q).
Proof. intros c [h ->]. eexists. done. Qed.
Lemma goResult_same {A} c0 w (r : A + error) : pres (same_but_hist c0) (goResult w r).
Proof. intros c Hc. by destruct r. Qed.
Hint Resolve call_same goResult_same : go_pres.
Lemma GetClusterNodes_same n cl c : same_but_hist c (GetClusterNodes n cl c).2.
Proof.
  enough (pres (same_but_hist c) (GetClusterNodes n cl)) as Hp by apply Hp, same_refl.
  unfold GetClusterNodes. pres_tac.
  intros c1 Hc1. unfold ParseRedisClusterNodes. destruct (ParseClusterNodeLines _ _).
  match goal with |- same_but_hist _ (?m c1).2 => enough (pres (same_but_hist c) m) as Hm by (by apply Hm) end.
  pres_tac. unfold forgetFailedClusterNodes. pres_tac. intros c2 Hc2. cbv beta.
  repeat case_match; try done. apply pres_foreach; [|done]. intros id. pres_tac.
Qed.
End reads.

(** What [UpdateAfterSetNodeRole] clears before it looks. *)
Definition reset_roles {P} (c : ClusterManager P) : ClusterManager P :=
  set_topo (λ t, set_masterSet (λ _, ∅) (set_masterIDs (λ _, []) t))
    (set_roles (set_masterToSlave (λ _, ∅)) c).

Module AllocationTheorems.
Section theorems.
Context {P : Type} `{PodManager P} `{Env}.
Implicit Types c : ClusterManager P.

(** C5: slot allocation is a partition.  With at least one master, the parts that
    [assignSlotsToMasters] computes list the slots 0..16383 in order, each exactly once, one
    part per master.  When it succeeds, it has sent exactly one CLUSTER ADDSLOTS per master,
    to that master's pod and with its part, and nothing else changed; and it does succeed
    when every master has a pod and no server refuses. *)
Theorem assignSlots_partition cl c :
  masterIDs (topo c) ≠ [] →
  let ps := parts (MasterCount c) in
  mjoin ps = seqZ 0 TotalSlots ∧ length ps = length (masterIDs (topo c)) ∧
  (∀ c', assignSlotsToMasters cl c = (Ret tt, c') →
     ∃ addrs, mapM (podAddr c) (masterIDs (topo c)) = Some addrs ∧
       c' = set_hist (hist c ++ addSlotsEvents addrs ps) c) ∧
  (∀ addrs, mapM (podAddr c) (masterIDs (topo c)) = Some addrs →
     (∀ h a s, asErr (srv h a (ClusterAddSlots s)) = None) →
     (assignSlotsToMasters cl c).1 = Ret tt).
Proof.
  intros Hne ps. assert (1 ≤ MasterCount c) as Hn.
  { unfold MasterCount. destruct (masterIDs (topo c)); [done|cbn; lia]. }
  unfold assignSlotsToMasters, goget, mbind, GoM_bind. rewrite decide_False by lia.
  split_and!; [by apply slots_partition| |by apply (assignSlots_loop _ 0 _ c eq_refl)..].
  unfold ps, parts. rewrite length_fmap, length_seqZ. unfold MasterCount. lia.
Qed.

(** Also: the verification counts what the allocation hands out.  [slotCountOk], the test of
    [checkSlotCounts], accepts the [i]-th master exactly when the node object recorded for it
    has as many slots as the part [assignSlotsToMasters] gives to the [i]-th master. *)
Theorem slotCount_test c i :
  0 ≤ i < MasterCount c →
  slotCountOk c i = true ↔
  ∃ id l n, masterIDs (topo c) !! Z.to_nat i = Some id ∧ nodes (topo c) !! id = Some l ∧
    heap c !! l = Some n ∧
    cn_SlotsNum n = Z.of_nat (length (slotsOf (slotRangeOf (MasterCount c) i))).
Proof.
  intros Hi. unfold slotCountOk. rewrite (expected_matches (MasterCount c)) by lia.
  destruct (masterIDs (topo c) !! Z.to_nat i) as [id|]; cbn; [|naive_solver].
  destruct (nodes (topo c) !! id) as [l|] eqn:Hl; cbn; [|naive_solver].
  destruct (heap c !! l) as [n|] eqn:Hn; cbn; [|naive_solver].
  rewrite bool_decide_eq_true. naive_solver.
Qed.

(** Also: a count mismatch is never reported.  Every error that [checkSlotCounts] returns is an
    error of [UpdateSlots]: when the counts stay wrong for all ten attempts, the function
    returns without error. *)
Theorem count_mismatch_not_reported node cl c e :
  (checkSlotCounts node cl c).1 = Fail e → ∃ c1, (UpdateSlots node cl c1).1 = Fail e.
Proof.
  unfold checkSlotCounts. generalize 10%nat. intros k. revert c. induction k as [|k IH]; intros c; [done|].
  cbn [checkSlotCounts_loop]. unfold mbind, GoM_bind.
  destruct (UpdateSlots node cl c) as [[[]|e'| |] c1] eqn:E; cbn; intros Hr; [|exists c|..]; simplify_eq.
  - case_decide; [done|]. destruct (forallb _ _); [done|]. by eapply IH.
  - by rewrite E.
Qed.

(** Also: the role tables.  When the login node's view of the cluster is the node list [ns],
    [UpdateAfterSetNodeRole] succeeds exactly if every slave names a master of the list, and
    then the master ids are those of the list, sorted, and every master's entry holds the
    ids of its slaves, sorted; no other id has an entry. *)
Theorem roles_from_report node cl c ns c1 :
  GetNodeCount (nodeManager c) ≠ 0 → GetClusterNodes node cl (reset_roles c) = (Ret ns, c1) → ns ≠ [] →
  let '(masters, slaves) := classifyNodesByType ns in
  let ids := cn_ID <$> masters in
  let r := UpdateAfterSetNodeRole node cl c in
  (r.1 = Ret tt ↔ Forall (λ n, cn_MasterID n ∈ ids) slaves) ∧
  (r.1 = Ret tt →
     masterIDs (topo r.2) = sort_Strings ids ∧
     ∀ id, masterToSlave (roles r.2) !! id =
       if decide (id ∈ ids) then Some (sort_Strings (slavesOf slaves id)) else None).
Proof.
  intros Hcnt Hg Hne. unfold UpdateAfterSetNodeRole. go_run. fold (reset_roles c).
  rewrite (decide_False (P := GetNodeCount _ = 0)) by done. rewrite Hg, (decide_False (P := ns = [])) by done.
  pose proof (GetClusterNodes_same node cl (reset_roles c)) as [h Hc1]. rewrite Hg in Hc1; cbn in Hc1.
  set (masters := filter _ ns). set (slaves := filter _ ns).
  unfold buildMasterSlaveTopology, mbind, GoM_bind.
  destruct (addMaster_loop masters c1) as (c2 & -> & Hm & Hs & Hmap). subst c1. cbn in Hm, Hmap.
  assert (∀ x, x ∈ masterSet (topo c2) ↔ x ∈ cn_ID <$> masters) as Hset.
  { intros x. rewrite Hs. cbn. rewrite (right_id_L ∅ (∪)). apply elem_of_list_to_set. }
  destruct (decide (Forall (λ n, cn_MasterID n ∈ cn_ID <$> masters) slaves)) as [Hall|Hno].
  - destruct (addSlave_loop slaves c2) as (m & -> & Hd & Hk).
    { eapply Forall_impl; [exact Hall|]. intros x. apply Hset. }
    split; [done|]. intros _. cbn. rewrite Hm. split; [done|]. intros id. rewrite lookup_fmap.
    specialize (Hd id). specialize (Hk id). rewrite Hmap in Hd, Hk.
    case_decide as Hid; rewrite Hset in Hd.
    + specialize (Hd Hid). destruct (m !! id); cbn in *; [by subst|].
      destruct Hk as [_ Hk]. by destruct Hk as [? ?]; [left|].
    + destruct (m !! id) as [v|]; [|done]. exfalso. apply Hid.
      destruct Hk as [[[? Hx]|Hx] _]; [by eexists|done|].
      apply Exists_exists in Hx as (x & Hx & <-). rewrite Forall_forall in Hall. by apply Hall.
  - destruct (addSlave_loop_fails slaves c2) as [e He].
    { apply not_Forall_Exists in Hno; [|apply _]. eapply Exists_impl; [exact Hno|]. intros x. cbn. by rewrite Hset. }
    destruct (goforeach addSlave slaves c2) as [[] ?]; cbn in *; naive_solver.
Qed.

(** Also: what [equalClusterNodeType] compares.  It accepts two role tables exactly when they
    have the same masters with the same number of slaves each; which slaves they are does not
    matter. *)
Theorem equalClusterNodeType_spec (m1 m2 : gmap string (list string)) :
  equalClusterNodeType m1 m2 = true ↔ length <$> m1 = length <$> m2.
Proof.
  unfold equalClusterNodeType. rewrite andb_true_iff, bool_decide_eq_true, forallb_forall. split.
  - intros [Hs Hf].
    assert (length <$> m1 ⊆ (length <$> m2 : gmap string nat)) as Hsub.
    { apply map_subseteq_spec. intros k x. rewrite !lookup_fmap_Some. intros (v & <- & Hv).
      apply elem_of_map_to_list, list_elem_of_In in Hv. specialize (Hf _ Hv). cbn in Hf.
      destruct (m2 !! k) as [v2|]; [|done]. apply bool_decide_eq_true in Hf. eauto. }
    apply map_subseteq_size_eq in Hsub; [done|]. rewrite !map_size_fmap. lia.
  - intros Heq. split; [rewrite <- (map_size_fmap length m1), Heq; apply map_size_fmap|].
    intros [k v] Hv%list_elem_of_In%elem_of_map_to_list.
    assert ((length <$> m2 : gmap string nat) !! k = Some (length v)) as Hk
      by (rewrite <- Heq, lookup_fmap, Hv; done).
    apply lookup_fmap_Some in Hk as (v2 & Hl & ->). by apply bool_decide_eq_true.
Qed.

(** The answer to the [k]-th poll. *)
Definition pollReply c (client : redisClient) (k : nat) : reply :=
  srv (hist c ++ replicate k (EvCmd client ClusterNodes)) client ClusterNodes.
Definition synced (n : Z) (r : reply) : Prop := ∃ s, r = RStr s ∧ countActiveNodes s = n.
Definition unsynced (n : Z) (r : reply) : Prop := ∃ s, r = RStr s ∧ countActiveNodes s ≠ n.

Lemma pollReply_S c client k :
  pollReply (log_event (EvCmd client ClusterNodes) c) client k = pollReply c client (S k).
Proof. unfold pollReply. cbn. by rewrite <- app_assoc. Qed.

(** Also: waiting for the meet.  [waitForMeetSync] succeeds exactly when one of at most ten
    polls reports the expected number of connected nodes and all polls before it were
    answered with another number; on every exit it has sent between one and ten CLUSTER
    NODES commands and changed nothing else. *)
Theorem waitForMeetSync_spec client n c :
  let r := waitForMeetSync client n c in
  (r.1 = Ret tt ↔ ∃ j, (j < 10)%nat ∧ synced n (pollReply c client j) ∧
     ∀ i, (i < j)%nat → unsynced n (pollReply c client i)) ∧
  ∃ k, (1 ≤ k ≤ 10)%nat ∧ r.2 = set_hist (hist c ++ replicate k (EvCmd client ClusterNodes)) c.
Proof.
  unfold waitForMeetSync. assert (0 < 10)%nat as Hpos by lia. revert Hpos. generalize 10%nat. intros t.
  revert c. induction t as [|t IH]; intros c Ht; [lia|]. cbn [waitForMeetSync_loop].
  unfold mbind, GoM_bind, call, goResult. cbn [fst snd].
  assert (pollReply c client 0 = srv (hist c) client ClusterNodes) as H0'
    by (unfold pollReply; cbn; by rewrite app_nil_r).
  destruct (srv (hist c) client ClusterNodes) as [s|z|l|e] eqn:E; cbn [asStr].
  2-4: split; [split; [done|intros (j & Hj & Hs & Hu)];
    destruct j as [|j]; [destruct Hs as (? & ? & _)|destruct (Hu 0%nat) as (? & ? & _); [lia|]];
    rewrite H0' in *; done|exists 1%nat; split; [lia|done]].
  unfold mret, GoM_ret. case_decide as Hcnt.
  { split; [|exists 1%nat; split; [lia|done]]. split; [|done]. intros _. exists 0%nat.
    split; [lia|]. split; [|lia]. exists s. by rewrite H0'. }
  destruct (decide (t = 0%nat)) as [->|Hne].
  { cbn. split; [|exists 1%nat; split; [lia|done]]. split; [done|]. intros (j & Hj & Hs & _).
    assert (j = 0%nat) as -> by lia. destruct Hs as (s' & Hs' & ?). rewrite H0' in Hs'. naive_solver. }
  destruct (IH (log_event (EvCmd client ClusterNodes) c)) as [IH1 (k & Hk & IH2)]; [lia|].
  split.
  - rewrite IH1. split.
    + intros (j & Hj & Hs & Hu). exists (S j). split; [lia|].
      rewrite pollReply_S in Hs. split; [done|]. intros [|i] Hi; [rewrite H0'; by exists s|].
      rewrite <- pollReply_S. apply Hu. lia.
    + intros ([|j] & Hj & Hs & Hu); [destruct Hs as (? & Hs & ?); rewrite H0' in Hs; naive_solver|].
      exists j. split; [lia|]. rewrite pollReply_S. split; [done|]. intros i Hi.
      rewrite pollReply_S. apply Hu. lia.
  - exists (S k). split; [lia|]. rewrite IH2. cbn. by rewrite <- app_assoc.
Qed.
End theorems.

Import Fixtures.

Lemma assignSlots_partition_witness :
  mjoin (parts (MasterCount demo_cm)) = seqZ 0 TotalSlots ∧
  (assignSlotsToMasters (EV := demo_env) "cl" demo_cm).1 = Ret tt.
Proof.
  destruct (assignSlots_partition (H0 := demo_env) "cl" demo_cm) as (H1 & _ & _ & H2).
  - rewrite demo_cm_masters. done.
  - split; [exact H1|].
    apply (H2 ["127.0.0.1:7001"; "127.0.0.1:7002"]); [vm_compute; reflexivity|done].
Defined.

(** Right after the meet no slot is assigned yet: the count of the first master is refused. *)
Lemma slotCount_test_witness :
  slotCountOk demo_cm 0 = false ∧
  ¬ ∃ id l n, masterIDs (topo demo_cm) !! 0%nat = Some id ∧ nodes (topo demo_cm) !! id = Some l ∧
    heap demo_cm !! l = Some n ∧
    cn_SlotsNum n = Z.of_nat (length (slotsOf (slotRangeOf (MasterCount demo_cm) 0))).
Proof.
  split; [vm_compute; reflexivity|]. intros Hex. apply (slotCount_test demo_cm 0) in Hex.
  - vm_compute in Hex. discriminate.
  - unfold MasterCount. rewrite demo_cm_masters. cbn. lia.
Defined.

(** The servers report two masters without slots for ever, and the check is silent. *)
Example wrong_counts_accepted :
  (checkSlotCounts (EV := demo_env) pod1 "cl" demo_cm).1 = Ret tt ∧
  slotCountOk (checkSlotCounts (EV := demo_env) pod1 "cl" demo_cm).2 0 = false.
Proof. vm_compute. done. Qed.

Lemma count_mismatch_not_reported_witness :
  ∃ c1, (UpdateSlots (EV := down_env) pod1 "cl" c1).1 =
    Fail (Wrapf "failed to get cluster nodes" (Errorf "connection refused")).
Proof.
  apply (count_mismatch_not_reported (H0 := down_env) pod1 "cl" demo_cm). vm_compute. reflexivity.
Defined.

Lemma roles_from_report_witness :
  masterIDs (topo (UpdateAfterSetNodeRole (EV := demo_env) pod1 "cl" demo_met).2) = ["a"; "b"].
Proof.
  pose proof (roles_from_report (H0 := demo_env) pod1 "cl" demo_met
    [set_cn_ClusterName "cl" node1; set_cn_ClusterName "cl" node2]
    (GetClusterNodes (EV := demo_env) pod1 "cl" (reset_roles demo_met)).2) as Hr.
  destruct Hr as [Hok Hids]; [vm_compute; done|vm_compute; reflexivity|done|].
  destruct Hids as [Hids _]; [vm_compute; reflexivity|]. rewrite Hids. vm_compute. reflexivity.
Defined.
End AllocationTheorems.
