(* ===== verification/Plan.v ===== *)
(** * Slot migration: the plan

    [cluster/model/manager.go]: which slots move from which master to which empty master
    ([collectSlotTasks]), their grouping by source ([groupSlotTasks]) and the range of slots
    whose cache entries are dropped afterwards. *)
From S2P Require Import Prelude GoStrings Data Redis Manager.

Definition smallKeyBatch : Z := 50.
Definition chunkDivisor : Z := 10.
Definition migrationWorkers : nat := 16.
Definition bigKeyThreshold : Z := 10 * 1024 * 1024.

Record slotTask : Type := mkTask {
  slot : Z;
  fromID : string;
  fromIP : string;
  toID : string;
  toIP : string;
  destHostPort : Z;
  fromHostPort : Z;
  containerPort : Z }.
Record group : Type := mkGroup { g_tasks : list slotTask; g_fromIP : string; g_fromHostPort : Z }.

#[global] Instance slotTask_eq_dec : EqDecision slotTask.
Proof. solve_decision. Defined.
#[global] Instance group_eq_dec : EqDecision group.
Proof. solve_decision. Defined.

Module Plan.
Section plan.
Context {P : Type} {PM : PodManager P}.
Abbreviation M := (GoM (ClusterManager P)).
Implicit Types c : ClusterManager P.

(** [c.topo.empty[i]], dereferenced. *)
Definition emptyAt (i : nat) : M (loc * ClusterNode) :=
  c ← goget;
  l ← goderef "index out of range" (empty (topo c) !! i);
  n ← CM.derefNode l;
  mret (l, n).
Definition addSlotsNum (l : loc) (k : Z) : M unit :=
  n ← CM.derefNode l;
  gomodify (set_heap (insert l (set_cn_SlotsNum (cn_SlotsNum n + k) n))).

Definition buildSlotTask (slotNum : Z) (masterNode : ClusterNode) (empIdx : nat) : M slotTask :=
  '(_, e) ← emptyAt empIdx;
  c ← goget;
  let destRuntime := GetNodeByHost (nodeManager c) (cn_IP e) in
  let fromRuntime := GetNodeByHost (nodeManager c) (cn_IP masterNode) in
  mret (mkTask slotNum (cn_ID masterNode) (cn_IP masterNode) (cn_ID e) (cn_IP e)
          (from_option rn_HostPort 0 destRuntime) (from_option rn_HostPort 0 fromRuntime)
          (from_option rn_ConPort 0 destRuntime)).

(** [for slotNum := slot.End; slotNum >= slot.Start && empIdx < len(empty); slotNum--]: one
    turn per slot of the range; [m] is the [masterNode] pointer. *)
Fixpoint slot_loop (turns : nat) (m : loc) (newV slotNum : Z) (st : nat * list slotTask)
    : M (nat * list slotTask) :=
  match turns with
  | O => mret st
  | S k =>
      let '(empIdx, tasks) := st in
      c ← goget;
      if decide (length (empty (topo c)) ≤ empIdx)%nat then mret st
      else
        masterNode ← CM.derefNode m;
        '(le, e) ← emptyAt empIdx;
        if decide (cn_ID masterNode = cn_ID e) then mret st
        else
          task ← buildSlotTask slotNum masterNode empIdx;
          let tasks := tasks ++ [task] in
          _ ← addSlotsNum le 1;
          _ ← addSlotsNum m (-1);
          '(_, e') ← emptyAt empIdx;
          let empIdx := if decide (cn_SlotsNum e' = newV) then S empIdx else empIdx in
          masterNode' ← CM.derefNode m;
          if decide (cn_SlotsNum masterNode' = newV) then mret (empIdx, tasks)
          else slot_loop k m newV (slotNum - 1) (empIdx, tasks)
  end.
(** The [break] of the inner loop leaves that loop only: the next range is entered. *)
Definition collectTasksFromMaster (m : loc) (newV : Z) (st : nat * list slotTask)
    : M (nat * list slotTask) :=
  masterNode ← CM.derefNode m;
  gofold (λ st r, slot_loop (Z.to_nat (End_ r - Start r + 1)) m newV (End_ r) st) st
    (cn_Slots masterNode).

Definition collectFrom (clusterName : string) (newV : Z) (st : nat * list slotTask)
    (masterID : string) : M (nat * list slotTask) :=
  c ← goget;
  match nodes (topo c) !! masterID with
  | None => mret st
  | Some m =>
      masterNode ← CM.derefNode m;
      if decide (cn_SlotsNum masterNode = 0 ∨ cn_ClusterName masterNode ≠ clusterName ∨
                 cn_SlotsNum masterNode ≤ newV) then mret st
      else collectTasksFromMaster m newV st
  end.
Definition collectSlotTasks (clusterName : string) : M (list slotTask) :=
  c ← goget;
  if decide (CM.MasterCount c = 0) then gopanic "integer divide by zero"
  else
    let newV := Z.quot TotalSlots (CM.MasterCount c) in
    '(_, tasks) ← gofold (collectFrom clusterName newV) (0%nat, []) (masterIDs (topo c));
    mret tasks.

(** Grouping by source IP, in task order. *)
Definition addToGroup (groups : gmap string group) (t : slotTask) : gmap string group :=
  let g := default (mkGroup [] (fromIP t) (fromHostPort t)) (groups !! fromIP t) in
  <[fromIP t := mkGroup (g_tasks g ++ [t]) (g_fromIP g) (g_fromHostPort g)]> groups.
Definition groupSlotTasks (tasks : list slotTask) : gmap string group := foldl addToGroup ∅ tasks.

(** The smallest interval around the migrated slots; an empty plan would panic. *)
Definition slotBounds (tasks : list slotTask) : option (Z * Z) :=
  match tasks with
  | [] => None
  | t0 :: _ =>
      Some (foldl (λ '(minSlot, maxSlot) t,
                     (if decide (slot t < minSlot) then slot t else minSlot,
                      if decide (slot t > maxSlot) then slot t else maxSlot))
              (slot t0, slot t0) tasks)
  end.
Definition invalidateCacheAfterMigration (tasks : list slotTask) : M unit :=
  '(minSlot, maxSlot) ← goderef "index out of range" (slotBounds tasks);
  gomodify (log_event (EvInvalidate minSlot maxSlot)).

End plan.
End Plan.
