(* ===== verification/PlanProps.v ===== *)
(** * Slot migration: the plan is right

    [collectSlotTasks] walks over heap objects, moving one slot at a time and adjusting the
    counts of both ends.  Here it is shown equal to a closed description of the plan: the
    [i]-th task goes to empty master [i / newV], and a source range of [len] slots gives up its
    [taken] topmost ones, fewer when the next target has the id of the source itself. *)
From S2P Require Import Prelude GoStrings Data Redis Manager Fixtures Plan.
Import Plan.

#[global] Instance ClusterNode_inhabited : Inhabited ClusterNode :=
  populate (mkClusterNode "" "" 0 "" "" "" [] 0 "").

(** ** The reference plan *)
Section spec.
Context {P : Type} `{PodManager P}.
Context (c0 : ClusterManager P) (v : nat).
Abbreviation es := (empty (topo c0)).
Abbreviation h0 := (heap c0).
Abbreviation newV := (Z.of_nat v).

Definition taskFor (m e : ClusterNode) (s : Z) : slotTask :=
  mkTask s (cn_ID m) (cn_IP m) (cn_ID e) (cn_IP e)
    (from_option rn_HostPort 0 (GetNodeByHost (nodeManager c0) (cn_IP e)))
    (from_option rn_HostPort 0 (GetNodeByHost (nodeManager c0) (cn_IP m)))
    (from_option rn_ConPort 0 (GetNodeByHost (nodeManager c0) (cn_IP e))).

(** The object behind the [j]-th empty master. *)
Definition target (j : nat) : ClusterNode := default inhabitant (l ← es !! j; h0 !! l).
(** All the slots the empty masters can take. *)
Definition cap : nat := (v * length es)%nat.
(** The targets at the front of [ls] that do not have the id [id]. *)
Fixpoint free (id : string) (ls : list loc) : nat :=
  match ls with
  | [] => 0
  | l :: ls => if decide (cn_ID (default inhabitant (h0 !! l)) = id) then 0 else S (free id ls)
  end.
(** What a source with the id [id] can still hand out after [k] slots were: it stops at a target
    with its own id. *)
Definition room (id : string) (k : nat) : nat := v * (k / v + free id (drop (k / v) es)) - k.
(** How many slots of a range of [len] move when the source has [x] slots and [k] slots have
    been handed out before: down to [newV], unless the source is there already. *)
Definition taken (id : string) (len : nat) (x : Z) (k : nat) : nat :=
  if decide (newV < x) then Nat.min len (Nat.min (room id k) (Z.to_nat (x - newV)))
  else Nat.min len (room id k).
(** [t] slots from [e] downwards. *)
Definition desc (e : Z) (t : nat) : list Z := (λ i, e - Z.of_nat i) <$> seq 0 t.
Definition rangeLen (r : SlotRange) : nat := Z.to_nat (End_ r - Start r + 1).

Fixpoint drain (id : string) (rs : list SlotRange) (x : Z) (k : nat) : list Z :=
  match rs with
  | [] => []
  | r :: rs =>
      let t := taken id (rangeLen r) x k in
      desc (End_ r) t ++ drain id rs (x - Z.of_nat t) (k + t)
  end.
(** The tasks of one source: the [i]-th slot handed out goes to target [i / v]. *)
Definition assign (m : ClusterNode) (k : nat) (slots : list Z) : list slotTask :=
  imap (λ i s, taskFor m (target ((k + i) / v)) s) slots.

(** The count of every object after [k] tasks: [num] for the sources, and as many as they
    received for the targets. *)
Definition fill (k j : nat) : Z := Z.of_nat (Nat.min v (k - j * v)).
Definition count (k : nat) (num : loc → Z) (l : loc) : Z :=
  match list_find (λ l', l' = l) es with Some (j, _) => fill k j | None => num l end.
Definition drop_num (m : loc) (t : nat) (num : loc → Z) : loc → Z :=
  λ l, if decide (l = m) then num l - Z.of_nat t else num l.

Fixpoint plan (clusterName : string) (ids : list string) (num : loc → Z) (k : nat)
    : list slotTask * (loc → Z) :=
  match ids with
  | [] => ([], num)
  | id :: ids =>
      match (m ← nodes (topo c0) !! id; n ← h0 !! m; Some (m, n)) with
      | None => plan clusterName ids num k
      | Some (m, n) =>
          let x := count k num m in
          if decide (x = 0 ∨ cn_ClusterName n ≠ clusterName ∨ x ≤ newV) then
            plan clusterName ids num k
          else
            let slots := drain (cn_ID n) (cn_Slots n) x k in
            let '(ts, num') :=
              plan clusterName ids (drop_num m (length slots) num) (k + length slots) in
            (assign n k slots ++ ts, num')
      end
  end.
Definition num0 (l : loc) : Z := from_option cn_SlotsNum 0 (h0 !! l).

(** What the plan starts from: at most one master per slot, distinct empty masters with no
    slots, and allocated nodes. *)
Record plan_ok : Prop := mk_plan_ok {
  pk_v : (0 < v)%nat;
  pk_nodup : NoDup es;
  pk_empty : ∀ l, l ∈ es → ∃ n, h0 !! l = Some n ∧ cn_SlotsNum n = 0;
  pk_alloc : ∀ id m, nodes (topo c0) !! id = Some m → is_Some (h0 !! m) }.

(** ** States along the way *)
Definition heapAt (k : nat) (num : loc → Z) : gmap loc ClusterNode :=
  map_imap (λ l n, Some (set_cn_SlotsNum (count k num l) n)) h0.
Definition stAt (k : nat) (num : loc → Z) : ClusterManager P := set_heap (λ _, heapAt k num) c0.

Lemma heapAt_lookup k num l : heapAt k num !! l = set_cn_SlotsNum (count k num l) <$> h0 !! l.
Proof. unfold heapAt. rewrite map_lookup_imap. by destruct (h0 !! l). Qed.

Context (Hok : plan_ok).

Lemma count_target k num j l : es !! j = Some l → count k num l = fill k j.
Proof.
  intros Hj. unfold count.
  assert (list_find (λ l', l' = l) es = Some (j, l)) as ->; [|done].
  apply list_find_Some. split_and!; [done..|]. intros i y Hy Hij ->.
  pose proof (NoDup_lookup _ _ _ _ (pk_nodup Hok) Hy Hj). lia.
Qed.
Lemma count_source k num l : l ∉ es → count k num l = num l.
Proof.
  intros Hl. unfold count. assert (list_find (λ l', l' = l) es = None) as ->; [|done].
  apply list_find_None. apply Forall_forall. intros x Hx ->. done.
Qed.
Lemma fill_0 j : fill 0 j = 0.
Proof. unfold fill. rewrite Nat.sub_0_l, Nat.min_0_r. done. Qed.
Lemma fill_le k j : fill k j ≤ newV.
Proof. unfold fill. lia. Qed.

Lemma stAt_0 : stAt 0 num0 = c0.
Proof.
  unfold stAt. assert (heapAt 0 num0 = h0) as ->; [|by destruct c0]. apply map_eq. intros l.
  rewrite heapAt_lookup. destruct (h0 !! l) as [n|] eqn:E; cbn; [|done]. f_equal.
  assert (count 0 num0 l = cn_SlotsNum n) as ->; [|by destruct n].
  destruct (decide (l ∈ es)) as [Hl|Hl].
  - destruct (pk_empty Hok l Hl) as (n' & Hn' & H0'). apply list_elem_of_lookup in Hl as [j Hj].
    rewrite (count_target _ _ j) by done. rewrite fill_0. congruence.
  - rewrite count_source by done. unfold num0. by rewrite E.
Qed.

(** The slot handed out as number [k] goes to target [k / v], and only its count moves. *)
Lemma fill_step k j : fill (S k) j = fill k j + (if decide (j = k / v)%nat then 1 else 0).
Proof.
  pose proof (pk_v Hok) as Hv. unfold fill. pose proof (Nat.div_mod_eq k v) as Hd.
  pose proof (Nat.mod_upper_bound k v). set (d := (k / v)%nat) in *. set (r := (k mod v)%nat) in *.
  clearbody d r. case_decide as Hj.
  - subst d. replace (S k - j * v)%nat with (S r) by nia. replace (k - j * v)%nat with r by nia. lia.
  - assert (j < d ∨ d < j)%nat as [Hlt|Hgt] by lia.
    + assert (v ≤ k - j * v)%nat by nia. lia.
    + assert (k - j * v = 0)%nat as -> by nia. assert (S k - j * v = 0)%nat as -> by nia. lia.
Qed.
Lemma fill_full k : fill (S k) (k / v) = newV ↔ (S k / v = S (k / v))%nat.
Proof.
  pose proof (pk_v Hok) as Hv. unfold fill. pose proof (Nat.div_mod_eq k v) as Hd.
  pose proof (Nat.mod_upper_bound k v). set (r := (k mod v)%nat) in *.
  replace (S k - k / v * v)%nat with (S r) by nia. split; intros Hx.
  - assert (S r = v) by lia. symmetry. apply (Nat.div_unique _ _ _ 0); nia.
  - pose proof (Nat.div_mod_eq (S k) v). pose proof (Nat.mod_upper_bound (S k) v). nia.
Qed.
Lemma div_step k : (S k / v = S (k / v) ∨ S k / v = k / v)%nat.
Proof.
  pose proof (pk_v Hok) as Hv. pose proof (Nat.div_mod_eq k v). pose proof (Nat.mod_upper_bound k v).
  pose proof (Nat.div_mod_eq (S k) v). pose proof (Nat.mod_upper_bound (S k) v). nia.
Qed.
(** No target left, or the next one has the id of the source: no room. *)
Lemma room_none id k : (length es ≤ k / v)%nat ∨ cn_ID (target (k / v)) = id → room id k = 0%nat.
Proof.
  pose proof (pk_v Hok) as Hv. unfold room. pose proof (Nat.div_mod_eq k v).
  intros Hstop. assert (free id (drop (k / v) es) = 0%nat) as ->; [|nia].
  destruct (es !! (k / v)%nat) as [l|] eqn:Hl.
  - destruct Hstop as [Hlen|Hid]; [apply lookup_lt_Some in Hl; lia|].
    rewrite (drop_S _ l) by done. cbn. unfold target in Hid. rewrite Hl in Hid. cbn in Hid. by rewrite decide_True.
  - apply lookup_ge_None in Hl. by rewrite drop_ge.
Qed.
(** Otherwise there is, and handing out a slot takes one place. *)
Lemma room_step id k l :
  es !! (k / v)%nat = Some l → cn_ID (target (k / v)) ≠ id →
  room id k ≠ 0%nat ∧ room id (S k) = (room id k - 1)%nat.
Proof.
  intros Hl Hid. pose proof (pk_v Hok) as Hv. unfold room. pose proof (Nat.div_mod_eq k v).
  pose proof (Nat.mod_upper_bound k v). pose proof (drop_S _ l _ Hl) as Hd.
  assert (free id (drop (k / v) es) = S (free id (drop (S (k / v)) es))) as Hf.
  { rewrite Hd. cbn. rewrite decide_False; [done|]. unfold target in Hid. by rewrite Hl in Hid. }
  split; [rewrite Hf; nia|]. destruct (div_step k) as [-> | ->]; rewrite Hf; nia.
Qed.

(** ** The code, one step at a time *)
Lemma deref_st k num l n :
  h0 !! l = Some n →
  CM.derefNode l (stAt k num) = (Ret (set_cn_SlotsNum (count k num l) n), stAt k num).
Proof. intros Hl. unfold CM.derefNode, goderef. cbn. by rewrite heapAt_lookup, Hl. Qed.
Lemma emptyAt_st k num j l e :
  es !! j = Some l → h0 !! l = Some e →
  emptyAt j (stAt k num) = (Ret (l, set_cn_SlotsNum (fill k j) e), stAt k num).
Proof.
  intros Hj Hl. unfold emptyAt, goget, mbind, GoM_bind, goderef at 1. cbn [topo stAt set_heap].
  rewrite Hj. rewrite (deref_st k num l e Hl). by rewrite (count_target k num j l Hj).
Qed.

Lemma move_st k num le e m n :
  es !! (k / v)%nat = Some le → h0 !! le = Some e → m ∉ es → h0 !! m = Some n →
  (_ ← addSlotsNum le 1; addSlotsNum m (-1)) (stAt k num) = (Ret tt, stAt (S k) (drop_num m 1 num)).
Proof.
  intros Hle He Hm Hn.
  assert (le ≠ m) as Hne by (intros ->; apply Hm; by eapply list_elem_of_lookup_2).
  unfold addSlotsNum, mbind, GoM_bind, gomodify. rewrite (deref_st k num le e He).
  unfold CM.derefNode, goderef. cbn [heap set_heap stAt]. rewrite lookup_insert_ne by done.
  rewrite heapAt_lookup, Hn. cbn [fmap option_fmap option_map]. unfold stAt, set_heap. cbn -[heapAt]. do 2 f_equal.
  apply map_eq. intros l. rewrite heapAt_lookup.
  destruct (decide (l = m)) as [->|Hlm].
  { rewrite lookup_insert_eq, Hn. cbn. rewrite !count_source by done. unfold drop_num.
    rewrite decide_True by done. done. }
  rewrite lookup_insert_ne by done. destruct (decide (l = le)) as [->|Hll].
  { rewrite lookup_insert_eq, He. cbn. rewrite !(count_target _ _ _ _ Hle), fill_step.
    rewrite decide_True by done. done. }
  rewrite lookup_insert_ne by done. rewrite heapAt_lookup. destruct (h0 !! l) as [n'|]; [|done]. cbn.
  do 2 f_equal. destruct (decide (l ∈ es)) as [Hl|Hl].
  - apply list_elem_of_lookup in Hl as [j Hj]. rewrite !(count_target _ _ _ _ Hj), fill_step.
    rewrite decide_False; [lia|]. intros ->. congruence.
  - rewrite !count_source by done. unfold drop_num. by rewrite decide_False.
Qed.

Lemma buildSlotTask_st k num j l e s x n :
  es !! j = Some l → h0 !! l = Some e →
  buildSlotTask s (set_cn_SlotsNum x n) j (stAt k num) = (Ret (taskFor n (target j) s), stAt k num).
Proof.
  intros Hj Hl. unfold buildSlotTask, mbind, GoM_bind. rewrite (emptyAt_st k num j l e Hj Hl). cbn.
  unfold target. rewrite Hj. cbn. by rewrite Hl.
Qed.

Lemma desc_S e t : desc e (S t) = e :: desc (e - 1) t.
Proof.
  unfold desc. cbn. f_equal; [lia|]. rewrite <- seq_shift, <- list_fmap_compose.
  apply list_fmap_ext. intros ? x _. cbn. lia.
Qed.
Lemma length_desc e t : length (desc e t) = t.
Proof. unfold desc. by rewrite length_fmap, length_seq. Qed.
Lemma assign_cons m k s l : assign m k (s :: l) = taskFor m (target (k / v)) s :: assign m (S k) l.
Proof.
  unfold assign. cbn. rewrite Nat.add_0_r. f_equal. apply imap_ext. intros i x _. cbn.
  by rewrite Nat.add_succ_r.
Qed.
Lemma assign_app m k a b : assign m k (a ++ b) = assign m k a ++ assign m (k + length a) b.
Proof.
  unfold assign. rewrite imap_app. f_equal. apply imap_ext. intros i x _. cbn. by rewrite Nat.add_assoc.
Qed.
Lemma length_assign m k l : length (assign m k l) = length l.
Proof. apply length_imap. Qed.

(** Unrolling of [taken]. *)
Lemma taken_0 id x k : taken id 0 x k = 0%nat.
Proof. unfold taken. case_decide; lia. Qed.
Lemma taken_full id len x k : room id k = 0%nat → taken id len x k = 0%nat.
Proof. intros Hc. unfold taken. rewrite Hc. case_decide; lia. Qed.
Lemma taken_last id len x k : room id k ≠ 0%nat → x - 1 = newV → taken id (S len) x k = 1%nat.
Proof. intros Hc Hx. unfold taken. rewrite decide_True by lia. lia. Qed.
Lemma taken_step id len x k :
  room id k ≠ 0%nat → room id (S k) = (room id k - 1)%nat → x - 1 ≠ newV →
  taken id (S len) x k = S (taken id len (x - 1) (S k)).
Proof. intros Hc Hs Hx. unfold taken. rewrite Hs. repeat case_decide; lia. Qed.


Lemma stAt_ext k num1 num2 : (∀ l, num1 l = num2 l) → stAt k num1 = stAt k num2.
Proof.
  intros Hn. unfold stAt. enough (heapAt k num1 = heapAt k num2) as -> by done.
  apply map_eq. intros l. rewrite !heapAt_lookup. unfold count. destruct (list_find _ es) as [[]|]; [done|]. by rewrite Hn.
Qed.
Lemma stAt_drop_0 k num m : stAt k (drop_num m 0 num) = stAt k num.
Proof. apply stAt_ext. intros l. unfold drop_num. case_decide; lia. Qed.
Lemma stAt_drop_add k num m a b :
  stAt k (drop_num m b (drop_num m a num)) = stAt k (drop_num m (a + b) num).
Proof. apply stAt_ext. intros l. unfold drop_num. case_decide; lia. Qed.

(** A source: a known object outside the empty masters. *)
Definition source (m : loc) (n : ClusterNode) : Prop := h0 !! m = Some n ∧ m ∉ es.

Lemma slot_loop_st turns m n s k num tasks :
  source m n →
  let t := taken (cn_ID n) turns (num m) k in
  slot_loop turns m newV s ((k / v)%nat, tasks) (stAt k num) =
  (Ret (((k + t) / v)%nat, tasks ++ assign n k (desc s t)), stAt (k + t) (drop_num m t num)).
Proof.
  intros [Hm Hmes]. revert s k num tasks. induction turns as [|turns IH]; intros s k num tasks t.
  { subst t. rewrite taken_0, Nat.add_0_r, stAt_drop_0. cbn. by rewrite app_nil_r. }
  cbn [slot_loop]. unfold goget at 1, mbind at 1, GoM_bind at 1. cbn [topo stAt set_heap].
  case_decide as Hroom.
  { subst t. rewrite taken_full, Nat.add_0_r, stAt_drop_0 by (apply room_none; by left). cbn. by rewrite app_nil_r. }
  destruct (lookup_lt_is_Some_2 es (k / v)) as [le Hle]; [lia|].
  assert (le ∈ es) as Hin by (by eapply list_elem_of_lookup_2).
  destruct (pk_empty Hok le Hin) as (e & He & _).
  unfold mbind at 1, GoM_bind at 1. rewrite (deref_st k num m n Hm).
  unfold mbind at 1, GoM_bind at 1. rewrite (emptyAt_st k num _ le e Hle He).
  assert (target (k / v) = e) as Htgt by (unfold target; rewrite Hle; cbn; by rewrite He).
  cbn [cn_ID set_cn_SlotsNum]. case_decide as Hown.
  { subst t. rewrite taken_full, Nat.add_0_r, stAt_drop_0 by (apply room_none; right; by rewrite Htgt). cbn.
    by rewrite app_nil_r. }
  destruct (room_step (cn_ID n) k le Hle) as [Hcap Hstep]; [by rewrite Htgt|].
  unfold mbind at 1, GoM_bind at 1. rewrite (buildSlotTask_st k num _ le e s _ n Hle He).
  pose proof (move_st k num le e m n Hle He Hmes Hm) as Hmove. unfold mbind, GoM_bind in Hmove.
  unfold mbind at 1 2, GoM_bind at 1 2.
  destruct (addSlotsNum le 1 (stAt k num)) as [[[]| | |] s1]; try done. rewrite Hmove. clear Hmove s1.
  unfold mbind at 1, GoM_bind at 1. rewrite (emptyAt_st (S k) _ _ le e Hle He).
  unfold mbind at 1, GoM_bind at 1. rewrite (deref_st (S k) _ m n Hm). cbn [cn_SlotsNum set_cn_SlotsNum].
  rewrite count_source by done.
  assert (drop_num m 1 num m = num m - 1) as Hd by (unfold drop_num; rewrite decide_True by done; lia).
  rewrite Hd.
  assert ((if decide (fill (S k) (k / v) = newV) then S (k / v) else k / v)%nat = (S k / v)%nat) as ->.
  { destruct (div_step k) as [E|E]; case_decide as Hf; rewrite fill_full in Hf; lia. }
  case_decide as Hx.
  - subst t. rewrite taken_last by done. cbn [mret GoM_ret]. unfold mret, GoM_ret.
    rewrite Nat.add_1_r, desc_S, assign_cons. done.
  - subst t. rewrite (taken_step _ turns) by done. rewrite IH, Hd. rewrite stAt_drop_add.
    rewrite desc_S, assign_cons, <- app_assoc, <- Nat.add_succ_comm. done.
Qed.

(** The ranges of one master. *)
Lemma ranges_st rs m n k num tasks :
  source m n →
  let slots := drain (cn_ID n) rs (num m) k in
  gofold (λ st r, slot_loop (Z.to_nat (End_ r - Start r + 1)) m newV (End_ r) st) ((k / v)%nat, tasks) rs
    (stAt k num) =
  (Ret (((k + length slots) / v)%nat, tasks ++ assign n k slots),
   stAt (k + length slots) (drop_num m (length slots) num)).
Proof.
  intros Hs. revert k num tasks. induction rs as [|r rs IH]; intros k num tasks; cbn [gofold drain length].
  { rewrite Nat.add_0_r, stAt_drop_0, app_nil_r. done. }
  unfold mbind, GoM_bind. rewrite (slot_loop_st _ m n _ _ _ _ Hs). fold (rangeLen r).
  set (t := taken (cn_ID n) (rangeLen r) (num m) k). rewrite IH.
  assert (drop_num m t num m = num m - Z.of_nat t) as -> by (unfold drop_num; by rewrite decide_True).
  rewrite stAt_drop_add, length_app, length_desc, assign_app, length_desc, <- app_assoc, Nat.add_assoc.
  done.
Qed.

Definition bounded (num : loc → Z) : Prop := ∀ l n, h0 !! l = Some n → num l ≤ cn_SlotsNum n.

(** A master that has to give slots is a source. *)
Lemma overfull_source k num id m n :
  bounded num → nodes (topo c0) !! id = Some m → h0 !! m = Some n → newV < count k num m → source m n.
Proof.
  intros Hb Hid Hn Hx. assert (m ∉ es) as Hm.
  { intros [j Hj]%list_elem_of_lookup. rewrite (count_target _ _ _ _ Hj) in Hx.
    pose proof (fill_le k j). lia. }
  by split.
Qed.
Lemma bounded_drop num m t : bounded num → bounded (drop_num m t num).
Proof. intros Hb l n Hl. specialize (Hb l n Hl). unfold drop_num. case_decide; lia. Qed.

Lemma collectFrom_None cl id k num tasks :
  nodes (topo c0) !! id = None →
  collectFrom cl newV ((k / v)%nat, tasks) id (stAt k num) = (Ret ((k / v)%nat, tasks), stAt k num).
Proof. intros Hid. unfold collectFrom, goget, mbind, GoM_bind. cbn [topo stAt set_heap]. by rewrite Hid. Qed.
Lemma collectFrom_Some cl id m n k num tasks :
  bounded num → nodes (topo c0) !! id = Some m → h0 !! m = Some n →
  let x := count k num m in
  let slots := if decide (x = 0 ∨ cn_ClusterName n ≠ cl ∨ x ≤ newV) then [] else drain (cn_ID n) (cn_Slots n) x k in
  collectFrom cl newV ((k / v)%nat, tasks) id (stAt k num) =
  (Ret (((k + length slots) / v)%nat, tasks ++ assign n k slots),
   stAt (k + length slots) (drop_num m (length slots) num)).
Proof.
  intros Hb Hid Hn x slots. unfold collectFrom, goget, mbind, GoM_bind. cbn [topo stAt set_heap]. rewrite Hid.
  rewrite (deref_st k num m n Hn). cbn [cn_SlotsNum cn_ClusterName set_cn_SlotsNum]. fold x. subst slots.
  case_decide as Hskip.
  { cbn. by rewrite Nat.add_0_r, app_nil_r, stAt_drop_0. }
  assert (newV < x) as Hx by lia.
  pose proof (overfull_source k num id m n Hb Hid Hn Hx) as Hs.
  assert (x = num m) as -> by (apply count_source, Hs).
  unfold collectTasksFromMaster, mbind, GoM_bind. rewrite (deref_st k num m n Hn).
  cbn [cn_Slots set_cn_SlotsNum]. by rewrite (ranges_st _ m n _ _ _ Hs).
Qed.

Lemma collect_st cl ids k num tasks :
  bounded num →
  let r := plan cl ids num k in
  gofold (collectFrom cl newV) ((k / v)%nat, tasks) ids (stAt k num) =
  (Ret (((k + length r.1) / v)%nat, tasks ++ r.1), stAt (k + length r.1) r.2).
Proof.
  revert k num tasks. induction ids as [|id ids IH]; intros k num tasks Hb; cbn [plan gofold].
  { cbn. by rewrite Nat.add_0_r, app_nil_r. }
  unfold mbind, GoM_bind. destruct (nodes (topo c0) !! id) as [m|] eqn:Hid; cbn [option_bind].
  2:{ rewrite collectFrom_None by done. by apply IH. }
  destruct (pk_alloc Hok id m Hid) as [n Hn]. rewrite (collectFrom_Some cl id m n) by done. rewrite Hn.
  cbn [option_bind]. case_decide as Hskip.
  - cbn. rewrite Nat.add_0_r, app_nil_r, stAt_drop_0. by apply IH.
  - set (slots := drain (cn_ID n) (cn_Slots n) _ k). rewrite IH by (by apply bounded_drop).
    destruct (plan cl ids _ _) as [ts num']. cbn [fst snd].
    rewrite length_app, length_assign, Nat.add_assoc, <- app_assoc. done.
Qed.
End spec.

(** [newV] of [collectSlotTasks], as a natural number. *)
Definition share {P} (c : ClusterManager P) : nat := Z.to_nat (Z.quot TotalSlots (CM.MasterCount c)).

Lemma collectSlotTasks_st {P} `{PodManager P} (c : ClusterManager P) cl :
  plan_ok c (share c) →
  let r := plan c (share c) cl (masterIDs (topo c)) (num0 c) 0 in
  collectSlotTasks cl c = (Ret r.1, stAt c (share c) (length r.1) r.2).
Proof.
  intros Hok. pose proof (pk_v _ _ Hok) as Hv. pose proof (stAt_0 c (share c) Hok) as H0'.
  pose proof (collect_st c (share c) Hok cl (masterIDs (topo c)) 0 (num0 c) []) as Hc.
  destruct (plan c (share c) cl (masterIDs (topo c)) (num0 c) 0) as [ts num']. cbn [fst snd] in *.
  rewrite H0' in Hc. unfold collectSlotTasks, goget, mbind, GoM_bind.
  assert (CM.MasterCount c ≠ 0) as Hne.
  { intros E. unfold share in Hv. rewrite E, Z.quot_0_r_ext in Hv by done. cbn in Hv. lia. }
  rewrite decide_False by done.
  assert (Z.quot TotalSlots (CM.MasterCount c) = Z.of_nat (share c)) as Hq.
  { unfold share. rewrite Z2Nat.id; [done|]. unfold CM.MasterCount, TotalSlots in *.
    apply Z.quot_pos; lia. }
  rewrite Hq, Nat.Div0.div_0_l in *. rewrite Hc; [done|].
  intros l n Hl. unfold num0. by rewrite Hl.
Qed.

(** ** Consequences of the description *)
Section consequences.
Context {P : Type} `{PodManager P}.
Context (c0 : ClusterManager P) (v : nat).

Lemma free_le id ls : (free c0 id ls ≤ length ls)%nat.
Proof. induction ls as [|l ls IH]; cbn; [lia|]. case_decide; lia. Qed.
Lemma free_lookup id ls i l :
  (i < free c0 id ls)%nat → ls !! i = Some l → cn_ID (default inhabitant (heap c0 !! l)) ≠ id.
Proof.
  revert i. induction ls as [|l' ls IH]; intros i; cbn; [lia|]. case_decide as Hd; [lia|].
  destruct i as [|i]; cbn; [naive_solver|]. intros. apply (IH i); [lia|done].
Qed.
Lemma free_all id ls :
  (∀ l, l ∈ ls → cn_ID (default inhabitant (heap c0 !! l)) ≠ id) → free c0 id ls = length ls.
Proof.
  induction ls as [|l ls IH]; intros Hl; cbn; [done|]. rewrite decide_False by (apply Hl; set_solver).
  f_equal. apply IH. set_solver.
Qed.
Lemma room_le id k : (room c0 v id k ≤ cap c0 v - k)%nat.
Proof.
  unfold room, cap. pose proof (free_le id (drop (k / v) (empty (topo c0)))) as Hf. rewrite length_drop in Hf.
  pose proof (Nat.Div0.mul_div_le k v). nia.
Qed.
Lemma room_all id k :
  (∀ l, l ∈ empty (topo c0) → cn_ID (default inhabitant (heap c0 !! l)) ≠ id) → room c0 v id k = (cap c0 v - k)%nat.
Proof.
  intros Hl. unfold room, cap. rewrite free_all, length_drop.
  - pose proof (Nat.Div0.mul_div_le k v). nia.
  - intros l [i Hi]%list_elem_of_lookup. apply Hl. rewrite lookup_drop in Hi. by eapply list_elem_of_lookup_2.
Qed.
(** Within the room, targets have another id than the source. *)
Lemma room_other id k i : (0 < v)%nat → (i < room c0 v id k)%nat → cn_ID (target c0 ((k + i) / v)) ≠ id.
Proof.
  intros Hv. unfold room. pose proof (Nat.div_mod_eq k v). pose proof (Nat.mod_upper_bound k v).
  pose proof (free_le id (drop (k / v) (empty (topo c0)))) as Hf. intros Hi.
  assert (k / v ≤ (k + i) / v)%nat as Hge by (apply Nat.Div0.div_le_mono; lia).
  set (d := ((k + i) / v - k / v)%nat).
  assert (d < free c0 id (drop (k / v) (empty (topo c0))))%nat as Hd.
  { pose proof (Nat.Div0.mul_div_le (k + i) v). unfold d. nia. }
  destruct (lookup_lt_is_Some_2 (drop (k / v) (empty (topo c0))) d) as [l Hl]; [lia|].
  pose proof (free_lookup _ _ _ _ Hd Hl) as Hne. rewrite lookup_drop in Hl.
  replace (k / v + d)%nat with ((k + i) / v)%nat in Hl by (unfold d; lia).
  unfold target. by rewrite Hl.
Qed.
Lemma taken_le id len x k : (taken c0 v id len x k ≤ len ∧ taken c0 v id len x k ≤ room c0 v id k)%nat.
Proof. unfold taken. case_decide; lia. Qed.
Lemma elem_of_desc e t s : s ∈ desc e t → e - Z.of_nat t < s ≤ e.
Proof. unfold desc. rewrite list_elem_of_fmap. setoid_rewrite elem_of_seq. intros (i & -> & ?). lia. Qed.

Lemma drain_room id rs x k : (length (drain c0 v id rs x k) ≤ cap c0 v - k)%nat.
Proof.
  revert x k. induction rs as [|r rs IH]; intros x k; cbn [drain length]; [lia|].
  rewrite length_app, length_desc. pose proof (taken_le id (rangeLen r) x k). pose proof (room_le id k).
  specialize (IH (x - Z.of_nat (taken c0 v id (rangeLen r) x k)) (k + taken c0 v id (rangeLen r) x k)%nat). lia.
Qed.
Lemma drain_other id rs x k i :
  (0 < v)%nat → (i < length (drain c0 v id rs x k))%nat → cn_ID (target c0 ((k + i) / v)) ≠ id.
Proof.
  intros Hv. revert x k i. induction rs as [|r rs IH]; intros x k i; cbn [drain]; [cbn; lia|].
  rewrite length_app, length_desc. set (t := taken c0 v id (rangeLen r) x k). intros Hi.
  pose proof (taken_le id (rangeLen r) x k) as [_ Ht]. fold t in Ht.
  destruct (decide (i < t)%nat); [apply room_other; lia|].
  replace (k + i)%nat with ((k + t) + (i - t))%nat by lia. apply (IH (x - Z.of_nat t) (k + t)%nat). lia.
Qed.
Lemma drain_owned id rs x k s :
  s ∈ drain c0 v id rs x k → ∃ r, r ∈ rs ∧ Start r ≤ s ≤ End_ r.
Proof.
  revert x k. induction rs as [|r rs IH]; intros x k; cbn [drain]; [by intros ?%not_elem_of_nil|].
  rewrite elem_of_app. intros [Hs%elem_of_desc|(r' & ? & ?)%IH]; [|set_solver].
  exists r. split; [set_solver|]. pose proof (taken_le id (rangeLen r) x k). unfold rangeLen in *. lia.
Qed.
(** A source with an id of its own that leaves places free has come down to the share, or has
    given all it has. *)
Lemma drain_complete id rs x k :
  (∀ l, l ∈ empty (topo c0) → cn_ID (default inhabitant (heap c0 !! l)) ≠ id) →
  (k + length (drain c0 v id rs x k) < cap c0 v)%nat →
  x - Z.of_nat (length (drain c0 v id rs x k)) ≤ Z.of_nat v ∨
  ∀ r s, r ∈ rs → Start r ≤ s ≤ End_ r → s ∈ drain c0 v id rs x k.
Proof.
  intros Hids. revert x k. induction rs as [|r rs IH]; intros x k; cbn [drain]; [set_solver|].
  rewrite length_app, length_desc. set (t := taken c0 v id (rangeLen r) x k). intros Hlen.
  destruct (decide (t = rangeLen r)) as [Ht|Ht].
  - destruct (IH (x - Z.of_nat t) (k + t)%nat) as [Hx|Hall]; [lia|left; lia|right].
    intros r' s [->|Hr']%elem_of_cons Hs; apply elem_of_app; [left|right; by eapply Hall].
    rewrite Ht. unfold desc. apply list_elem_of_fmap. exists (Z.to_nat (End_ r - s)).
    split; [lia|]. apply elem_of_seq. unfold rangeLen. lia.
  - left. assert (x - Z.of_nat t ≤ Z.of_nat v); [|lia]. unfold t, taken in *. rewrite room_all in * by done.
    case_decide; lia.
Qed.
Lemma assign_lookup n k slots i t :
  assign c0 v n k slots !! i = Some t →
  ∃ s, slots !! i = Some s ∧ t = taskFor c0 n (target c0 ((k + i) / v)) s.
Proof. unfold assign. rewrite list_lookup_imap. destruct (slots !! i); naive_solver. Qed.

(** One source per task; [k] tasks were planned before. *)
Lemma plan_lookup cl ids num k i t :
  (0 < v)%nat → (plan c0 v cl ids num k).1 !! i = Some t →
  (k + i < cap c0 v)%nat ∧
  ∃ id m n, id ∈ ids ∧ nodes (topo c0) !! id = Some m ∧ heap c0 !! m = Some n ∧ cn_ClusterName n = cl ∧
    (∃ k' num', (∀ l, num' l ≤ num l) ∧ Z.of_nat v < count c0 v k' num' m) ∧
    (∃ r, r ∈ cn_Slots n ∧ Start r ≤ slot t ≤ End_ r) ∧ cn_ID (target c0 ((k + i) / v)) ≠ cn_ID n ∧
    t = taskFor c0 n (target c0 ((k + i) / v)) (slot t).
Proof.
  intros Hv. revert num k i. induction ids as [|id ids IH]; intros num k i; cbn [plan]; [done|].
  assert (∀ num' k' i', (∀ l, num' l ≤ num l) → (k' + i' = k + i)%nat →
    (plan c0 v cl ids num' k').1 !! i' = Some t → (k + i < cap c0 v)%nat ∧
    ∃ id' m n, id' ∈ id :: ids ∧ nodes (topo c0) !! id' = Some m ∧ heap c0 !! m = Some n ∧
      cn_ClusterName n = cl ∧
      (∃ k' num', (∀ l, num' l ≤ num l) ∧ Z.of_nat v < count c0 v k' num' m) ∧
      (∃ r, r ∈ cn_Slots n ∧ Start r ≤ slot t ≤ End_ r) ∧ cn_ID (target c0 ((k + i) / v)) ≠ cn_ID n ∧
      t = taskFor c0 n (target c0 ((k + i) / v)) (slot t)) as Hrest.
  { intros num' k' i' Hle Hki Hi. destruct (IH _ _ _ Hi) as (Hcap & id' & m & n & Hid & H1 & H2 & H3 & Hx & H5 & H6 & H7).
    rewrite Hki in *. split; [done|]. exists id', m, n. split_and!; try done; [set_solver|].
    destruct Hx as (k2 & num2 & Hle2 & Hx). exists k2, num2. split; [|done]. intros l. specialize (Hle l). specialize (Hle2 l). lia. }
  destruct (nodes (topo c0) !! id) as [m|] eqn:Hid; cbn; [|by apply (Hrest num k i)].
  destruct (heap c0 !! m) as [n|] eqn:Hn; cbn; [|by apply (Hrest num k i)].
  case_decide as Hskip; [by apply (Hrest num k i)|].
  set (slots := drain c0 v (cn_ID n) (cn_Slots n) _ k).
  pose proof (drain_room (cn_ID n) (cn_Slots n) (count c0 v k num m) k) as Hroom. fold slots in Hroom.
  destruct (plan c0 v cl ids _ _) as [ts num'] eqn:Hp. cbn [fst].
  rewrite lookup_app_Some. intros [Hi|[Hge Hi]].
  - apply assign_lookup in Hi as (s & Hs & ->). split; [apply lookup_lt_Some in Hs; lia|].
    exists id, m, n. split_and!; try done; [set_solver|destruct (decide (cn_ClusterName n = cl)); tauto| | |].
    + exists k, num. split; [done|]. lia.
    + apply (drain_owned (cn_ID n) _ (count c0 v k num m) k). by eapply list_elem_of_lookup_2.
    + eapply drain_other; [done|]. by eapply lookup_lt_Some.
  - rewrite length_assign in *. apply (Hrest (drop_num m (length slots) num) (k + length slots)%nat (i - length slots)%nat).
    + intros l. unfold drop_num. case_decide; lia.
    + lia.
    + by rewrite Hp.
Qed.

(** Sources never gain, and a source with at most one range never falls below the share. *)
Lemma plan_le cl ids num k l : (plan c0 v cl ids num k).2 l ≤ num l.
Proof.
  revert num k. induction ids as [|id ids IH]; intros num k; cbn [plan]; [cbn; lia|].
  destruct (mbind _ _) as [[m n]|]; [|done]. case_decide; [done|].
  set (slots := drain c0 v (cn_ID n) (cn_Slots n) _ k).
  specialize (IH (drop_num m (length slots) num) (k + length slots)%nat).
  destruct (plan c0 v cl ids _ _) as [ts num']. cbn in *. unfold drop_num in IH. case_decide; lia.
Qed.
Lemma plan_keeps_share cl ids num k l :
  plan_ok c0 v → bounded c0 num →
  (∀ n, heap c0 !! l = Some n → (length (cn_Slots n) ≤ 1)%nat) →
  Z.of_nat v ≤ num l → Z.of_nat v ≤ (plan c0 v cl ids num k).2 l.
Proof.
  intros Hok. revert num k. induction ids as [|id ids IH]; intros num k Hb Hone Hl; cbn [plan]; [done|].
  destruct (nodes (topo c0) !! id) as [m|] eqn:Hid; cbn; [|by apply IH].
  destruct (heap c0 !! m) as [n|] eqn:Hn; cbn; [|by apply IH].
  case_decide as Hskip; [by apply IH|].
  assert (Z.of_nat v < count c0 v k num m) as Hx by lia.
  destruct (overfull_source c0 v Hok k num id m n Hb Hid Hn Hx) as [_ Hm].
  rewrite count_source in * by done. set (slots := drain c0 v (cn_ID n) (cn_Slots n) (num m) k).
  pose proof (IH (drop_num m (length slots) num) (k + length slots)%nat) as IH'.
  destruct (plan c0 v cl ids _ _) as [ts num']. cbn in *. apply IH'; [by apply bounded_drop|done|].
  unfold drop_num. case_decide as El; [|done]. subst l.
  assert (Z.of_nat (length slots) ≤ num m - Z.of_nat v); [|lia].
  specialize (Hone n Hn). unfold slots.
  destruct (cn_Slots n) as [|r [|? ?]]; cbn in *; [lia| |lia].
  rewrite app_nil_r, length_desc. unfold taken. rewrite decide_True by done. lia.
Qed.
Lemma plan_complete cl ids num k id m n :
  plan_ok c0 v → id ∈ ids → nodes (topo c0) !! id = Some m → heap c0 !! m = Some n → cn_ClusterName n = cl →
  m ∉ empty (topo c0) → (∀ l, l ∈ empty (topo c0) → cn_ID (default inhabitant (heap c0 !! l)) ≠ cn_ID n) →
  (k + length (plan c0 v cl ids num k).1 < cap c0 v)%nat →
  (plan c0 v cl ids num k).2 m ≤ Z.of_nat v ∨
  ∀ r s, r ∈ cn_Slots n → Start r ≤ s ≤ End_ r →
    ∃ t, t ∈ (plan c0 v cl ids num k).1 ∧ slot t = s ∧ fromID t = cn_ID n.
Proof.
  intros Hok Hid Hm Hn Hcl Hmes Hids. revert num k Hid. induction ids as [|id' ids IH]; intros num k Hid; [set_solver|].
  cbn [plan]. destruct (decide (id' = id)) as [->|Hne].
  - rewrite Hm. cbn [mbind option_bind]. rewrite Hn. cbn [mbind option_bind]. rewrite count_source by done.
    case_decide as Hskip; [left; pose proof (plan_le cl ids num k m); naive_solver lia|].
    set (slots := drain c0 v (cn_ID n) (cn_Slots n) (num m) k).
    pose proof (plan_le cl ids (drop_num m (length slots) num) (k + length slots) m) as Hle.
    destruct (plan c0 v cl ids _ _) as [ts num']. cbn [fst snd] in *. rewrite length_app, length_assign. intros Hlen.
    unfold drop_num in Hle. rewrite decide_True in Hle by done.
    destruct (drain_complete (cn_ID n) (cn_Slots n) (num m) k Hids) as [Hx|Hall]; [fold slots; lia|left; fold slots in Hx; lia|].
    right. intros r s Hr Hs. pose proof (Hall r s Hr Hs) as [i Hi]%list_elem_of_lookup. fold slots in Hi.
    exists (taskFor c0 n (target c0 ((k + i) / v)) s). split; [|done]. apply elem_of_app. left.
    apply list_elem_of_lookup. exists i. unfold assign. by rewrite list_lookup_imap, Hi.
  - assert (id ∈ ids) as Hid' by set_solver. destruct (mbind _ _) as [[m' n']|]; [|by apply IH].
    case_decide; [by apply IH|]. set (slots := drain c0 v _ _ _ k).
    pose proof (IH (drop_num m' (length slots) num) (k + length slots)%nat Hid') as IH'.
    destruct (plan c0 v cl ids _ _) as [ts num']. cbn [fst snd] in *. rewrite length_app, length_assign. intros Hlen.
    destruct IH' as [Hx|Hall]; [lia|by left|right]. intros r s Hr Hs. destruct (Hall r s Hr Hs) as (t & Ht & ?).
    exists t. split; [|done]. set_solver.
Qed.
End consequences.

(** The tasks of the whole plan. *)
Section tasks.
Context {P : Type} `{PodManager P}.
Context (c : ClusterManager P) (cl : string) (Hok : plan_ok c (share c)).
Abbreviation whole := (plan c (share c) cl (masterIDs (topo c)) (num0 c) 0).

Lemma plan_length : (length whole.1 ≤ share c * length (empty (topo c)))%nat.
Proof.
  destruct (decide (length whole.1 = 0)%nat) as [->|Hne]; [lia|].
  destruct (lookup_lt_is_Some_2 whole.1 (length whole.1 - 1)) as [t Ht]; [lia|].
  apply plan_lookup in Ht as [Ht _]; [|apply (pk_v _ _ Hok)]. unfold cap in Ht. lia.
Qed.
Lemma plan_tasks i t :
  whole.1 !! i = Some t →
  ∃ le e id m n,
    empty (topo c) !! (i / share c)%nat = Some le ∧ heap c !! le = Some e ∧
    id ∈ masterIDs (topo c) ∧ nodes (topo c) !! id = Some m ∧ heap c !! m = Some n ∧
    cn_ClusterName n = cl ∧ Z.of_nat (share c) < cn_SlotsNum n ∧ cn_ID e ≠ cn_ID n ∧
    t = taskFor c n e (slot t) ∧ ∃ r, r ∈ cn_Slots n ∧ Start r ≤ slot t ≤ End_ r.
Proof.
  intros Hi. pose proof (pk_v _ _ Hok) as Hv. apply plan_lookup in Hi; [|done].
  destruct Hi as (Hic & id & m & n & Hid & Hm & Hn & Hcl & (k' & num' & Hle & Hx) & Hr & Hne & Ht).
  assert (i / share c < length (empty (topo c)))%nat as Hj.
  { unfold cap in Hic. apply Nat.Div0.div_lt_upper_bound. lia. }
  destruct (lookup_lt_is_Some_2 _ _ Hj) as [le Hle'].
  assert (le ∈ empty (topo c)) as Hin by (by eapply list_elem_of_lookup_2).
  destruct (pk_empty _ _ Hok le Hin) as (e & He & _).
  assert (target c (i / share c) = e) as Htgt by (unfold target; rewrite Hle'; cbn; by rewrite He).
  assert (bounded c num') as Hb.
  { intros l x Hl. specialize (Hle l). unfold num0 in Hle. rewrite Hl in Hle. done. }
  destruct (overfull_source c _ Hok k' num' id m n Hb Hm Hn Hx) as [_ Hmes].
  rewrite count_source in Hx by done. specialize (Hb m n Hn).
  exists le, e, id, m, n. cbn in Ht, Hne. rewrite Htgt in Ht, Hne. split_and!; try done. lia.
Qed.
End tasks.

(** ** Grouping and cache bounds *)
Lemma groupSlotTasks_snoc ts t : groupSlotTasks (ts ++ [t]) = addToGroup (groupSlotTasks ts) t.
Proof. unfold groupSlotTasks. by rewrite foldl_app. Qed.

Lemma groupSlotTasks_lookup (ts : list slotTask) ip :
  groupSlotTasks ts !! ip =
  match filter (λ t, fromIP t = ip) ts with
  | [] => None
  | (t0 :: _) as mine => Some (mkGroup mine ip (fromHostPort t0))
  end.
Proof.
  induction ts as [|t ts IH] using rev_ind; [done|]. rewrite groupSlotTasks_snoc, filter_app, filter_cons, filter_nil.
  unfold addToGroup. destruct (decide (fromIP t = ip)) as [<-|Hne].
  - rewrite lookup_insert_eq, IH. by destruct (filter _ ts).
  - rewrite lookup_insert_ne, IH by done. by rewrite app_nil_r.
Qed.

Definition bounds_step : Z * Z → slotTask → Z * Z := λ '(minSlot, maxSlot) t,
  (if decide (slot t < minSlot) then slot t else minSlot,
   if decide (slot t > maxSlot) then slot t else maxSlot).
Lemma bounds_fold ts b :
  let r := foldl bounds_step b ts in
  r.1 ≤ b.1 ∧ b.2 ≤ r.2 ∧ (∀ t, t ∈ ts → r.1 ≤ slot t ≤ r.2) ∧
  (r.1 = b.1 ∨ ∃ t, t ∈ ts ∧ r.1 = slot t) ∧ (r.2 = b.2 ∨ ∃ t, t ∈ ts ∧ r.2 = slot t).
Proof.
  revert b. induction ts as [|t ts IH]; intros [lo hi]; cbn [foldl].
  { cbn. split_and!; [lia|lia|by intros ? ?%not_elem_of_nil|by left|by left]. }
  destruct (IH (bounds_step (lo, hi) t)) as (H1 & H2 & H3 & H4 & H5).
  set (r := foldl bounds_step (bounds_step (lo, hi) t) ts) in *. clearbody r. cbn in *.
  destruct (decide (slot t < lo)), (decide (slot t > hi));
    (split_and!; [lia|lia|intros t' [->|Ht']%elem_of_cons; [lia|by apply H3]
      |destruct H4 as [|(x & ? & ?)]; [|right; exists x; set_solver]
      |destruct H5 as [|(x & ? & ?)]; [|right; exists x; set_solver]]);
    first [by left|right; exists t; set_solver].
Qed.

Module PlanTheorems.
Section theorems.
Context {P : Type} `{PodManager P}.

(** C2: the migration plan.  From a state with distinct empty masters that have no slots yet,
    [collectSlotTasks] returns a plan that fills the empty masters one after the other: the
    [i]-th task goes to empty master [i / share], so that no empty master gets more than its
    share of slots; the slot of every task lies in a range of its source, an overfull master of
    the cluster, and is never sent to a node with the id of the source.  The plan is complete:
    if it leaves places at the empty masters, every overfull master of the cluster (whose id is
    not that of an empty one) has come down to the share, or all its slots are in the plan. *)
Theorem plan_fills_targets_in_order (c : ClusterManager P) cl :
  plan_ok c (share c) →
  ∃ ts c', collectSlotTasks cl c = (Ret ts, c') ∧
    (length ts ≤ share c * length (empty (topo c)))%nat ∧
    (∀ i t, ts !! i = Some t →
      ∃ le e id m n,
        empty (topo c) !! (i / share c)%nat = Some le ∧ heap c !! le = Some e ∧
        id ∈ masterIDs (topo c) ∧ nodes (topo c) !! id = Some m ∧ heap c !! m = Some n ∧
        cn_ClusterName n = cl ∧ Z.of_nat (share c) < cn_SlotsNum n ∧ cn_ID e ≠ cn_ID n ∧
        t = taskFor c n e (slot t) ∧ ∃ r, r ∈ cn_Slots n ∧ Start r ≤ slot t ≤ End_ r) ∧
    ((length ts < share c * length (empty (topo c)))%nat →
      ∀ id m n, id ∈ masterIDs (topo c) → nodes (topo c) !! id = Some m → heap c !! m = Some n →
        cn_ClusterName n = cl → Z.of_nat (share c) < cn_SlotsNum n →
        (∀ l e, l ∈ empty (topo c) → heap c !! l = Some e → cn_ID e ≠ cn_ID n) →
        (∃ n', heap c' !! m = Some n' ∧ cn_SlotsNum n' ≤ Z.of_nat (share c)) ∨
        ∀ r s, r ∈ cn_Slots n → Start r ≤ s ≤ End_ r → ∃ t, t ∈ ts ∧ slot t = s ∧ fromID t = cn_ID n).
Proof.
  intros Hok. pose proof (pk_v _ _ Hok) as Hv. eexists _, _. split; [by apply collectSlotTasks_st|].
  split_and!; [by apply plan_length|by apply plan_tasks|]. intros Hlen id m n Hid Hm Hn Hcl Hx Hids.
  assert (m ∉ empty (topo c)) as Hmes.
  { intros Hin. destruct (pk_empty _ _ Hok m Hin) as (n' & Hn' & H0'). simplify_eq. lia. }
  destruct (plan_complete c (share c) cl (masterIDs (topo c)) (num0 c) 0 id m n) as [Hle|Hall]; try done.
  - intros l Hl. destruct (pk_empty _ _ Hok l Hl) as (e & He & _). rewrite He. by eapply Hids.
  - left. cbn [heap stAt set_heap]. rewrite heapAt_lookup, Hn. cbn. eexists. split; [done|]. cbn.
    by rewrite count_source.
  - by right.
Qed.

(** C23: a source that owns a single range of slots keeps its share: planning never takes a
    master that has at least [share] slots, in one range, below that number, as its own count
    records; the ranges of the other masters do not matter. *)
Theorem single_range_sources_keep_share (c : ClusterManager P) cl l n :
  plan_ok c (share c) → l ∉ empty (topo c) → heap c !! l = Some n → (length (cn_Slots n) ≤ 1)%nat →
  Z.of_nat (share c) ≤ cn_SlotsNum n →
  ∃ n', heap (collectSlotTasks cl c).2 !! l = Some n' ∧ Z.of_nat (share c) ≤ cn_SlotsNum n' ≤ cn_SlotsNum n.
Proof.
  intros Hok Hl Hn Hone Hx. rewrite collectSlotTasks_st by done. cbn. rewrite heapAt_lookup, Hn. cbn.
  eexists. split; [done|]. cbn. rewrite count_source by done.
  assert (num0 c l = cn_SlotsNum n) as H0' by (unfold num0; by rewrite Hn).
  split; [|rewrite <- H0'; apply plan_le].
  apply plan_keeps_share; [done| |naive_solver|by rewrite H0'].
  intros l' x Hl'. unfold num0. by rewrite Hl'.
Qed.

(** Also: a source with two ranges is drained below its share.  The [break] on reaching the share
    only leaves the loop over the current range: if the first range alone is enough to reach
    the share and the empty masters still have room, the second range is taken as well and the
    source ends with fewer slots than its share. *)
Theorem second_range_over_drained (c : ClusterManager P) cl id ids m n r1 r2 :
  plan_ok c (share c) → masterIDs (topo c) = id :: ids → nodes (topo c) !! id = Some m →
  heap c !! m = Some n → cn_ClusterName n = cl → Z.of_nat (share c) < cn_SlotsNum n →
  m ∉ empty (topo c) → (∀ l e, l ∈ empty (topo c) → heap c !! l = Some e → cn_ID e ≠ cn_ID n) →
  cn_Slots n = [r1; r2] →
  cn_SlotsNum n - Z.of_nat (share c) ≤ End_ r1 - Start r1 + 1 → Start r2 ≤ End_ r2 →
  cn_SlotsNum n - Z.of_nat (share c) < Z.of_nat (share c * length (empty (topo c))) →
  ∃ n', heap (collectSlotTasks cl c).2 !! m = Some n' ∧ cn_SlotsNum n' < Z.of_nat (share c).
Proof.
  intros Hok Hids Hid Hn Hcl Hx Hm Hown Hrs H1 H2 Hroom. rewrite collectSlotTasks_st by done. cbn.
  rewrite heapAt_lookup, Hn. cbn. eexists. split; [done|]. cbn. rewrite count_source by done.
  rewrite Hids. cbn [plan]. rewrite Hid. cbn [mbind option_bind]. rewrite Hn. cbn [mbind option_bind].
  rewrite count_source by done. assert (num0 c m = cn_SlotsNum n) as H0' by (unfold num0; by rewrite Hn).
  rewrite H0', decide_False by (intros [?|[?|?]]; [lia|done|lia]).
  set (slots := drain c (share c) (cn_ID n) (cn_Slots n) (cn_SlotsNum n) 0).
  pose proof (plan_le c (share c) cl ids (drop_num m (length slots) (num0 c)) (0 + length slots) m) as Hle.
  destruct (plan c (share c) cl ids _ _) as [ts num']. cbn [snd] in *.
  unfold drop_num in Hle. rewrite decide_True, H0' in Hle by done.
  assert (cn_SlotsNum n - Z.of_nat (share c) < Z.of_nat (length slots)) as Hlen; [|lia].
  unfold slots. rewrite Hrs. cbn [drain]. rewrite app_nil_r, length_app, !length_desc.
  assert (∀ k, room c (share c) (cn_ID n) k = (cap c (share c) - k)%nat) as Hra.
  { intros k. apply room_all. intros l Hl. destruct (pk_empty _ _ Hok l Hl) as (e & He & _). rewrite He. by eapply Hown. }
  fold (cap c (share c)) in Hroom. unfold taken, rangeLen. rewrite (decide_True (P := _ < cn_SlotsNum n)) by done.
  rewrite !Hra. case_decide; lia.
Qed.

(** Also: grouping loses nothing.  The groups of [groupSlotTasks] are the tasks sorted out by
    source IP, each in plan order and with the source's host port of the first one; a source
    without tasks has no group. *)
Theorem groupSlotTasks_partition (ts : list slotTask) ip :
  groupSlotTasks ts !! ip =
  match filter (λ t, fromIP t = ip) ts with
  | [] => None
  | (t0 :: _) as mine => Some (mkGroup mine ip (fromHostPort t0))
  end.
Proof. apply groupSlotTasks_lookup. Qed.

(** Also: the invalidated range.  [invalidateCacheAfterMigration] drops the smallest interval of
    slots that contains every slot of the plan: both ends are migrated slots.  It fails (by an
    index panic) only on an empty plan. *)
Theorem invalidated_range_tight (ts : list slotTask) :
  match slotBounds ts with
  | None => ts = []
  | Some (lo, hi) =>
      (∀ t, t ∈ ts → lo ≤ slot t ≤ hi) ∧ (∃ t, t ∈ ts ∧ slot t = lo) ∧ ∃ t, t ∈ ts ∧ slot t = hi
  end.
Proof.
  destruct ts as [|t0 ts']; [done|]. unfold slotBounds. set (ts := t0 :: ts').
  change (foldl _ (slot t0, slot t0) ts) with (foldl bounds_step (slot t0, slot t0) ts).
  destruct (bounds_fold ts (slot t0, slot t0)) as (H1 & H2 & H3 & H4 & H5).
  destruct (foldl bounds_step _ ts) as [lo hi]. cbn in *. split_and!; [done| |].
  - destruct H4 as [->|(t & Ht & ->)]; [exists t0|exists t]; set_solver.
  - destruct H5 as [->|(t & Ht & ->)]; [exists t0|exists t]; set_solver.
Qed.
End theorems.

Import Fixtures.

(** Two masters with 8192 slots each, [a] with the ranges [rs], and two new empty masters. *)
Definition demo_plan (rs : list SlotRange) : ClusterManager (list RuntimeNode) :=
  let node id ip rs k := mkClusterNode id ip 6379 Master "-" "connected" rs k "cl" in
  let h := {[1%nat := node "a" "10.0.0.1" rs 8192;
             2%nat := node "d" "10.0.0.2" [mkSlotRange 8192 16383] 8192;
             3%nat := node "x" "10.0.0.3" [] 0; 4%nat := node "y" "10.0.0.4" [] 0]} in
  mkCM (mkTopology {["a" := 1%nat; "d" := 2%nat; "x" := 3%nat; "y" := 4%nat]} ∅ [1; 2; 3; 4]%nat
          ["a"; "d"; "x"; "y"] ∅ [3; 4]%nat)
    newRoles newMeetState [pod1; pod2] 1 false h 5%nat [].

Lemma demo_plan_nodes rs id m :
  nodes (topo (demo_plan rs)) !! id = Some m → m = 1%nat ∨ m = 2%nat ∨ m = 3%nat ∨ m = 4%nat.
Proof.
  cbn. rewrite !lookup_insert_Some, lookup_singleton_Some. naive_solver.
Qed.
Lemma demo_plan_ok rs : plan_ok (demo_plan rs) (share (demo_plan rs)).
Proof.
  assert (share (demo_plan rs) = 4096%nat) as -> by reflexivity. split.
  - lia.
  - by apply (bool_decide_unpack _).
  - intros l Hl. cbn in Hl. rewrite !elem_of_cons, elem_of_nil in Hl.
    destruct Hl as [->|[->|[]]]; eexists; split; reflexivity.
  - intros id m [->|[->|[->| ->]]]%demo_plan_nodes; eexists; reflexivity.
Qed.

Lemma plan_fills_targets_in_order_witness :
  ∃ ts c', collectSlotTasks "cl" (demo_plan [mkSlotRange 0 8191]) = (Ret ts, c') ∧
    (length ts ≤ share (demo_plan [mkSlotRange 0 8191%Z]) * 2)%nat.
Proof.
  destruct (plan_fills_targets_in_order (demo_plan [mkSlotRange 0 8191]) "cl" (demo_plan_ok _))
    as (ts & c' & Hc & Hlen & _).
  exists ts, c'. split; [exact Hc|exact Hlen].
Defined.

Lemma single_range_sources_keep_share_witness :
  ∃ n', heap (collectSlotTasks "cl" (demo_plan [mkSlotRange 0 8191])).2 !! 1%nat = Some n' ∧
    4096 ≤ cn_SlotsNum n'.
Proof.
  edestruct (single_range_sources_keep_share (demo_plan [mkSlotRange 0 8191]) "cl" 1%nat) as (n' & Hn' & Hx & _).
  - apply demo_plan_ok.
  - cbn. rewrite !elem_of_cons, elem_of_nil. lia.
  - reflexivity.
  - cbn. lia.
  - vm_compute. discriminate.
  - exists n'. split; [exact Hn'|exact Hx].
Defined.

(** The master with the ranges 0-4095 and 4096-8191 ends with fewer than 4096 slots. *)
Lemma second_range_over_drained_witness :
  ∃ n', heap (collectSlotTasks "cl" (demo_plan [mkSlotRange 0 4095; mkSlotRange 4096 8191])).2 !! 1%nat = Some n' ∧
    cn_SlotsNum n' < 4096.
Proof.
  eapply (second_range_over_drained (demo_plan [mkSlotRange 0 4095; mkSlotRange 4096 8191]) "cl" "a"
    ["d"; "x"; "y"] 1%nat _ (mkSlotRange 0 4095) (mkSlotRange 4096 8191) (demo_plan_ok _));
    try reflexivity; try (vm_compute; discriminate).
  - cbn. rewrite !elem_of_cons, elem_of_nil. lia.
  - intros l e Hl He. cbn in Hl. rewrite !elem_of_cons, elem_of_nil in Hl.
    destruct Hl as [->|[->|[]]]; vm_compute in He; injection He as <-; discriminate.
Defined.
End PlanTheorems.
