(* ===== verification/Migration.v ===== *)
(** * Slot migration: execution

    [cluster/model/manager.go]: the protocol that moves one slot ([migrateSlotShared] and the
    functions below it) as a program of Redis commands, and the pool of worker goroutines
    that runs these programs concurrently ([executeSlotMigration]). *)
From S2P Require Import Prelude GoStrings Data Redis Manager Plan.

Record keyEntry : Type := mkKeyEntry { key : string; size : Z }.

Module Mig.

(** ** One slot *)

(** [utils.ExecuteClusterCommand]: [client.Do(...).Text()]. *)
Definition ExecuteClusterCommand (client : redisClient) (args : list string) : prog (string + error) :=
  r ← pcall client (Do args); mret (asStr r).

Definition setslot (word slot_ what id : string) : list string := [word; "SETSLOT"; slot_; what; id].

Definition setupSlotMigration (destCli sourceCli : redisClient) (t : slotTask) : prog (unit + error) :=
  r ← ExecuteClusterCommand destCli (setslot "cluster" (Itoa (slot t)) "IMPORTING" (fromID t));
  match r with
  | inr err => mret (inr (Wrapf ("IMPORTING slot " +:+ Itoa (slot t)) err))
  | inl _ =>
      r ← ExecuteClusterCommand sourceCli (setslot "CLUSTER" (Itoa (slot t)) "MIGRATING" (toID t));
      match r with
      | inr err => mret (inr (Wrapf ("MIGRATING slot " +:+ Itoa (slot t)) err))
      | inl _ => mret (inl tt)
      end
  end.

Definition finalizeSlotMigration (destCli sourceCli : redisClient) (t : slotTask) : prog (unit + error) :=
  r ← ExecuteClusterCommand destCli (setslot "CLUSTER" (Itoa (slot t)) "NODE" (toID t));
  match r with
  | inr err => mret (inr (Wrapf ("SETSLOT NODE dest slot " +:+ Itoa (slot t)) err))
  | inl _ =>
      r ← ExecuteClusterCommand sourceCli (setslot "CLUSTER" (Itoa (slot t)) "NODE" (toID t));
      match r with
      | inr err => mret (inr (Wrapf ("SETSLOT NODE source slot " +:+ Itoa (slot t)) err))
      | inl _ => mret (inl tt)
      end
  end.

(** Keys whose size cannot be read are neither normal nor big. *)
Fixpoint classifyKeys (cli : redisClient) (keys : list string)
    : prog (list string * list keyEntry * list string) :=
  match keys with
  | [] => mret ([], [], [])
  | k :: rest =>
      r ← pcall cli (MemoryUsage k);
      '(normal, big, failed) ← classifyKeys cli rest;
      match asInt r with
      | inr _ => mret (normal, big, k :: failed)
      | inl sz =>
          if decide (bigKeyThreshold ≤ sz) then mret (normal, mkKeyEntry k sz :: big, failed)
          else mret (k :: normal, big, failed)
      end
  end.

Definition bigTimeoutSec (sz : Z) : Z :=
  let timeoutSec := Z.quot (Z.quot sz 1024) 1024 in
  let timeoutSec := if decide (timeoutSec < 5) then 5 else timeoutSec in
  if decide (timeoutSec > 60) then 60 else timeoutSec.
Definition migrateBigKey (sourceCli : redisClient) (t : slotTask) (k : string) (sz : Z)
    : prog (unit + error) :=
  r ← pcall sourceCli (Do ["MIGRATE"; toIP t; Itoa (containerPort t); k; "0";
                           Itoa (bigTimeoutSec sz * 1000); "COPY"; "REPLACE"]);
  match asErr r with
  | Some err => mret (inr (Wrapf ("MIGRATE big key " +:+ k) err))
  | None => _ ← pcall sourceCli (Del k); mret (inl tt)
  end.

Definition migrateKeyBatch (sourceCli : redisClient) (t : slotTask) (keys : list string) (timeoutMs : Z)
    : prog unit :=
  _ ← pcall sourceCli (Do (["MIGRATE"; toIP t; Itoa (containerPort t); ""; "0"; Itoa timeoutMs; "KEYS"] ++ keys));
  mret tt.

Fixpoint filterExistingKeys (cli : redisClient) (keys : list string) : prog (list string) :=
  match keys with
  | [] => mret []
  | k :: rest =>
      r ← pcall cli (Exists k);
      result ← filterExistingKeys cli rest;
      match asInt r with
      | inl n => mret (if decide (n > 0) then k :: result else result)
      | inr _ => mret result
      end
  end.

Fixpoint migrateBigKeys (sourceCli : redisClient) (t : slotTask) (big : list keyEntry) : prog unit :=
  match big with
  | [] => mret tt
  | e :: rest => _ ← migrateBigKey sourceCli t (key e) (size e); migrateBigKeys sourceCli t rest
  end.

Definition chunkSizeOf (normal : list string) : nat :=
  let chunkSize := Z.quot (Z.of_nat (length normal)) chunkDivisor in
  Z.to_nat (if decide (chunkSize < 10) then 10 else chunkSize).
(** [for i := 0; i < len(normal); i += chunkSize]: [rest] is [normal[i:]].  The fuel is the
    length of the list.  A positive chunk size takes a key off at every turn, so that the fuel
    lasts; a loop that still has keys when it is used up has made no progress, and spins. *)
Fixpoint chunk_loop (fuel : nat) (sourceCli : redisClient) (t : slotTask) (chunkSize : nat)
    (rest : list string) : prog unit :=
  match rest with
  | [] => mret tt
  | _ :: _ =>
      match fuel with
      | O => PSpin
      | S f =>
          active ← filterExistingKeys sourceCli (take chunkSize rest);
          _ ← (if decide (active = []) then mret tt else migrateKeyBatch sourceCli t active 5000);
          chunk_loop f sourceCli t chunkSize (drop chunkSize rest)
      end
  end.

Definition migrateSlotKeys (sourceCli : redisClient) (t : slotTask) (keys : list string) : prog unit :=
  if decide (Z.of_nat (length keys) ≤ smallKeyBatch) then migrateKeyBatch sourceCli t keys 5000
  else
    '(normal, big, _) ← classifyKeys sourceCli keys;
    _ ← migrateBigKeys sourceCli t big;
    if decide (normal = []) then mret tt
    else chunk_loop (length normal) sourceCli t (chunkSizeOf normal) normal.

Definition local (port : Z) : string := hostport "127.0.0.1" port.
Definition migrateSlotShared (sourceCli : redisClient) (t : slotTask) : prog (unit + error) :=
  match CreateRedisClient (local (destHostPort t)) with
  | Ret destCli =>
      r ← setupSlotMigration destCli sourceCli t;
      match r with
      | inr err => mret (inr err)
      | inl _ =>
          r ← pcall sourceCli (ClusterGetKeysInSlot (slot t) 1000);
          let keys := valList r in
          _ ← (if decide (keys = []) then mret tt else migrateSlotKeys sourceCli t keys);
          finalizeSlotMigration destCli sourceCli t
      end
  | Fail err => mret (inr (Wrapf "connect dest fail" err))
  | _ => mret (inr (Errorf "connect dest fail"))
  end.

(** ** The worker pool

    Per group a channel with its tasks, closed after filling, and [migrationWorkers]
    goroutines that take tasks until it is empty; errors go to a channel with one place per
    task.  A goroutine that has not started yet is an idle worker that is not scheduled. *)
Inductive worker : Type :=
  | Idle (g : nat)
  | Busy (g : nat) (t : slotTask) (p : prog (unit + error))
  | Done.

Record pool : Type := mkPool {
  chans : list (list slotTask);
  clients : list redisClient;
  workers : list worker;
  completed : Z;
  errCh : list error;
  errCap : nat;
  trace : list (slotTask * (string * cmd * reply));      (* which task sent what *)
  phist : list event }.

Definition set_worker (i : nat) (w : worker) (s : pool) : pool :=
  mkPool (chans s) (clients s) (<[i := w]> (workers s)) (completed s) (errCh s) (errCap s) (trace s) (phist s).

Definition slotError (t : slotTask) (err : error) : error :=
  Wrapf ("slot " +:+ Itoa (slot t) +:+ " from " +:+ fromIP t +:+ " to " +:+ toIP t) err.

(** One step of worker [i]; [None] when it has nothing to do (or is blocked). *)
Definition work `{Env} (i : nat) (s : pool) : option pool :=
  w ← workers s !! i;
  match w with
  | Done => None
  | Idle g =>
      q ← chans s !! g;
      match q with
      | [] => Some (set_worker i Done s)
      | t :: q' =>
          cli ← clients s !! g;
          Some (mkPool (<[g := q']> (chans s)) (clients s)
                  (<[i := Busy g t (migrateSlotShared cli t)]> (workers s))
                  (completed s) (errCh s) (errCap s) (trace s) (phist s))
      end
  | Busy g t (PCall addr c k) =>
      let e := EvCmd addr c in
      Some (mkPool (chans s) (clients s) (<[i := Busy g t (k (srv (phist s) addr c))]> (workers s))
              (completed s) (errCh s) (errCap s) (trace s ++ [(t, (addr, c, srv (phist s) addr c))]) (phist s ++ [e]))
  | Busy g t (PRet (inl _)) =>
      Some (mkPool (chans s) (clients s) (<[i := Idle g]> (workers s)) (completed s + 1) (errCh s)
              (errCap s) (trace s) (phist s))
  | Busy g t (PRet (inr err)) =>
      if decide (length (errCh s) < errCap s)%nat then
        Some (mkPool (chans s) (clients s) (<[i := Idle g]> (workers s)) (completed s + 1)
                (errCh s ++ [slotError t err]) (errCap s) (trace s) (phist s))
      else None
  | Busy g t PSpin => Some s
  end.
Definition step `{Env} (s s' : pool) : Prop := ∃ i, work i s = Some s'.
(** [wg.Wait()] returns when every worker is done. *)
#[global] Instance is_done_dec w : Decision (w = Done).
Proof. destruct w; [by right|by right|by left]. Defined.
Definition finished (s : pool) : Prop := Forall (λ w, w = Done) (workers s).

(** The pool [executeSlotMigration] starts, the groups in the order they are ranged over. *)
Definition startPool (tasks : list slotTask) (gs : list group) (h : list event) : pool :=
  mkPool (g_tasks <$> gs) ((λ g, local (g_fromHostPort g)) <$> gs)
    (mjoin ((λ g, replicate migrationWorkers (Idle g)) <$> seq 0 (length gs)))
    0 [] (length tasks) [] h.
Definition groupsInOrder `{Env} (groups : gmap string group) (h : list event) : list group :=
  omap (λ ip, groups !! ip) (range_order h ((map_to_list groups).*1)).

(** A schedule picks the worker for every step; workers that cannot move are passed over. *)
Fixpoint run_schedule `{Env} (sched : list nat) (s : pool) : pool :=
  match sched with
  | [] => s
  | i :: rest => run_schedule rest (default s (work i s))
  end.

Section manager.
Context {P : Type} {PM : PodManager P} {EV : Env}.
(** The scheduler: the steps it makes the workers take from a start pool. *)
Context (schedule : pool → list nat).

(** [wg.Wait()] holds the caller until the pool is finished.  A schedule that stops before
    that is only a prefix of an execution: the call has not returned at its end. *)
Definition executeSlotMigration (tasks : list slotTask) (groups : gmap string group)
    : GoM (ClusterManager P) unit := λ c,
  let start := startPool tasks (groupsInOrder groups (hist c)) (hist c) in
  let s := run_schedule (schedule start) start in
  (if decide (finished s) then Ret tt else OutOfFuel, set_hist (phist s) c).

Definition MigrateSlotsToEmptyNode (clusterName : string) : GoM (ClusterManager P) (list string) :=
  c ← goget;
  if decide (empty (topo c) = []) then gofail (Errorf "no Empty master")
  else if decide (masterIDs (topo c) = []) then gofail (Errorf "no master nodes for slot migration")
  else
    tasks ← Plan.collectSlotTasks clusterName;
    if decide (tasks = []) then mret []
    else
      _ ← executeSlotMigration tasks (Plan.groupSlotTasks tasks);
      c ← goget;
      _ ← (if cacheInvalidator c then Plan.invalidateCacheAfterMigration tasks else mret tt);
      CM.PrintClusterNodesInfo.
End manager.
End Mig.
