(* ===== verification/MigrationProps.v ===== *)
(** * Slot migration: the protocol of one slot

    Every run of [migrateSlotShared] against any servers is a path through its program.  The
    theorems describe all paths: the order of the commands, and which keys are moved. *)
From S2P Require Import Prelude GoStrings Data Redis Manager Fixtures Plan Migration.
Import Mig.

Abbreviation call_ := (string * cmd * reply)%type.

(** ** Paths: the commands sent and the replies received, in order *)
Inductive path {A} : prog A → list call_ → A → Prop :=
  | path_ret a : path (PRet a) [] a
  | path_call addr c k r tr a : path (k r) tr a → path (PCall addr c k) ((addr, c, r) :: tr) a.

Lemma path_ret_inv {A} (a b : A) tr : path (mret a) tr b → tr = [] ∧ b = a.
Proof. unfold mret, prog_ret. inversion 1; done. Qed.
Lemma path_pcall_inv addr c tr r : path (pcall addr c) tr r → tr = [(addr, c, r)].
Proof.
  unfold pcall. intros Hp. inversion Hp as [|? ? ? r' tr' ? Hp' Heq]; simplify_eq.
  inversion Hp'; simplify_eq. done.
Qed.
Lemma path_bind_inv {A B} (p : prog A) (k : A → prog B) tr b :
  path (p ≫= k) tr b → ∃ a tr1 tr2, tr = tr1 ++ tr2 ∧ path p tr1 a ∧ path (k a) tr2 b.
Proof.
  revert tr. induction p as [a|addr c kr IH|]; intros tr Hp; [| |inversion Hp].
  - exists a, [], tr. split_and!; [done|constructor|done].
  - cbn in Hp. inversion Hp as [|? ? ? r tr' ? Hp' Heq]; simplify_eq.
    destruct (IH _ _ Hp') as (a & tr1 & tr2 & -> & H1 & H2).
    exists a, ((addr, c, r) :: tr1), tr2. split_and!; [done|by constructor|done].
Qed.
Lemma path_bind {A B} (p : prog A) (k : A → prog B) tr1 tr2 a b :
  path p tr1 a → path (k a) tr2 b → path (p ≫= k) (tr1 ++ tr2) b.
Proof. induction 1; cbn; [done|]. intros. constructor. auto. Qed.
Lemma path_pcall addr c r : path (pcall addr c) [(addr, c, r)] r.
Proof. constructor. constructor. Qed.
(** A program that ends has a run, and the run is a path. *)
Lemma run_prog_path `{Env} {A} (p : prog A) h :
  ends p → ∃ tr a, path p tr a ∧ run_prog p h = (Some a, h ++ ((λ x, EvCmd x.1.1 x.1.2) <$> tr)).
Proof.
  intros He. revert h. induction He as [a|addr c k _ IH]; intros h; cbn.
  - exists [], a. split; [constructor|]. by rewrite app_nil_r.
  - destruct (IH (srv h addr c) (h ++ [EvCmd addr c])) as (tr & a & Hp & Hh).
    exists ((addr, c, srv h addr c) :: tr), a. split; [by constructor|]. rewrite Hh. cbn. by rewrite <- app_assoc.
Qed.

(** Every command of every path satisfies [Q]. *)
Definition all_calls {A} (Q : call_ → Prop) (p : prog A) : Prop := ∀ tr a, path p tr a → Forall Q tr.
Lemma all_calls_spin {A} Q : all_calls Q (PSpin : prog A).
Proof. intros tr b Hp. inversion Hp. Qed.
Lemma all_calls_ret {A} Q (a : A) : all_calls Q (mret a).
Proof. intros tr b [-> _]%path_ret_inv. constructor. Qed.
Lemma all_calls_pcall (Q : call_ → Prop) addr c : (∀ r, Q (addr, c, r)) → all_calls Q (pcall addr c).
Proof. intros HQ tr r ->%path_pcall_inv. by constructor. Qed.
Lemma all_calls_bind {A B} Q (p : prog A) (k : A → prog B) :
  all_calls Q p → (∀ a, all_calls Q (k a)) → all_calls Q (p ≫= k).
Proof.
  intros Hp Hk tr b (a & tr1 & tr2 & -> & H1 & H2)%path_bind_inv. apply Forall_app. split.
  - by eapply Hp.
  - by eapply Hk.
Qed.
Ltac calls_tac :=
  repeat match goal with
  | |- all_calls _ (_ ≫= _) => apply all_calls_bind; [|intros ?]
  | |- all_calls _ (mret _) => apply all_calls_ret
  | |- all_calls _ PSpin => apply all_calls_spin
  | |- all_calls _ (pcall _ _) => apply all_calls_pcall; intros ?
  | |- all_calls _ (match ?x with _ => _ end) => destruct x
  | H : ?x |- ?x => exact H
  end.

(** ** Command words *)
Definition IMPORTING (t : slotTask) : cmd := Do (setslot "cluster" (Itoa (slot t)) "IMPORTING" (fromID t)).
Definition MIGRATING (t : slotTask) : cmd := Do (setslot "CLUSTER" (Itoa (slot t)) "MIGRATING" (toID t)).
Definition NODE (t : slotTask) : cmd := Do (setslot "CLUSTER" (Itoa (slot t)) "NODE" (toID t)).
Definition COPY (t : slotTask) (k : string) (sz : Z) : cmd :=
  Do ["MIGRATE"; toIP t; Itoa (containerPort t); k; "0"; Itoa (bigTimeoutSec sz * 1000); "COPY"; "REPLACE"].
Definition dest (t : slotTask) : string := local (destHostPort t).
(** The commands between setting up and handing over. *)
Definition is_transfer (t : slotTask) (c : cmd) : Prop :=
  match c with
  | MemoryUsage _ | Exists _ | Del _ => True
  | Do args => take 3 args = ["MIGRATE"; toIP t; Itoa (containerPort t)]
  | _ => False
  end.
Definition transfer (src : string) (t : slotTask) (x : call_) : Prop := x.1.1 = src ∧ is_transfer t x.1.2.

Section transfer.
Context (src : redisClient) (t : slotTask).

Lemma classifyKeys_calls keys : all_calls (transfer src t) (classifyKeys src keys).
Proof. induction keys as [|k keys IH]; cbn [classifyKeys]; calls_tac. done. Qed.
Lemma filterExistingKeys_calls keys : all_calls (transfer src t) (filterExistingKeys src keys).
Proof. induction keys as [|k keys IH]; cbn [filterExistingKeys]; calls_tac. done. Qed.
Lemma migrateKeyBatch_calls keys ms : all_calls (transfer src t) (migrateKeyBatch src t keys ms).
Proof. unfold migrateKeyBatch. calls_tac. done. Qed.
Lemma migrateBigKeys_calls big : all_calls (transfer src t) (migrateBigKeys src t big).
Proof.
  induction big as [|e big IH]; cbn [migrateBigKeys]; unfold migrateBigKey; calls_tac; done.
Qed.
Lemma chunk_loop_calls fuel n rest : all_calls (transfer src t) (chunk_loop fuel src t n rest).
Proof.
  revert rest. induction fuel as [|f IH]; intros [|x rest]; cbn [chunk_loop]; calls_tac;
    auto using filterExistingKeys_calls, migrateKeyBatch_calls.
Qed.
Lemma migrateSlotKeys_calls keys : all_calls (transfer src t) (migrateSlotKeys src t keys).
Proof.
  unfold migrateSlotKeys. calls_tac;
    auto using classifyKeys_calls, migrateKeyBatch_calls, migrateBigKeys_calls, chunk_loop_calls.
Qed.
End transfer.

(** ** The migration of a slot comes to its end

    The only loop that is not over a fixed list takes chunks off the normal keys; it makes
    progress because no chunk is smaller than ten keys. *)
Lemma chunkSizeOf_pos normal : (0 < chunkSizeOf normal)%nat.
Proof. unfold chunkSizeOf. case_decide; lia. Qed.
Section ends.
Context (src : redisClient) (t : slotTask).

Lemma ExecuteClusterCommand_ends cli args : ends (ExecuteClusterCommand cli args).
Proof. unfold ExecuteClusterCommand. ends_tac. Qed.
Lemma migrateKeyBatch_ends keys ms : ends (migrateKeyBatch src t keys ms).
Proof. unfold migrateKeyBatch. ends_tac. Qed.
Lemma filterExistingKeys_ends keys : ends (filterExistingKeys src keys).
Proof. induction keys as [|k keys IH]; cbn [filterExistingKeys]; ends_tac. Qed.
Lemma classifyKeys_ends keys : ends (classifyKeys src keys).
Proof. induction keys as [|k keys IH]; cbn [classifyKeys]; ends_tac. Qed.
Lemma migrateBigKeys_ends big : ends (migrateBigKeys src t big).
Proof. induction big as [|e big IH]; cbn [migrateBigKeys]; unfold migrateBigKey; ends_tac. Qed.
Hint Resolve ExecuteClusterCommand_ends migrateKeyBatch_ends filterExistingKeys_ends classifyKeys_ends
  migrateBigKeys_ends : ends_db.
Lemma chunk_loop_ends fuel n rest :
  (0 < n)%nat → (length rest ≤ fuel)%nat → ends (chunk_loop fuel src t n rest).
Proof.
  intros Hn. revert rest. induction fuel as [|f IH]; intros [|x rest] Hf; cbn [length chunk_loop] in *; try lia;
    ends_tac. apply IH. rewrite length_drop. cbn. lia.
Qed.
Lemma migrateSlotKeys_ends keys : ends (migrateSlotKeys src t keys).
Proof. unfold migrateSlotKeys. ends_tac. apply chunk_loop_ends; [apply chunkSizeOf_pos|done]. Qed.
Hint Resolve migrateSlotKeys_ends : ends_db.
Lemma migrateSlotShared_ends : ends (migrateSlotShared src t).
Proof. unfold migrateSlotShared, CreateRedisClient, setupSlotMigration, finalizeSlotMigration. ends_tac. Qed.
End ends.

(** ** The two SETSLOT phases *)
Lemma ExecuteClusterCommand_path cli args tr r :
  path (ExecuteClusterCommand cli args) tr r → ∃ rep, tr = [(cli, Do args, rep)] ∧ r = asStr rep.
Proof.
  intros (rep & tr1 & tr2 & -> & ->%path_pcall_inv & [-> ->]%path_ret_inv)%path_bind_inv.
  exists rep. done.
Qed.

(** A SETSLOT on one client, then, if accepted, another on the second client. *)
Lemma two_phase_path c1 c2 a1 a2 (w1 w2 : error → error) tr (r : unit + error) :
  path ((r ← ExecuteClusterCommand c1 a1;
        match r with
        | inr err => mret (inr (w1 err))
        | inl _ => r ← ExecuteClusterCommand c2 a2;
                   match r with inr err => mret (inr (w2 err)) | inl _ => mret (inl tt) end
        end) : prog (unit + error)) tr r →
  ∃ r1, (∃ e, asStr r1 = inr e ∧ tr = [(c1, Do a1, r1)] ∧ r = inr (w1 e)) ∨
        ∃ s1 r2, asStr r1 = inl s1 ∧ tr = [(c1, Do a1, r1); (c2, Do a2, r2)] ∧
          r = match asStr r2 with inl _ => inl tt | inr e => inr (w2 e) end.
Proof.
  intros (x & tr1 & tr2 & -> & (r1 & -> & ->)%ExecuteClusterCommand_path & Hk)%path_bind_inv. exists r1.
  destruct (asStr r1) as [s1|e]; [right|left; apply path_ret_inv in Hk as [-> ->]; by exists e].
  apply path_bind_inv in Hk as (x & tr3 & tr4 & -> & (r2 & -> & ->)%ExecuteClusterCommand_path & Hk).
  exists s1, r2. destruct (asStr r2); apply path_ret_inv in Hk as [-> ->]; done.
Qed.

Lemma migrateSlotShared_path src t tr r :
  path (migrateSlotShared src t) tr r →
  ∃ r1,
    (∃ e, asStr r1 = inr e ∧ tr = [(dest t, IMPORTING t, r1)] ∧ r = inr (Wrapf ("IMPORTING slot " +:+ Itoa (slot t)) e)) ∨
    ∃ s1 r2, asStr r1 = inl s1 ∧
      ((∃ e, asStr r2 = inr e ∧ tr = [(dest t, IMPORTING t, r1); (src, MIGRATING t, r2)] ∧
         r = inr (Wrapf ("MIGRATING slot " +:+ Itoa (slot t)) e)) ∨
       ∃ s2 r3 mid fin, asStr r2 = inl s2 ∧ Forall (transfer src t) mid ∧
         path (if decide (valList r3 = []) then mret tt else migrateSlotKeys src t (valList r3)) mid tt ∧
         path (finalizeSlotMigration (dest t) src t) fin r ∧
         tr = [(dest t, IMPORTING t, r1); (src, MIGRATING t, r2);
               (src, ClusterGetKeysInSlot (slot t) 1000, r3)] ++ mid ++ fin).
Proof.
  intros Hp. unfold migrateSlotShared, CreateRedisClient in Hp. fold (dest t) in Hp.
  apply path_bind_inv in Hp as (x & tr1 & tr2 & -> & Hs & Hk).
  apply two_phase_path in Hs as (r1 & [(e & He & -> & ->)|(s1 & r2 & Hr1 & -> & ->)]); exists r1.
  { left. apply path_ret_inv in Hk as [-> ->]. exists e. done. }
  right. exists s1, r2. split; [done|]. destruct (asStr r2) as [s2|e] eqn:Hr2.
  2:{ left. apply path_ret_inv in Hk as [-> ->]. exists e. done. }
  right. apply path_bind_inv in Hk as (r3 & tr3 & tr4 & -> & ->%path_pcall_inv & Hk).
  apply path_bind_inv in Hk as ([] & mid & fin & -> & Hm & Hf).
  exists s2, r3, mid, fin. split_and!; try done. revert Hm. case_decide.
  - intros [-> _]%path_ret_inv. constructor.
  - intros Hm. by eapply migrateSlotKeys_calls.
Qed.

(** ** Which keys a batch moves *)

(** The keys of a [MIGRATE ... KEYS k1 k2 ...] command. *)
Definition batchKeys (x : call_) : list string :=
  match x.1.2 with
  | Do args => if decide (args !! 0%nat = Some "MIGRATE" ∧ args !! 6%nat = Some "KEYS") then drop 7 args else []
  | _ => []
  end.
(** A [MIGRATE ... COPY REPLACE] command of one key, and the key of a DEL. *)
Definition copyCmd (x : call_) : list cmd :=
  match x.1.2 with
  | Do args => if decide (args !! 0%nat = Some "MIGRATE" ∧ args !! 6%nat = Some "COPY") then [Do args] else []
  | _ => []
  end.
Definition delKey (x : call_) : list string := match x.1.2 with Del k => [k] | _ => [] end.
Definition collect {B} (f : call_ → list B) (tr : list call_) : list B := mjoin (f <$> tr).
(** The keys put into batches, the copies of single keys, and the keys deleted at the source. *)
Definition moved : list call_ → list string := collect batchKeys.
Definition copies : list call_ → list cmd := collect copyCmd.
Definition deleted : list call_ → list string := collect delKey.
Lemma collect_app {B} (f : call_ → list B) tr1 tr2 : collect f (tr1 ++ tr2) = collect f tr1 ++ collect f tr2.
Proof. unfold collect. by rewrite fmap_app, join_app. Qed.

(** [ask q keys rs]: the command [q k] for every key, with the answers [rs]. *)
Definition ask (src : string) (q : string → cmd) (keys : list string) (rs : list reply) : list call_ :=
  zip_with (λ k r, (src, q k, r)) keys rs.
(** The keys whose answer passes. *)
Definition passing (ok : reply → bool) (keys : list string) (rs : list reply) : list string :=
  (filter (λ kr : string * reply, ok kr.2 = true) (zip keys rs)).*1.
Definition normalReply (r : reply) : bool :=
  match r with RInt sz => bool_decide (sz < bigKeyThreshold) | _ => false end.
Definition thereReply (r : reply) : bool := match r with RInt n => bool_decide (n > 0) | _ => false end.

Lemma passing_cons ok k keys r rs :
  passing ok (k :: keys) (r :: rs) = (if ok r then [k] else []) ++ passing ok keys rs.
Proof. unfold passing. cbn [zip_with]. rewrite filter_cons. cbn. by destruct (ok r). Qed.
Lemma passing_app ok k1 k2 r1 r2 :
  length k1 = length r1 → passing ok (k1 ++ k2) (r1 ++ r2) = passing ok k1 r1 ++ passing ok k2 r2.
Proof. intros Hl. unfold passing. by rewrite zip_with_app, filter_app, fmap_app. Qed.
Lemma collect_ask {B} (f : call_ → list B) src q keys rs :
  (∀ k r, f (src, q k, r) = []) → collect f (ask src q keys rs) = [].
Proof.
  intros Hq. revert rs. induction keys as [|k keys IH]; intros [|r rs]; try done.
  change (f (src, q k, r) ++ collect f (ask src q keys rs) = []). by rewrite IH, Hq.
Qed.
(** The entries of the keys reported big, and those of them whose copy was accepted. *)
Definition bigReply (kr : string * reply) : option keyEntry :=
  match kr.2 with RInt sz => if decide (bigKeyThreshold ≤ sz) then Some (mkKeyEntry kr.1 sz) else None | _ => None end.
Definition bigs (keys : list string) (rs : list reply) : list keyEntry := omap bigReply (zip keys rs).
Definition acceptedReply (r : reply) : bool := bool_decide (asErr r = None).

Section keys.
Context (src : redisClient) (t : slotTask).

Lemma classifyKeys_path keys tr normal big failed :
  path (classifyKeys src keys) tr (normal, big, failed) →
  ∃ rs, length rs = length keys ∧ tr = ask src MemoryUsage keys rs ∧ normal = passing normalReply keys rs ∧
    big = bigs keys rs.
Proof.
  revert tr normal big failed. induction keys as [|k keys IH]; intros tr normal big failed; cbn [classifyKeys].
  { intros [-> [= -> -> ->]]%path_ret_inv. by exists []. }
  intros (r & tr1 & tr2 & -> & ->%path_pcall_inv & Hk)%path_bind_inv.
  apply path_bind_inv in Hk as ([[n b] f] & tr3 & tr4 & -> & (rs & Hl & -> & -> & ->)%IH & Hk).
  exists (r :: rs). cbn [length]. split; [lia|]. rewrite passing_cons. unfold bigs. cbn [zip_with omap list_omap].
  destruct r as [|sz| |]; cbn in Hk |- *; try case_decide; apply path_ret_inv in Hk as [-> [= -> -> ->]];
    rewrite ?app_nil_r; (split; [done|]); try done.
  - by rewrite bool_decide_false by lia.
  - by rewrite bool_decide_true by lia.
Qed.
Lemma filterExistingKeys_path keys tr res :
  path (filterExistingKeys src keys) tr res →
  ∃ rs, length rs = length keys ∧ tr = ask src Exists keys rs ∧ res = passing thereReply keys rs.
Proof.
  revert tr res. induction keys as [|k keys IH]; intros tr res; cbn [filterExistingKeys].
  { intros [-> ->]%path_ret_inv. by exists []. }
  intros (r & tr1 & tr2 & -> & ->%path_pcall_inv & Hk)%path_bind_inv.
  apply path_bind_inv in Hk as (res' & tr3 & tr4 & -> & (rs & Hl & -> & ->)%IH & Hk).
  exists (r :: rs). cbn [length]. split; [lia|]. rewrite passing_cons.
  destruct r as [|n| |]; cbn in Hk |- *; apply path_ret_inv in Hk as [-> ->]; rewrite ?app_nil_r;
    (split; [done|]); try done. by destruct (decide (n > 0)); rewrite ?bool_decide_true, ?bool_decide_false by done.
Qed.
Lemma migrateKeyBatch_path keys ms tr :
  path (migrateKeyBatch src t keys ms) tr tt → moved tr = keys ∧ copies tr = [] ∧ deleted tr = [].
Proof.
  intros (r & tr1 & tr2 & -> & ->%path_pcall_inv & [-> _]%path_ret_inv)%path_bind_inv.
  unfold moved, collect, batchKeys. cbn. by rewrite !app_nil_r.
Qed.
Lemma migrateBigKeys_path big tr :
  path (migrateBigKeys src t big) tr tt →
  ∃ cs, length cs = length big ∧ moved tr = [] ∧ copies tr = (λ e, COPY t (key e) (size e)) <$> big ∧
    deleted tr = passing acceptedReply (key <$> big) cs ∧
    Forall2 (λ e r, (src, COPY t (key e) (size e), r) ∈ tr) big cs.
Proof.
  revert tr. induction big as [|e big IH]; intros tr; cbn [migrateBigKeys].
  { intros [-> _]%path_ret_inv. by exists []. }
  intros (r & tr1 & tr2 & -> & H1 & (cs & Hl & Hm & Hc & Hd & Hin)%IH)%path_bind_inv.
  apply path_bind_inv in H1 as (r1 & tr3 & tr4 & -> & ->%path_pcall_inv & H1).
  fold (COPY t (key e) (size e)) in *. exists (r1 :: cs). cbn [length fmap list_fmap]. rewrite passing_cons.
  unfold moved, copies, deleted in *. rewrite !collect_app, Hm, Hc, Hd.
  assert (acceptedReply r1 = bool_decide (asErr r1 = None)) as Ha by done.
  destruct (asErr r1); rewrite Ha.
  - apply path_ret_inv in H1 as [-> _]. split_and!; [lia|done..|]. constructor; [set_solver|].
    eapply Forall2_impl; [exact Hin|]. set_solver.
  - apply path_bind_inv in H1 as (r2 & tr5 & tr6 & -> & ->%path_pcall_inv & [-> _]%path_ret_inv).
    split_and!; [lia|done..|]. constructor; [set_solver|]. eapply Forall2_impl; [exact Hin|]. set_solver.
Qed.

(** The chunks cover the list: the keys that are still there are moved, in order. *)
Lemma chunk_loop_path fuel n rest tr :
  (0 < n)%nat → (length rest ≤ fuel)%nat → path (chunk_loop fuel src t n rest) tr tt →
  ∃ rs, length rs = length rest ∧ moved tr = passing thereReply rest rs ∧ copies tr = [] ∧ deleted tr = [] ∧
    ∀ i k r, rest !! i = Some k → rs !! i = Some r → (src, Exists k, r) ∈ tr.
Proof.
  intros Hn. revert rest tr. induction fuel as [|f IH]; intros [|x rest] tr Hf; cbn [length chunk_loop] in *; try lia;
    [by intros [-> _]%path_ret_inv; exists []..|].
  intros (act & tr1 & tr2 & -> & (rs1 & Hl1 & -> & ->)%filterExistingKeys_path & Hk)%path_bind_inv.
  apply path_bind_inv in Hk as ([] & trb & tr3 & -> & Hb & Hrest).
  set (l := x :: rest) in *.
  apply IH in Hrest as (rs2 & Hl2 & Hm2 & Hc2 & Hd2 & Hin2); [|rewrite length_drop; unfold l; cbn; lia].
  assert (moved trb = passing thereReply (take n l) rs1 ∧ copies trb = [] ∧ deleted trb = []) as (Hmb & Hcb & Hdb).
  { case_decide as Ha; [apply path_ret_inv in Hb as [-> _]; by rewrite Ha|]. by apply migrateKeyBatch_path in Hb. }
  unfold moved, copies, deleted in *. exists (rs1 ++ rs2). split_and!.
  - rewrite length_app, Hl1, Hl2, length_take, length_drop. unfold l; cbn; lia.
  - rewrite !collect_app, Hmb, Hm2, collect_ask by done. cbn. rewrite <- passing_app, take_drop by done. done.
  - by rewrite !collect_app, Hcb, Hc2, collect_ask.
  - by rewrite !collect_app, Hdb, Hd2, collect_ask.
  - intros i k r Hi Hr. rewrite <- (take_drop n l) in Hi. apply lookup_app_Some in Hi as [Hi|[Hge Hi]].
    + rewrite lookup_app_l in Hr by (apply lookup_lt_Some in Hi; lia).
      apply elem_of_app. left. unfold ask. apply list_elem_of_lookup. exists i.
      rewrite lookup_zip_with, Hi. cbn. by rewrite Hr.
    + rewrite lookup_app_r in Hr by lia. rewrite Hl1 in Hr. apply elem_of_app. right.
      apply elem_of_app. right. by eapply Hin2.
Qed.
End keys.

(** ** Deletions at the source *)
(** Every DEL comes right after an accepted COPY of its key. *)
Definition safe_del (src : string) (t : slotTask) (tr : list call_) : Prop :=
  ∀ tr1 a k r tr2, tr = tr1 ++ (a, Del k, r) :: tr2 →
  ∃ tr0 sz rep, tr1 = tr0 ++ [(src, COPY t k sz, rep)] ∧ asErr rep = None.

Definition not_del (x : call_) : Prop := ∀ k, x.1.2 ≠ Del k.

Section deletions.
Context (src : redisClient) (t : slotTask).

(** Closed under composition: safe, and not starting with a DEL. *)
Definition good (tr : list call_) : Prop := safe_del src t tr ∧ ∀ x tl, tr = x :: tl → not_del x.

Lemma good_none tr : Forall not_del tr → good tr.
Proof.
  intros Hf. split; [|by intros x tl ->; apply Forall_cons in Hf as [? _]].
  intros tr1 a k r tr2 ->. apply Forall_app in Hf as [_ Hf]. apply Forall_cons in Hf as [Hf _].
  by destruct (Hf k).
Qed.
Lemma good_app tr1 tr2 : good tr1 → good tr2 → good (tr1 ++ tr2).
Proof.
  intros [H1 Hd1] [H2 Hd2]. split.
  - intros a1 a k r a2 Heq. symmetry in Heq. apply app_eq_inv in Heq as [(l & -> & Heq)|(l & -> & Heq)].
    + destruct (H2 l a k r a2) as (tr0 & sz & rep & -> & Hr); [done|].
      exists (tr1 ++ tr0), sz, rep. by rewrite app_assoc.
    + destruct l as [|y l]; cbn in Heq; [by destruct (Hd2 _ _ (eq_sym Heq) k)|].
      injection Heq as <- ->. by apply (H1 a1 a k r l).
  - intros x tl Heq. destruct tr1 as [|y tr1]; cbn in Heq; [by eapply Hd2|].
    simplify_eq. by eapply Hd1.
Qed.
Lemma good_calls {A} (p : prog A) tr a : all_calls not_del p → path p tr a → good tr.
Proof. intros Hp Htr. apply good_none. by eapply Hp. Qed.

Lemma migrateBigKeys_good big tr : path (migrateBigKeys src t big) tr tt → good tr.
Proof.
  revert tr. induction big as [|e big IH]; intros tr; cbn [migrateBigKeys].
  { intros [-> _]%path_ret_inv. by apply good_none. }
  intros (r & tr1 & tr2 & -> & H1 & H2%IH)%path_bind_inv. apply good_app; [|done].
  apply path_bind_inv in H1 as (r1 & tr3 & tr4 & -> & ->%path_pcall_inv & H1).
  fold (COPY t (key e) (size e)) in *. destruct (asErr r1) eqn:Er.
  - apply path_ret_inv in H1 as [-> _]. apply good_none. by constructor.
  - apply path_bind_inv in H1 as (r2 & tr5 & tr6 & -> & ->%path_pcall_inv & [-> _]%path_ret_inv).
    split; [|by intros x tl [= <- _]].
    intros a1 a k r0 a2 Heq. destruct a1 as [|x [|y [|z a1]]]; cbn in Heq; simplify_eq.
    exists [], (size e), r1. done.
Qed.
Lemma migrateSlotKeys_good keys tr : path (migrateSlotKeys src t keys) tr tt → good tr.
Proof.
  assert (∀ keys, all_calls not_del (migrateKeyBatch src t keys 5000)) as Hb.
  { intros ks. unfold migrateKeyBatch. calls_tac. done. }
  assert (∀ keys, all_calls not_del (filterExistingKeys src keys)) as He.
  { intros ks. induction ks as [|k ks IH]; cbn [filterExistingKeys]; calls_tac. done. }
  unfold migrateSlotKeys. case_decide; [by apply good_calls|].
  intros ([[normal big] failed] & tr1 & tr2 & -> & Hc & Hk)%path_bind_inv. apply good_app.
  { revert Hc. apply good_calls. clear. induction keys as [|k ks IH]; cbn [classifyKeys]; calls_tac. done. }
  apply path_bind_inv in Hk as ([] & tr3 & tr4 & -> & Hbig & Hk). apply good_app; [by eapply migrateBigKeys_good|].
  revert Hk. apply good_calls. case_decide; [apply all_calls_ret|].
  generalize (chunkSizeOf normal) (length normal). intros n f. clear -Hb He.
  revert normal. induction f as [|f IH]; intros [|x rest]; cbn [chunk_loop]; calls_tac; auto.
Qed.
End deletions.

(** ** The contract of one migration

    The conversations with the two servers that moving a slot may consist of, and what is
    reported for each. *)
Section contract.
Context (src : redisClient) (t : slotTask).

Definition prologue (r1 r2 r3 : reply) (mid : list call_) : list call_ :=
  [(dest t, IMPORTING t, r1); (src, MIGRATING t, r2); (src, ClusterGetKeysInSlot (slot t) 1000, r3)] ++ mid.
Inductive conversation : list call_ → unit + error → Prop :=
  | importing_refused r1 e : asStr r1 = inr e →
      conversation [(dest t, IMPORTING t, r1)] (inr (Wrapf ("IMPORTING slot " +:+ Itoa (slot t)) e))
  | migrating_refused r1 s1 r2 e : asStr r1 = inl s1 → asStr r2 = inr e →
      conversation [(dest t, IMPORTING t, r1); (src, MIGRATING t, r2)]
        (inr (Wrapf ("MIGRATING slot " +:+ Itoa (slot t)) e))
  | dest_node_refused r1 s1 r2 s2 r3 mid r4 e : asStr r1 = inl s1 → asStr r2 = inl s2 →
      Forall (transfer src t) mid → (valList r3 = [] → mid = []) → asStr r4 = inr e →
      conversation (prologue r1 r2 r3 mid ++ [(dest t, NODE t, r4)])
        (inr (Wrapf ("SETSLOT NODE dest slot " +:+ Itoa (slot t)) e))
  | source_node_refused r1 s1 r2 s2 r3 mid r4 s4 r5 e : asStr r1 = inl s1 → asStr r2 = inl s2 →
      Forall (transfer src t) mid → (valList r3 = [] → mid = []) → asStr r4 = inl s4 → asStr r5 = inr e →
      conversation (prologue r1 r2 r3 mid ++ [(dest t, NODE t, r4); (src, NODE t, r5)])
        (inr (Wrapf ("SETSLOT NODE source slot " +:+ Itoa (slot t)) e))
  | handed_over r1 s1 r2 s2 r3 mid r4 s4 r5 s5 : asStr r1 = inl s1 → asStr r2 = inl s2 →
      Forall (transfer src t) mid → (valList r3 = [] → mid = []) → asStr r4 = inl s4 → asStr r5 = inl s5 →
      conversation (prologue r1 r2 r3 mid ++ [(dest t, NODE t, r4); (src, NODE t, r5)]) (inl tt).
End contract.

Module MigrationTheorems.

(** C1: the protocol of one slot.  Whatever the servers answer, moving a slot is one of five
    conversations: IMPORTING to the destination is refused and nothing else is sent; MIGRATING
    to the source is refused and nothing else is sent; or both are accepted and followed by one
    GETKEYSINSLOT for at most 1000 keys, only key transfers to the source (none for an empty
    slot), and NODE to the destination, which is refused and the last command, or accepted and
    followed by NODE to the source.  Success is reported exactly when all four SETSLOT commands
    were accepted, otherwise the error of the one that was not.  Errors of the key transfers
    play no part in it. *)
Theorem slot_protocol src t tr r :
  path (migrateSlotShared src t) tr r → conversation src t tr r.
Proof.
  intros Hp. apply migrateSlotShared_path in Hp
    as (r1 & [(e & He & -> & ->)|(s1 & r2 & Hr1 & [(e & He & -> & ->)|(s2 & r3 & mid & fin & Hr2 & Hmid & Hk & Hf & ->)])]).
  - by constructor.
  - by econstructor.
  - assert (valList r3 = [] → mid = []) as Hnone by (intros E; rewrite decide_True in Hk by done; by apply path_ret_inv in Hk as [-> _]).
    rewrite app_assoc. fold (prologue src t r1 r2 r3 mid).
    apply two_phase_path in Hf as (r4 & [(e & He & -> & ->)|(s4 & r5 & Hr4 & -> & ->)]); [by econstructor|].
    destruct (asStr r5) eqn:Hr5; by econstructor.
Qed.


(** C22: a key is deleted at the source only after it was copied: every DEL that a migration
    sends comes right after a COPY of that key that the source accepted. *)
Theorem delete_only_after_copy src t tr r :
  path (migrateSlotShared src t) tr r → safe_del src t tr.
Proof.
  intros Hp. enough (good src t tr) as [? _] by done. apply migrateSlotShared_path in Hp
    as (r1 & [(e & _ & -> & ->)|(s1 & r2 & _ & [(e & _ & -> & ->)|(s2 & r3 & mid & fin & _ & _ & Hm & Hf & ->)])]).
  1-2: apply good_none; repeat constructor; done.
  apply (good_app _ _ [_; _; _]); [apply good_none; repeat constructor; done|]. apply good_app.
  - case_decide; [apply path_ret_inv in Hm as [-> _]; by apply good_none|]. by eapply migrateSlotKeys_good.
  - apply two_phase_path in Hf as (r4 & [(e & _ & -> & _)|(s4 & r5 & _ & -> & _)]);
      apply good_none; repeat constructor; done.
Qed.

(** Also: a failed transfer does not stop the handover.  Whatever error the source answers to the
    MIGRATE of a slot's keys, the migration goes on to assign the slot to the destination and
    reports success: the keys stay behind on a node that no longer owns the slot. *)
Theorem handover_despite_failed_transfer src t k e :
  ∃ tr, path (migrateSlotShared src t) tr (inl tt) ∧
    (∃ args, (src, Do args, RErr e) ∈ tr ∧ batchKeys (src, Do args, RErr e) = [k]) ∧
    (src, NODE t, RStr "OK") ∈ tr.
Proof.
  set (args := ["MIGRATE"; toIP t; Itoa (containerPort t); ""; "0"; Itoa 5000; "KEYS"; k]).
  exists [(dest t, IMPORTING t, RStr "OK"); (src, MIGRATING t, RStr "OK");
    (src, ClusterGetKeysInSlot (slot t) 1000, RList [k]); (src, Do args, RErr e);
    (dest t, NODE t, RStr "OK"); (src, NODE t, RStr "OK")].
  split_and!; [|exists args; split; [set_solver|done]|set_solver].
  unfold migrateSlotShared, CreateRedisClient. fold (dest t).
  apply (path_call _ _ _ (RStr "OK")), (path_call _ _ _ (RStr "OK")), (path_call _ _ _ (RList [k])).
  apply (path_call _ _ _ (RErr e)), (path_call _ _ _ (RStr "OK")), (path_call _ _ _ (RStr "OK")). constructor.
Qed.

Definition demo_task : slotTask := mkTask 42 "a" "10.0.0.1" "x" "10.0.0.3" 7003 7001 6379.
Definition demo_calls : list call_ :=
  [(dest demo_task, IMPORTING demo_task, RStr "OK"); ("src", MIGRATING demo_task, RStr "OK");
   ("src", ClusterGetKeysInSlot 42 1000, RList []);
   (dest demo_task, NODE demo_task, RStr "OK"); ("src", NODE demo_task, RErr (Errorf "down"))].
Lemma demo_path : path (migrateSlotShared "src" demo_task) demo_calls
  (inr (Wrapf "SETSLOT NODE source slot 42" (Errorf "down"))).
Proof.
  unfold migrateSlotShared, CreateRedisClient. fold (dest demo_task).
  apply (path_call _ _ _ (RStr "OK")), (path_call _ _ _ (RStr "OK")), (path_call _ _ _ (RList [])).
  apply (path_call _ _ _ (RStr "OK")), (path_call _ _ _ (RErr (Errorf "down"))). constructor.
Qed.

Lemma slot_protocol_witness :
  conversation "src" demo_task demo_calls (inr (Wrapf "SETSLOT NODE source slot 42" (Errorf "down"))).
Proof. apply (slot_protocol "src" demo_task demo_calls). exact demo_path. Defined.

(** Sixty keys: the first is big and can be copied, all others are small and present. *)
Definition demo_keys : list string := Itoa <$> seqZ 0 60.
Definition sized_srv (h : list event) (a : string) (c : cmd) : reply :=
  match c with
  | MemoryUsage k => if decide (k = "0") then RInt bigKeyThreshold else RInt 1
  | Exists _ => RInt 1
  | ClusterGetKeysInSlot _ _ => RList demo_keys
  | _ => RStr "OK"
  end.
Definition sized_env : Env := Build_Env sized_srv (λ _ l, l).

(** The same sixty keys in a whole migration, in which the big one is deleted. *)
Lemma delete_only_after_copy_witness :
  ∃ tr, safe_del "src" demo_task tr ∧
    (run_prog (H := sized_env) (migrateSlotShared "src" demo_task) []).2 = (λ x, EvCmd x.1.1 x.1.2) <$> tr ∧
    EvCmd "src" (Del "0") ∈ (λ x, EvCmd x.1.1 x.1.2) <$> tr.
Proof.
  destruct (run_prog_path (H := sized_env) (migrateSlotShared "src" demo_task) []) as (tr & r & Hp & Hr).
  { apply migrateSlotShared_ends. }
  exists tr. split; [apply (delete_only_after_copy "src" demo_task tr r); exact Hp|].
  split; [by rewrite Hr|]. change (((λ x : call_, EvCmd x.1.1 x.1.2) <$> tr)) with ([] ++ ((λ x : call_, EvCmd x.1.1 x.1.2) <$> tr)).
  change ([] ++ ((λ x : call_, EvCmd x.1.1 x.1.2) <$> tr)) with (Some r, [] ++ ((λ x : call_, EvCmd x.1.1 x.1.2) <$> tr)).2.
  rewrite <- Hr. apply (bool_decide_unpack _). vm_compute. exact I.
Defined.
End MigrationTheorems.
