(* ===== verification/PoolProps.v ===== *)
(** * Slot migration: the worker pool

    All interleavings of the goroutines of [executeSlotMigration]: every execution ends, no
    worker ever blocks, and at the end every task has been migrated exactly once, by one
    complete run of [migrateSlotShared], and the error channel holds one error for every run
    that failed. *)
From S2P Require Import Prelude GoStrings Data Redis Manager Fixtures Plan PlanProps Migration MigrationProps.
Import Mig.

(** ** Termination

    A step takes a task off a channel, or moves one worker down: towards the end of its
    program, from busy to idle, from idle to done.  A worker whose program spins would step
    forever without moving down: the programs the pool runs all come to their end. *)
Inductive wlt : worker → worker → Prop :=
  | wlt_done g : wlt Done (Idle g)
  | wlt_idle g t a : wlt (Idle g) (Busy g t (PRet a))
  | wlt_call g t addr c k r : wlt (Busy g t (k r)) (Busy g t (PCall addr c k)).
Lemma wlt_wf w : Acc wlt w.
Proof.
  assert (Acc wlt Done) as Hd by (constructor; inversion 1).
  assert (∀ g, Acc wlt (Idle g)) as Hi by (intros g; constructor; inversion 1; done).
  destruct w as [g|g t p|]; [done| |done].
  induction p as [a|addr c k IH|]; constructor; inversion 1; simplify_eq; done.
Qed.
(** The worker's program comes to its end. *)
Definition worker_ends (w : worker) : Prop := match w with Busy _ _ p => ends p | _ => True end.

(** One worker of the list moves down. *)
Definition vlt (ws' ws : list worker) : Prop :=
  ∃ i w' w, ws !! i = Some w ∧ ws' = <[i := w']> ws ∧ wlt w' w.
Lemma vlt_cons w ws : Acc wlt w → Acc vlt ws → Acc vlt (w :: ws).
Proof.
  intros Hw. revert ws. induction Hw as [w _ IHw]. intros ws Hws. induction Hws as [ws Hws' IHws].
  constructor. intros ws' (i & w' & w0 & Hi & -> & Hlt). destruct i as [|i]; cbn in *.
  - simplify_eq. by apply IHw; [|constructor].
  - apply IHws. by exists i, w', w0.
Qed.
Lemma vlt_wf ws : Acc vlt ws.
Proof.
  induction ws as [|w ws IH]; [|by apply vlt_cons; [apply wlt_wf|]].
  constructor. intros ws' (i & w' & w & Hi & _). by rewrite lookup_nil in Hi.
Qed.

Definition queued (s : pool) : nat := length (mjoin (chans s)).
Lemma join_insert_tail {A} (g : nat) (x : A) q ls :
  ls !! g = Some (x :: q) → mjoin ls ≡ₚ x :: mjoin (<[g := q]> ls).
Proof.
  revert g. induction ls as [|l ls IH]; intros [|g] Hg; cbn in *; simplify_eq; [done|].
  rewrite IH by done. by rewrite Permutation_middle.
Qed.


Section pool.
Context `{Env}.

Lemma step_decreases s s' :
  Forall worker_ends (workers s) → step s s' →
  Forall worker_ends (workers s') ∧
  ((queued s' < queued s)%nat ∨ (queued s' = queued s ∧ vlt (workers s') (workers s))).
Proof.
  intros He [i Hi]. unfold work in Hi. destruct (workers s !! i) as [w|] eqn:Hw; [cbn in Hi|done].
  assert (worker_ends w) as Hwe by (by eapply Forall_lookup_1).
  destruct w as [g|g t [[?|e]|addr c k|]|]; cbn in Hi; [|..|by inversion Hwe|done].
  - destruct (chans s !! g) as [[|t q]|] eqn:Hq; cbn in Hi; [|destruct (clients s !! g); cbn in Hi|]; simplify_eq.
    + split; [by apply Forall_insert|]. right. split; [done|]. exists i, Done, (Idle g). split_and!; [done..|constructor].
    + split; [apply Forall_insert; [done|apply migrateSlotShared_ends]|].
      left. unfold queued. cbn. apply join_insert_tail in Hq. rewrite Hq. cbn. lia.
  - simplify_eq. split; [by apply Forall_insert|]. right. split; [done|]. eexists i, _, _. split_and!; [done..|constructor].
  - case_decide; [|done]. simplify_eq. split; [by apply Forall_insert|].
    right. split; [done|]. eexists i, _, _. split_and!; [done..|constructor].
  - simplify_eq. inversion Hwe as [|? ? ? Hk]; subst. split; [apply Forall_insert; [done|apply Hk]|].
    right. split; [done|]. eexists i, _, _. split_and!; [done..|constructor].
Qed.

Lemma pool_sn s : Forall worker_ends (workers s) → Acc (flip step) s.
Proof.
  remember (queued s) as n eqn:Hn. revert s Hn. induction n as [n IHn] using lt_wf_ind. intros s Hn.
  remember (workers s) as ws eqn:Hws. revert s Hn Hws. induction (vlt_wf ws) as [ws _ IHws].
  intros s Hn Hws He. constructor. intros s' Hs'. rewrite Hws in He. apply step_decreases in Hs' as [He' [Hlt|[Heq Hlt]]]; [..|done].
  - eapply IHn; [|done|done]. lia.
  - eapply IHws; [|by rewrite Heq|done|done]. by rewrite Hws.
Qed.
Lemma startPool_idle tasks gs h i w :
  workers (startPool tasks gs h) !! i = Some w → ∃ g, w = Idle g ∧ (g < length gs)%nat.
Proof.
  intros Hi. apply list_elem_of_lookup_2 in Hi. cbn [startPool workers] in Hi.
  apply list_elem_of_join in Hi as (l & Hw & (g & -> & Hg)%list_elem_of_fmap).
  apply elem_of_replicate in Hw as [-> _]. apply elem_of_seq in Hg. exists g. split; [done|lia].
Qed.
Lemma startPool_sn tasks gs h : Acc (flip step) (startPool tasks gs h).
Proof. apply pool_sn, Forall_lookup. by intros i w (g & -> & _)%startPool_idle. Qed.
End pool.

(** ** What every reachable pool satisfies *)
Definition busyTask (w : worker) : option slotTask := match w with Busy _ t _ => Some t | _ => None end.
Definition busyTasks (ws : list worker) : list slotTask := omap busyTask ws.
Definition serves (g : nat) (w : worker) : Prop :=
  match w with Idle g' | Busy g' _ _ => g' = g | Done => False end.

Lemma busyTasks_insert ws i w w' :
  ws !! i = Some w →
  busyTasks (<[i := w']> ws) ++ option_list (busyTask w) ≡ₚ option_list (busyTask w') ++ busyTasks ws.
Proof.
  revert i. induction ws as [|x ws IH]; intros [|i] Hi; cbn in *; simplify_eq.
  - unfold busyTasks. cbn. destruct (busyTask w), (busyTask w'); cbn; rewrite ?app_nil_r; try done.
    + rewrite (Permutation_app_comm (omap _ ws)). cbn. by constructor.
    + by rewrite (Permutation_app_comm (omap _ ws)).
  - specialize (IH i Hi). unfold busyTasks in *. cbn. destruct (busyTask x); [|done].
    cbn. rewrite IH. by rewrite Permutation_middle.
Qed.

(** The calls a task has made. *)
Definition proj (t : slotTask) (tr : list (slotTask * call_)) : list call_ :=
  (filter (λ x, x.1 = t) tr).*2.
Lemma proj_snoc t tr t' x :
  proj t (tr ++ [(t', x)]) = proj t tr ++ (if decide (t' = t) then [x] else []).
Proof.
  unfold proj. rewrite filter_app, fmap_app, filter_cons, filter_nil. cbn. by case_decide.
Qed.

Section invariant.
Context `{Env}.
Context (tasks : list slotTask) (gs : list group).

Definition run_of (g : group) (t : slotTask) : prog (unit + error) :=
  migrateSlotShared (local (g_fromHostPort g)) t.
(** What a worker sends to the error channel for a run that ended with [a]. *)
Definition failure (x : slotTask * (unit + error)) : option error :=
  match x.2 with inl _ => None | inr err => Some (slotError x.1 err) end.
(** [fin]: the tasks whose runs have ended, in that order, with their results. *)
Record pool_inv (s : pool) (fin : list (slotTask * (unit + error))) : Prop := mk_pool_inv {
  pi_len : length (chans s) = length gs;
  pi_clients : clients s = (λ g, local (g_fromHostPort g)) <$> gs;
  pi_cap : errCap s = length tasks;
  pi_tasks : fin.*1 ++ busyTasks (workers s) ++ mjoin (chans s) ≡ₚ tasks;
  pi_completed : completed s = Z.of_nat (length fin);
  pi_errs : errCh s = omap failure fin;
  pi_queue : ∀ g q, chans s !! g = Some q → ∃ grp, gs !! g = Some grp ∧ q ⊆ g_tasks grp;
  pi_serves : ∀ i w g, workers s !! i = Some w → serves g w → (g < length gs)%nat;
  pi_cover : ∀ g q, chans s !! g = Some q → q ≠ [] → ∃ i w, workers s !! i = Some w ∧ serves g w;
  pi_new : ∀ t, t ∈ mjoin (chans s) → proj t (trace s) = [];
  pi_busy : ∀ i g t p, workers s !! i = Some (Busy g t p) → ∃ grp, gs !! g = Some grp ∧ t ∈ g_tasks grp ∧
    ∀ tr a, path p tr a → path (run_of grp t) (proj t (trace s) ++ tr) a;
  pi_fin : ∀ t a, (t, a) ∈ fin → ∃ grp, grp ∈ gs ∧ t ∈ g_tasks grp ∧ path (run_of grp t) (proj t (trace s)) a }.

Lemma startPool_inv h : mjoin (g_tasks <$> gs) ≡ₚ tasks → pool_inv (startPool tasks gs h) [].
Proof.
  intros Ht. pose proof (startPool_idle tasks gs h) as Hidle. split; try done.
  - cbn. by rewrite length_fmap.
  - cbn [startPool chans]. assert (busyTasks (workers (startPool tasks gs h)) = []) as ->; [|done].
    unfold busyTasks. remember (workers _) as ws eqn:Hws. clear Hws. induction ws as [|w ws IH]; [done|].
    cbn. destruct (Hidle 0%nat w eq_refl) as (g & -> & _). cbn. apply IH. intros i w' Hi. by apply (Hidle (S i)).
  - intros g q Hq. cbn in Hq. apply list_lookup_fmap_Some in Hq as (grp & -> & Hg). by exists grp.
  - intros i w g (g' & -> & ?)%Hidle <-. done.
  - intros g q Hq _. cbn in Hq. apply lookup_lt_Some in Hq. rewrite length_fmap in Hq.
    assert (Idle g ∈ workers (startPool tasks gs h)) as [i Hi]%list_elem_of_lookup_1; [|by exists i, (Idle g)].
    cbn [startPool workers]. apply list_elem_of_join. exists (replicate migrationWorkers (Idle g)).
    split; [apply elem_of_replicate; split; [done|unfold migrationWorkers; lia]|].
    apply list_elem_of_fmap. exists g. split; [done|]. apply elem_of_seq. lia.
  - intros i g t p (g' & ? & _)%Hidle. done.
  - by intros t a ?%not_elem_of_nil.
Qed.

Context (s : pool) (fin : list (slotTask * (unit + error))) (Hinv : pool_inv s fin) (Hnd : NoDup tasks).

(** The three places of a task exclude each other. *)
Lemma places_disjoint i g t p :
  workers s !! i = Some (Busy g t p) →
  (t ∉ fin.*1) ∧ (t ∉ mjoin (chans s)) ∧
  ∀ j g' p', workers s !! j = Some (Busy g' t p') → j = i.
Proof.
  intros Hi. assert (NoDup (fin.*1 ++ busyTasks (workers s) ++ mjoin (chans s))) as Hn
    by (by rewrite (pi_tasks _ _ Hinv)).
  assert (t ∈ busyTasks (workers s)) as Hb.
  { apply list_elem_of_omap. exists (Busy g t p). split; [by eapply list_elem_of_lookup_2|done]. }
  apply NoDup_app in Hn as (_ & Hfb & Hn). apply NoDup_app in Hn as (Hbn & Hbq & _).
  split_and!; [intros Hf; by apply (Hfb t Hf), elem_of_app; left|by apply Hbq|].
  intros j g' p' Hj. destruct (decide (j = i)) as [|Hne]; [done|exfalso].
  pose proof (busyTasks_insert (workers s) i _ Done Hi) as Hp1. cbn in Hp1.
  assert (t ∈ busyTasks (<[i := Done]> (workers s))) as Hin.
  { apply list_elem_of_omap. exists (Busy g' t p'). split; [|done].
    apply list_elem_of_lookup. exists j. by rewrite list_lookup_insert_ne. }
  rewrite <- Hp1 in Hbn. apply NoDup_app in Hbn as (_ & Hx & _). apply (Hx t Hin). set_solver.
Qed.

Lemma insert_worker_cases i w w' j x :
  workers s !! i = Some w → <[i := w']> (workers s) !! j = Some x →
  (j = i ∧ x = w') ∨ (j ≠ i ∧ workers s !! j = Some x).
Proof.
  intros Hi. destruct (decide (j = i)) as [->|Hne].
  - rewrite list_lookup_insert_eq by (by eapply lookup_lt_Some). naive_solver.
  - rewrite list_lookup_insert_ne by done. naive_solver.
Qed.
(** A worker that stays with its group keeps the groups covered. *)
Lemma cover_insert i w w' g :
  workers s !! i = Some w → (∀ g, serves g w → serves g w') →
  (∃ i w, workers s !! i = Some w ∧ serves g w) →
  ∃ i0 w0, <[i := w']> (workers s) !! i0 = Some w0 ∧ serves g w0.
Proof.
  intros Hi Hw (j & x & Hj & Hx). destruct (decide (j = i)) as [->|Hne].
  - exists i, w'. simplify_eq. rewrite list_lookup_insert_eq by (by eapply lookup_lt_Some). auto.
  - exists j, x. by rewrite list_lookup_insert_ne.
Qed.

Lemma inv_exit i g :
  workers s !! i = Some (Idle g) → chans s !! g = Some [] → pool_inv (set_worker i Done s) fin.
Proof.
  intros Hi Hq. pose proof (busyTasks_insert _ i _ Done Hi) as Hb. cbn in Hb. rewrite app_nil_r in Hb.
  destruct Hinv as [H1 H2 H3 H4 H5 H6 H7 H8 H9 H10 H11 H12].
  split; try done; cbn [chans clients workers completed errCh errCap trace phist set_worker].
  - by rewrite Hb.
  - intros j w g' [[-> ->]|[_ Hj]]%(insert_worker_cases _ _ _ _ _ Hi) Hs; [done|]. by eapply H8.
  - intros g' q' Hq' Hne. destruct (H9 g' q' Hq' Hne) as (j & x & Hj & Hx).
    exists j, x. rewrite list_lookup_insert_ne; [done|]. intros ->. simplify_eq. cbn in Hx. congruence.
  - intros j g' t p [[-> ?]|[_ Hj]]%(insert_worker_cases _ _ _ _ _ Hi); [done|]. by eapply H11.
Qed.

Lemma inv_take i g t q cli :
  workers s !! i = Some (Idle g) → chans s !! g = Some (t :: q) → clients s !! g = Some cli →
  pool_inv (mkPool (<[g := q]> (chans s)) (clients s) (<[i := Busy g t (migrateSlotShared cli t)]> (workers s))
              (completed s) (errCh s) (errCap s) (trace s) (phist s)) fin.
Proof.
  intros Hi Hq Hcli. pose proof (busyTasks_insert _ i _ (Busy g t (migrateSlotShared cli t)) Hi) as Hb.
  cbn in Hb. rewrite app_nil_r in Hb. pose proof (join_insert_tail g t q _ Hq) as Hj.
  assert (proj t (trace s) = []) as Hnew by (apply (pi_new _ _ Hinv); rewrite Hj; set_solver).
  destruct Hinv as [H1 H2 H3 H4 H5 H6 H7 H8 H9 H10 H11 H12].
  split; try done; cbn [chans clients workers completed errCh errCap trace phist set_worker].
  - by rewrite length_insert.
  - rewrite Hb, <- H4, Hj. by rewrite <- Permutation_middle.
  - intros g' q'. destruct (decide (g = g')) as [<-|Hne].
    + rewrite list_lookup_insert_eq by (by eapply lookup_lt_Some). intros [= <-].
      destruct (H7 g _ Hq) as (grp & ? & ?). exists grp. set_solver.
    + rewrite list_lookup_insert_ne by done. apply H7.
  - intros j w g' [[-> ->]|[_ Hw]]%(insert_worker_cases _ _ _ _ _ Hi) Hs; [|by eapply H8].
    eapply H8; [exact Hi|done].
  - intros g' q' Hq' Hne. apply (cover_insert i (Idle g)); [done..|].
    destruct (decide (g = g')) as [<-|Hgg]; [by exists i, (Idle g)|].
    rewrite list_lookup_insert_ne in Hq' by done. by eapply H9.
  - intros t' Ht'. apply H10. rewrite Hj. set_solver.
  - intros j g' t' p' [[-> [= -> -> ->]]|[_ Hw]]%(insert_worker_cases _ _ _ _ _ Hi); [|by eapply H11].
    destruct (H7 g _ Hq) as (grp & Hg & Hsub). exists grp. split_and!; [done|set_solver|].
    rewrite H2 in Hcli. apply list_lookup_fmap_Some in Hcli as (grp' & -> & Hg'). simplify_eq.
    intros tr a Htr. change (path (run_of grp' t) (proj t (trace s) ++ tr) a). by rewrite Hnew.
Qed.

Lemma inv_call i g t addr c k h :
  workers s !! i = Some (Busy g t (PCall addr c k)) → 
  let r := srv (phist s) addr c in
  pool_inv (mkPool (chans s) (clients s) (<[i := Busy g t (k r)]> (workers s)) (completed s) (errCh s)
              (errCap s) (trace s ++ [(t, (addr, c, r))]) h) fin.
Proof.
  intros Hi r. pose proof (busyTasks_insert _ i _ (Busy g t (k r)) Hi) as Hb. cbn in Hb.
  rewrite Permutation_app_comm in Hb. apply Permutation.Permutation_app_inv_l with (l := [t]) in Hb.
  destruct (places_disjoint i g t _ Hi) as (Hf & Hq & Hu).
  assert (∀ t', t' ≠ t → proj t' (trace s ++ [(t, (addr, c, r))]) = proj t' (trace s)) as Hother.
  { intros t' Hne. rewrite proj_snoc, decide_False by done. by rewrite app_nil_r. }
  destruct Hinv as [H1 H2 H3 H4 H5 H6 H7 H8 H9 H10 H11 H12].
  split; try done; cbn [chans clients workers completed errCh errCap trace phist set_worker].
  - by rewrite Hb.
  - intros j w g' [[-> ->]|[_ Hw]]%(insert_worker_cases _ _ _ _ _ Hi) Hs; [|by eapply H8].
    eapply H8; [exact Hi|done].
  - intros g' q' Hq' Hne. eapply cover_insert; [exact Hi|done|]. by eapply H9.
  - intros t' Ht'. rewrite Hother; [by apply H10|]. by intros ->.
  - intros j g' t' p' [[-> [= -> -> ->]]|[Hne Hw]]%(insert_worker_cases _ _ _ _ _ Hi).
    + destruct (H11 i g t _ Hi) as (grp & Hg & Ht & Hp). exists grp. split_and!; [done..|].
      intros tr a Htr. rewrite proj_snoc, decide_True, <- app_assoc by done. apply Hp. by constructor.
    + destruct (H11 j g' t' p' Hw) as (grp & Hg & Ht & Hp). exists grp. split_and!; [done..|].
      rewrite Hother; [done|]. intros ->. apply Hne. by eapply Hu.
  - intros t' a' Ht'. rewrite Hother; [by apply H12|]. intros ->. apply Hf. by apply (list_elem_of_fmap_2 fst) in Ht'.
Qed.

Lemma inv_finish i g t a :
  workers s !! i = Some (Busy g t (PRet a)) →
  pool_inv (mkPool (chans s) (clients s) (<[i := Idle g]> (workers s)) (completed s + 1)
              (errCh s ++ option_list (failure (t, a))) (errCap s) (trace s) (phist s)) (fin ++ [(t, a)]).
Proof.
  intros Hi. pose proof (busyTasks_insert _ i _ (Idle g) Hi) as Hb. cbn in Hb.
  destruct Hinv as [H1 H2 H3 H4 H5 H6 H7 H8 H9 H10 H11 H12].
  split; try done; cbn [chans clients workers completed errCh errCap trace phist set_worker].
  - rewrite fmap_app, <- H4, <- Hb. rewrite <- !app_assoc. cbn. solve_Permutation.
  - rewrite length_app, H5. cbn. lia.
  - rewrite omap_app, H6. done.
  - intros j w g' [[-> ->]|[_ Hw]]%(insert_worker_cases _ _ _ _ _ Hi) Hs; [|by eapply H8].
    eapply H8; [exact Hi|done].
  - intros g' q' Hq' Hne. eapply cover_insert; [exact Hi|done|]. by eapply H9.
  - intros j g' t' p' [[-> ?]|[_ Hw]]%(insert_worker_cases _ _ _ _ _ Hi); [done|by eapply H11].
  - intros t' a' [Ht'|[= -> ->]%list_elem_of_singleton]%elem_of_app; [by apply H12|].
    destruct (H11 i g t _ Hi) as (grp & Hg & Ht & Hp). exists grp. split_and!; [by eapply list_elem_of_lookup_2|done|].
    rewrite <- (app_nil_r (proj t (trace s))). apply Hp. constructor.
Qed.

(** Preservation, and nobody blocks. *)
Lemma work_inv i w :
  workers s !! i = Some w → w ≠ Done → ∃ s' fin', work i s = Some s' ∧ pool_inv s' fin'.
Proof.
  intros Hi Hw. unfold work. rewrite Hi. cbn.
  destruct w as [g|g t [[u|e]|addr c k|]|]; [..|done].
  - destruct (lookup_lt_is_Some_2 (chans s) g) as [q Hq].
    { rewrite (pi_len _ _ Hinv). eapply (pi_serves _ _ Hinv); [exact Hi|done]. }
    rewrite Hq. cbn. destruct q as [|t q]; [eexists _, fin; split; [done|by eapply inv_exit]|].
    destruct (lookup_lt_is_Some_2 (clients s) g) as [cli Hcli].
    { rewrite (pi_clients _ _ Hinv), length_fmap. eapply (pi_serves _ _ Hinv); [exact Hi|done]. }
    rewrite Hcli. cbn. eexists _, fin. split; [done|]. by apply inv_take.
  - eexists _, _. split; [done|]. pose proof (inv_finish i g t (inl u) Hi) as Hi'. cbn in Hi'.
    rewrite app_nil_r in Hi'. exact Hi'.
  - assert (length (errCh s) < errCap s)%nat as Hlt.
    { rewrite (pi_cap _ _ Hinv), <- (pi_tasks _ _ Hinv), length_app, length_app, length_fmap.
      pose proof (length_omap_le failure fin) as Hom. rewrite <- (pi_errs _ _ Hinv) in Hom.
      assert (length (busyTasks (workers s)) ≠ 0%nat); [|lia].
      intros Hz%nil_length_inv. assert (t ∈ busyTasks (workers s)) as Hin; [|rewrite Hz in Hin; set_solver].
      apply list_elem_of_omap. eexists. split; [by eapply list_elem_of_lookup_2|done]. }
    rewrite decide_True by done. eexists _, _. split; [done|]. exact (inv_finish i g t (inr e) Hi).
  - eexists _, _. split; [done|]. by apply inv_call.
  - eexists _, _. by split.
Qed.
End invariant.

(** ** The groups contain every task once *)
Lemma partition_perm {A K} `{EqDecision K} (f : A → K) (keys : list K) (l : list A) :
  NoDup keys → (∀ x, x ∈ l → f x ∈ keys) → mjoin ((λ k, filter (λ x, f x = k) l) <$> keys) ≡ₚ l.
Proof.
  revert l. induction keys as [|k keys IH]; intros l Hn Hin.
  { destruct l as [|x l]; [done|]. exfalso. apply (not_elem_of_nil (f x)), Hin. set_solver. }
  apply NoDup_cons in Hn as [Hk Hn]. cbn.
  transitivity (filter (λ x, f x = k) l ++ filter (λ x, ¬ f x = k) l); [|apply filter_app_complement].
  apply Permutation_app_head. rewrite <- (IH (filter (λ x, ¬ f x = k) l)) at 1; [|done|].
  - match goal with |- ?a ≡ₚ ?b => enough (a = b) as -> by done end.
    f_equal. apply list_fmap_ext. intros i k' Hk'. rewrite list_filter_filter.
    apply list_filter_iff. intros x. apply list_elem_of_lookup_2 in Hk'. naive_solver.
  - intros x [Hne Hx]%list_elem_of_filter. apply Hin in Hx. set_solver.
Qed.

Lemma groupsInOrder_tasks `{EnvLaws} ts h :
  mjoin (g_tasks <$> groupsInOrder (Plan.groupSlotTasks ts) h) ≡ₚ ts.
Proof.
  unfold groupsInOrder. set (keys := range_order h _).
  assert (keys ≡ₚ (map_to_list (Plan.groupSlotTasks ts)).*1) as Hk by apply range_order_perm.
  assert (∀ ip, ip ∈ keys → ∃ t0 l, filter (λ t, fromIP t = ip) ts = t0 :: l) as Hne.
  { intros ip. rewrite Hk, list_elem_of_fmap. intros ([ip' g] & -> & Hg%elem_of_map_to_list).
    rewrite groupSlotTasks_lookup in Hg. cbn. destruct (filter _ ts); naive_solver. }
  assert (g_tasks <$> omap (λ ip, Plan.groupSlotTasks ts !! ip) keys =
          (λ ip, filter (λ t, fromIP t = ip) ts) <$> keys) as ->.
  { clear Hk. induction keys as [|ip keys IH]; [done|]. cbn. rewrite groupSlotTasks_lookup.
    destruct (Hne ip) as (t0 & l & E); [set_solver|]. rewrite E. cbn. f_equal. apply IH. set_solver. }
  apply partition_perm.
  - rewrite Hk. apply NoDup_fst_map_to_list.
  - intros t Ht. rewrite Hk. apply list_elem_of_fmap.
    pose proof (groupSlotTasks_lookup ts (fromIP t)) as Hl.
    destruct (filter (λ t', fromIP t' = fromIP t) ts) as [|t0 l] eqn:E.
    + exfalso. apply (not_elem_of_nil t). rewrite <- E. by apply list_elem_of_filter.
    + eexists (_, _). split; [|by apply elem_of_map_to_list]. done.
Qed.

Lemma reach_inv `{Env} tasks gs h s :
  mjoin (g_tasks <$> gs) ≡ₚ tasks → NoDup tasks → rtc step (startPool tasks gs h) s →
  ∃ fin, pool_inv tasks gs s fin.
Proof.
  intros Ht Hn. revert s. apply (rtc_ind_r (λ s, ∃ fin, pool_inv tasks gs s fin)).
  - exists []. by apply startPool_inv.
  - intros s s' _ [i Hi] [fin Hinv]. destruct (workers s !! i) as [w|] eqn:Hw; [|unfold work in Hi; by rewrite Hw in Hi].
    destruct (work_inv tasks gs s fin Hinv Hn i w Hw) as (s2 & fin' & Hs2 & Hinv').
    { intros ->. unfold work in Hi. by rewrite Hw in Hi. }
    exists fin'. congruence.
Qed.

(** An executed schedule is an execution. *)
Lemma run_schedule_rtc `{Env} sched s : rtc step s (run_schedule sched s).
Proof.
  revert s. induction sched as [|i sched IH]; intros s; cbn; [done|].
  destruct (work i s) as [s'|] eqn:E; cbn; [|apply IH]. eapply rtc_l; [by exists i|apply IH].
Qed.

(** The history grows by the commands of the tasks, and by nothing else. *)
Definition sent (tr : list (slotTask * call_)) : list event := (λ x, EvCmd x.2.1.1 x.2.1.2) <$> tr.
Lemma reach_history `{Env} tasks gs h s :
  rtc step (startPool tasks gs h) s → phist s = h ++ sent (trace s).
Proof.
  revert s. apply (rtc_ind_r (λ s, phist s = h ++ sent (trace s))); [cbn; by rewrite app_nil_r|].
  intros s s' _ [i Hi] IH. unfold work in Hi. destruct (workers s !! i) as [w|]; [cbn in Hi|done].
  destruct w as [g|g t [[?|e]|addr c k|]|]; cbn in Hi.
  - destruct (chans s !! g) as [[|t q]|]; cbn in Hi; [|destruct (clients s !! g); cbn in Hi|]; by simplify_eq.
  - by simplify_eq.
  - case_decide; by simplify_eq.
  - simplify_eq. cbn. unfold sent. by rewrite IH, fmap_app, app_assoc.
  - by simplify_eq.
  - done.
Qed.

(** ** Progress and the finished pool *)
Section reach.
Context `{Env}.
Context (tasks : list slotTask) (gs : list group) (h : list event) (s : pool).
Context (Ht : mjoin (g_tasks <$> gs) ≡ₚ tasks) (Hn : NoDup tasks) (Hr : rtc step (startPool tasks gs h) s).

Lemma reach_progress : ¬ finished s → ∃ s', step s s'.
Proof.
  intros Hf. destruct (reach_inv _ _ _ _ Ht Hn Hr) as [fin Hinv].
  unfold finished in Hf. apply not_Forall_Exists in Hf; [|apply _].
  apply List.Exists_exists in Hf as (w & [i Hi]%list_elem_of_In%list_elem_of_lookup_1 & Hw).
  destruct (work_inv _ _ _ _ Hinv Hn i w Hi Hw) as (s' & fin' & Hs' & _). by exists s', i.
Qed.

Lemma reach_finished :
  finished s → completed s = Z.of_nat (length tasks) ∧
  ∃ fin, fin.*1 ≡ₚ tasks ∧ errCh s = omap failure fin ∧
    ∀ t a, (t, a) ∈ fin → ∃ grp, grp ∈ gs ∧ t ∈ g_tasks grp ∧ path (run_of grp t) (proj t (trace s)) a.
Proof.
  intros Hf. destruct (reach_inv _ _ _ _ Ht Hn Hr) as [fin Hinv].
  assert (∀ i w, workers s !! i = Some w → w = Done) as Hdone.
  { intros i w Hi. unfold finished in Hf. rewrite Forall_lookup in Hf. by eapply Hf. }
  assert (mjoin (chans s) = []) as Hq.
  { apply join_nil. apply Forall_lookup. intros g q Hg. destruct (decide (q = [])) as [|Hne]; [done|].
    destruct (pi_cover _ _ _ _ Hinv g q Hg Hne) as (i & w & ->%Hdone & []). }
  assert (busyTasks (workers s) = []) as Hb.
  { destruct (busyTasks (workers s)) as [|t l] eqn:E; [done|].
    assert (t ∈ busyTasks (workers s)) as (w & [i ->%Hdone]%list_elem_of_lookup_1 & ?)%list_elem_of_omap
      by (rewrite E; set_solver). done. }
  pose proof (pi_tasks _ _ _ _ Hinv) as Hp. rewrite Hb, Hq, !app_nil_r in Hp. split.
  - by rewrite (pi_completed _ _ _ _ Hinv), <- Hp, length_fmap.
  - exists fin. split_and!; [done|apply Hinv|]. intros t a. apply (pi_fin _ _ _ _ Hinv).
Qed.
End reach.

(** Steps can be scheduled. *)
Lemma run_schedule_app `{Env} s1 s2 s : run_schedule (s1 ++ s2) s = run_schedule s2 (run_schedule s1 s).
Proof. revert s. by induction s1 as [|i s1 IH]; intros s; cbn. Qed.
(** Every beginning of an execution can be continued until the pool is finished. *)
Lemma schedule_completes `{Env} tasks gs h sched :
  mjoin (g_tasks <$> gs) ≡ₚ tasks → NoDup tasks →
  ∃ more, finished (run_schedule (sched ++ more) (startPool tasks gs h)).
Proof.
  intros Ht Hn. pose proof (run_schedule_rtc sched (startPool tasks gs h)) as Hr.
  assert (Acc (flip step) (run_schedule sched (startPool tasks gs h))) as Hacc.
  { eapply rtc_ind_r; [..|exact Hr]; [apply startPool_sn|]. intros s s' _ Hs [Ha]. by apply Ha. }
  setoid_rewrite run_schedule_app. remember (run_schedule sched _) as s eqn:Hs. clear Hs sched.
  induction Hacc as [s _ IH]. destruct (decide (Forall (λ w, w = Done) (workers s))) as [Hf|Hf]; [by exists []|].
  destruct (reach_progress tasks gs h s Ht Hn Hr Hf) as (s' & i & Hi).
  destruct (IH s') as [more Hm]; [by exists i|by eapply rtc_r; [|exists i]|].
  exists (i :: more). cbn. by rewrite Hi.
Qed.

Module PoolTheorems.

(** C4: the pool terminates.  Whatever the servers answer, whatever the tasks and however the
    goroutines are scheduled, there is no infinite execution of the worker pool: each slot's
    program comes to its end, also the loop over the chunks of its keys, and a worker that
    would spin in it would be an infinite execution. *)
Theorem pool_terminates `{Env} tasks gs h : Acc (flip step) (startPool tasks gs h).
Proof. apply startPool_sn. Qed.

(** C3: the pool migrates every slot exactly once.  Start the pool of [executeSlotMigration] on
    distinct tasks, grouped by [groupSlotTasks] and ranged over in any order.  In every state
    it can reach, if some worker is not done, a step is possible (the error channel never
    blocks a worker).  When all workers are done, every task has been counted, and has one
    result: the commands sent for it are exactly one complete run of [migrateSlotShared] with
    the client of its source, ending with that result; and the error channel holds one error
    for each task whose run ended with an error, and nothing else. *)
Theorem pool_migrates_each_slot_once `{EnvLaws} tasks h s :
  NoDup tasks → rtc step (startPool tasks (groupsInOrder (Plan.groupSlotTasks tasks) h) h) s →
  (¬ finished s → ∃ s', step s s') ∧
  (finished s → completed s = Z.of_nat (length tasks) ∧
     ∃ results : list (slotTask * (unit + error)),
       results.*1 ≡ₚ tasks ∧ errCh s = omap failure results ∧
       ∀ t a, (t, a) ∈ results →
         ∃ grp, grp ∈ groupsInOrder (Plan.groupSlotTasks tasks) h ∧ t ∈ g_tasks grp ∧
           path (run_of grp t) (proj t (trace s)) a).
Proof.
  intros Hn Hr. pose proof (groupsInOrder_tasks tasks h) as Ht.
  split; [by eapply reach_progress|by eapply reach_finished].
Qed.

#[local] Instance demo_env_laws : @EnvLaws Fixtures.demo_env.
Proof. intros h l. reflexivity. Qed.
Definition demo_tasks : list slotTask := [MigrationTheorems.demo_task].
(** Worker 0 takes the task, sends its five commands, returns and exits; the others exit. *)
Definition demo_schedule : list nat := replicate 8 0%nat ++ seq 1 15.
Definition demo_start : pool :=
  startPool demo_tasks (groupsInOrder (H := Fixtures.demo_env) (Plan.groupSlotTasks demo_tasks) []) [].

Lemma pool_migrates_each_slot_once_witness :
  let s := run_schedule (H := Fixtures.demo_env) demo_schedule demo_start in
  finished s ∧ completed s = 1.
Proof.
  intros s. assert (finished s) as Hf by (unfold finished; apply (bool_decide_unpack _); vm_compute; exact I).
  split; [exact Hf|].
  apply (pool_migrates_each_slot_once (H := Fixtures.demo_env) demo_tasks [] s).
  - apply NoDup_singleton.
  - apply run_schedule_rtc.
  - exact Hf.
Defined.
End PoolTheorems.
