(* ===== verification/ManagerTheorems.v ===== *)
(** * The cluster manager as a whole

    The topology invariant after any history of operations, and the composition of a whole
    migration: plan, transfer, cache invalidation, report. *)
From S2P Require Import Prelude GoStrings Data Redis Manager ManagerProps Fixtures Plan PlanProps Migration MigrationProps PoolProps.
Import CM Plan Mig.

(** The exported operations of the cluster manager. *)
Inductive cmOp : Type :=
  | OpBootstrap (shardCount : Z) (clusterName : string)
  | OpAddShards (shardCount : Z) (clusterName : string)
  | OpMeetNodes (client : redisClient) (clusterName : string)
  | OpUpdateAfterMeet (LoginNode : RuntimeNode) (clusterName : string)
  | OpUpdateAfterSetNodeRole (LoginNode : RuntimeNode) (clusterName : string)
  | OpUpdateSlots (LoginNode : RuntimeNode) (clusterName : string)
  | OpSetAllNodeRole (clusterName : string)
  | OpSetNodeAsSlave (masterIP slaveIP clusterName : string)
  | OpAllocateSlots (clusterName : string)
  | OpAddNewMaster (masterID : string)
  | OpResetEmptyMasters
  | OpSetCacheInvalidator (inv : bool)
  | OpMigrate (schedule : pool → list nat) (clusterName : string).

Section ops.
Context {P : Type} `{PodManager P} `{Env}.

Definition run_cm (o : cmOp) (c : ClusterManager P) : ClusterManager P :=
  match o with
  | OpBootstrap n cl => (Bootstrap n cl c).2
  | OpAddShards n cl => (AddShards n cl c).2
  | OpMeetNodes cli cl => (MeetNodes cli cl c).2
  | OpUpdateAfterMeet n cl => (UpdateAfterMeet n cl c).2
  | OpUpdateAfterSetNodeRole n cl => (UpdateAfterSetNodeRole n cl c).2
  | OpUpdateSlots n cl => (UpdateSlots n cl c).2
  | OpSetAllNodeRole cl => (SetAllNodeRole cl c).2
  | OpSetNodeAsSlave a b cl => (SetNodeAsSlave a b cl c).2
  | OpAllocateSlots cl => (AllocateSlots cl c).2
  | OpAddNewMaster id => (AddNewMaster id c).2
  | OpResetEmptyMasters => (ResetEmptyMasters c).2
  | OpSetCacheInvalidator inv => SetCacheInvalidator inv c
  | OpMigrate schedule cl => (MigrateSlotsToEmptyNode schedule cl c).2
  end.

Hint Resolve derefNode_wf goResult_wf call_wf : go_pres.
Lemma addSlotsNum_wf l k : pres topo_wf (addSlotsNum l k : GoM (ClusterManager P) unit).
Proof.
  intros c Hc. unfold addSlotsNum, derefNode, goderef, mbind, GoM_bind.
  destruct (heap c !! l) as [n|] eqn:Hl; [|done]. by apply set_SlotsNum_wf.
Qed.
Lemma emptyAt_wf i : pres topo_wf (emptyAt i : GoM (ClusterManager P) _).
Proof. unfold emptyAt. pres_tac. Qed.
Hint Resolve addSlotsNum_wf emptyAt_wf : go_pres.
Lemma slot_loop_wf k m v s st : pres topo_wf (slot_loop k m v s st : GoM (ClusterManager P) _).
Proof.
  revert s st. induction k as [|k IH]; intros s [e ts]; cbn [slot_loop]; unfold buildSlotTask; pres_tac.
Qed.
Hint Resolve slot_loop_wf : go_pres.
Lemma collectSlotTasks_wf cl : pres topo_wf (collectSlotTasks cl : GoM (ClusterManager P) _).
Proof. unfold collectSlotTasks, collectFrom, collectTasksFromMaster. pres_tac. Qed.
Hint Resolve collectSlotTasks_wf : go_pres.
Lemma Migrate_wf schedule cl : pres topo_wf (MigrateSlotsToEmptyNode schedule cl : GoM (ClusterManager P) _).
Proof.
  unfold MigrateSlotsToEmptyNode, invalidateCacheAfterMigration, PrintClusterNodesInfo.
  assert (∀ tasks gs, pres topo_wf (executeSlotMigration schedule tasks gs : GoM (ClusterManager P) unit)) as He
    by (intros tasks gs c Hc; by apply set_hist_wf).
  pres_tac; by apply set_hist_wf.
Qed.
Lemma run_cm_wf o c : topo_wf c → topo_wf (run_cm o c).
Proof.
  intros Hc. destruct o; cbn [run_cm].
  - by apply Bootstrap_wf.
  - by apply AddShards_wf.
  - by apply MeetNodes_wf.
  - by apply UpdateAfterMeet_wf.
  - by apply UpdateAfterSetNodeRole_wf.
  - by apply UpdateSlots_wf.
  - by apply SetAllNodeRole_wf.
  - by apply SetNodeAsSlave_wf.
  - by apply AllocateSlots_wf.
  - by apply AddNewMaster_wf.
  - by destruct Hc.
  - by destruct Hc.
  - by apply Migrate_wf.
Qed.
End ops.

Lemma slotBounds_contains tasks :
  tasks ≠ [] → ∃ lo hi, slotBounds tasks = Some (lo, hi) ∧ ∀ t, t ∈ tasks → lo ≤ slot t ≤ hi.
Proof.
  destruct tasks as [|t0 tl]; [done|]. intros _. unfold slotBounds.
  change (foldl _ (slot t0, slot t0)) with (foldl bounds_step (slot t0, slot t0)).
  pose proof (bounds_fold (t0 :: tl) (slot t0, slot t0)) as (_ & _ & Hall & _).
  destruct (foldl bounds_step _ _) as [lo hi]. by exists lo, hi.
Qed.
(** Printing asks one server for its nodes, or nobody when there are no pods. *)
Lemma print_reads_once {P} `{PodManager P} `{Env} (c c' : ClusterManager P) r :
  PrintClusterNodesInfo c = (r, c') →
  r ≠ OutOfFuel ∧ ∃ rest, hist c' = hist c ++ rest ∧ (length rest ≤ 1)%nat ∧
    Forall (λ e, ∃ addr, e = EvCmd addr ClusterNodes) rest.
Proof.
  unfold PrintClusterNodesInfo, mbind, GoM_bind, goget. destruct (podNodes c) as [|n0 ns]; cbn.
  { intros [= <- <-]. split; [done|]. exists []. rewrite app_nil_r. split_and!; [done|cbn; lia|constructor]. }
  unfold gowrap, gocall, call. cbn. intros Heq. assert (r ≠ OutOfFuel ∧ c' = log_event (EvCmd (ClientConnAddr n0) ClusterNodes) c)
    as [Hr ->] by (destruct (asStr _); cbn in Heq; by injection Heq as <- <-).
  split; [done|]. exists [EvCmd (ClientConnAddr n0) ClusterNodes]. split_and!; [done|cbn; lia|repeat constructor; by eexists].
Qed.

Module ManagerTheorems.
Section theorems.
Context {P : Type} `{PodManager P} `{Env}.

(** C6: the topology invariant.  Whatever pods, servers and goroutine schedules do, after any
    history of operations, the failed and panicking ones included, every node id in the
    topology points to an allocated node object of that id whose IP counts as met, the node
    list holds each known node exactly once, and the IP table leads to nodes of that IP. *)
Theorem topology_always_wf (k : Z) (p : P) (ops : list cmOp) :
  topo_wf (foldl (λ c o, run_cm o c) (NewClusterManager k p) ops).
Proof.
  pose proof (topo_wf_New k p) as Hc. revert Hc. generalize (NewClusterManager k p).
  induction ops as [|o ops IH]; intros c Hc; [done|]. by apply IH, run_cm_wf.
Qed.

(** C20: the cache is invalidated after the transfer.  Let there be something to migrate (distinct
    tasks) and an invalidator be registered.  Every beginning of an execution of the worker
    pool can be continued until all workers are done, and [MigrateSlotsToEmptyNode] returns
    exactly when they are.  Then the history was extended by the commands of the pool,
    those of each task being one complete migration of its slot, followed by the invalidation
    of an interval of slots that contains every planned slot, and after that at most one read of
    the topology, for printing: no command of a migration comes after the invalidation. *)
Theorem migration_invalidates_afterwards `{!EnvLaws} cl (c c1 : ClusterManager P) tasks :
  empty (topo c) ≠ [] → masterIDs (topo c) ≠ [] →
  collectSlotTasks cl c = (Ret tasks, c1) → tasks ≠ [] → NoDup tasks → cacheInvalidator c1 = true →
  let gs := groupsInOrder (groupSlotTasks tasks) (hist c1) in
  let start := startPool tasks gs (hist c1) in
  (∀ sched, ∃ more, finished (run_schedule (sched ++ more) start)) ∧
  ∀ schedule, let s := run_schedule (schedule start) start in
    let '(r, c') := MigrateSlotsToEmptyNode schedule cl c in
    (r ≠ OutOfFuel ↔ finished s) ∧
    (r ≠ OutOfFuel →
      (∀ t, t ∈ tasks → ∃ grp a, grp ∈ gs ∧ t ∈ g_tasks grp ∧ path (run_of grp t) (proj t (trace s)) a) ∧
      ∃ lo hi rest, hist c' = hist c1 ++ sent (trace s) ++ EvInvalidate lo hi :: rest ∧
        (∀ t, t ∈ tasks → lo ≤ slot t ≤ hi) ∧ (length rest ≤ 1)%nat ∧
        Forall (λ e, ∃ addr, e = EvCmd addr ClusterNodes) rest).
Proof.
  intros He Hm Hc Ht Hn Hinv gs start. pose proof (groupsInOrder_tasks tasks (hist c1)) as Hgs.
  split; [intros sched; by apply schedule_completes|]. intros schedule s.
  unfold MigrateSlotsToEmptyNode, mbind, GoM_bind, goget at 1.
  rewrite decide_False by done. rewrite decide_False by done. rewrite Hc, decide_False by done.
  unfold executeSlotMigration. fold gs start s. destruct (decide (finished s)) as [Hf|Hf]; [|by split].
  unfold goget. cbn [cacheInvalidator set_hist]. rewrite Hinv. unfold invalidateCacheAfterMigration, mbind, GoM_bind, goderef.
  assert (∀ t, t ∈ tasks → ∃ grp a, grp ∈ gs ∧ t ∈ g_tasks grp ∧ path (run_of grp t) (proj t (trace s)) a) as Hruns.
  { destruct (reach_finished tasks gs (hist c1) s Hgs Hn (run_schedule_rtc _ _) Hf) as (_ & fin & Hfin & _ & Hall).
    intros t. rewrite <- Hfin. intros ([? a] & -> & Hin)%list_elem_of_fmap. destruct (Hall _ _ Hin) as (grp & ?). by exists grp, a. }
  destruct (slotBounds_contains tasks Ht) as (lo & hi & Hb & Hin). rewrite Hb. unfold gomodify.
  match goal with |- context [PrintClusterNodesInfo ?x] => set (c2 := x) end.
  destruct (PrintClusterNodesInfo c2) as [r c'] eqn:Ep. apply print_reads_once in Ep as (Hr & rest & Hh & Hl & Hrest).
  split; [done|]. intros _. split; [exact Hruns|]. exists lo, hi, rest. split_and!; [|done..].
  rewrite Hh. change (hist c2) with (phist s ++ [EvInvalidate lo hi]). 
  by rewrite (reach_history tasks gs (hist c1) s (run_schedule_rtc _ _)), <- !app_assoc.
Qed.
End theorems.

Import Fixtures.
Definition demo_migration : ClusterManager (list RuntimeNode) :=
  mkCM (mkTopology {["a" := 1%nat; "x" := 2%nat]} ∅ [1; 2]%nat ["a"; "x"] ∅ [2%nat]) newRoles newMeetState
    [pod1; pod2] 1 true
    {[1%nat := mkClusterNode "a" "10.0.0.1" 6379 Master "-" "connected" [mkSlotRange 0 99] 8200 "cl";
      2%nat := mkClusterNode "x" "10.0.0.2" 6379 Master "-" "connected" [] 0 "cl"]} 3%nat [].

(** Eight slots move, 99 down to 92: worker 0 takes all tasks, seven steps each. *)
Definition demo_migration_schedule (s : pool) : list nat := replicate 57 0%nat ++ seq 1 15.
#[local] Instance demo_env_range : @EnvLaws demo_env.
Proof. intros h l. reflexivity. Qed.
Lemma migration_invalidates_afterwards_witness :
  let r := MigrateSlotsToEmptyNode (EV := demo_env) demo_migration_schedule "cl" demo_migration in
  ∃ l lo hi rest, hist r.2 = l ++ EvInvalidate lo hi :: rest ∧ length l = 40%nat ∧ lo ≤ 92 ∧ 99 ≤ hi.
Proof.
  intros r.
  pose proof (migration_invalidates_afterwards (H0 := demo_env) "cl" demo_migration
    (collectSlotTasks "cl" demo_migration).2
    (match (collectSlotTasks "cl" demo_migration).1 with Ret ts => ts | _ => [] end)) as Hm.
  destruct Hm as [_ Hm]; [discriminate|discriminate|vm_compute; reflexivity|vm_compute; discriminate
    |apply (bool_decide_unpack _); vm_compute; exact I|vm_compute; reflexivity|].
  specialize (Hm demo_migration_schedule). cbv zeta in Hm. fold r in Hm.
  destruct r as [o c'] eqn:Er. destruct Hm as [_ Hm]. destruct Hm as (_ & lo & hi & rest & Hh & Hin & _).
  { intros ->. apply (f_equal (λ x, match x.1 with OutOfFuel => true | _ => false end)) in Er. vm_compute in Er. discriminate. }
  eexists _, lo, hi, rest. split; [rewrite app_assoc in Hh; exact Hh|]. split; [vm_compute; reflexivity|].
  pose proof (Hin (mkTask 92 "a" "10.0.0.1" "x" "10.0.0.2" 7002 7001 6379)) as H1.
  pose proof (Hin (mkTask 99 "a" "10.0.0.1" "x" "10.0.0.2" 7002 7001 6379)) as H2.
  assert (lo ≤ 92 ≤ hi) as Ha by (apply H1, (bool_decide_unpack _); vm_compute; exact I).
  assert (lo ≤ 99 ≤ hi) as Hb by (apply H2, (bool_decide_unpack _); vm_compute; exact I).
  split; [apply Ha|apply Hb].
Defined.
End ManagerTheorems.
