(* ===== verification/Ops.v ===== *)
(** * The commands: create, scale, delete

    [cluster/ops/create.go], [scale.go] and [delete.go]: each command builds a pipeline of steps
    over the cluster manager, the container backend, the store and the state directory, and
    runs it.

    A world holds what the steps share.  The backend is any [PodManager]; the cluster manager
    holds it, and the commands reach it through the same pointer.  File operations fail
    without effect when the oracle says so; the per-cluster YAML file is the record it holds.
    A command is a new process: it starts with a new manager and a new backend, and only the
    store, the files, the containers and the servers outlive it. *)
From S2P Require Import Prelude GoStrings Data Config Redis Manager Plan Migration.
From S2P Require Import Pipeline Store StoreProps PipelineStore.

Inductive osEvent : Type :=
  | OsMkdirAll (path : string)
  | OsRemove (path : string)
  | OsWrite (path : string).
Class OS : Type := osFault : list osEvent → osEvent → option error.

Record World (P : Type) : Type := mkWorld {
  cm : ClusterManager P;
  odb : Store.DB;
  files : gmap string RedisClusterConfig;
  dirs : gset string;
  osHist : list osEvent }.
Arguments mkWorld {P}.
Arguments cm {P}.
Arguments odb {P}.
Arguments files {P}.
Arguments dirs {P}.
Arguments osHist {P}.
#[global] Instance World_HasDB P : HasDB (World P) :=
  {| db_of := odb; set_db := λ d w, mkWorld (cm w) d (files w) (dirs w) (osHist w) |}.
#[global] Instance World_HasDBLaws P : HasDBLaws (World P).
Proof. split; [done|by intros []]. Qed.

Module Ops.
Section ops.
Context {P : Type} {PM : PodManager P} {EV : Env} {os : OS}.
(** [backend.NewNodeManager]: a new manager on the host the old one ran on. *)
Context (newNodeManager : RuntimeConfig → P → outcome P).
Context (schedule : Mig.pool → list nat).
Abbreviation M := (GoM (World P)).
Abbreviation Step := (Pipe.Step (World P)).

(** ** Access to the parts *)
Definition set_cm (c : ClusterManager P) (w : World P) : World P :=
  mkWorld c (odb w) (files w) (dirs w) (osHist w).
Definition onCM {A} (m : GoM (ClusterManager P) A) : M A := golift cm set_cm m.
Definition onPods {A} (m : GoM P A) : M A :=
  golift (λ w, nodeManager (cm w)) (λ p w, set_cm (set_pods p (cm w)) w) m.
Definition pods (w : World P) : P := nodeManager (cm w).

(** [os.MkdirAll], [os.Remove], [utils.WriteToYAMLFile] *)
Definition osCall (e : osEvent) (f : World P → World P) : M unit := λ w,
  let w' := mkWorld (cm w) (odb w) (files w) (dirs w) (osHist w ++ [e]) in
  match osFault (osHist w) e with
  | Some err => (Fail err, w')
  | None => (Ret tt, f w')
  end.
Definition MkdirAll (dir : string) : M unit :=
  osCall (OsMkdirAll dir) (λ w, mkWorld (cm w) (odb w) (files w) ({[dir]} ∪ dirs w) (osHist w)).
Definition Remove (path : string) : M unit :=
  osCall (OsRemove path) (λ w, mkWorld (cm w) (odb w) (delete path (files w)) (dirs w ∖ {[path]}) (osHist w)).
Definition WriteToYAMLFile (path : string) (c : RedisClusterConfig) : M unit :=
  osCall (OsWrite path) (λ w, mkWorld (cm w) (odb w) (<[path := c]> (files w)) (dirs w) (osHist w)).
Definition FileExists (path : string) (w : World P) : bool := bool_decide (is_Some (files w !! path)).
(** Does the directory hold anything? *)
Definition hasEntries (dir : string) (w : World P) : bool :=
  existsb (λ p, HasPrefix p (dir +:+ "/")) ((map_to_list (files w)).*1 ++ elements (dirs w)).

Definition findClusterNode (w : World P) (clusterName : string) : option RuntimeNode :=
  snd <$> list_find (λ n, rn_ClusterName n = clusterName) (GetNodes (pods w)).
Definition step (name : string) (do : M unit) : Step := Pipe.mkStep name (λ _, do) None 0 0.

(** ** Recording a cluster in the store

    The persist-db steps of create and scale; errors of the statements are dropped. *)
Definition containerRecord (clusterName : string) (node : RuntimeNode) : ContainerRecord :=
  let nodeIdx := (Atoi (TrimPrefix (rn_Name node) (clusterName +:+ "-redis-"))).1 in
  mkContainerRecord clusterName (rn_Name node) (rn_ID node) (rn_HostIP node) (rn_HostPort node)
    (rn_ConIp node) (rn_ConPort node) nodeIdx "" "running" (rn_Hostname node).
Definition drop_err {A} (m : M A) : M unit := _ ← gotry m; mret tt.
Definition recordCluster (persist : option (Persister (World P))) (pname : string) (r : ClusterRecord)
    (operation detail : string) : M unit :=
  _ ← drop_err (onDB (Store.UpsertCluster r));
  w ← goget;
  _ ← goforeach (λ node,
        if decide (rn_ClusterName node ≠ cr_Name r) then mret tt
        else drop_err (onDB (Store.UpsertContainer (containerRecord (cr_Name r) node)))) (GetNodes (pods w));
  _ ← drop_err (onDB (Store.LogOperation (cr_Name r) operation detail true));
  match persist with
  | Some ps => drop_err (DeletePipeline ps pname)
  | None => mret tt
  end.

Section create.
Context (cfg : RuntimeConfig) (shardCount nodesPerShard_ : Z) (clusterName : string).
Context (persist : option (Persister (World P))).
Definition createName : string := "create-cluster-" +:+ clusterName.

Definition validateCreate : M unit :=
  if decide (shardCount ≤ 0) then gofail (Errorf "shard count must be greater than 0")
  else if decide (nodesPerShard_ < 2) then gofail (Errorf "nodes per shard must be at least 2")
  else if decide (clusterName = "") then gofail (Errorf "cluster name must not be empty")
  else
    _ ← gowrap (λ err, Errorf ("list cluster pods fail: " +:+ Error err)) (onPods (ListPodsByCluster clusterName));
    w ← goget;
    if HasCluster (pods w) clusterName then
      gofail (Wrapf ("cluster " +:+ clusterName +:+ " already exists with " +:+
                     Itoa (CountByCluster (pods w) clusterName) +:+ " pod(s)") ErrClusterExists)
    else mret tt.
Definition createContainers : Step :=
  Pipe.mkStep "create-containers"
    (λ _, onCM (CM.CreatePodsForCluster clusterName (int64 (shardCount * nodesPerShard_))))
    (Some (λ _, onPods (DeleteResources clusterName))) 1 0.
Definition meetNodes : M unit :=
  w ← goget;
  match findClusterNode w clusterName with
  | None => gofail (Errorf ("no node found for cluster " +:+ clusterName))
  | Some node =>
      cli ← gowrap (Wrapf "create redis client fail") (gocall (RuntimeNode_CreateRedisClient node));
      onCM (CM.MeetNodes cli clusterName)
  end.
Definition updateTopology : M unit :=
  w ← goget;
  match findClusterNode w clusterName with
  | None => gofail (Errorf ("no node found for cluster " +:+ clusterName))
  | Some node => onCM (CM.UpdateAfterMeet node clusterName)
  end.
Definition persistConfig : M unit :=
  _ ← MkdirAll (Conf.ClusterStateDir cfg clusterName);
  let path := Conf.ClusterRuntimeConfigPath cfg clusterName in
  w ← goget;
  _ ← (if FileExists path w then drop_err (Remove path) else mret tt);
  w ← goget;
  WriteToYAMLFile path (mkRedisClusterConfig (nodesPerShard (cm w)) (RedisContainerPort cfg)).
Definition persistCreate : M unit :=
  if decide (DBPath cfg = "") then mret tt
  else
    _ ← onDB Store.OpenStore;
    recordCluster persist createName
      (mkClusterRecord clusterName (Backend cfg) shardCount nodesPerShard_ (RedisContainerPort cfg)
         (ImageName cfg) "ready" "" "")
      "create" ("shards=" +:+ Itoa shardCount +:+ " nodes_per_shard=" +:+ Itoa nodesPerShard_).
Definition undoPersist : M unit :=
  if decide (DBPath cfg = "") then mret tt
  else _ ← onDB Store.OpenStore; drop_err (onDB (Store.DeleteCluster clusterName)).

Definition createSteps : list Step :=
  [ step "validate" validateCreate;
    createContainers;
    step "meet-nodes" meetNodes;
    step "update-topology" updateTopology;
    step "set-roles" (onCM (CM.SetAllNodeRole clusterName));
    step "alloc-slots" (onCM (CM.AllocateSlots clusterName));
    Pipe.mkStep "persist-config" (λ _, persistConfig)
      (Some (λ _, drop_err (Remove (Conf.ClusterRuntimeConfigPath cfg clusterName)))) 0 0;
    Pipe.mkStep "persist-db" (λ _, persistCreate) (Some (λ _, undoPersist)) 0 0;
    step "print-info" (_ ← onCM CM.PrintClusterNodesInfo; mret tt) ].
End create.

Section scale.
Context (cfg : RuntimeConfig) (additionalShards nodesPerShard_ : Z) (clusterName : string).
Context (persist : option (Persister (World P))).
Definition scaleName : string := "scale-cluster-" +:+ clusterName.

Definition validateScale : M unit :=
  if decide (additionalShards ≤ 0) then
    gofail (Errorf ("additional shards must be > 0, got " +:+ Itoa additionalShards))
  else
    _ ← onPods (ListPodsByCluster clusterName);
    w ← goget;
    if decide (GetNodeCount (pods w) = 0) then gofail (Wrapf "no pods" ErrClusterNotFound) else mret tt.
Definition syncState : M unit :=
  w ← goget;
  match findClusterNode w clusterName with
  | None => gofail (Wrapf ("cluster " +:+ clusterName +:+ " not found") ErrClusterNotFound)
  | Some loginNode =>
      _ ← gowrap (Wrapf "meet info") (onCM (CM.UpdateAfterMeet loginNode clusterName));
      _ ← gowrap (Wrapf "node role") (onCM (CM.UpdateAfterSetNodeRole loginNode clusterName));
      gowrap (Wrapf "slots info") (onCM (CM.UpdateSlots loginNode clusterName))
  end.
Definition scaleContainers : Step :=
  Pipe.mkStep "create-containers"
    (λ _, onCM (CM.CreatePodsForCluster clusterName (int64 (additionalShards * nodesPerShard_))))
    (Some (λ _, onPods (DeleteResources clusterName))) 1 0.
Definition meetNew : M unit :=
  w ← goget;
  match findClusterNode w clusterName with
  | None => gofail (Errorf "no login node for meet")
  | Some node =>
      cli ← gowrap (Wrapf "redis client") (gocall (RuntimeNode_CreateRedisClient node));
      onCM (CM.MeetNodes cli clusterName)
  end.
Definition updateNew : M unit :=
  w ← goget;
  match findClusterNode w clusterName with
  | None => gofail (Errorf "no login node")
  | Some node => onCM (CM.UpdateAfterMeet node clusterName)
  end.
(** One turn of the loop over the new nodes; [count], [masterID] and the two maps are its
    variables. *)
Definition placeNewNode (st : Z * string * gmap string (list string) * gmap string string) (i : Z)
    : M (Z * string * gmap string (list string) * gmap string string) :=
  let '(count, masterID, masterToSlave, IDToIP) := st in
  w ← goget;
  node ← goderef "index out of range" (if decide (i < 0) then None else GetNodes (pods w) !! Z.to_nat i);
  let ip := rn_ConIp node in
  let id := CM.NodeIDByIP ip (cm w) in
  let IDToIP := <[id := ip]> IDToIP in
  let count := if decide (count = nodesPerShard_) then 0 else count in
  if decide (count = 0) then
    _ ← onCM (CM.AddNewMaster id);
    mret (count + 1, id, <[id := []]> masterToSlave, IDToIP)
  else mret (count + 1, masterID,
             <[masterID := default [] (masterToSlave !! masterID) ++ [id]]> masterToSlave, IDToIP).
Definition setNewRoles : M unit :=
  _ ← onCM CM.ResetEmptyMasters;
  w ← goget;
  let sum := int64 (additionalShards * nodesPerShard_) in
  let newStart := int64 (GetNodeCount (pods w) - sum) in
  '(_, _, masterToSlave, IDToIP) ← gofold placeNewNode (0, "", ∅, ∅) (seqZ newStart sum);
  w ← goget;
  goforeach (λ k,
    goforeach (λ slaveID,
      onCM (CM.SetNodeAsSlave (default "" (IDToIP !! k)) (default "" (IDToIP !! slaveID)) clusterName))
      (default [] (masterToSlave !! k)))
    (range_order (hist (cm w)) ((map_to_list masterToSlave).*1)).
Definition migrateSlots : Step :=
  Pipe.mkStep "migrate-slots" (λ _, _ ← onCM (Mig.MigrateSlotsToEmptyNode schedule clusterName); mret tt) None 1 0.
Definition persistScale : M unit :=
  if decide (DBPath cfg = "") then mret tt
  else
    _ ← onDB Store.OpenStore;
    w ← goget;
    let totalShards := CM.MasterCount (cm w) in
    recordCluster persist scaleName
      (mkClusterRecord clusterName (Backend cfg) totalShards nodesPerShard_ (RedisContainerPort cfg)
         (ImageName cfg) "ready" "" "")
      "scale" ("added " +:+ Itoa additionalShards +:+ " shards total=" +:+ Itoa totalShards).

Definition scaleSteps : list Step :=
  [ step "validate" validateScale;
    step "sync-state" syncState;
    scaleContainers;
    step "meet-nodes" meetNew;
    step "update-topology" updateNew;
    step "set-roles" setNewRoles;
    migrateSlots;
    step "persist-db" persistScale ].
End scale.

Section delete.
Context (cfg : RuntimeConfig) (clusterName : string) (persist : option (Persister (World P))).
Definition deleteName : string := "delete-cluster-" +:+ clusterName.

Definition deleteConfig : M unit :=
  let path := Conf.ClusterRuntimeConfigPath cfg clusterName in
  w ← goget;
  if FileExists path w then Remove path else mret tt.
Definition forgetCluster : M unit :=
  if decide (DBPath cfg = "") then mret tt
  else
    _ ← onDB Store.OpenStore;
    _ ← drop_err (onDB (Store.DeleteCluster clusterName));
    _ ← drop_err (onDB (Store.LogOperation clusterName "delete" "removed all containers" true));
    match persist with
    | Some ps => drop_err (DeletePipeline ps deleteName)
    | None => mret tt
    end.
Definition cleanupState : M unit :=
  let dir := Conf.ClusterStateDir cfg clusterName in
  w ← goget;
  if decide (dir ∈ dirs w) then if hasEntries dir w then mret tt else Remove dir else mret tt.

Definition deleteSteps : list Step :=
  [ step "delete-config" deleteConfig;
    Pipe.mkStep "delete-resources" (λ _, onPods (DeleteResources clusterName)) None 2 0;
    step "persist-db" forgetCluster;
    step "cleanup-state" cleanupState ].
End delete.

(** ** The commands *)
Definition openPersister (cfg : RuntimeConfig) : M (option (Persister (World P))) :=
  if decide (DBPath cfg = "") then mret None
  else
    r ← gotry (onDB Store.OpenStore);
    mret (match r with inl _ => Some persisterOf | inr _ => None end).
Definition runSteps (p : Pipe.Pipeline (World P)) (completed : gset string) (steps : list Step)
    (ctx : context) : M unit := λ w,
  let p := foldl (λ p s, Pipe.Add s p) p steps in
  let '(r, s) := Pipe.Run p ctx (Pipe.mkPState completed w) in
  (r, Pipe.world s).
Definition runPipeline (name : string) (persist : option (Persister (World P))) (steps : list Step)
    (ctx : context) : M unit :=
  '(p, completed) ← Pipe.New name persist;
  runSteps p completed steps ctx.
(** The new process's manager; the servers' history goes on. *)
Definition newManager (cfg : RuntimeConfig) (nps : Z) (p : P) (c : ClusterManager P) : ClusterManager P :=
  set_hist (hist c) (SetCacheInvalidator (CacheInvalidator cfg) (NewClusterManager nps p)).
Definition startManager (cfg : RuntimeConfig) (nps : Z) : M unit := λ w,
  match newNodeManager cfg (pods w) with
  | Ret p => (Ret tt, set_cm (newManager cfg nps p (cm w)) w)
  | Fail err => (Fail (Errorf ("create node manager fail: " +:+ Error err)), w)
  | Panic m => (Panic m, w)
  | OutOfFuel => (OutOfFuel, w)
  end.

Definition CreateClusterAction (ctx : context) (cfg : RuntimeConfig) (shardCount nodesPerShard_ : Z)
    (clusterName : string) : M unit :=
  _ ← startManager cfg nodesPerShard_;
  persist ← openPersister cfg;
  gowrap (Wrapf ("create cluster " +:+ clusterName))
    (runPipeline (createName clusterName) persist
       (createSteps cfg shardCount nodesPerShard_ clusterName persist) ctx).

(** The port of the file replaces the configured one, also in the backend, which shares the
    configuration. *)
Definition set_port (port : Z) (cfg : RuntimeConfig) : RuntimeConfig :=
  mkRuntimeConfig (ProjectRoot cfg) (RedisHostConfigPath cfg) (RedisConfigPath cfg) (RedisHostDataPath cfg)
    (RedisConfigDataPath cfg) (RuntimeStateDir cfg) (ConfigSaveFileName cfg) (Backend cfg) (DBPath cfg)
    (ContainerdSocket cfg) (ImageName cfg) port (Cache_ cfg) (DNS cfg) (CacheInvalidator cfg).
Definition ScaleClusterAction (ctx : context) (cfg : RuntimeConfig) (additionalShards : Z)
    (clusterName : string) : M unit :=
  w ← goget;
  _ ← gowrap (λ err, Errorf ("create node manager fail: " +:+ Error err)) (gocall (newNodeManager cfg (pods w)));
  match files w !! Conf.ClusterRuntimeConfigPath cfg clusterName with
  | None => gofail (Wrapf "read YAML" (Errorf "no such file or directory"))
  | Some f =>
      let nps := EffectiveNodesPerShard f in
      let cfg := set_port (Port f) cfg in
      _ ← startManager cfg nps;
      persist ← openPersister cfg;
      gowrap (Wrapf ("scale cluster " +:+ clusterName))
        (runPipeline (scaleName clusterName) persist
           (scaleSteps cfg additionalShards nps clusterName persist) ctx)
  end.

Definition DeleteAllContainers (ctx : context) (cfg : RuntimeConfig) (clusterName : string) : M unit :=
  _ ← startManager cfg 0;
  persist ← openPersister cfg;
  gowrap (Wrapf ("delete cluster " +:+ clusterName))
    (runPipeline (deleteName clusterName) persist (deleteSteps cfg clusterName persist) ctx).
End ops.
End Ops.
