(* ===== verification/OpsProps.v ===== *)
(** * The commands: correctness

    What a rejected command leaves behind, what a command that is resumed after a crash does,
    and what the rollback of a failed scale-out removes. *)
From S2P Require Import Prelude GoStrings Data Config Redis Manager Plan Migration Fixtures.
From S2P Require Import Pipeline Store StoreProps PipelineStore Ops.
Import Ops.

(** ** Persisting touches the store only *)
Section persisting.
Context {P : Type}.
Implicit Types w : World P.
(** Tables other than the pipeline's own. *)
Definition same_tables (d d' : Store.DB) : Prop :=
  Store.clusters d = Store.clusters d' ∧ Store.containers d = Store.containers d' ∧
  Store.operations d = Store.operations d'.
(** A statement on the pipeline's table fails or succeeds, but never panics. *)
Definition tame {A} (f : GoM Store.DB A) : Prop := ∀ d,
  ((∃ a, (f d).1 = Ret a) ∨ (∃ e, (f d).1 = Fail e)) ∧ same_tables (f d).2 d.
Lemma Exec_tame f : (∀ d, same_tables (f d) d) → tame (Store.Exec f).
Proof.
  intros Hf d. unfold Store.Exec. destruct (Store.faults d) as [|[] fs]; (split; [by eauto|]); cbn; [apply Hf|done|].
  exact (Hf (Store.set_faults fs d)).
Qed.
Lemma Save_tame n s : tame (Store.SavePipelineStep n s).
Proof. intros d. by apply Exec_tame. Qed.
Lemma Start_tame n s : tame (Store.StartPipelineStep n s).
Proof. intros d. by apply Exec_tame. Qed.
Lemma Fail_tame n s : tame (Store.FailPipelineStep n s).
Proof. intros d. by apply Exec_tame. Qed.
Lemma Delete_tame n : tame (Store.DeletePipeline n).
Proof. intros d. by apply Exec_tame. Qed.

(** The persisters the commands use. *)
Definition known (ps : option (Persister (World P))) : Prop := ps = None ∨ ps = Some persisterOf.
Definition set_odb (d : Store.DB) w : World P := mkWorld (cm w) d (files w) (dirs w) (osHist w).
Lemma persisting_db p (f : GoM Store.DB unit) (g : Persister (World P) → GoM (World P) unit) s :
  known (Pipe.p_Persist p) → g persisterOf = onDB f → tame f →
  ∃ d, Pipe.persisting p g s = (Ret tt, Pipe.mkPState (Pipe.Completed_ s) (set_odb d (Pipe.world s))) ∧ same_tables d (odb (Pipe.world s)).
Proof.
  intros Hp Hg Hf. unfold Pipe.persisting. destruct Hp as [->| ->].
  { exists (odb (Pipe.world s)). unfold mret, GoM_ret. split; [by destruct s as [? []]|done]. }
  unfold mbind, GoM_bind, Pipe.onWorld, gotry, golift. rewrite Hg. unfold onDB, golift. cbn.
  destruct (Hf (odb (Pipe.world s))) as [[[a E]|[e E]] Hs];
    destruct (f (odb (Pipe.world s))) as [o d]; cbn in E; subst o; by exists d.
Qed.
Lemma persisting_save p n st s : known (Pipe.p_Persist p) →
  ∃ d, Pipe.persisting p (λ ps, SavePipelineStep ps n st) s =
    (Ret tt, Pipe.mkPState (Pipe.Completed_ s) (set_odb d (Pipe.world s))) ∧ same_tables d (odb (Pipe.world s)).
Proof. intros Hp. by eapply persisting_db; [..|apply Save_tame]. Qed.
Lemma persisting_start p n st s : known (Pipe.p_Persist p) →
  ∃ d, Pipe.persisting p (λ ps, StartPipelineStep ps n st) s =
    (Ret tt, Pipe.mkPState (Pipe.Completed_ s) (set_odb d (Pipe.world s))) ∧ same_tables d (odb (Pipe.world s)).
Proof. intros Hp. by eapply persisting_db; [..|apply Start_tame]. Qed.
Lemma persisting_fail p n st s : known (Pipe.p_Persist p) →
  ∃ d, Pipe.persisting p (λ ps, FailPipelineStep ps n st) s =
    (Ret tt, Pipe.mkPState (Pipe.Completed_ s) (set_odb d (Pipe.world s))) ∧ same_tables d (odb (Pipe.world s)).
Proof. intros Hp. by eapply persisting_db; [..|apply Fail_tame]. Qed.
Lemma persisting_delete p n s : known (Pipe.p_Persist p) →
  ∃ d, Pipe.persisting p (λ ps, DeletePipeline ps n) s =
    (Ret tt, Pipe.mkPState (Pipe.Completed_ s) (set_odb d (Pipe.world s))) ∧ same_tables d (odb (Pipe.world s)).
Proof. intros Hp. by eapply persisting_db; [..|apply Delete_tame]. Qed.

(** *** The rows of the pipeline's own table *)
Definition other_rows (k : string * string) (d : Store.DB) : list Store.runRow :=
  filter (λ r, Store.run_key r ≠ k) (Store.pipeline_runs d).
Definition failed_row (k : string * string) (d : Store.DB) : Prop :=
  ∃ r, r ∈ Store.pipeline_runs d ∧ Store.run_key r = k ∧ Store.run_status r = "failed".
Lemma upsert_others {R K} `{EqDecision K} (key : R → K) new update (l : list R) :
  (∀ r, key (update r) = key r) →
  filter (λ r, key r ≠ key new) (Store.upsert key new update l) = filter (λ r, key r ≠ key new) l.
Proof.
  intros Hu. unfold Store.upsert. case_decide as Hin.
  - clear Hin. induction l as [|r l IH]; [done|]. rewrite fmap_cons, !filter_cons, IH.
    destruct (decide (key r = key new)) as [E|]; [|done]. by rewrite !decide_False by (rewrite ?Hu; tauto).
  - by rewrite filter_app, filter_cons, filter_nil, decide_False, app_nil_r by tauto.
Qed.
Lemma Exec_rows k f d :
  (∀ d, other_rows k (f d) = other_rows k d) → other_rows k (Store.Exec f d).2 = other_rows k d.
Proof. intros Hf. unfold Store.Exec. destruct (Store.faults d) as [|[] fs]; cbn; [apply Hf|done|]. exact (Hf (Store.set_faults fs d)). Qed.
Lemma Start_rows n st d : other_rows (n, st) (Store.StartPipelineStep n st d).2 = other_rows (n, st) d.
Proof. apply Exec_rows. intros d'. by apply (upsert_others Store.run_key (Store.mkRunRow n st "running" (Store.now d) None)). Qed.
Lemma Fail_rows n st d : other_rows (n, st) (Store.FailPipelineStep n st d).2 = other_rows (n, st) d.
Proof. apply Exec_rows. intros d'. by apply (upsert_others Store.run_key (Store.mkRunRow n st "failed" (Store.now d) (Some (Store.now d)))). Qed.
Lemma Fail_row n st d : Store.faults d = [] → failed_row (n, st) (Store.FailPipelineStep n st d).2.
Proof.
  intros Hf. unfold Store.FailPipelineStep, Store.Exec, failed_row. rewrite Hf. cbn. unfold Store.upsert. case_decide as Hin.
  - apply list_elem_of_fmap in Hin as (r & Hk & Hr).
    exists (Store.mkRunRow (Store.run_pipeline r) (Store.run_step r) "failed" (Store.run_started_at r) (Some (Store.now d))).
    split_and!; [|exact (eq_sym Hk)|done]. apply list_elem_of_fmap. exists r. split; [|done]. by rewrite decide_True.
  - eexists. split; [apply elem_of_app; right; by apply list_elem_of_singleton|done].
Qed.
(** What persisting does, exactly. *)
Lemma persisting_exact p (f : GoM Store.DB unit) (g : Persister (World P) → GoM (World P) unit) s :
  known (Pipe.p_Persist p) → g persisterOf = onDB f → tame f →
  Pipe.persisting p g s = (Ret tt, Pipe.mkPState (Pipe.Completed_ s)
    (set_odb (match Pipe.p_Persist p with None => odb (Pipe.world s) | Some _ => (f (odb (Pipe.world s))).2 end) (Pipe.world s))).
Proof.
  intros Hp Hg Hf. unfold Pipe.persisting. destruct Hp as [->| ->].
  { unfold mret, GoM_ret. by destruct s as [? []]. }
  unfold mbind, GoM_bind, Pipe.onWorld, gotry, golift. rewrite Hg. unfold onDB, golift. cbn.
  destruct (Hf (odb (Pipe.world s))) as [[[a E]|[e E]] _];
    destruct (f (odb (Pipe.world s))) as [o d]; cbn in E; by subst o.
Qed.
End persisting.

(** ** Operations that do not look at the store *)
Section blind.
Context {P : Type}.
Implicit Types w : World P.
Definition blind {A} (m : GoM (World P) A) : Prop := ∀ d w, m (set_odb d w) = ((m w).1, set_odb d (m w).2).
Lemma blind_ret {A} (a : A) : blind (mret a).
Proof. done. Qed.
Lemma blind_fail {A} e : blind (gofail e : GoM _ A).
Proof. done. Qed.
Lemma blind_call {A} (o : outcome A) : blind (gocall o).
Proof. done. Qed.
Lemma blind_bind {A B} (m : GoM (World P) A) (k : A → GoM (World P) B) : blind m → (∀ a, blind (k a)) → blind (m ≫= k).
Proof. intros Hm Hk d w. unfold mbind, GoM_bind. rewrite Hm. destruct (m w) as [[] w']; cbn; [apply Hk|done..]. Qed.
Lemma blind_get {A} (k : World P → GoM (World P) A) :
  (∀ d w, k (set_odb d w) = k w) → (∀ w, blind (k w)) → blind (goget ≫= k).
Proof. intros Hk Hb d w. unfold mbind, GoM_bind, goget. rewrite Hk. apply Hb. Qed.
Lemma blind_wrap {A} f (m : GoM (World P) A) : blind m → blind (gowrap f m).
Proof. intros Hm d w. unfold gowrap. rewrite Hm. by destruct (m w) as [[] w']. Qed.
Lemma blind_try {A} (m : GoM (World P) A) : blind m → blind (gotry m).
Proof. intros Hm d w. unfold gotry. rewrite Hm. by destruct (m w) as [[] w']. Qed.
Lemma blind_onCM {A} (m : GoM (ClusterManager P) A) : blind (onCM m).
Proof. intros d w. unfold onCM, golift. cbn. by destruct (m (cm w)). Qed.
Lemma blind_onPods {A} (m : GoM P A) : blind (onPods m).
Proof. intros d w. unfold onPods, golift. cbn. by destruct (m _). Qed.
Lemma blind_osCall `{OS} e f : (∀ d w, f (set_odb d w) = set_odb d (f w)) → blind (osCall e f).
Proof. intros Hf d w. unfold osCall. cbn. destruct (osFault _ e); [done|]. cbn. by rewrite <- Hf. Qed.
End blind.
Create HintDb blind_db.
#[export] Hint Resolve blind_ret blind_fail blind_call blind_onCM blind_onPods : blind_db.
Ltac blind_tac :=
  repeat match goal with
  | |- blind (match ?x with _ => _ end) => destruct x
  | |- blind (goget ≫= _) => apply blind_get; [intros ? ?; reflexivity|intros ?]
  | |- blind (_ ≫= _) => apply blind_bind; [|intros ?]
  | |- blind (gowrap _ _) => apply blind_wrap
  | |- blind (gotry _) => apply blind_try
  | |- blind (osCall _ _) => apply blind_osCall; reflexivity
  | |- blind _ => solve [auto with blind_db]
  end.

(** ** Failing steps and rollback *)
Section rollback.
Context {P : Type} {PM : PodManager P}.
Abbreviation Step := (Pipe.Step (World P)).
Implicit Types s : Pipe.PState (World P).

(** A failing step: the failure is recorded and the steps before it are rolled back. *)
Lemma Run_loop_fails p ctx i st rest s e w1 s1 :
  known (Pipe.p_Persist p) → Pipe.s_Name st ∉ Pipe.Completed_ s →
  Pipe.persisting p (λ ps, StartPipelineStep ps (Pipe.p_Name p) (Pipe.s_Name st)) s = (Ret tt, s1) →
  Pipe.executeStep ctx st (Pipe.world s1) = (Fail e, w1) →
  ∃ d, Pipe.Run_loop p ctx i (st :: rest) s =
    (_ ← Pipe.rollback p ctx i;
     gofail (Wrapf ("pipeline " +:+ Pipe.p_Name p +:+ " step " +:+ Pipe.s_Name st) e))
      (Pipe.mkPState (Pipe.Completed_ s) (set_odb d w1)) ∧ same_tables d (odb w1).
Proof.
  intros Hp Hn Hs He. cbn [Pipe.Run_loop]. rewrite decide_False by done.
  destruct (persisting_start p (Pipe.p_Name p) (Pipe.s_Name st) s Hp) as (d1 & E1 & _). rewrite E1 in Hs. injection Hs as <-.
  cbn [Pipe.world] in He.
  destruct (persisting_fail p (Pipe.p_Name p) (Pipe.s_Name st)
    (Pipe.mkPState (Pipe.Completed_ s) w1) Hp) as (d2 & E2 & Ht). exists d2. split; [|exact Ht].
  unfold mbind at 1, GoM_bind at 1. rewrite E1. unfold mbind at 1, GoM_bind at 1. unfold gotry, Pipe.onWorld, golift.
  cbn [Pipe.world Pipe.Completed_]. rewrite He. unfold mbind at 1, GoM_bind at 1. by rewrite E2.
Qed.
(** A step without retries that fails. *)
Lemma executeStep_fails_once ctx name (do : GoM (World P) unit) w e w' :
  do w = (Fail e, w') → Pipe.executeStep ctx (step name do) w = (Fail (Wrapf "after 1 attempts" e), w').
Proof.
  intros Hdo. unfold Pipe.executeStep, step. cbn [Pipe.s_Retry Pipe.s_Timeout Pipe.s_Do].
  change (Z.to_nat (0 + 1)) with 1%nat. cbn [Pipe.attempt_loop]. unfold mbind, GoM_bind, gotry. rewrite Hdo. done.
Qed.
(** Rolling back a step without an undo does nothing. *)
Lemma rollback_skip p ctx l s :
  Forall (λ st : Step, Pipe.s_Undo st = None) l → goforeach (Pipe.rollback_step p ctx) l s = (Ret tt, s).
Proof.
  induction 1 as [|st l Hst _ IH]; [done|].
  assert (Pipe.rollback_step p ctx st s = (Ret tt, s)) as E by (unfold Pipe.rollback_step; by rewrite Hst).
  cbn [goforeach]. unfold mbind, GoM_bind. by rewrite E.
Qed.
(** When the only step to be undone deletes the cluster's resources, that is what a failure does. *)
Lemma rollback_deletes p ctx i l1 l2 (st : Step) cl s :
  known (Pipe.p_Persist p) → reverse (take i (Pipe.p_Steps p)) = l1 ++ st :: l2 →
  Forall (λ st : Step, Pipe.s_Undo st = None) l1 → Forall (λ st : Step, Pipe.s_Undo st = None) l2 →
  Pipe.s_Undo st = Some (λ _, onPods (DeleteResources cl)) →
  let '(r, s') := Pipe.rollback p ctx i s in
  pods (Pipe.world s') = (DeleteResources cl (pods (Pipe.world s))).2 ∧
  hist (cm (Pipe.world s')) = hist (cm (Pipe.world s)) ∧ files (Pipe.world s') = files (Pipe.world s).
Proof.
  intros Hp Hrev H1 H2 Hu. unfold Pipe.rollback. rewrite Hrev, goforeach_app.
  unfold mbind, GoM_bind. rewrite rollback_skip by done. cbn [goforeach]. unfold mbind, GoM_bind.
  assert (Pipe.rollback_step p ctx st s =
    (_ ← Pipe.onWorld (gotry (onPods (DeleteResources cl)));
     _ ← gomodify (Pipe.unmarkCompleted (Pipe.s_Name st));
     Pipe.persisting p (λ ps, DeletePipeline ps (Pipe.p_Name p))) s) as ->
    by (unfold Pipe.rollback_step; by rewrite Hu).
  unfold mbind, GoM_bind, Pipe.onWorld, gotry, onPods, golift. fold (pods (Pipe.world s)).
  destruct (DeleteResources cl (pods (Pipe.world s))) as [o pd]. cbn [snd].
  assert (∀ w : World P, pods w = pd ∧ hist (cm w) = hist (cm (Pipe.world s)) ∧ files w = files (Pipe.world s) →
    let '(r, s') := match Pipe.persisting p (λ ps, DeletePipeline ps (Pipe.p_Name p))
                (Pipe.unmarkCompleted (Pipe.s_Name st) (Pipe.mkPState (Pipe.Completed_ s) w)) with
      | (Ret _, s') => goforeach (Pipe.rollback_step p ctx) l2 s'
      | (Fail e, s') => (Fail e, s')
      | (Panic p, s') => (Panic p, s')
      | (OutOfFuel, s') => (OutOfFuel, s') end in
    pods (Pipe.world s') = pd ∧ hist (cm (Pipe.world s')) = hist (cm (Pipe.world s)) ∧
    files (Pipe.world s') = files (Pipe.world s)) as Hrest.
  { intros w Hw. destruct (persisting_delete p (Pipe.p_Name p)
      (Pipe.unmarkCompleted (Pipe.s_Name st) (Pipe.mkPState (Pipe.Completed_ s) w)) Hp) as (d & -> & _).
    rewrite rollback_skip by done. exact Hw. }
  destruct o; [by apply Hrest|by apply Hrest|done|done].
Qed.
End rollback.

(** ** Starting a pipeline *)
Section start.
Context {P : Type}.
Lemma add_steps (p : Pipe.Pipeline (World P)) steps :
  Forall (λ st, 0 ≤ Pipe.s_Retry st) steps →
  foldl (λ p s, Pipe.Add s p) p steps = Pipe.mkPipeline (Pipe.p_Name p) (Pipe.p_Steps p ++ steps) (Pipe.p_Persist p).
Proof.
  intros Hs. revert p. induction Hs as [|st steps Hst _ IH]; intros p; [by rewrite app_nil_r; destruct p|].
  cbn [foldl]. rewrite IH. unfold Pipe.Add. cbn [Pipe.p_Name Pipe.p_Steps Pipe.p_Persist].
  rewrite decide_False by lia. by rewrite <- app_assoc.
Qed.
Lemma OpenStore_quiet d name :
  quiet d → ∃ d', Store.OpenStore d = (Ret tt, d') ∧ quiet d' ∧ comp name d' = comp name d ∧ same_tables d' d.
Proof.
  intros [Hf Hwf]. unfold Store.OpenStore, Store.migrate, gowrap, gotry, mbind, GoM_bind, Store.Exec, Store.Query.
  rewrite Hf. cbn. rewrite Hf. destruct (Store.hasHostname d); cbn; [by exists d|]. rewrite Hf. cbn.
  eexists. split; [done|]. split; [by split|done].
Qed.
End start.

(** ** Runs that leave something alone *)
Section keeping.
Context {P : Type}.
Context (I : World P → Prop) (HI : ∀ w d, I w → same_tables d (odb w) → I (set_odb d w)).
Lemma executeStep_pres ctx (st : Pipe.Step (World P)) : (∀ c, pres I (Pipe.s_Do st c)) → pres I (Pipe.executeStep ctx st).
Proof.
  intros Hd. unfold Pipe.executeStep. apply pres_bind; [|intros [?|]; [apply pres_fail|apply pres_ret]].
  set (c := if decide _ then _ else _). generalize (Hd c). generalize (None : option error) as le.
  induction (Z.to_nat _) as [|n IH]; intros le Hc; cbn [Pipe.attempt_loop]; pres_tac.
Qed.
Lemma rollback_pres p ctx i :
  known (Pipe.p_Persist p) → Forall (λ st, Pipe.s_Undo st = None) (Pipe.p_Steps p) →
  pres (λ s, I (Pipe.world s)) (Pipe.rollback p ctx i).
Proof.
  intros Hp Hu s Hs. unfold Pipe.rollback. rewrite rollback_skip; [done|]. by apply Forall_reverse, Forall_take.
Qed.
(** A run of steps each of which is marked already or keeps [I]. *)
Lemma Run_loop_pres p ctx i steps s :
  known (Pipe.p_Persist p) → Forall (λ st, Pipe.s_Undo st = None) (Pipe.p_Steps p) →
  Forall (λ st, Pipe.s_Name st ∈ Pipe.Completed_ s ∨ ∀ c, pres I (Pipe.s_Do st c)) steps →
  I (Pipe.world s) → I (Pipe.world (Pipe.Run_loop p ctx i steps s).2).
Proof.
  intros Hp Hu. revert i s. induction steps as [|st rest IH]; intros i s Hall Hs; [done|].
  apply Forall_cons in Hall as [Hst Hrest]. cbn [Pipe.Run_loop]. case_decide as Hin; [by apply IH|].
  destruct Hst as [|Hst]; [done|].
  destruct (persisting_start p (Pipe.p_Name p) (Pipe.s_Name st) s Hp) as (d1 & E1 & T1).
  unfold mbind at 1, GoM_bind at 1. rewrite E1. unfold mbind at 1, GoM_bind at 1, gotry, Pipe.onWorld, golift.
  cbn [Pipe.world Pipe.Completed_].
  pose proof (executeStep_pres ctx st Hst (set_odb d1 (Pipe.world s)) (HI _ _ Hs T1)) as Hw.
  destruct (Pipe.executeStep ctx st _) as [[[]|e|pn|] w1]; cbn [snd] in Hw |- *; [| |done|done].
  - unfold mbind at 1, GoM_bind at 1, gomodify.
    destruct (persisting_save p (Pipe.p_Name p) (Pipe.s_Name st)
      (Pipe.markCompleted (Pipe.s_Name st) (Pipe.mkPState (Pipe.Completed_ s) w1)) Hp) as (d2 & E2 & T2).
    unfold mbind at 1, GoM_bind at 1. rewrite E2. apply IH; [|by apply HI].
    eapply Forall_impl; [exact Hrest|]. cbn. intros x [?|?]; [left; set_solver|by right].
  - destruct (persisting_fail p (Pipe.p_Name p) (Pipe.s_Name st) (Pipe.mkPState (Pipe.Completed_ s) w1) Hp)
      as (d2 & E2 & T2). unfold mbind at 1, GoM_bind at 1. rewrite E2.
    apply (bind_inv (λ s, I (Pipe.world s))); [|intros; apply pres_fail].
    apply rollback_pres; [done|done|]. cbn. by apply HI.
Qed.
End keeping.

(** ** Which steps touch the store *)
Section store.
Context {P : Type} {PM : PodManager P} {os : OS}.
Lemma onPods_odb {A} (m : GoM P A) (Q : Store.DB → Prop) : pres (λ w : World P, Q (odb w)) (onPods m).
Proof. intros w Hw. unfold onPods, golift. by destruct (m _). Qed.
Lemma osCall_odb e f (Q : Store.DB → Prop) :
  (∀ w, odb (f w) = odb w) → pres (λ w : World P, Q (odb w)) (osCall e f).
Proof. intros Hf w Hw. unfold osCall. destruct (osFault _ e); cbn; [done|]. by rewrite Hf. Qed.
Lemma Remove_odb path (Q : Store.DB → Prop) : pres (λ w : World P, Q (odb w)) (Remove path).
Proof. by apply osCall_odb. Qed.
Hint Resolve onPods_odb Remove_odb : go_pres.
Lemma deleteConfig_odb cfg cl (Q : Store.DB → Prop) : pres (λ w : World P, Q (odb w)) (deleteConfig cfg cl).
Proof. unfold deleteConfig. pres_tac. Qed.
Lemma cleanupState_odb cfg cl (Q : Store.DB → Prop) : pres (λ w : World P, Q (odb w)) (cleanupState cfg cl).
Proof. unfold cleanupState. pres_tac. Qed.
Lemma keeps_of_odb name (st : Pipe.Step (World P)) :
  (∀ c (Q : Store.DB → Prop), pres (λ w, Q (odb w)) (Pipe.s_Do st c)) → keeps_records name st.
Proof.
  intros Hst c w Hq. pose proof (Hst c (λ d, d = odb w) w eq_refl) as E. cbn. by rewrite E.
Qed.

(** On a healthy store the statements succeed. *)
Lemma drop_err_quiet {A} (f : GoM Store.DB A) (w : World P) :
  (∀ d, quiet d → ∃ a d', f d = (Ret a, d') ∧ quiet d') → quiet (odb w) →
  ∃ d', drop_err (onDB f) w = (Ret tt, set_odb d' w) ∧ quiet d'.
Proof.
  intros Hf Hq. destruct (Hf _ Hq) as (a & d' & E & Hq'). exists d'. split; [|done].
  unfold drop_err, gotry, onDB, golift, mbind, GoM_bind. change (db_of w) with (odb w). by rewrite E.
Qed.
Lemma DeleteCluster_quiet cl d : quiet d → ∃ a d', Store.DeleteCluster cl d = (Ret a, d') ∧ quiet d'.
Proof.
  intros [Hf Hwf]. pose proof (run_op_wf (OpDeleteCluster cl) d Hwf) as Hw. cbn [run_op] in Hw.
  unfold Store.DeleteCluster, mbind, GoM_bind, Store.Exec in *. rewrite Hf in *. cbn in *. rewrite Hf in *. cbn in *.
  eexists _, _. split; [done|]. by split.
Qed.
Lemma LogOperation_quiet cl o det b d : quiet d → ∃ a d', Store.LogOperation cl o det b d = (Ret a, d') ∧ quiet d'.
Proof.
  intros [Hf Hwf]. pose proof (run_op_wf (OpLog cl o det b) d Hwf) as Hw. cbn [run_op] in Hw.
  unfold Store.LogOperation, Store.Exec in *. rewrite Hf in *. cbn in *. eexists _, _. split; [done|]. by split.
Qed.
Lemma forgetCluster_clears cfg cl :
  DBPath cfg ≠ "" → clears_records (deleteName cl) (step (P := P) "persist-db" (forgetCluster cfg cl (Some persisterOf))).
Proof.
  intros Hdb c w Hq. cbn [Pipe.s_Do step].
  assert (∃ d, forgetCluster cfg cl (Some persisterOf) w = (Ret tt, set_odb d w) ∧ quiet d ∧ comp (deleteName cl) d = ∅)
    as (d & -> & Hqd & Hc); [|split; [exact Hqd|intros _; exact Hc]].
  unfold forgetCluster. rewrite decide_False by done.
  destruct (OpenStore_quiet (odb w) (deleteName cl) Hq) as (d1 & E1 & Hq1 & _).
  unfold mbind at 1, GoM_bind at 1, onDB at 1, golift at 1. change (db_of w) with (odb w). rewrite E1.
  change (set_db d1 w) with (set_odb d1 w).
  destruct (drop_err_quiet (Store.DeleteCluster cl) (set_odb d1 w) (DeleteCluster_quiet cl) Hq1) as (d2 & E2 & Hq2).
  unfold mbind at 1, GoM_bind at 1. rewrite E2.
  destruct (drop_err_quiet (Store.LogOperation cl "delete" "removed all containers" true) (set_odb d2 (set_odb d1 w))
    (LogOperation_quiet _ _ _ _) Hq2) as (d3 & E3 & Hq3).
  unfold mbind at 1, GoM_bind at 1. rewrite E3.
  destruct (Delete_quiet d3 Hq3 (deleteName cl)) as (d4 & E4 & Hq4 & Hc4). exists d4.
  unfold drop_err, gotry, mbind, GoM_bind. cbn [DeletePipeline persisterOf]. unfold onDB, golift.
  change (db_of (set_odb d3 _)) with d3. rewrite E4. done.
Qed.
End store.

Module OpsTheorems.
Section theorems.
Context {P : Type} {PM : PodManager P} {EV : Env} {os : OS}.
Context (newNodeManager : RuntimeConfig → P → outcome P) (schedule : Mig.pool → list nat).
Implicit Types w : World P.

(** C34: a failed scale-out deletes the cluster.  If any step of a scale-out after the
    creation of the new containers fails, the run fails, and the rollback calls
    [DeleteResources] for the whole cluster on the backend as the failed step left it: the
    nodes the cluster had before go with the new ones. *)
Theorem failed_scale_deletes_cluster cfg shards nps cl persist ctx i st s s1 e w1 :
  known persist → (3 ≤ i)%nat →
  let p := Pipe.mkPipeline (scaleName cl) (scaleSteps schedule cfg shards nps cl persist) persist in
  Pipe.p_Steps p !! i = Some st → Pipe.s_Name st ∉ Pipe.Completed_ s →
  Pipe.persisting p (λ ps, StartPipelineStep ps (Pipe.p_Name p) (Pipe.s_Name st)) s = (Ret tt, s1) →
  Pipe.executeStep ctx st (Pipe.world s1) = (Fail e, w1) →
  let '(r, s') := Pipe.Run_loop p ctx i (drop i (Pipe.p_Steps p)) s in
  (∀ a, r ≠ Ret a) ∧ pods (Pipe.world s') = (DeleteResources cl (pods w1)).2.
Proof.
  intros Hp Hi p Hst Hn Hs He. rewrite (drop_S _ st) by done.
  destruct (Run_loop_fails p ctx i st (drop (S i) (Pipe.p_Steps p)) s e w1 s1 Hp Hn Hs He) as (d & -> & _).
  assert (∃ l1 l2, reverse (take i (Pipe.p_Steps p)) = l1 ++ scaleContainers shards nps cl :: l2 ∧
    Forall (λ st, Pipe.s_Undo st = None) l1 ∧ Forall (λ st, Pipe.s_Undo st = None) l2) as (l1 & l2 & Hrev & H1 & H2).
  { exists (reverse (take (i - 3) (drop 3 (Pipe.p_Steps p)))), (reverse (take 2 (Pipe.p_Steps p))).
    assert (take i (Pipe.p_Steps p) = take 2 (Pipe.p_Steps p) ++ [scaleContainers shards nps cl] ++ take (i - 3) (drop 3 (Pipe.p_Steps p))) as ->.
    { destruct i as [|[|[|i]]]; [lia..|]. by rewrite Nat.sub_succ, Nat.sub_succ, Nat.sub_succ, Nat.sub_0_r. }
    rewrite !reverse_app, reverse_singleton. split; [by rewrite <- app_assoc|]. split; [|by repeat constructor].
    apply Forall_reverse, Forall_take. by repeat constructor. }
  pose proof (rollback_deletes p ctx i l1 l2 (scaleContainers shards nps cl) cl
    (Pipe.mkPState (Pipe.Completed_ s) (set_odb d w1)) Hp Hrev H1 H2 eq_refl) as Hr.
  unfold mbind, GoM_bind. destruct (Pipe.rollback p ctx i _) as [[] s']; destruct Hr as (Hr & _); done.
Qed.

(** C24: a resumed creation undoes itself.  Let a create command have been cut off after
    it had started the containers, so that a healthy store has these two steps as completed, and
    let the backend of the new process know no pod yet.  Running the command again skips
    [validate], the only step that lists the cluster's pods: it finds no node of the cluster,
    fails, and its rollback deletes the containers, without having sent a single command to a
    server. *)
Theorem resumed_create_undoes_itself ctx cfg shards nps cl w p0 :
  newNodeManager cfg (pods w) = Ret p0 → GetNodes p0 = [] → DBPath cfg ≠ "" → quiet (odb w) →
  comp (createName cl) (odb w) = {["validate"; "create-containers"]} →
  let '(r, w') := CreateClusterAction newNodeManager ctx cfg shards nps cl w in
  (∀ a, r ≠ Ret a) ∧ pods w' = (DeleteResources cl p0).2 ∧ hist (cm w') = hist (cm w).
Proof.
  intros Hnew Hnodes Hdb Hq Hcomp.
  destruct (OpenStore_quiet (odb w) (createName cl) Hq) as (d & Hopen & Hqd & Hcd & _).
  unfold CreateClusterAction, startManager. unfold mbind at 1, GoM_bind at 1. rewrite Hnew.
  set (w1 := set_cm _ w). unfold openPersister. rewrite decide_False by done.
  unfold mbind at 1, GoM_bind at 1, mbind at 1, GoM_bind at 1, gotry at 1, onDB at 1, golift at 1.
  change (db_of w1) with (odb w). rewrite Hopen. cbn [mret GoM_ret].
  set (w2 := set_db d w1). unfold mret, GoM_ret. unfold gowrap, runPipeline. unfold mbind at 1, GoM_bind at 1.
  rewrite New_quiet by exact Hqd. change (db_of w2) with d. rewrite Hcd, Hcomp.
  unfold runSteps. rewrite add_steps by (by repeat constructor).
  cbn [Pipe.p_Name Pipe.p_Steps Pipe.p_Persist app].
  set (p := Pipe.mkPipeline _ _ _). unfold Pipe.Run. set (s0 := Pipe.mkPState _ w2).
  change (Pipe.p_Steps p) with (take 2 (Pipe.p_Steps p) ++ drop 2 (Pipe.p_Steps p)) at 1.
  rewrite Run_loop_skip_front.
  2:{ intros st Hst. cbn in Hst. rewrite !elem_of_cons in Hst. destruct Hst as [->|[->|Hst]]; [cbn; set_solver..|].
      by apply not_elem_of_nil in Hst. }
  change (drop 2 (Pipe.p_Steps p)) with (step "meet-nodes" (meetNodes cl) :: drop 3 (Pipe.p_Steps p)).
  change (0 + length (take 2 (Pipe.p_Steps p)))%nat with 2%nat.
  assert (known (Pipe.p_Persist p)) as Hp by (by right).
  destruct (persisting_start p (Pipe.p_Name p) "meet-nodes" s0 Hp) as (d1 & Hstart & _).
  destruct (Run_loop_fails p ctx 2 (step "meet-nodes" (meetNodes cl)) (drop 3 (Pipe.p_Steps p)) s0
    (Wrapf "after 1 attempts" (Errorf ("no node found for cluster " +:+ cl))) (set_odb d1 w2)
    (Pipe.mkPState (Pipe.Completed_ s0) (set_odb d1 w2))) as (d2 & -> & _); [done| |exact Hstart| |].
  { cbn. set_solver. }
  { assert (meetNodes cl (set_odb d1 w2) = (Fail (Errorf ("no node found for cluster " +:+ cl)), set_odb d1 w2)) as Hm.
    { unfold meetNodes, findClusterNode. unfold mbind at 1, GoM_bind at 1, goget.
      change (pods (set_odb d1 w2)) with p0. by rewrite Hnodes. }
    by apply (executeStep_fails_once ctx "meet-nodes" (meetNodes cl)). }
  pose proof (rollback_deletes p ctx 2 [] [step "validate" (validateCreate shards nps cl)] (createContainers shards nps cl) cl
    (Pipe.mkPState (Pipe.Completed_ s0) (set_odb d2 (set_odb d1 w2))) Hp eq_refl ltac:(constructor)
    ltac:(by repeat constructor) eq_refl) as Hr.
  unfold mbind, GoM_bind. destruct (Pipe.rollback p ctx 2 _) as [[] s'] eqn:E; cbn in Hr |- *;
    destruct Hr as (Hr1 & Hr2 & _); rewrite ?Hr1, ?Hr2; done.
Qed.

(** What the start of a command makes of the store: the same tables, and the steps to skip. *)
Lemma start_delete cfg cl w p0 d :
  newNodeManager cfg (pods w) = Ret p0 → DBPath cfg ≠ "" → Store.OpenStore (odb w) = (Ret tt, d) → quiet d →
  ∀ ctx, let w2 := set_odb d (set_cm (newManager cfg 0 p0 (cm w)) w) in
    let p := Pipe.mkPipeline (deleteName cl) (deleteSteps cfg cl (Some persisterOf)) (Some persisterOf) in
    let '(r, s) := Pipe.Run p ctx (Pipe.mkPState (comp (deleteName cl) d) w2) in
    DeleteAllContainers newNodeManager ctx cfg cl w =
      (match r with Fail e => Fail (Wrapf ("delete cluster " +:+ cl) e) | _ => r end, Pipe.world s).
Proof.
  intros Hnew Hdb Hopen Hq ctx w2 p. unfold DeleteAllContainers, startManager. unfold mbind at 1, GoM_bind at 1.
  rewrite Hnew. unfold openPersister. rewrite decide_False by done.
  unfold mbind at 1, GoM_bind at 1, mbind at 1, GoM_bind at 1, gotry at 1, onDB at 1, golift at 1.
  change (db_of (set_cm _ w)) with (odb w). rewrite Hopen. unfold mret, GoM_ret. unfold gowrap, runPipeline.
  unfold mbind at 1, GoM_bind at 1. fold w2. change (set_db d _) with w2. rewrite New_quiet by exact Hq.
  change (db_of w2) with d. unfold runSteps. rewrite add_steps by (by repeat constructor).
  cbn [Pipe.p_Name Pipe.p_Steps Pipe.p_Persist app]. fold p. destruct (Pipe.Run p ctx _) as [[] s]; done.
Qed.

Lemma same_tables_trans d1 d2 d3 : same_tables d1 d2 → same_tables d2 d3 → same_tables d1 d3.
Proof. unfold same_tables. intuition congruence. Qed.
(** With the step marked, a delete command leaves the tables alone. *)
Lemma second_delete cfg cl w2 ctx :
  DBPath cfg ≠ "" → quiet (odb w2) → "persist-db" ∈ comp (deleteName cl) (odb w2) →
  same_tables (odb (DeleteAllContainers newNodeManager ctx cfg cl w2).2) (odb w2).
Proof.
  intros Hdb Hq Hin. destruct (newNodeManager cfg (pods w2)) as [p0|e|m|] eqn:Hnew.
  2-4: (unfold DeleteAllContainers, startManager, mbind, GoM_bind; by rewrite Hnew).
  destruct (OpenStore_quiet (odb w2) (deleteName cl) Hq) as (d & Hopen & Hqd & Hcd & Ht).
  pose proof (start_delete cfg cl w2 p0 d Hnew Hdb Hopen Hqd ctx) as Hstart. cbv zeta in Hstart.
  set (p := Pipe.mkPipeline _ _ _) in Hstart. set (s0 := Pipe.mkPState _ _) in Hstart.
  pose proof (Run_loop_pres (λ w, same_tables (odb w) (odb w2)) ltac:(intros; by eapply same_tables_trans)
    p ctx 0 (Pipe.p_Steps p) s0 ltac:(by right) ltac:(by repeat constructor)) as Hkeep.
  fold (Pipe.Run p ctx) in Hkeep.
  destruct (Pipe.Run p ctx s0) as [r s1] eqn:Er. rewrite Hstart. cbn [snd].
  apply Hkeep; [|exact Ht].
  repeat (apply Forall_cons; split); [right|right|left|right|constructor].
  - intros c. apply (deleteConfig_odb cfg cl (λ d, same_tables d (odb w2))).
  - intros c. apply (onPods_odb _ (λ d, same_tables d (odb w2))).
  - unfold s0. cbn. by rewrite Hcd.
  - intros c. apply (cleanupState_odb cfg cl (λ d, same_tables d (odb w2))).
Qed.

(** Also: a cluster that is deleted twice stays in the store.  After a delete command that
    succeeded on a healthy store, the pipeline's records name the steps persist-db and
    cleanup-state as completed.  From any healthy store with such records, in particular when
    a cluster of that name has been created again, the next delete command leaves the tables of
    clusters and containers as they are. *)
Theorem second_delete_keeps_rows ctx cfg cl w w1 :
  DBPath cfg ≠ "" → quiet (odb w) → comp (deleteName cl) (odb w) = ∅ →
  DeleteAllContainers newNodeManager ctx cfg cl w = (Ret tt, w1) →
  quiet (odb w1) ∧ comp (deleteName cl) (odb w1) = {["persist-db"; "cleanup-state"]} ∧
  ∀ w2, quiet (odb w2) → comp (deleteName cl) (odb w2) = comp (deleteName cl) (odb w1) →
    same_tables (odb (DeleteAllContainers newNodeManager ctx cfg cl w2).2) (odb w2).
Proof.
  intros Hdb Hq Hcomp Hrun.
  destruct (newNodeManager cfg (pods w)) as [p0|e|m|] eqn:Hnew.
  2-4: (unfold DeleteAllContainers, startManager, mbind, GoM_bind in Hrun; by rewrite Hnew in Hrun).
  destruct (OpenStore_quiet (odb w) (deleteName cl) Hq) as (d & Hopen & Hqd & Hcd & _).
  pose proof (start_delete cfg cl w p0 d Hnew Hdb Hopen Hqd ctx) as Hstart. cbv zeta in Hstart.
  set (p := Pipe.mkPipeline _ _ _) in Hstart. rewrite Hcd, Hcomp in Hstart.
  destruct (Pipe.Run p ctx _) as [r s1] eqn:Er. rewrite Hrun in Hstart.
  assert (r = Ret tt ∧ Pipe.world s1 = w1) as [-> <-] by (destruct r; naive_solver).
  destruct (stale_records (deleteName cl) p ctx (take 2 (Pipe.p_Steps p))
    (step "persist-db" (forgetCluster cfg cl (Some persisterOf))) [step "cleanup-state" (cleanupState cfg cl)]
    (set_odb d (set_cm (newManager cfg 0 p0 (cm w)) w)) s1 eq_refl eq_refl eq_refl) as [Hq1 Hc1]; [| | |exact Hqd|exact Er|].
  { apply (bool_decide_unpack _). vm_compute. done. }
  { repeat (apply Forall_cons; split); [..|constructor]; apply keeps_of_odb; intros c Q; cbn.
    - apply deleteConfig_odb.
    - apply onPods_odb.
    - apply cleanupState_odb. }
  { by apply forgetCluster_clears. }
  change (comp (deleteName cl) (odb (Pipe.world s1)) =
    list_to_set ["persist-db"; "cleanup-state"]) in Hc1.
  split_and!; [exact Hq1|rewrite Hc1; set_solver|].
  intros w2 Hq2 Hc2. apply (second_delete cfg cl w2 ctx Hdb Hq2). rewrite Hc2, Hc1. set_solver.
Qed.

Lemma Query_tame {A} (f : Store.DB → A) d : ∃ o d', Store.Query f d = (o, d') ∧
  same_tables d' d ∧ Store.pipeline_runs d' = Store.pipeline_runs d ∧ (o = Ret (f d) ∨ ∃ e, o = Fail e).
Proof. unfold Store.Query. destruct (Store.faults d) as [|[] fs]; eexists _, _; (split; [done|split_and!; [done|done|eauto]]). Qed.
Lemma Exec_any f d : (∀ d, same_tables (f d) d ∧ Store.pipeline_runs (f d) = Store.pipeline_runs d) →
  ∃ o d', Store.Exec f d = (o, d') ∧ same_tables d' d ∧ Store.pipeline_runs d' = Store.pipeline_runs d ∧
    (o = Ret tt ∨ ∃ e, o = Fail e).
Proof.
  intros Hf. unfold Store.Exec. destruct (Store.faults d) as [|[] fs]; eexists _, _; (split; [done|]).
  - destruct (Hf d) as [??]. split_and!; [done|done|by left].
  - split_and!; [done|done|by eauto].
  - destruct (Hf (Store.set_faults fs d)) as [??]. split_and!; [done|done|by left].
Qed.
Lemma OpenStore_any d : ∃ o d', Store.OpenStore d = (o, d') ∧ same_tables d' d ∧
  Store.pipeline_runs d' = Store.pipeline_runs d ∧ (o = Ret tt ∨ ∃ e, o = Fail e).
Proof.
  unfold Store.OpenStore, Store.migrate, gowrap, gotry, mbind, GoM_bind, mret, GoM_ret.
  destruct (Exec_any id d) as (o1 & d1 & -> & T1 & R1 & [->|[e ->]]); [done|..|by eauto 10].
  destruct (Query_tame Store.hasHostname d1) as (o2 & d2 & -> & T2 & R2 & [->|[e ->]]).
  2:{ eexists _, _. split; [done|]. split_and!; [by eapply same_tables_trans|congruence|by left]. }
  destruct (Store.hasHostname d1).
  { eexists _, _. split; [done|]. split_and!; [by eapply same_tables_trans|congruence|by left]. }
  destruct (Exec_any (Store.set_hostname true) d2) as (o3 & d3 & -> & T3 & R3 & [->|[e ->]]); [done|..];
    (eexists _, _; split; [done|]; split_and!; [eauto using same_tables_trans|congruence|by eauto]).
Qed.
Lemma openPersister_spec cfg w : ∃ ps d, openPersister cfg w = (Ret ps, set_odb d w) ∧ known ps ∧
  same_tables d (odb w) ∧ Store.pipeline_runs d = Store.pipeline_runs (odb w) ∧
  (DBPath cfg = "" → ps = None ∧ d = odb w) ∧ (DBPath cfg ≠ "" → quiet (odb w) → ps = Some persisterOf ∧ quiet d).
Proof.
  unfold openPersister. case_decide as Hdb.
  { exists None, (odb w). split; [by destruct w|]. split_and!; [by left|done..]. }
  unfold mbind, GoM_bind, gotry, onDB, golift. change (db_of w) with (odb w).
  destruct (OpenStore_any (odb w)) as (o & d & Hopen & Ht & Hr & Ho).
  assert (quiet (odb w) → o = Ret tt ∧ quiet d) as Hquiet.
  { intros Hq. destruct (OpenStore_quiet (odb w) "" Hq) as (d' & Hd' & Hq' & _). rewrite Hopen in Hd'. by injection Hd' as -> ->. }
  rewrite Hopen. destruct Ho as [->|[e ->]]; eexists _, d; (split; [done|]; split_and!; [(by right) || (by left)|done..|]);
    intros _ Hq; destruct (Hquiet Hq) as [??]; done.
Qed.
Lemma New_spec name ps w : known ps → ∃ cs d, Pipe.New name ps w =
  (Ret (Pipe.mkPipeline name [] ps, cs), set_odb d w) ∧ cs ⊆ comp name (odb w) ∧ same_tables d (odb w) ∧
  Store.pipeline_runs d = Store.pipeline_runs (odb w) ∧ (ps = None → d = odb w) ∧ (quiet (odb w) → quiet d).
Proof.
  intros [->| ->]; unfold Pipe.New.
  { exists ∅, (odb w). split; [by destruct w|]. split; [set_solver|done]. }
  unfold mbind, GoM_bind, gotry. cbn [LoadPipelineSteps persisterOf]. unfold onDB, golift, Store.LoadPipelineSteps.
  change (db_of w) with (odb w).
  destruct (Query_tame (λ d, Store.run_step <$> filter (λ r, Store.run_pipeline r = name ∧ Store.run_status r = "completed")
    (Store.pipeline_runs d)) (odb w)) as (o & d & Hload & Ht & Hr & Ho).
  assert (quiet (odb w) → quiet d) as Hquiet.
  { intros Hq. destruct (Load_quiet (odb w) Hq name) as (l & Hl & _). unfold Store.LoadPipelineSteps in Hl.
    rewrite Hload in Hl. by injection Hl as _ ->. }
  rewrite Hload. destruct Ho as [->|[e ->]]; eexists _, d; (split; [done|]; split; [|done]); [done|set_solver].
Qed.
Lemma validateCreate_blind shards nps cl : blind (validateCreate (P := P) shards nps cl).
Proof. unfold validateCreate. blind_tac. Qed.
(** Validation rejects bad arguments, a listing that fails, and a cluster that has pods. *)
Definition badArgs (shards nps : Z) (cl : string) : Prop := shards ≤ 0 ∨ nps < 2 ∨ cl = "".
Definition rejected (shards nps : Z) (cl : string) (p0 : P) : Prop :=
  badArgs shards nps cl ∨ (∃ e p1, ListPodsByCluster cl p0 = (Fail e, p1)) ∨
  ∃ p1, ListPodsByCluster cl p0 = (Ret tt, p1) ∧ HasCluster p1 cl = true.
#[local] Instance badArgs_dec shards nps cl : Decision (badArgs shards nps cl).
Proof. unfold badArgs. apply _. Defined.
(** The backend after validation: asked for the cluster's pods, if the arguments are good. *)
Definition listed (shards nps : Z) (cl : string) (p0 : P) : P :=
  if decide (badArgs shards nps cl) then p0 else (ListPodsByCluster cl p0).2.
Lemma validate_rejects shards nps cl w :
  rejected shards nps cl (pods w) →
  ∃ e, validateCreate shards nps cl w = (Fail e, set_cm (set_pods (listed shards nps cl (pods w)) (cm w)) w).
Proof.
  intros Hr. unfold listed. case_decide as Hbad.
  { assert (set_cm (set_pods (pods w) (cm w)) w = w) as -> by (by destruct w as [[]]).
    unfold validateCreate. repeat case_decide; eauto. exfalso. unfold badArgs in Hbad. naive_solver lia. }
  unfold badArgs in Hbad. unfold validateCreate.
  rewrite !decide_False by naive_solver. unfold mbind, GoM_bind, gowrap, onPods, golift, goget. fold (pods w).
  destruct Hr as [|[(e & p1 & ->)|(p1 & -> & Hh)]]; [tauto|by eauto|]. cbn. rewrite Hh. by eauto.
Qed.

Lemma create_rejected ctx cfg shards nps cl w p0 :
  newNodeManager cfg (pods w) = Ret p0 → rejected shards nps cl p0 → "validate" ∉ comp (createName cl) (odb w) →
  let '(r, w') := CreateClusterAction newNodeManager ctx cfg shards nps cl w in
  (∃ e, r = Fail e) ∧ pods w' = listed shards nps cl p0 ∧ hist (cm w') = hist (cm w) ∧ files w' = files w ∧
  dirs w' = dirs w ∧ osHist w' = osHist w ∧ same_tables (odb w') (odb w) ∧
  other_rows (createName cl, "validate") (odb w') = other_rows (createName cl, "validate") (odb w) ∧
  (DBPath cfg = "" → odb w' = odb w) ∧
  (DBPath cfg ≠ "" → quiet (odb w) → failed_row (createName cl, "validate") (odb w')).
Proof.
  intros Hnew Hrej Hval. unfold CreateClusterAction, startManager. unfold mbind at 1, GoM_bind at 1. rewrite Hnew.
  set (w1 := set_cm _ w).
  destruct (openPersister_spec cfg w1) as (ps & d & Hps & Hknown & Ht & Hr & Hnone & Hsome). unfold mbind at 1, GoM_bind at 1. rewrite Hps.
  unfold gowrap, runPipeline. unfold mbind at 1, GoM_bind at 1.
  destruct (New_spec (createName cl) ps (set_odb d w1) Hknown) as (cs & d' & Hnw & Hcs & Ht' & Hr' & Hnone' & Hq'). rewrite Hnw.
  unfold runSteps. rewrite add_steps by (by repeat constructor). cbn [Pipe.p_Name Pipe.p_Steps Pipe.p_Persist app].
  set (p := Pipe.mkPipeline _ _ _). set (s0 := Pipe.mkPState cs _). unfold Pipe.Run.
  change (Pipe.p_Steps p) with (step "validate" (validateCreate shards nps cl) :: drop 1 (Pipe.p_Steps p)).
  cbn [Pipe.Run_loop Pipe.s_Name step]. rewrite decide_False.
  2:{ intros Hin. cbn in Hin. apply Hcs in Hin. unfold comp in Hin, Hval. cbn in Hin. rewrite Hr in Hin. by apply Hval. }
  unfold mbind at 1, GoM_bind at 1.
  rewrite (persisting_exact p (Store.StartPipelineStep (Pipe.p_Name p) "validate")) by (done || apply Start_tame).
  unfold mbind at 1, GoM_bind at 1, gotry, Pipe.onWorld, golift. cbn [Pipe.world Pipe.Completed_ s0].
  set (d1 := match Pipe.p_Persist p with None => _ | Some _ => _ end).
  destruct (validate_rejects shards nps cl w1 Hrej) as [e He].
  assert (validateCreate shards nps cl (set_odb d1 (set_odb d' (set_odb d w1))) =
    (Fail e, set_odb d1 (set_cm (set_pods (listed shards nps cl p0) (cm w1)) w1))) as Hv.
  { change (set_odb d1 (set_odb d' (set_odb d w1))) with (set_odb d1 w1). by rewrite validateCreate_blind, He. }
  rewrite (executeStep_fails_once ctx "validate" _ _ _ _ Hv). unfold mbind at 1, GoM_bind at 1.
  rewrite (persisting_exact p (Store.FailPipelineStep (Pipe.p_Name p) "validate")) by (done || apply Fail_tame).
  unfold mbind, GoM_bind, Pipe.rollback. rewrite take_0. cbn [goforeach reverse rev_append mret GoM_ret Pipe.world Pipe.Completed_].
  unfold reverse. cbn. split_and!; [eauto|done..| | | |].
  - subst d1. cbn in Ht', Ht |- *. destruct ps as [q|]; cbn; [|eauto using same_tables_trans].
    eapply same_tables_trans; [apply Fail_tame|]. eapply same_tables_trans; [apply Start_tame|]. eauto using same_tables_trans.
  - subst d1. cbn in Hr' |- *. unfold other_rows in *. destruct ps as [q|]; cbn.
    + change (other_rows (createName cl, "validate") (Store.FailPipelineStep (createName cl) "validate"
        (Store.StartPipelineStep (createName cl) "validate" d').2).2 = other_rows (createName cl, "validate") (odb w)).
      rewrite Fail_rows, Start_rows. unfold other_rows. by rewrite Hr', Hr.
    + by rewrite Hr', Hr.
  - intros Hdb. destruct (Hnone Hdb) as [-> ->]. subst d1. cbn. by rewrite Hnone'.
  - intros Hdb Hq. destruct (Hsome Hdb Hq) as [-> Hqd]. subst d1. cbn. apply Fail_row.
    destruct (Start_quiet d' (Hq' Hqd) (createName cl) "validate") as (d2 & E2 & [Hf2 _] & _). by rewrite E2.
Qed.

(** C33: a rejected create command.  If the shard count is not positive, there are fewer than two
    nodes per shard, the name is empty, the pods of the cluster cannot be listed or the cluster
    has pods already, and no earlier run of that name has left the validation marked as done,
    the command fails.  All it has asked of the backend is the list of pods (with bad arguments
    not even that), no server has been sent anything, and no file and no row of the tables of
    clusters, containers and operations has changed.  In the table of pipeline runs only the row
    of this run's validation may have changed; a healthy store has it as failed. *)
Theorem rejected_create_changes_nothing ctx cfg shards nps cl w p0 :
  newNodeManager cfg (pods w) = Ret p0 → rejected shards nps cl p0 → "validate" ∉ comp (createName cl) (odb w) →
  let '(r, w') := CreateClusterAction newNodeManager ctx cfg shards nps cl w in
  (∃ e, r = Fail e) ∧ pods w' = listed shards nps cl p0 ∧ hist (cm w') = hist (cm w) ∧ files w' = files w ∧
  dirs w' = dirs w ∧ osHist w' = osHist w ∧ same_tables (odb w') (odb w) ∧
  other_rows (createName cl, "validate") (odb w') = other_rows (createName cl, "validate") (odb w) ∧
  (DBPath cfg = "" → odb w' = odb w) ∧
  (DBPath cfg ≠ "" → quiet (odb w) → failed_row (createName cl, "validate") (odb w')).
Proof. apply create_rejected. Qed.
End theorems.
End OpsTheorems.

(** The commands on the two pods of the fixtures, with files that never fail. *)
Module OpsWitness.
Import Fixtures.
#[local] Instance calm_os : OS := λ _ _, None.
#[local] Existing Instance down_env.
Definition fresh_pods (cfg : RuntimeConfig) (p : list RuntimeNode) : outcome (list RuntimeNode) := Ret [].
Definition no_schedule (s : Mig.pool) : list nat := [].
Definition cfg1 (db : string) : RuntimeConfig :=
  mkRuntimeConfig "/src" "/conf" "/c" "/data" "/d" "/run" "/run/c.yaml" "podman" db "" "redis" 6379 None None false.
Definition world_of (ps : list RuntimeNode) (d : Store.DB) : World (list RuntimeNode) :=
  mkWorld (NewClusterManager 1 ps) d ∅ ∅ [].

(** The servers are down when the new nodes are to be met: both old pods are gone afterwards. *)
Definition scale_state : Pipe.PState (World (list RuntimeNode)) :=
  Pipe.mkPState ∅ (world_of [pod1; pod2] (Store.empty_db "t0")).
Definition meet_step : Pipe.Step (World (list RuntimeNode)) := step "meet-nodes" (meetNew "cl").
Definition meet_failed := Pipe.executeStep Background meet_step (Pipe.world scale_state).
Lemma failed_scale_deletes_cluster_witness :
  let p := Pipe.mkPipeline (scaleName "cl") (scaleSteps no_schedule (cfg1 "") 1 1 "cl" None) None in
  pods (Pipe.world (Pipe.Run_loop p Background 3 (drop 3 (Pipe.p_Steps p)) scale_state).2) = [].
Proof.
  intros p.
  pose proof (OpsTheorems.failed_scale_deletes_cluster no_schedule (cfg1 "") 1 1 "cl" None Background 3 meet_step
    scale_state scale_state (match meet_failed.1 with Fail e => e | _ => Errorf "" end) meet_failed.2
    ltac:(by left) ltac:(lia) eq_refl ltac:(apply not_elem_of_empty) eq_refl ltac:(vm_compute; reflexivity)) as Hd.
  cbv zeta in Hd. fold p in Hd. destruct (Pipe.Run_loop p Background 3 _ scale_state) as [r s'].
  destruct Hd as [_ Hd]. cbn [snd]. rewrite Hd. vm_compute. reflexivity.
Defined.

(** A creation that was cut off after the second step. *)
Definition cut_off : Store.DB :=
  Store.mkDB [] [] [] [Store.mkRunRow (createName "cl") "validate" "completed" "t0" None;
                       Store.mkRunRow (createName "cl") "create-containers" "completed" "t0" None] true "t1" [].
Lemma cut_off_quiet : quiet cut_off.
Proof. split; [done|]. split_and!; apply (bool_decide_unpack _); vm_compute; done. Qed.
Lemma resumed_create_undoes_itself_witness :
  let '(r, w') := CreateClusterAction fresh_pods Background (cfg1 "/db") 2 2 "cl" (world_of [pod1] cut_off) in
  (∀ a, r ≠ Ret a) ∧ pods w' = [] ∧ hist (cm w') = [].
Proof.
  pose proof (OpsTheorems.resumed_create_undoes_itself fresh_pods Background (cfg1 "/db") 2 2 "cl" (world_of [pod1] cut_off) []
    eq_refl eq_refl ltac:(discriminate) cut_off_quiet ltac:(vm_compute; reflexivity)) as Hr.
  destruct (CreateClusterAction _ _ _ _ _ _ _) as [r w']. exact Hr.
Defined.

Definition deleted : World (list RuntimeNode) :=
  (DeleteAllContainers fresh_pods Background (cfg1 "/db") "cl" (world_of [pod1] (Store.empty_db "t0"))).2.
Lemma second_delete_keeps_rows_witness :
  quiet (odb deleted) ∧ comp (deleteName "cl") (odb deleted) = {["persist-db"; "cleanup-state"]}.
Proof.
  destruct (OpsTheorems.second_delete_keeps_rows fresh_pods Background (cfg1 "/db") "cl"
    (world_of [pod1] (Store.empty_db "t0")) deleted) as (H1 & H2 & _);
    [discriminate|split; [done|split_and!; constructor]|reflexivity|vm_compute; reflexivity|]. exact (conj H1 H2).
Defined.

(** The cluster has a pod already. *)
Definition known_pods (cfg : RuntimeConfig) (p : list RuntimeNode) : outcome (list RuntimeNode) := Ret p.
Lemma rejected_create_changes_nothing_witness :
  failed_row (createName "cl", "validate")
    (odb (CreateClusterAction known_pods Background (cfg1 "/db") 2 2 "cl" (world_of [pod1] (Store.empty_db "t0"))).2).
Proof.
  pose proof (OpsTheorems.rejected_create_changes_nothing known_pods Background (cfg1 "/db") 2 2 "cl"
    (world_of [pod1] (Store.empty_db "t0")) [pod1] eq_refl) as Hr.
  destruct (CreateClusterAction _ _ _ _ _ _ _) as [r w']. cbn [snd].
  destruct Hr as (_ & _ & _ & _ & _ & _ & _ & _ & _ & Hrow).
  - right. right. exists [pod1]. split; vm_compute; reflexivity.
  - apply (bool_decide_unpack _). vm_compute. exact I.
  - apply Hrow; [discriminate|]. split; [reflexivity|]. split_and!; constructor.
Defined.
End OpsWitness.
