(* ===== verification/OpsEquiv.v ===== *)
(** * Creating a cluster: the command and [Bootstrap]

    The repository has two ways to create a cluster: the pipeline of the create command and
    [ClusterManager.Bootstrap].  The steps of the pipeline between validation and persistence,
    executed the way the pipeline executes them, leave the manager, and with it the containers
    and the servers, in the state [Bootstrap] leaves them in, and fail exactly when it fails,
    up to one difference: the pipeline tries to create the containers a second time.  The
    second half follows a whole create command that succeeds, from the start of the process to
    the rows it leaves in the store. *)
From S2P Require Import Prelude GoStrings Data Config Redis Manager Plan Migration.
From S2P Require Import Pipeline Store StoreProps PipelineStore Ops OpsProps Fixtures.
Import Ops.

(** Two results that differ in the text of an error at most. *)
Definition agree {A B} (r1 : outcome A) (r2 : outcome B) : Prop :=
  match r1, r2 with
  | Ret _, Ret _ | Fail _, Fail _ | Panic _, Panic _ | OutOfFuel, OutOfFuel => True
  | _, _ => False
  end.

Section equiv.
Context {P : Type} {PM : PodManager P} {EV : Env} {os : OS}.
Implicit Types (w : World P) (c : ClusterManager P).

(** [m], on the world, does to the manager what [b] does, and nothing else. *)
Definition simulates {A B} (m : GoM (World P) A) (b : GoM (ClusterManager P) B) : Prop :=
  ∀ w, agree (m w).1 (b (cm w)).1 ∧ (m w).2 = set_cm (b (cm w)).2 w.
Lemma set_cm_cm w : set_cm (cm w) w = w.
Proof. by destruct w. Qed.
Lemma set_cm_set_cm c c' w : set_cm c (set_cm c' w) = set_cm c w.
Proof. done. Qed.
Lemma agree_refl {A} (r : outcome A) : agree r r.
Proof. by destruct r. Qed.
Lemma sim_onCM {A} (b : GoM (ClusterManager P) A) : simulates (onCM b) b.
Proof. intros w. unfold onCM, golift. destruct (b (cm w)) as [r c]. split; [apply agree_refl|done]. Qed.
Lemma sim_wrap {A B} (m : GoM (World P) A) (b : GoM (ClusterManager P) B) f : simulates m b → simulates m (gowrap f b).
Proof. intros Hs w. specialize (Hs w). unfold gowrap. destruct (b (cm w)) as [[] c]; done. Qed.
Lemma sim_seq {B} (m1 m2 : GoM (World P) unit) (b1 : GoM (ClusterManager P) B) (b2 : B → GoM (ClusterManager P) unit) :
  simulates m1 b1 → (∀ x, simulates m2 (b2 x)) → simulates (_ ← m1; m2) (x ← b1; b2 x).
Proof.
  intros H1 H2 w. destruct (H1 w) as [Ha Hw]. unfold mbind, GoM_bind.
  destruct (m1 w) as [r w1], (b1 (cm w)) as [r' c1]. cbn in Ha, Hw. subst w1.
  destruct r, r'; try done. destruct (H2 a0 (set_cm c1 w)) as [Ha2 Hw2]. split; [exact Ha2|exact Hw2].
Qed.

(** The pipeline looks for a node of the cluster as the manager does. *)
Lemma sim_with_node cl e (k : RuntimeNode → GoM (World P) unit) (b : RuntimeNode → GoM (ClusterManager P) unit) :
  (∀ node, simulates (k node) (b node)) →
  simulates (w ← goget; match findClusterNode w cl with None => gofail e | Some node => k node end)
            (node ← CM.findFirstClusterNode cl; b node).
Proof.
  intros Hk w. unfold mbind, GoM_bind, goget, CM.findFirstClusterNode, findClusterNode, gofail.
  change (GetNodes (pods w)) with (CM.podNodes (cm w)).
  case_decide as Hnil; [rewrite Hnil; cbn; by rewrite set_cm_cm|].
  destruct (list_find _ _) as [[i node]|]; cbn; [apply Hk|by rewrite set_cm_cm].
Qed.
Lemma sim_meet cl :
  simulates (meetNodes cl) (cli ← CM.connectToClusterNode cl; gowrap (λ err, Errorf ("meet nodes fail " +:+ Error err)) (CM.MeetNodes cli cl)).
Proof.
  intros w. pose proof (sim_with_node cl (Errorf ("no node found for cluster " +:+ cl))
    (λ node, onCM (CM.MeetNodes (ClientConnAddr node) cl))
    (λ node, gowrap (λ err, Errorf ("meet nodes fail " +:+ Error err)) (CM.MeetNodes (ClientConnAddr node) cl))
    (λ node, sim_wrap _ _ _ (sim_onCM _)) w) as Hs.
  unfold CM.connectToClusterNode. unfold mbind, GoM_bind in *.
  destruct (CM.findFirstClusterNode cl (cm w)) as [[node| | |] c]; exact Hs.
Qed.

(** Executing a step that is tried once. *)
Lemma sim_step {B} ctx name (do : GoM (World P) unit) (b : GoM (ClusterManager P) B) :
  simulates do b → simulates (Pipe.executeStep ctx (step name do)) b.
Proof.
  intros Hs w. specialize (Hs w). unfold Pipe.executeStep, step. cbn [Pipe.s_Retry Pipe.s_Timeout Pipe.s_Do].
  change (Z.to_nat (0 + 1)) with 1%nat. cbn [Pipe.attempt_loop]. unfold mbind, GoM_bind, gotry.
  destruct (do w) as [[[]| | |] w1]; exact Hs.
Qed.
(** The manager from which the attempt that counts starts: if the first one fails, the second
    one goes on from what it left. *)
Definition lastAttempt (b : GoM (ClusterManager P) unit) c : ClusterManager P :=
  match b c with (Fail _, c1) => c1 | _ => c end.
Lemma sim_retry ctx name undo (b : GoM (ClusterManager P) unit) :
  simulates (Pipe.executeStep ctx (Pipe.mkStep name (λ _, onCM b) undo 1 0)) (λ c, b (lastAttempt b c)).
Proof.
  intros w. unfold Pipe.executeStep, lastAttempt. cbn [Pipe.s_Retry Pipe.s_Timeout Pipe.s_Do].
  change (Z.to_nat (1 + 1)) with 2%nat. cbn [Pipe.attempt_loop]. unfold mbind, GoM_bind, gotry.
  pose proof (sim_onCM b w) as H1. destruct (b (cm w)) as [r c1] eqn:E1. destruct (onCM b w) as [r1 w1].
  cbn in H1. destruct H1 as [Ha ->]. destruct r1, r; try done; rewrite ?E1; [done| |done..].
  pose proof (sim_onCM b (set_cm c1 w)) as H2. change (cm (set_cm c1 w)) with c1 in H2.
  destruct (b c1) as [r2 c2], (onCM b (set_cm c1 w)) as [[[]| | |] w2]; exact H2.
Qed.

(** The steps between validation and persistence, in order. *)
Definition clusterSteps (cfg : RuntimeConfig) shards nps cl persist : list (Pipe.Step (World P)) :=
  take 5 (drop 1 (createSteps cfg shards nps cl persist)).

(** [Bootstrap], regrouped along the steps. *)
Definition bootstrapSteps (create : GoM (ClusterManager P) unit) cl : GoM (ClusterManager P) unit :=
  _ ← create;
  _ ← (cli ← CM.connectToClusterNode cl; gowrap (λ err, Errorf ("meet nodes fail " +:+ Error err)) (CM.MeetNodes cli cl));
  _ ← (loginNode ← CM.findFirstClusterNode cl; CM.UpdateAfterMeet loginNode cl);
  _ ← gowrap (λ err, Errorf ("set node type fail: " +:+ Error err)) (CM.SetAllNodeRole cl);
  _ ← CM.AllocateSlots cl; mret tt.
Lemma Bootstrap_regrouped shards cl c :
  CM.Bootstrap shards cl c = bootstrapSteps (CM.CreatePodsForCluster cl (int64 (shards * nodesPerShard c))) cl c.
Proof.
  unfold CM.Bootstrap, bootstrapSteps, CM.createPodsForCluster, CM.initCluster, mbind, GoM_bind.
  destruct (CM.CreatePodsForCluster cl _ c) as [[] c1]; [|done..].
  destruct (CM.connectToClusterNode cl c1) as [[cli| | |] c2]; [|done..].
  destruct (gowrap _ (CM.MeetNodes cli cl) c2) as [[] c3]; [|done..].
  destruct (CM.findFirstClusterNode cl c3) as [[node| | |] c4]; [|done..].
  destruct (CM.UpdateAfterMeet node cl c4) as [[] c5]; [|done..].
  destruct (gowrap _ (CM.SetAllNodeRole cl) c5) as [[] c6]; [|done..].
  by destruct (CM.AllocateSlots cl c6) as [[[]| | |] c7].
Qed.
Lemma lastAttempt_nps cl sum c : nodesPerShard (lastAttempt (CM.CreatePodsForCluster cl sum) c) = nodesPerShard c.
Proof.
  unfold lastAttempt, CM.CreatePodsForCluster, gowrap, gocall.
  by destruct (CreatePods sum cl (nodeManager c)) as [[] p].
Qed.
Lemma steps_simulate cfg shards nps cl persist ctx w :
  nodesPerShard (cm w) = nps →
  let b := CM.Bootstrap shards cl (lastAttempt (CM.CreatePodsForCluster cl (int64 (shards * nps))) (cm w)) in
  let m := goforeach (Pipe.executeStep ctx) (clusterSteps cfg shards nps cl persist) w in
  agree m.1 b.1 ∧ m.2 = set_cm b.2 w.
Proof.
  intros Hn. cbv zeta. rewrite Bootstrap_regrouped, lastAttempt_nps, Hn.
  set (create := CM.CreatePodsForCluster cl (int64 (shards * nps))).
  change (bootstrapSteps create cl (lastAttempt create (cm w))) with (bootstrapSteps (λ c, create (lastAttempt create c)) cl (cm w)).
  revert w Hn. intros w _. revert w. unfold clusterSteps, bootstrapSteps. cbn [take drop createSteps goforeach].
  apply sim_seq; [apply sim_retry|intros _]. apply sim_seq; [apply sim_step, sim_meet|intros _].
  apply sim_seq; [apply sim_step, sim_with_node; intros node; apply sim_onCM|intros _].
  apply sim_seq; [apply sim_step, sim_wrap, sim_onCM|intros _].
  apply sim_seq; [apply sim_step, sim_onCM|intros _ w]. cbn. by rewrite set_cm_cm.
Qed.
End equiv.

(** ** A pipeline whose steps all succeed, on a healthy store *)
Section success.
Context {P : Type} {PM : PodManager P} {EV : Env} {os : OS}.
Implicit Types (w : World P) (d : Store.DB).

Lemma executeStep_blind ctx st : (∀ c, blind (Pipe.s_Do st c)) → blind (P := P) (Pipe.executeStep ctx st).
Proof.
  intros Hd. unfold Pipe.executeStep. apply blind_bind; [|intros [?|]; blind_tac].
  generalize (None : option error). induction (Z.to_nat _) as [|n IH]; intros le; cbn [Pipe.attempt_loop]; [blind_tac|].
  apply blind_bind; [by apply blind_try|]. intros [?|?]; [blind_tac|apply IH].
Qed.
Lemma executeStep_first ctx (st : Pipe.Step (World P)) w w' :
  0 ≤ Pipe.s_Retry st → (∀ c, Pipe.s_Do st c w = (Ret tt, w')) → Pipe.executeStep ctx st w = (Ret tt, w').
Proof.
  intros Hr Hd. unfold Pipe.executeStep.
  destruct (Z.to_nat (Pipe.s_Retry st + 1)) as [|k] eqn:Ek; [lia|]. cbn [Pipe.attempt_loop].
  unfold mbind, GoM_bind, gotry. by rewrite Hd.
Qed.
(** One step that succeeds: the store's own row is all that changes besides. *)
Lemma Run_loop_step p ctx i st rest C d w (after : Store.DB → Store.DB) w2 :
  Pipe.p_Persist p = Some persisterOf → quiet d → Pipe.s_Name st ∉ C →
  (∀ d1, quiet d1 → same_tables d1 d → Pipe.executeStep ctx st (set_odb d1 w) = (Ret tt, set_odb (after d1) w2) ∧ quiet (after d1)) →
  ∃ d1 d3, quiet d1 ∧ same_tables d1 d ∧ quiet d3 ∧ same_tables d3 (after d1) ∧
    Pipe.Run_loop p ctx i (st :: rest) (Pipe.mkPState C (set_odb d w)) =
    Pipe.Run_loop p ctx (S i) rest (Pipe.mkPState ({[Pipe.s_Name st]} ∪ C) (set_odb d3 w2)).
Proof.
  intros Hp Hq Hn He. set (pn := Pipe.p_Name p). set (sn := Pipe.s_Name st) in *.
  destruct (Start_quiet d Hq pn sn) as (d1 & E1 & Hq1 & _).
  assert (same_tables d1 d) as T1 by (pose proof (Start_tame pn sn d) as [_ T]; by rewrite E1 in T).
  destruct (He d1 Hq1 T1) as [E Hq2]. destruct (Save_quiet (after d1) Hq2 pn sn) as (d3 & E3 & Hq3 & _).
  assert (same_tables d3 (after d1)) as T3 by (pose proof (Save_tame pn sn (after d1)) as [_ T]; by rewrite E3 in T).
  exists d1, d3. split_and!; [done..|]. cbn [Pipe.Run_loop]. fold sn pn. rewrite decide_False by done.
  eapply gobind_Ret.
  { apply (persisting_onDB p (Store.StartPipelineStep pn sn) (Pipe.mkPState C (set_odb d w)) d1 Hp); [done|exact E1]. }
  eapply (gobind_Ret _ _ _ (inl tt)).
  { unfold gotry, Pipe.onWorld, golift. cbn [Pipe.world Pipe.Completed_].
    change (set_db d1 (set_odb d w)) with (set_odb d1 w). by rewrite E. }
  eapply gobind_Ret; [reflexivity|]. eapply gobind_Ret; [|reflexivity].
  apply (persisting_onDB p (Store.SavePipelineStep pn sn) (Pipe.markCompleted sn (Pipe.mkPState C (set_odb (after d1) w2))) d3 Hp); [done|exact E3].
Qed.
(** Steps that do not look at the store: they leave the tables as they are. *)
Lemma Run_loop_blind p ctx steps rest i C d w w' :
  Pipe.p_Persist p = Some persisterOf → quiet d → NoDup (Pipe.s_Name <$> steps) →
  (∀ st, st ∈ steps → Pipe.s_Name st ∉ C ∧ ∀ c, blind (Pipe.s_Do st c)) →
  goforeach (Pipe.executeStep ctx) steps w = (Ret tt, w') →
  ∃ d', quiet d' ∧ same_tables d' d ∧
    Pipe.Run_loop p ctx i (steps ++ rest) (Pipe.mkPState C (set_odb d w)) =
    Pipe.Run_loop p ctx (i + length steps) rest (Pipe.mkPState (list_to_set (Pipe.s_Name <$> steps) ∪ C) (set_odb d' w')).
Proof.
  intros Hp. revert i C d w. induction steps as [|st steps IH]; intros i C d w Hq Hnd Hst; cbn [goforeach].
  { intros [= <-]. exists d. split_and!; [done..|]. cbn. by rewrite Nat.add_0_r, union_empty_l_L. }
  intros (u & w1 & Hd & Hrest)%gobind_Ret_inv. destruct u.
  rewrite fmap_cons in Hnd. apply NoDup_cons in Hnd as [Hnew Hnd].
  destruct (Hst st) as [Hn Hb]; [set_solver|].
  destruct (Run_loop_step p ctx i st (steps ++ rest) C d w id w1 Hp Hq Hn) as (d1 & d3 & _ & T1 & Hq3 & T3 & E).
  { intros d1 Hq1 _. split; [|done]. rewrite (executeStep_blind ctx st Hb), Hd. done. }
  destruct (IH (S i) ({[Pipe.s_Name st]} ∪ C) d3 w1 Hq3 Hnd) as (d' & Hq' & T' & E'); [|exact Hrest|].
  { intros st' Hin. destruct (Hst st') as [Hn' Hb']; [set_solver|]. split; [|done].
    rewrite not_elem_of_union, not_elem_of_singleton. split; [|done].
    intros Es. apply Hnew. rewrite <- Es. by apply list_elem_of_fmap_2. }
  exists d'. split_and!; [done|eauto using OpsTheorems.same_tables_trans|].
  cbn [app length]. rewrite E, E', <- Nat.add_succ_comm. do 2 f_equal. rewrite fmap_cons, list_to_set_cons. set_solver.
Qed.

Lemma goforeach_cons_Ret {S A} (body : A → GoM S unit) x l (s1 s2 s3 : S) :
  body x s1 = (Ret tt, s2) → goforeach body l s2 = (Ret tt, s3) → goforeach body (x :: l) s1 = (Ret tt, s3).
Proof. intros Hx Hl. cbn. unfold mbind, GoM_bind. by rewrite Hx. Qed.
Lemma goforeach_app_Ret {S A} (body : A → GoM S unit) l1 l2 (s1 s2 s3 : S) :
  goforeach body l1 s1 = (Ret tt, s2) → goforeach body l2 s2 = (Ret tt, s3) → goforeach body (l1 ++ l2) s1 = (Ret tt, s3).
Proof. intros H1 H2. rewrite goforeach_app. unfold mbind, GoM_bind. by rewrite H1. Qed.

(** Validation only looks at the containers. *)
Lemma validateCreate_only_pods shards nps cl w w1 :
  validateCreate shards nps cl w = (Ret tt, w1) → ∃ p, w1 = set_cm (set_pods p (cm w)) w.
Proof.
  unfold validateCreate. do 3 (case_decide; [done|]). intros (u & w2 & H2 & Hk)%gobind_Ret_inv.
  unfold mbind, GoM_bind, goget in Hk. destruct (HasCluster _ _); [done|]. injection Hk as <-.
  unfold gowrap, onPods, golift in H2. destruct (ListPodsByCluster _ _) as [[] p]; naive_solver.
Qed.
Lemma osCall_calm e f w :
  (∀ h e, osFault h e = None) → osCall e f w = (Ret tt, f (mkWorld (cm w) (odb w) (files w) (dirs w) (osHist w ++ [e]))).
Proof. intros Hos. unfold osCall. by rewrite Hos. Qed.
Lemma persistConfig_eq cfg cl w :
  (∀ h e, osFault h e = None) →
  ∃ w', persistConfig cfg cl w = (Ret tt, w') ∧ cm w' = cm w ∧ odb w' = odb w ∧
    files w' = <[Conf.ClusterRuntimeConfigPath cfg cl :=
      mkRedisClusterConfig (nodesPerShard (cm w)) (RedisContainerPort cfg)]> (files w).
Proof.
  intros Hos. unfold persistConfig, MkdirAll, WriteToYAMLFile, Remove, drop_err, gotry. unfold mbind, GoM_bind, goget, mret, GoM_ret.
  rewrite osCall_calm by done. destruct (FileExists _ _); rewrite !osCall_calm by done; (eexists; split; [done|]); cbn.
  - by rewrite insert_delete_eq.
  - done.
Qed.
Lemma persistConfig_blind cfg cl : blind (P := P) (persistConfig cfg cl).
Proof. unfold persistConfig, MkdirAll, WriteToYAMLFile, Remove, drop_err. blind_tac. Qed.
Lemma meetNodes_blind cl : blind (P := P) (meetNodes cl).
Proof. unfold meetNodes. blind_tac. Qed.
Lemma updateTopology_blind cl : blind (P := P) (updateTopology cl).
Proof. unfold updateTopology. blind_tac. Qed.

(** Printing asks the first container's server for the nodes. *)
Lemma print_asks c n0 ns text :
  GetNodes (nodeManager c) = n0 :: ns → srv (hist c) (ClientConnAddr n0) ClusterNodes = RStr text →
  CM.PrintClusterNodesInfo (P := P) c =
    (Ret (CM.printedLines text), log_event (EvCmd (ClientConnAddr n0) ClusterNodes) c).
Proof.
  intros Hn Hs. unfold CM.PrintClusterNodesInfo, CM.podNodes, mbind, GoM_bind, goget. rewrite Hn.
  unfold gowrap, gocall, CreateRedisClient, CM.call. cbn. rewrite Hs. done.
Qed.
End success.

(** ** The rows of a new cluster *)
Section rows.
Context {P : Type} {PM : PodManager P}.
Implicit Types (w : World P) (d : Store.DB).

(** The cluster is recorded as [r], but for the backend and the times, which an older row
    keeps, and each of the pods has a row. *)
Definition pod_rows (cl : string) (nodes : list RuntimeNode) d : Prop :=
  ∀ node, node ∈ nodes → rn_ClusterName node = cl → (cl, rn_Name node) ∈ Store.ct_key <$> Store.containers d.
Definition cluster_row (r : ClusterRecord) d : Prop :=
  ∃ r', Store.GetCluster (cr_Name r) d = (Ret (Some r'), d) ∧ cr_Name r' = cr_Name r ∧ cr_Shards r' = cr_Shards r ∧
    cr_NodesPerShard r' = cr_NodesPerShard r ∧ cr_RedisPort r' = cr_RedisPort r ∧ cr_Image r' = cr_Image r ∧
    cr_Status r' = cr_Status r.
Lemma cluster_row_same r d d' :
  Store.clusters d' = Store.clusters d → quiet d → quiet d' → cluster_row r d → cluster_row r d'.
Proof.
  intros Hc [Hf _] [Hf' _] (r' & Hg & Hr). exists r'. split; [|exact Hr]. revert Hg.
  unfold Store.GetCluster, Store.Query. rewrite Hf, Hf', Hc. by intros [= ->].
Qed.
Lemma UpsertCluster_row r d :
  quiet d → ∃ d', Store.UpsertCluster r d = (Ret tt, d') ∧ quiet d' ∧ cluster_row r d'.
Proof.
  intros [Hf Hwf]. destruct (StoreTheorems.upsert_get_cluster d r (cr_Name r +:+ "x") Hwf Hf) as (Hu & old & _ & Hg & _).
  { intros E%(f_equal String.length). rewrite str_length_app in E. cbn in E. lia. }
  pose proof (run_op_wf (OpUpsertCluster r) d Hwf) as Hw. cbn [run_op] in Hw.
  exists (Store.UpsertCluster r d).2. split_and!.
  - by apply goRet_fst.
  - split; [|exact Hw]. unfold Store.UpsertCluster, Store.Exec. by rewrite Hf.
  - eexists. split; [exact Hg|done].
Qed.
Lemma UpsertContainer_row c d :
  quiet d → ∃ d', Store.UpsertContainer c d = (Ret tt, d') ∧ quiet d' ∧ Store.clusters d' = Store.clusters d ∧
    (∀ k, k = Store.ct_key c ∨ k ∈ Store.ct_key <$> Store.containers d → k ∈ Store.ct_key <$> Store.containers d').
Proof.
  intros [Hf Hwf]. pose proof (run_op_wf (OpUpsertContainer c) d Hwf) as Hw. cbn [run_op] in Hw.
  unfold Store.UpsertContainer, Store.Exec in *. rewrite Hf in *. eexists. split; [done|]. split; [by split|]. split; [done|].
  intros k Hk. cbn [Store.containers Store.set_containers]. rewrite upsert_keys by done.
  case_decide; [by destruct Hk as [->|]|]. rewrite elem_of_app, list_elem_of_singleton. tauto.
Qed.
Lemma drop_err_Ret {A} (f : GoM Store.DB A) d w a d' :
  f d = (Ret a, d') → drop_err (onDB f) (set_odb d w) = (Ret tt, set_odb d' w).
Proof. intros E. unfold drop_err, gotry, onDB, golift, mbind, GoM_bind. change (db_of (set_odb d w)) with d. by rewrite E. Qed.
Lemma record_pods cl nodes d w :
  quiet d → ∃ d', goforeach (λ node, if decide (rn_ClusterName node ≠ cl) then mret tt
      else drop_err (onDB (Store.UpsertContainer (containerRecord cl node)))) nodes (set_odb d w) = (Ret tt, set_odb d' w) ∧
    quiet d' ∧ Store.clusters d' = Store.clusters d ∧
    (∀ k, k ∈ Store.ct_key <$> Store.containers d → k ∈ Store.ct_key <$> Store.containers d') ∧ pod_rows cl nodes d'.
Proof.
  revert d. induction nodes as [|node nodes IH]; intros d Hq; cbn [goforeach].
  { exists d. split_and!; [done..|]. by intros node ?%not_elem_of_nil. }
  case_decide as Hn.
  - destruct (IH d Hq) as (d' & E & Hq' & Hc & Hk & Hp). exists d'. split_and!; [exact E|done..|].
    intros x [->|Hx]%elem_of_cons Hx'; [done|by apply Hp].
  - destruct (UpsertContainer_row (containerRecord cl node) d Hq) as (d1 & E1 & Hq1 & Hc1 & Hk1).
    destruct (IH d1 Hq1) as (d' & E & Hq' & Hc & Hk & Hp). exists d'. split_and!; [|done|congruence|auto|].
    + eapply gobind_Ret; [by eapply drop_err_Ret|exact E].
    + intros x [->|Hx]%elem_of_cons Hx'; [|by apply Hp]. apply Hk, Hk1. left. done.
Qed.
Lemma recordCluster_rows pname r op det d w :
  quiet d → ∃ d', recordCluster (Some persisterOf) pname r op det (set_odb d w) = (Ret tt, set_odb d' w) ∧ quiet d' ∧
    cluster_row r d' ∧ pod_rows (cr_Name r) (GetNodes (pods w)) d'.
Proof.
  intros Hq. destruct (UpsertCluster_row r d Hq) as (d1 & E1 & Hq1 & Hr1).
  destruct (record_pods (cr_Name r) (GetNodes (pods w)) d1 w Hq1) as (d2 & E2 & Hq2 & Hc2 & _ & Hp2).
  destruct (LogOperation_quiet (cr_Name r) op det true d2 Hq2) as (u & d3 & E3 & Hq3).
  assert (Store.clusters d3 = Store.clusters d2 ∧ Store.containers d3 = Store.containers d2) as [Hc3 Hp3].
  { revert E3. unfold Store.LogOperation, Store.Exec. destruct Hq2 as [-> _]. by intros [= _ <-]. }
  destruct (Delete_quiet d3 Hq3 pname) as (d4 & E4 & Hq4 & _).
  pose proof (Delete_tame pname d3) as [_ (Hc4 & Hp4 & _)]. rewrite E4 in Hc4, Hp4. cbn [snd] in Hc4, Hp4.
  exists d4. split_and!; [|done| |].
  - unfold recordCluster. eapply gobind_Ret; [by eapply drop_err_Ret|]. eapply gobind_Ret; [reflexivity|].
    eapply gobind_Ret; [exact E2|]. eapply gobind_Ret; [by eapply drop_err_Ret|].
    exact (drop_err_Ret (Store.DeletePipeline pname) d3 w tt d4 E4).
  - apply (cluster_row_same r d1); [congruence|done..].
  - unfold pod_rows. rewrite Hp4, Hp3. exact Hp2.
Qed.
Lemma persistCreate_rows cfg shards nps cl d w :
  DBPath cfg ≠ "" → quiet d →
  ∃ d', persistCreate cfg shards nps cl (Some persisterOf) (set_odb d w) = (Ret tt, set_odb d' w) ∧ quiet d' ∧
    cluster_row (mkClusterRecord cl (Backend cfg) shards nps (RedisContainerPort cfg) (ImageName cfg) "ready" "" "") d' ∧
    pod_rows cl (GetNodes (pods w)) d'.
Proof.
  intros Hdb Hq. destruct (OpenStore_quiet d (createName cl) Hq) as (d1 & E1 & Hq1 & _).
  unfold persistCreate. rewrite decide_False by done.
  destruct (recordCluster_rows (createName cl)
    (mkClusterRecord cl (Backend cfg) shards nps (RedisContainerPort cfg) (ImageName cfg) "ready" "" "")
    "create" ("shards=" +:+ Itoa shards +:+ " nodes_per_shard=" +:+ Itoa nps) d1 w Hq1) as (d' & E & Hrest).
  exists d'. split; [|exact Hrest]. eapply gobind_Ret; [|exact E].
  unfold onDB, golift. change (db_of (set_odb d w)) with d. by rewrite E1.
Qed.
End rows.

Module EquivTheorems.
Section theorems.
Context {P : Type} {PM : PodManager P} {EV : Env} {os : OS}.
Implicit Types w : World P.

(** C11: the create command and [Bootstrap] agree.  The steps of the create pipeline from the
    containers to the slots, executed in order with the attempts the pipeline gives them,
    return, fail or panic exactly as [Bootstrap] does with the same arguments, and leave the
    manager, the containers and the servers as it leaves them; they touch neither files nor
    the store.  [Bootstrap] is taken from the manager as it is; only if a first attempt to
    create the containers fails there, from what that attempt leaves, since the pipeline then
    tries a second time. *)
Theorem create_steps_agree_with_bootstrap cfg shards nps cl persist ctx w :
  nodesPerShard (cm w) = nps →
  let c := match CM.CreatePodsForCluster cl (int64 (shards * nps)) (cm w) with (Fail _, c1) => c1 | _ => cm w end in
  let '(r, w') := goforeach (Pipe.executeStep ctx) (clusterSteps cfg shards nps cl persist) w in
  let '(r', c') := CM.Bootstrap shards cl c in
  agree r r' ∧ w' = set_cm c' w.
Proof.
  intros Hn. pose proof (steps_simulate cfg shards nps cl persist ctx w Hn) as Hs. cbv zeta in *.
  fold (lastAttempt (CM.CreatePodsForCluster cl (int64 (shards * nps))) (cm w)).
  destruct (goforeach _ _ w), (CM.Bootstrap _ _ _). exact Hs.
Qed.

(** The steps before the store is written. *)
Definition frontSteps (cfg : RuntimeConfig) shards nps cl persist : list (Pipe.Step (World P)) :=
  take 7 (createSteps cfg shards nps cl persist).
Lemma front_succeeds cfg shards nps cl persist ctx w0 w1 c2 :
  nodesPerShard (cm w0) = nps → (∀ h e, osFault h e = None) → validateCreate shards nps cl w0 = (Ret tt, w1) →
  CM.Bootstrap shards cl (lastAttempt (CM.CreatePodsForCluster cl (int64 (shards * nps))) (cm w1)) = (Ret tt, c2) →
  ∃ w3, goforeach (Pipe.executeStep ctx) (frontSteps cfg shards nps cl persist) w0 = (Ret tt, w3) ∧ cm w3 = c2 ∧
    files w3 = <[Conf.ClusterRuntimeConfigPath cfg cl := mkRedisClusterConfig (nodesPerShard c2) (RedisContainerPort cfg)]> (files w0).
Proof.
  intros Hn Hos Hval Hboot. destruct (validateCreate_only_pods _ _ _ _ _ Hval) as (p & Hw1).
  pose proof (steps_simulate cfg shards nps cl persist ctx w1 ltac:(by rewrite Hw1)) as Hs. rewrite Hboot in Hs.
  destruct (persistConfig_eq cfg cl (set_cm c2 w1) Hos) as (w3 & Hpc & Hcm3 & _ & Hf3).
  exists w3. split_and!; [|exact Hcm3|by rewrite Hf3, Hw1].
  change (frontSteps cfg shards nps cl persist) with ([step "validate" (validateCreate shards nps cl)] ++
    clusterSteps cfg shards nps cl persist ++ drop 6 (frontSteps cfg shards nps cl persist)).
  eapply goforeach_app_Ret.
  { eapply goforeach_cons_Ret; [by apply executeStep_first; [done|intros; exact Hval]|done]. }
  eapply goforeach_app_Ret; [|eapply goforeach_cons_Ret; [by apply executeStep_first; [done|intros; exact Hpc]|done]].
  destruct (goforeach _ _ w1) as [[[]| | |] w2]; cbn in Hs; by destruct Hs as [? ->].
Qed.
Lemma front_blind cfg shards nps cl persist st :
  st ∈ frontSteps cfg shards nps cl persist → ∀ c, blind (Pipe.s_Do st c).
Proof.
  unfold frontSteps. cbn [take createSteps]. rewrite !elem_of_cons. intros Hst c.
  destruct Hst as [->|[->|[->|[->|[->|[->|[->|[]%not_elem_of_nil]]]]]]]; cbn [Pipe.s_Do step createContainers].
  - apply OpsTheorems.validateCreate_blind.
  - apply blind_onCM.
  - apply meetNodes_blind.
  - apply updateTopology_blind.
  - apply blind_onCM.
  - apply blind_onCM.
  - apply persistConfig_blind.
Qed.
(** The run of the pipeline, from a healthy store. *)
Lemma create_runs cfg shards nps cl ctx d w0 w3 n0 ns text :
  DBPath cfg ≠ "" → quiet d →
  goforeach (Pipe.executeStep ctx) (frontSteps cfg shards nps cl (Some persisterOf)) w0 = (Ret tt, w3) →
  GetNodes (pods w3) = n0 :: ns → srv (hist (cm w3)) (ClientConnAddr n0) ClusterNodes = RStr text →
  let p := Pipe.mkPipeline (createName cl) (createSteps cfg shards nps cl (Some persisterOf)) (Some persisterOf) in
  ∃ s d', Pipe.Run p ctx (Pipe.mkPState ∅ (set_odb d w0)) = (Ret tt, s) ∧ quiet d' ∧
    Pipe.world s = set_odb d' (set_cm (log_event (EvCmd (ClientConnAddr n0) ClusterNodes) (cm w3)) w3) ∧
    cluster_row (mkClusterRecord cl (Backend cfg) shards nps (RedisContainerPort cfg) (ImageName cfg) "ready" "" "") d' ∧
    pod_rows cl (GetNodes (pods w3)) d'.
Proof.
  intros Hdb Hq Hfront Hn0 Hsrv p. unfold Pipe.Run.
  change (Pipe.p_Steps p) with (frontSteps cfg shards nps cl (Some persisterOf) ++
    drop 7 (createSteps cfg shards nps cl (Some persisterOf))).
  destruct (Run_loop_blind p ctx (frontSteps cfg shards nps cl (Some persisterOf))
    (drop 7 (createSteps cfg shards nps cl (Some persisterOf))) 0 ∅ d w0 w3) as (d1 & Hq1 & _ & ->); [done|done| | |done|].
  { apply (bool_decide_unpack _). vm_compute. done. }
  { intros st Hst. split; [set_solver|]. by eapply front_blind. }
  cbn [drop createSteps].
  edestruct (Run_loop_step p ctx (0 + length (frontSteps cfg shards nps cl (Some persisterOf)))
    (Pipe.mkStep "persist-db" (λ _, persistCreate cfg shards nps cl (Some persisterOf)) (Some (λ _, undoPersist cfg cl)) 0 0))
    with (after := λ d, odb (persistCreate cfg shards nps cl (Some persisterOf) (set_odb d w3)).2) (w2 := w3)
    as (d2 & d3 & Hq2 & _ & Hq3 & (Tc & Tp & _) & ->); [done|exact Hq1| | |].
  { apply (bool_decide_unpack _). vm_compute. done. }
  { intros d2 Hq2 _. destruct (persistCreate_rows cfg shards nps cl d2 w3 Hdb Hq2) as (d3 & E3 & Hq3 & _).
    rewrite E3. split; [|exact Hq3]. apply executeStep_first; [done|]. intros c. exact E3. }
  destruct (persistCreate_rows cfg shards nps cl d2 w3 Hdb Hq2) as (d2' & E2 & Hq2' & Hrow & Hpods).
  rewrite E2 in Tc, Tp. change (odb (Ret tt, set_odb d2' w3).2) with d2' in Tc, Tp.
  change (S (0 + length (frontSteps cfg shards nps cl (Some persisterOf)))) with 8%nat.
  match goal with |- context [Pipe.mkPState ?C (set_odb d3 w3)] => set (C1 := C) end.
  edestruct (Run_loop_blind p ctx [step "print-info" (_ ← onCM CM.PrintClusterNodesInfo; mret tt)] [] 8 C1 d3 w3)
    as (d' & Hq' & (Tc' & Tp' & _) & E); [done|exact Hq3| | | |].
  { apply NoDup_singleton. }
  { intros st ->%list_elem_of_singleton. split; [|intros c; cbn; blind_tac].
    unfold C1. apply (bool_decide_unpack _). vm_compute. done. }
  { eapply goforeach_cons_Ret; [|done]. apply executeStep_first; [done|]. intros c. cbn.
    unfold onCM, golift, mbind, GoM_bind. by rewrite (print_asks _ n0 ns text Hn0 Hsrv). }
  rewrite app_nil_r in E. rewrite E. cbn [Pipe.Run_loop]. eexists _, d'. split_and!; [done|done|done| |].
  - apply (cluster_row_same _ d2'); [congruence|done..].
  - unfold pod_rows. rewrite Tp', Tp. exact Hpods.
Qed.

(** C12: the create command succeeds when [Bootstrap] does.  On a file system that works and a
    healthy store with no leftover of an earlier run of that name: if validation passes,
    [Bootstrap] (from what a failed first attempt to create the containers left, if it failed)
    succeeds, and the first container's server then answers
    CLUSTER NODES, the command succeeds.  The manager, the containers and the servers are as
    [Bootstrap] left them, but for that one further query, with which the command prints the
    nodes; the settings file of the cluster is written; the store has the cluster's row, with
    the requested shape and the status ready, and a row for each of its pods. *)
Theorem create_command_succeeds newNodeManager ctx cfg shards nps cl w p0 w1 c2 n0 ns text :
  DBPath cfg ≠ "" → quiet (odb w) → comp (createName cl) (odb w) = ∅ →
  newNodeManager cfg (pods w) = Ret p0 → (∀ h e, osFault h e = None) →
  validateCreate shards nps cl (set_cm (newManager cfg nps p0 (cm w)) w) = (Ret tt, w1) →
  CM.Bootstrap shards cl (lastAttempt (CM.CreatePodsForCluster cl (int64 (shards * nps))) (cm w1)) = (Ret tt, c2) →
  GetNodes (nodeManager c2) = n0 :: ns → srv (hist c2) (ClientConnAddr n0) ClusterNodes = RStr text →
  let '(r, w') := CreateClusterAction newNodeManager ctx cfg shards nps cl w in
  r = Ret tt ∧ cm w' = log_event (EvCmd (ClientConnAddr n0) ClusterNodes) c2 ∧
  files w' = <[Conf.ClusterRuntimeConfigPath cfg cl := mkRedisClusterConfig (nodesPerShard c2) (RedisContainerPort cfg)]> (files w) ∧
  cluster_row (mkClusterRecord cl (Backend cfg) shards nps (RedisContainerPort cfg) (ImageName cfg) "ready" "" "") (odb w') ∧
  pod_rows cl (GetNodes (nodeManager c2)) (odb w').
Proof.
  intros Hdb Hq Hcomp Hnew Hos Hval Hboot Hn0 Hsrv. set (w0 := set_cm (newManager cfg nps p0 (cm w)) w) in *.
  destruct (front_succeeds cfg shards nps cl (Some persisterOf) ctx w0 w1 c2 eq_refl Hos Hval Hboot) as (w3 & Hfront & <- & Hf3).
  destruct (OpenStore_quiet (odb w) (createName cl) Hq) as (d & Hopen & Hqd & Hcd & _).
  destruct (create_runs cfg shards nps cl ctx d w0 w3 n0 ns text Hdb Hqd Hfront Hn0 Hsrv) as (s & d' & Hrun & Hq' & Hw & Hrow & Hpods).
  unfold CreateClusterAction, startManager. unfold mbind at 1, GoM_bind at 1. rewrite Hnew. fold w0.
  unfold openPersister. rewrite decide_False by done.
  unfold mbind at 1, GoM_bind at 1, mbind at 1, GoM_bind at 1, gotry at 1, onDB at 1, golift at 1.
  change (db_of w0) with (odb w). rewrite Hopen. unfold mret, GoM_ret. unfold gowrap, runPipeline. unfold mbind at 1, GoM_bind at 1.
  rewrite New_quiet by exact Hqd. change (db_of (set_db d w0)) with d. rewrite Hcd, Hcomp.
  unfold runSteps. rewrite add_steps by (by repeat constructor). cbn [Pipe.p_Name Pipe.p_Steps Pipe.p_Persist app].
  change (set_db d w0) with (set_odb d w0). rewrite Hrun, Hw. split_and!; [done|done| |exact Hrow|exact Hpods].
  cbn [files set_odb set_cm]. rewrite Hf3. done.
Qed.
End theorems.
End EquivTheorems.

(** ** Creating a cluster of one master and one replica

    The backend starts one container and fails, and the other one when it is asked again; the
    servers report two masters until one of them is
    told to replicate, and all slots at the master once they are assigned. *)
Module EquivWitness.
Import Fixtures OpsWitness.
#[local] Existing Instance calm_os.
Definition pair_pods : PodManager (list RuntimeNode) := {|
  CreatePods n cl p := match p with [] => (Fail (Errorf "no free port"), [pod1]) | _ => (Ret tt, [pod1; pod2]) end;
  ListPodsByCluster := ListPodsByCluster;
  DeleteResources := DeleteResources;
  HasCluster := HasCluster;
  CountByCluster := CountByCluster;
  GetNodes := GetNodes;
  GetNodeByIP := GetNodeByIP;
  GetNodeByHost := GetNodeByHost;
  GetNodeCount := GetNodeCount |}.
#[local] Existing Instance pair_pods.
Definition saw (f : cmd → bool) (h : list event) : bool :=
  existsb (λ e, match e with EvCmd _ q => f q | _ => false end) h.
Definition replicated : list event → bool := saw (λ q, match q with ClusterReplicate _ => true | _ => false end).
Definition allocated : list event → bool := saw (λ q, match q with ClusterAddSlots _ => true | _ => false end).
Definition report (h : list event) : list ClusterNode :=
  let master := mkClusterNode "a" "10.0.0.1" 6379 Master "-" "connected"
    (if allocated h then [mkSlotRange 0 16383] else []) 0 "" in
  if replicated h then [master; mkClusterNode "b" "10.0.0.2" 6379 Slave "a" "connected" [] 0 ""]
  else [master; node2].
Definition forming : Env := {|
  srv h addr q := match q with ClusterNodes => RStr (Printer.print_nodes (report h)) | _ => RStr "OK" end;
  range_order h l := l |}.
#[local] Existing Instance forming.

(** The manager after each phase. *)
Definition cm0 : ClusterManager (list RuntimeNode) := newManager (cfg1 "/db") 2 [] (NewClusterManager 1 []).
Definition cm0' := Eval vm_compute in (CM.CreatePodsForCluster "cl" 2 cm0).2.
Definition cm1 := Eval vm_compute in (CM.CreatePodsForCluster "cl" 2 cm0').2.
Definition cm2 := Eval vm_compute in (CM.MeetNodes (ClientConnAddr pod1) "cl" cm1).2.
Definition cm3 := Eval vm_compute in (CM.UpdateAfterMeet pod1 "cl" cm2).2.
Definition cm4 := Eval vm_compute in (CM.SetAllNodeRole "cl" cm3).2.
Definition cm5 := Eval vm_compute in (CM.UpdateSlots pod1 "cl" cm4).2.
Definition cm6 := (CM.assignSlotsToMasters "cl" cm5).2.
Definition cm7 := (CM.VerifyAllocateSlots "cl" cm6).2.

Definition start : World (list RuntimeNode) := set_cm cm0 (world_of [] (Store.empty_db "t0")).

Lemma allocate_pair : CM.AllocateSlots "cl" cm4 = (Ret tt, cm7).
Proof.
  unfold CM.AllocateSlots. eapply gobind_Ret; [reflexivity|]. cbn [CM.podNodes].
  eapply (gobind_Ret _ _ _ tt cm5); [vm_compute; reflexivity|].
  eapply gobind_Ret; [exact (goRet_fst (CM.assignSlotsToMasters "cl") cm5 tt eq_refl)|].
  exact (goRet_fst (CM.VerifyAllocateSlots "cl") cm6 tt eq_refl).
Qed.
Lemma bootstrap_pair : CM.Bootstrap 1 "cl" cm0' = (Ret tt, cm7).
Proof.
  rewrite Bootstrap_regrouped. unfold bootstrapSteps.
  eapply (gobind_Ret _ _ _ tt cm1); [vm_compute; reflexivity|].
  eapply (gobind_Ret _ _ _ tt cm2); [vm_compute; reflexivity|].
  eapply (gobind_Ret _ _ _ tt cm3); [vm_compute; reflexivity|].
  eapply (gobind_Ret _ _ _ tt cm4); [vm_compute; reflexivity|].
  eapply gobind_Ret; [exact allocate_pair|reflexivity].
Qed.
Lemma create_steps_agree_with_bootstrap_witness :
  goforeach (Pipe.executeStep Background) (clusterSteps (cfg1 "/db") 1 2 "cl" None) start = (Ret tt, set_cm cm7 start).
Proof.
  pose proof (EquivTheorems.create_steps_agree_with_bootstrap (cfg1 "/db") 1 2 "cl" None Background start eq_refl) as Ha.
  cbv zeta in Ha. change (match CM.CreatePodsForCluster "cl" (int64 (1 * 2)) (cm start) with
    (Fail _, c1) => c1 | _ => cm start end) with cm0' in Ha. rewrite bootstrap_pair in Ha.
  destruct (goforeach _ _ start) as [[[]| | |] w']; by destruct Ha as [Ha ->].
Defined.

Lemma empty_quiet t : quiet (Store.empty_db t).
Proof. split; [reflexivity|]. split_and!; constructor. Qed.
Lemma create_command_succeeds_witness :
  let w := world_of [] (Store.empty_db "t0") in
  let '(r, w') := CreateClusterAction fresh_pods Background (cfg1 "/db") 1 2 "cl" w in
  r = Ret tt ∧ ("cl", "p2") ∈ Store.ct_key <$> Store.containers (odb w').
Proof.
  pose proof (EquivTheorems.create_command_succeeds fresh_pods Background (cfg1 "/db") 1 2 "cl" (world_of [] (Store.empty_db "t0"))
    [] start cm7 pod1 [pod2] (Printer.print_nodes (report (hist cm7)))
    ltac:(discriminate) (empty_quiet "t0") eq_refl eq_refl ltac:(reflexivity) eq_refl bootstrap_pair eq_refl eq_refl) as Hc.
  cbv zeta. destruct (CreateClusterAction _ _ _ _ _ _ _) as [r w'].
  destruct Hc as (Hr & _ & _ & _ & Hpods). split; [exact Hr|].
  exact (Hpods pod2 (list_elem_of_further _ _ _ (list_elem_of_here _ _)) eq_refl).
Defined.
End EquivWitness.
