(* ===== verification/ScaleProps.v ===== *)
(** * Scaling out: the new shards

    The set-roles step of the scale command groups the new containers into shards: the first of
    every [nodesPerShard] becomes a master, the others replicate it.  Proved of the step as it
    runs, over the maps it builds and in whatever order Go ranges over them. *)
From S2P Require Import Prelude GoStrings Data Config Redis Manager Plan Migration.
From S2P Require Import Pipeline Store StoreProps PipelineStore Ops Fixtures.
Import Ops.

(** ** Grouping a list

    The (master, replica) pairs of a list cut into groups of [k]. *)
Definition pairAt {A} (k : nat) (l : list A) (j : nat) : option (A * A) :=
  if decide (j mod k = 0)%nat then None
  else m ← l !! (j / k * k)%nat; s ← l !! j; Some (m, s).
Definition pairsOf {A} (k : nat) (l : list A) : list (A * A) := omap (pairAt k l) (seq 0 (length l)).

(** The masters: the nodes whose position, counted from [i], is a multiple of [k]. *)
Fixpoint headsFrom {A} (k i : nat) (l : list A) : list A :=
  match l with
  | [] => []
  | x :: l => (if decide (i mod k = 0)%nat then [x] else []) ++ headsFrom k (S i) l
  end.

Lemma div_mul_le j k : (k ≠ 0 → j / k * k ≤ j)%nat.
Proof. intros Hk. rewrite Nat.mul_comm. by apply Nat.Div0.mul_div_le. Qed.
Lemma omap_agree {A B} (f g : A → option B) (l : list A) : (∀ x, x ∈ l → f x = g x) → omap f l = omap g l.
Proof.
  induction l as [|x l IH]; intros Hfg; [done|]. cbn. rewrite Hfg by set_solver.
  rewrite IH by (intros; apply Hfg; set_solver). done.
Qed.
Lemma pairsOf_snoc {A} k (l : list A) x :
  k ≠ 0%nat → pairsOf k (l ++ [x]) = pairsOf k l ++
    (if decide (length l mod k = 0)%nat then []
     else match l !! (length l / k * k)%nat with Some m => [(m, x)] | None => [] end).
Proof.
  intros Hk. unfold pairsOf. rewrite length_app, Nat.add_1_r, seq_S, omap_app. f_equal.
  - apply omap_agree. intros j Hj%elem_of_seq. unfold pairAt. case_decide; [done|].
    pose proof (div_mul_le j k Hk). by rewrite !lookup_app_l by lia.
  - cbn. unfold pairAt. case_decide as Hm; [done|]. pose proof (div_mul_le (length l) k Hk).
    assert (length l / k * k < length l)%nat by (pose proof (Nat.div_mod_eq (length l) k); lia).
    rewrite (lookup_app_l l [x] (length l / k * k)) by lia. rewrite list_lookup_middle by done.
    destruct (l !! (length l / k * k)%nat); done.
Qed.
Lemma pairsOf_fmap {A B} (f : A → B) k l : pairsOf k (f <$> l) = prod_map f f <$> pairsOf k l.
Proof.
  unfold pairsOf. rewrite length_fmap. rewrite list_fmap_omap. apply omap_agree. intros j _. unfold pairAt.
  case_decide; [done|]. rewrite !list_lookup_fmap. by destruct (l !! (j / k * k)%nat), (l !! j).
Qed.
Lemma pairsOf_listed {A} k (l : list A) m s : (m, s) ∈ pairsOf k l → m ∈ l ∧ s ∈ l.
Proof.
  unfold pairsOf. rewrite list_elem_of_omap. intros (j & _ & Hj). unfold pairAt in Hj. case_decide; [done|].
  apply bind_Some in Hj as (m' & Em & (s' & Es & [= -> ->])%bind_Some).
  split; [apply (list_elem_of_lookup_2 _ _ _ Em)|apply (list_elem_of_lookup_2 _ _ _ Es)].
Qed.

(** ** The edges of a map of slave lists *)
Definition edgesOf (kv : string * list string) : list (string * string) := pair kv.1 <$> kv.2.
Definition edges (m : gmap string (list string)) : list (string * string) := map_to_list m ≫= edgesOf.
Lemma edges_insert m k v : m !! k = None → edges (<[k := v]> m) ≡ₚ (pair k <$> v) ++ edges m.
Proof. intros Hk. unfold edges. by rewrite map_to_list_insert. Qed.
Lemma edges_append m k v x : m !! k = Some v → edges (<[k := v ++ [x]]> m) ≡ₚ edges m ++ [(k, x)].
Proof.
  intros Hk. rewrite <- insert_delete_eq, edges_insert by apply lookup_delete_eq.
  rewrite <- (insert_delete_id m k v Hk) at 2. rewrite (edges_insert _ k v) by apply lookup_delete_eq.
  rewrite fmap_app, <- !app_assoc. apply Permutation_app_head, Permutation_app_comm.
Qed.
Lemma fmap_bind_list {A B C} (f : B → C) (g : A → list B) (l : list A) : (l ≫= λ x, f <$> g x) = f <$> (l ≫= g).
Proof. induction l as [|x l IH]; cbn; [done|]. by rewrite IH, fmap_app. Qed.
Lemma bind_singles {A B} (g : A → B) (l : list A) : (l ≫= λ x, [g x]) = g <$> l.
Proof. induction l as [|x l IH]; [done|]. cbn. by rewrite <- IH. Qed.
Lemma list_fmap_ext_elem {A B} (f g : A → B) (l : list A) : (∀ x, x ∈ l → f x = g x) → f <$> l = g <$> l.
Proof. intros Hfg. apply list_fmap_ext. intros i x Hx. apply Hfg. by eapply list_elem_of_lookup_2. Qed.
(** Ranging over the keys visits the edges, in some order. *)
Lemma edges_by_key m l :
  l ≡ₚ (map_to_list m).*1 → (l ≫= λ k, edgesOf (k, default [] (m !! k))) ≡ₚ edges m.
Proof.
  intros ->. unfold edges. generalize (λ k v, proj1 (elem_of_map_to_list m k v)).
  induction (map_to_list m) as [|[k v] kvs IH]; intros Hin; [done|]. cbn.
  rewrite (Hin k v) by set_solver. apply Permutation_app_head, IH. intros k' v' H'. apply Hin. set_solver.
Qed.

(** ** The loop over the new nodes *)
Section place.
Context (idf : string → string) (nps : Z).
Definition place (st : Z * string * gmap string (list string) * gmap string string) (node : RuntimeNode)
    : Z * string * gmap string (list string) * gmap string string :=
  let '(count, masterID, masterToSlave, IDToIP) := st in
  let ip := rn_ConIp node in
  let id := idf ip in
  let IDToIP := <[id := ip]> IDToIP in
  let count := if decide (count = nps) then 0 else count in
  if decide (count = 0) then (count + 1, id, <[id := []]> masterToSlave, IDToIP)
  else (count + 1, masterID, <[masterID := default [] (masterToSlave !! masterID) ++ [id]]> masterToSlave, IDToIP).
Definition nodeID (n : RuntimeNode) : string := idf (rn_ConIp n).

(** What the variables of the loop hold after the nodes [l]. *)
Record placed (l : list RuntimeNode) (st : Z * string * gmap string (list string) * gmap string string) : Prop := mkPlaced {
  pl_count : st.1.1.1 = if decide (l = []) then 0 else Z.of_nat ((length l - 1) mod Z.to_nat nps) + 1;
  pl_master : l ≠ [] → nodeID <$> l !! ((length l - 1) / Z.to_nat nps * Z.to_nat nps)%nat = Some st.1.1.2 ∧
    is_Some (st.1.2 !! st.1.1.2);
  pl_keys : ∀ k, is_Some (st.1.2 !! k) → k ∈ nodeID <$> l;
  pl_edges : edges st.1.2 ≡ₚ pairsOf (Z.to_nat nps) (nodeID <$> l);
  pl_ips : ∀ n, n ∈ l → st.2 !! nodeID n = Some (rn_ConIp n) }.
Lemma placed_ip l n ips x :
  nodeID n ∉ nodeID <$> l → (∀ n, n ∈ l → ips !! nodeID n = Some (rn_ConIp n)) → x ∈ l ++ [n] →
  (<[nodeID n := rn_ConIp n]> ips : gmap string string) !! nodeID x = Some (rn_ConIp x).
Proof.
  intros Hn Hips [Hx| ->%list_elem_of_singleton]%elem_of_app; [|by rewrite lookup_insert_eq].
  rewrite lookup_insert_ne; [by apply Hips|]. intros E. apply Hn. rewrite E. by apply list_elem_of_fmap_2.
Qed.
(** The position of the next node in its group. *)
Lemma next_count l :
  0 < nps → let c := if decide (l = []) then 0 else Z.of_nat ((length (l : list RuntimeNode) - 1) mod Z.to_nat nps) + 1 in
  (if decide (c = nps) then 0 else c) = Z.of_nat (length l mod Z.to_nat nps).
Proof.
  intros Hk c. destruct l as [|x l].
  { assert (c = 0) as -> by (unfold c; by case_decide). rewrite decide_False by lia. cbn. by rewrite Nat.Div0.mod_0_l. }
  assert (c = Z.of_nat ((length (x :: l) - 1) mod Z.to_nat nps) + 1) as -> by (unfold c; by case_decide).
  cbn [length]. replace (S (length l) - 1)%nat with (length l) by lia.
  set (k := Z.to_nat nps) in *. pose proof (Nat.mod_upper_bound (length l) k ltac:(lia)).
  pose proof (Nat.div_mod_eq (length l) k) as Hd. case_decide as Hc.
  - assert (length l mod k = k - 1)%nat by lia. rewrite <- (Nat.mod_unique (S (length l)) k (S (length l / k)) 0); lia.
  - rewrite <- (Nat.mod_unique (S (length l)) k (length l / k) (S (length l mod k))); lia.
Qed.
Lemma place_ok l n st :
  0 < nps → nodeID n ∉ nodeID <$> l → placed l st → placed (l ++ [n]) (place st n).
Proof.
  intros Hk Hn [Hc Hm Hkeys He Hi]. destruct st as [[[count mid] m2s] ips]. cbn in *.
  pose proof (next_count l Hk) as Hnext. cbv zeta in Hnext. rewrite <- Hc in Hnext.
  assert (length (l ++ [n]) - 1 = length l)%nat as Hlen by (rewrite length_app; cbn; lia).
  assert (∀ a b : Z, (if decide (l ++ [n] = []) then a else b) = b) as Hne by (intros; rewrite decide_False; [done|by destruct l]).
  unfold place. rewrite Hnext. change (idf (rn_ConIp n)) with (nodeID n). set (k := Z.to_nat nps) in *.
  assert (k ≠ 0)%nat as Hk0 by lia. pose proof (div_mul_le (length l) k Hk0) as Hle.
  pose proof (Nat.div_mod_eq (length l) k) as Hd.
  destruct (decide (Z.of_nat (length l mod k) = 0)) as [Hz|Hz].
  - assert (length l mod k = 0)%nat as Hz' by exact (Nat2Z.inj _ 0 Hz).
    assert (m2s !! nodeID n = None) as Hfresh by (apply eq_None_not_Some; intros Hs; by apply Hn, Hkeys).
    split; cbn [fst snd]; fold k.
    + rewrite Hne, Hlen. done.
    + intros _. rewrite Hlen. replace (length l / k * k)%nat with (length l) by lia.
      rewrite list_lookup_middle by done. split; [done|]. rewrite lookup_insert_eq. eauto.
    + intros k'. rewrite fmap_app. destruct (decide (k' = nodeID n)) as [->|]; [set_solver|].
      rewrite lookup_insert_ne by done. intros ?%Hkeys. set_solver.
    + rewrite edges_insert by done. rewrite fmap_app. cbn. rewrite pairsOf_snoc by done.
      rewrite length_fmap. rewrite decide_True by done. by rewrite app_nil_r.
    + intros x Hx. by apply (placed_ip l n ips x).
  - assert (length l mod k ≠ 0)%nat as Hz' by (intros E; by rewrite E in Hz). assert (l ≠ []) as Hl.
    { intros ->. cbn in Hz'. by rewrite Nat.Div0.mod_0_l in Hz'. }
    destruct (Hm Hl) as [Hmid [v Hv]].
    assert ((length l - 1) / k * k = length l / k * k)%nat as Hsame.
    { f_equal. symmetry. apply (Nat.div_unique (length l - 1) k (length l / k) (length l mod k - 1));
        [pose proof (Nat.mod_upper_bound (length l) k Hk0)|]; lia. }
    rewrite Hsame in Hmid. split; cbn [fst snd]; fold k.
    + rewrite Hne, Hlen. done.
    + intros _. rewrite Hlen. rewrite lookup_app_l by lia. split; [done|]. rewrite lookup_insert_eq. eauto.
    + intros k'. rewrite fmap_app. destruct (decide (k' = mid)) as [->|].
      * intros _. assert (mid ∈ nodeID <$> l) by (apply Hkeys; eauto). set_solver.
      * rewrite lookup_insert_ne by done. intros ?%Hkeys. set_solver.
    + rewrite Hv. cbn. rewrite edges_append by done. rewrite He, fmap_app. cbn. rewrite pairsOf_snoc by done.
      rewrite length_fmap, decide_False by done. rewrite list_lookup_fmap. unfold fmap in Hmid. unfold fmap.
      destruct (l !! (length l / k * k)%nat) as [x|]; cbn in *; [by simplify_eq|done].
    + intros x Hx. by apply (placed_ip l n ips x).
Qed.
Lemma placed_all l :
  0 < nps → NoDup (nodeID <$> l) → placed l (foldl place (0, "", ∅, ∅) l).
Proof.
  intros Hk. induction l as [|n l IH] using rev_ind; intros Hnd.
  - split; cbn; try done; [by intros k [? ?]|]. set_solver.
  - rewrite fmap_app in Hnd. apply NoDup_app in Hnd as (Hnd & Hdis & _).
    rewrite foldl_app. cbn. apply place_ok; [done| |by apply IH].
    intros Hin. apply (Hdis _ Hin). set_solver.
Qed.
(** The masters among the nodes still to come. *)
Fixpoint placedMasters (st : Z * string * gmap string (list string) * gmap string string) (l : list RuntimeNode) : list RuntimeNode :=
  match l with
  | [] => []
  | n :: l =>
      (if decide ((if decide (st.1.1.1 = nps) then 0 else st.1.1.1) = 0) then [n] else []) ++ placedMasters (place st n) l
  end.
Lemma placedMasters_heads l1 l2 :
  0 < nps → NoDup (nodeID <$> l1 ++ l2) →
  placedMasters (foldl place (0, "", ∅, ∅) l1) l2 = headsFrom (Z.to_nat nps) (length l1) l2.
Proof.
  intros Hk. revert l1. induction l2 as [|n l2 IH]; intros l1 Hnd; [done|]. cbn [placedMasters headsFrom].
  rewrite fmap_app in Hnd. pose proof (placed_all l1 Hk ltac:(by apply NoDup_app in Hnd as [? _])) as [Hc _ _ _ _].
  pose proof (next_count l1 Hk) as Hnext. cbv zeta in Hnext. rewrite <- Hc in Hnext. rewrite Hnext.
  specialize (IH (l1 ++ [n])). rewrite foldl_app, length_app, Nat.add_1_r in IH. cbn in IH. rewrite IH.
  - f_equal. clear. destruct (decide (Z.of_nat _ = 0)) as [Hz|Hz], (decide (_ = 0)%nat) as [Hz'|Hz']; try done;
      [by destruct Hz'; apply (Nat2Z.inj _ 0)|by rewrite Hz' in Hz].
  - rewrite <- app_assoc. cbn. by rewrite fmap_app.
Qed.
End place.

(** ** The commands the step sends *)
Definition replications (h : list event) : list (string * string) :=
  omap (λ e, match e with EvCmd addr (ClusterReplicate id) => Some (addr, id) | _ => None end) h.

Section sends.
Context {P : Type} {PM : PodManager P} {EV : Env}.
Implicit Types c : ClusterManager P.
(** From [c] to [c'] the backend and the tables of nodes stayed, the nodes [es] were added to
    the empty masters, and the REPLICATE commands [l] were sent. *)
Record sends c (es : list loc) (l : list (string * string)) c' : Prop := mkSends {
  s_pods : nodeManager c' = nodeManager c;
  s_ips : ipToID (topo c') = ipToID (topo c);
  s_nodes : nodes (topo c') = nodes (topo c);
  s_empty : empty (topo c') = empty (topo c) ++ es;
  s_hist : ∃ evs, hist c' = hist c ++ evs ∧ replications evs = l }.
Lemma sends_still c c' :
  nodeManager c' = nodeManager c → ipToID (topo c') = ipToID (topo c) → nodes (topo c') = nodes (topo c) →
  empty (topo c') = empty (topo c) → hist c' = hist c → sends c [] [] c'.
Proof. intros ???? Hh. split; [done..|by rewrite app_nil_r|]. exists []. by rewrite Hh, app_nil_r. Qed.
Lemma sends_trans c1 e1 l1 c2 e2 l2 c3 : sends c1 e1 l1 c2 → sends c2 e2 l2 c3 → sends c1 (e1 ++ e2) (l1 ++ l2) c3.
Proof.
  intros [Hp Hi Hn He (ev1 & Hh1 & <-)] [Hp' Hi' Hn' He' (ev2 & Hh2 & <-)]. split; [congruence..| |].
  - by rewrite He', He, app_assoc.
  - exists (ev1 ++ ev2). rewrite Hh2, Hh1, app_assoc. split; [done|]. apply omap_app.
Qed.
Lemma sends_quiet c es l c1 c2 : sends c es l c1 → sends c1 [] [] c2 → sends c es l c2.
Proof. intros H1 H2. rewrite <- (app_nil_r es), <- (app_nil_r l). by eapply sends_trans. Qed.
Lemma call_sends c0 es l cli q :
  (∀ id, q ≠ ClusterReplicate id) → pres (sends c0 es l) (CM.call cli q : GoM (ClusterManager P) reply).
Proof.
  intros Hq c Hc. eapply sends_quiet; [exact Hc|]. split; [done..|by rewrite app_nil_r|]. exists [EvCmd cli q]. split; [done|].
  destruct q; try done. by destruct (Hq id).
Qed.
Lemma modify_sends c0 es l (f : ClusterManager P → ClusterManager P) :
  (∀ c, sends c [] [] (f c)) → pres (sends c0 es l) (gomodify f).
Proof. intros Hf c Hc. eapply sends_quiet; [exact Hc|apply Hf]. Qed.
(** A refresh of the roles sends none, and keeps the table. *)
Lemma GetClusterNodes_sends c0 es l node cl : pres (sends c0 es l) (CM.GetClusterNodes node cl).
Proof.
  unfold CM.GetClusterNodes. intros c Hc. case_decide; [done|]. revert c Hc H.
  intros c Hc _. revert c Hc. fold (pres (sends c0 es l) (client ← gowrap (Wrapf "failed to create Redis client")
       (gocall (CreateRedisClient (ClientConnAddr node)));
     r ← CM.call client ClusterNodes;
     nodesInfo ← CM.goResult (Wrapf "failed to get cluster nodes") (asStr r);
     CM.ParseRedisClusterNodes nodesInfo cl)).
  apply pres_bind; [pres_tac|intros client]. apply pres_bind; [by apply call_sends|intros r].
  apply pres_bind; [by intros c Hc; destruct (asStr r)|intros info].
  intros c Hc. unfold CM.ParseRedisClusterNodes. destruct (ParseClusterNodeLines _ _) as [parsed failed].
  apply pres_bind; [|intros; apply pres_ret|exact Hc]. case_decide; [apply pres_ret|].
  intros c1 Hc1. unfold CM.forgetFailedClusterNodes. case_decide; [done|]. destruct (list_find _ _) as [[i n]|]; [|done].
  cbn [CreateRedisClient]. apply pres_foreach; [|exact Hc1]. intros id. apply pres_bind; [by apply call_sends|intros; apply pres_ret].
Qed.
Lemma UpdateAfterSetNodeRole_sends c0 es l node cl : pres (sends c0 es l) (CM.UpdateAfterSetNodeRole node cl).
Proof.
  unfold CM.UpdateAfterSetNodeRole, CM.buildMasterSlaveTopology, CM.addMaster.
  repeat first [apply GetClusterNodes_sends | apply modify_sends; intros; apply sends_still; done | solve [auto with go_pres] | pres_step].
  intros c Hc. unfold CM.addSlave. case_decide; [|done].
  eapply sends_quiet; [exact Hc|]. by apply sends_still.
Qed.

(** Making a node a slave sends one, to the node found for the address. *)
Definition addrOf c (ip : string) : string :=
  match GetNodeByHost (nodeManager c) ip with Some n => ClientConnAddr n | None => "" end.
Lemma SetNodeAsSlave_sends mip sip cl c c' :
  CM.SetNodeAsSlave mip sip cl c = (Ret tt, c') → sends c [] [(addrOf c sip, CM.idOf mip c)] c'.
Proof.
  unfold CM.SetNodeAsSlave. intros (cli & c1 & Hconn & Hrest)%gobind_Ret_inv.
  assert (cli = addrOf c sip ∧ c1 = c) as [-> ->].
  { revert Hconn. unfold CM.connectToSlaveNode, addrOf. destruct (GetNodeByHost _ _); [|done]. by intros [= <- <-]. }
  unfold mbind, GoM_bind, goget in Hrest. cbn [fst] in Hrest.
  set (q := ClusterReplicate _) in *. unfold CM.call in Hrest.
  assert (sends c [] [(addrOf c sip, CM.idOf mip c)] (log_event (EvCmd (addrOf c sip) q) c)) as H1.
  { split; [done..|by rewrite app_nil_r|]. by exists [EvCmd (addrOf c sip) q]. }
  destruct (asErr _); [done|]. destruct (CM.podNodes c) as [|n0 ns]; [done|].
  pose proof (UpdateAfterSetNodeRole_sends c [] [(addrOf c sip, CM.idOf mip c)] n0 cl _ H1) as H2. by rewrite Hrest in H2.
Qed.
End sends.

Section step.
Context {P : Type} {PM : PodManager P} {EV : Env} {os : OS}.
Implicit Types (w : World P) (tab : gmap string string).
Definition idIn tab (ip : string) : string := default "" (tab !! ip).

Lemma placeNewNode_eq nps st i node w tab :
  0 ≤ i → GetNodes (pods w) !! Z.to_nat i = Some node → ipToID (topo (cm w)) = tab →
  ∃ w1, placeNewNode nps st i w = (Ret (place (idIn tab) nps st node), w1) ∧
    sends (cm w) (omap (λ n, nodes (topo (cm w)) !! nodeID (idIn tab) n)
      (if decide ((if decide (st.1.1.1 = nps) then 0 else st.1.1.1) = 0) then [node] else [])) [] (cm w1).
Proof.
  intros Hi Hn <-. destruct st as [[[count mid] m2s] ips]. unfold placeNewNode, place. cbn [fst snd].
  unfold mbind, GoM_bind, goget. rewrite decide_False by lia. rewrite Hn. cbn [goderef].
  change (CM.NodeIDByIP (rn_ConIp node) (cm w)) with (idIn (ipToID (topo (cm w))) (rn_ConIp node)).
  set (id := idIn _ _). set (n0 := if decide (count = nps) then 0 else count). case_decide as Hz.
  - unfold onCM, golift, CM.AddNewMaster. cbn. change (nodeID (idIn (ipToID (topo (cm w)))) node) with id.
    destruct (nodes (topo (cm w)) !! id) as [l|] eqn:El; cbn; (eexists; split; [done|]); split; cbn; try done;
      try (by exists []; rewrite app_nil_r); by rewrite app_nil_r.
  - eexists. split; [done|]. by apply sends_still.
Qed.
Lemma gofold_place nps l st i w tab :
  0 ≤ i → ipToID (topo (cm w)) = tab →
  (∀ j n, l !! j = Some n → GetNodes (pods w) !! (Z.to_nat i + j)%nat = Some n) →
  ∃ w1, gofold (placeNewNode nps) st (seqZ i (Z.of_nat (length l))) w = (Ret (foldl (place (idIn tab) nps) st l), w1) ∧
    sends (cm w) (omap (λ n, nodes (topo (cm w)) !! nodeID (idIn tab) n) (placedMasters (idIn tab) nps st l)) [] (cm w1).
Proof.
  revert st i w. induction l as [|n l IH]; intros st i w Hi Htab Hl; cbn [length foldl placedMasters].
  { exists w. split; [done|]. by apply sends_still. }
  rewrite seqZ_cons by lia. cbn [gofold].
  destruct (placeNewNode_eq nps st i n w tab Hi) as (w1 & Hw1 & Hs1); [|done|].
  { specialize (Hl 0%nat n eq_refl). by rewrite Nat.add_0_r in Hl. }
  destruct (IH (place (idIn tab) nps st n) (i + 1) w1) as (w2 & Hw2 & Hs2); [lia|by rewrite (s_ips _ _ _ _ Hs1)| |].
  { intros j n' Hj. unfold pods. rewrite (s_pods _ _ _ _ Hs1). rewrite <- (Hl (S j) n' Hj). f_equal. lia. }
  exists w2. split.
  - eapply gobind_Ret; [exact Hw1|]. replace (Z.pred (Z.of_nat (S (length l)))) with (Z.of_nat (length l)) by lia.
    exact Hw2.
  - rewrite omap_app. rewrite (s_nodes _ _ _ _ Hs1) in Hs2. exact (sends_trans _ _ _ _ _ _ _ Hs1 Hs2).
Qed.
(** A loop of commands sends what its turns send. *)
Lemma goforeach_sends {A} (body : A → GoM (World P) unit) (f : A → list (string * string)) c0 l w w' :
  (∀ x w w', x ∈ l → nodeManager (cm w) = nodeManager c0 → ipToID (topo (cm w)) = ipToID (topo c0) →
     body x w = (Ret tt, w') → sends (cm w) [] (f x) (cm w')) →
  nodeManager (cm w) = nodeManager c0 → ipToID (topo (cm w)) = ipToID (topo c0) →
  goforeach body l w = (Ret tt, w') → sends (cm w) [] (l ≫= f) (cm w').
Proof.
  revert w. induction l as [|x l IH]; intros w Hb Hp Hi; cbn [goforeach].
  { intros [= <-]. by apply sends_still. }
  intros ([] & w1 & H1 & H2)%gobind_Ret_inv. cbn. pose proof (Hb x w w1 ltac:(set_solver) Hp Hi H1) as Hs.
  apply (sends_trans _ [] _ (cm w1) []); [done|]. apply IH; [intros; eapply Hb; eauto; set_solver| | |done].
  - by rewrite (s_pods _ _ _ _ Hs).
  - by rewrite (s_ips _ _ _ _ Hs).
Qed.
End step.

Module ScaleTheorems.
Section theorems.
Context {P : Type} `{PodManagerLaws P} `{EnvLaws} {os : OS}.

(** C13: the new shards.  When the set-roles step of a scale-out succeeds, the new containers, the
    last ones of the backend, are cut into groups of [nodesPerShard]: the REPLICATE commands
    sent, in whatever order, are exactly one per container that is not the first of its group,
    sent to that container and naming the first of its group; and the empty masters, to which
    slots are going to be migrated, are the first ones, in order.  (The new containers have
    different ids, and there are as many as the step assumes.) *)
Theorem new_shards_formed shards nps cl (w w' : World P) :
  0 < nps → 0 ≤ shards → pods_ok (pods w) → in_int64 (Z.of_nat (length (GetNodes (pods w)))) →
  shards * nps ≤ Z.of_nat (length (GetNodes (pods w))) →
  let new := drop (length (GetNodes (pods w)) - Z.to_nat (shards * nps)) (GetNodes (pods w)) in
  let id n := CM.idOf (rn_ConIp n) (cm w) in
  NoDup (id <$> new) →
  setNewRoles shards nps cl w = (Ret tt, w') →
  (∃ evs, hist (cm w') = hist (cm w) ++ evs ∧
     replications evs ≡ₚ (λ ms, (addrOf (cm w) (rn_ConIp ms.2), id ms.1)) <$> pairsOf (Z.to_nat nps) new) ∧
  empty (topo (cm w')) = omap (λ n, nodes (topo (cm w)) !! id n) (headsFrom (Z.to_nat nps) 0 new).
Proof.
  intros Hk Hs Hok Hint Hsum new id Hnd. set (tab := ipToID (topo (cm w))).
  assert (length new = Z.to_nat (shards * nps)) as Hlen by (unfold new; rewrite length_drop; lia).
  unfold setNewRoles, onCM, golift. unfold mbind at 1, GoM_bind at 1, CM.ResetEmptyMasters, gomodify.
  set (w0 := set_cm _ w). unfold mbind at 1, GoM_bind at 1, goget at 1.
  change (pods w0) with (pods w). rewrite GetNodeCount_length by done.
  rewrite (int64_id (shards * nps)) by (unfold in_int64, minInt in *; lia). rewrite int64_id by (unfold in_int64, minInt in *; lia).
  rewrite <- (Z2Nat.id (shards * nps)), <- Hlen by lia.
  destruct (gofold_place nps new (0, "", ∅, ∅) (Z.of_nat (length (GetNodes (pods w))) - Z.of_nat (length new)) w0 tab)
    as (w1 & Hw1 & Hs1); [lia|done| |].
  { intros j n Hj. unfold new in Hj. rewrite lookup_drop in Hj. rewrite <- Hj. f_equal. lia. }
  pose proof (placed_all (idIn tab) nps new Hk Hnd) as Hpl.
  pose proof (placedMasters_heads (idIn tab) nps [] new Hk Hnd) as Hheads. cbn [foldl length] in Hheads.
  destruct (foldl (place (idIn tab) nps) (0, "", ∅, ∅) new) as [[[count mid] m2s] ips].
  destruct Hpl as [_ _ _ Hedges Hips]. cbn [fst snd] in *.
  intros (st & w1' & Hf & Hrest)%gobind_Ret_inv. rewrite Hw1 in Hf. injection Hf as <- <-.
  unfold mbind, GoM_bind, goget in Hrest.
  set (f := λ ms : string * string, (addrOf (cm w) (default "" (ips !! ms.2)), idIn tab (default "" (ips !! ms.1)))).
  assert (nodeManager (cm w1) = nodeManager (cm w)) as Hp1 by by rewrite (s_pods _ _ _ _ Hs1).
  assert (ipToID (topo (cm w1)) = tab) as Hi1 by by rewrite (s_ips _ _ _ _ Hs1).
  eapply (goforeach_sends _ (λ k, f <$> edgesOf (k, default [] (m2s !! k))) (cm w)) in Hrest as Hs2; [|clear Hrest|done..].
  - pose proof (sends_trans _ _ _ _ _ _ _ Hs1 Hs2) as [_ _ _ He (evs & Hev & Hreps)]. cbn in Hreps. split.
    + exists evs. split; [exact Hev|]. rewrite Hreps.
      rewrite fmap_bind_list, (edges_by_key m2s) by apply range_order_perm. rewrite Hedges, pairsOf_fmap.
      rewrite <- list_fmap_compose. erewrite list_fmap_ext_elem; [reflexivity|]. intros [m x] [Hm Hx]%pairsOf_listed.
      unfold f. cbn. by rewrite (Hips x Hx), (Hips m Hm).
    + rewrite He, Hheads, app_nil_r. done.
  - intros k w2 w3 _ Hp Hi Hloop.
    unfold edgesOf. cbn [fst snd]. rewrite <- list_fmap_compose, <- bind_singles.
    eapply (goforeach_sends _ _ (cm w)); [|exact Hp|exact Hi|exact Hloop].
    intros x w4 w5 _ Hp4 Hi4 Hx. unfold onCM, golift in Hx.
    destruct (CM.SetNodeAsSlave _ _ cl (cm w4)) as [r c5] eqn:E. injection Hx as -> <-.
    apply SetNodeAsSlave_sends in E. unfold f, addrOf, CM.idOf, idIn in *. cbn. by rewrite Hp4, Hi4 in E.
Qed.
End theorems.
End ScaleTheorems.

(** Two new containers make one shard: the second replicates the first. *)
Module ScaleWitness.
Import Fixtures.
#[local] Existing Instance demo_env.
#[local] Instance demo_env_laws : EnvLaws.
Proof. by intros h l. Qed.
#[local] Instance steady_os : OS := λ _ _, None.
Definition met_world : World (list RuntimeNode) := mkWorld demo_met (Store.empty_db "t0") ∅ ∅ [].
Definition formed : World (list RuntimeNode) := (setNewRoles 1 2 "cl" met_world).2.
Lemma new_shards_formed_witness :
  ∃ evs, hist (cm formed) = hist (cm met_world) ++ evs ∧ replications evs ≡ₚ [("127.0.0.1:7002", "a")].
Proof.
  exact (proj1 (ScaleTheorems.new_shards_formed 1 2 "cl" met_world formed ltac:(lia) ltac:(lia) I
    ltac:(split; vm_compute; discriminate) ltac:(vm_compute; discriminate)
    ltac:(apply (bool_decide_unpack _); vm_compute; exact I) ltac:(vm_compute; reflexivity))).
Defined.
End ScaleWitness.
