(* ===== verification/PeerCache.v ===== *)
(** * The local cache, the peer registry and hot-key detection

    [cache/byteView.go], [cache/cache.go], [cache/hotkey.go] and [cache/peer/registry.go].
    Bytes are strings; the clock and the results of dialling a peer are arguments. *)
From S2P Require Import Prelude GoStrings Lru LruRefine ConsistentHash.

(** ** [ByteView] and [cacheEntry] *)
Record ByteView : Type := mkByteView { b : string }.
Definition cloneBytes (s : string) : string := s.
Definition ByteSlice (v : ByteView) : string := cloneBytes (b v).
#[global] Instance ByteView_Value : Value ByteView := λ v, strlen (b v).

Record cacheEntry : Type := mkCacheEntry { value : ByteView; expiresAt : option Z }.
#[global] Instance cacheEntry_Value : Value cacheEntry := λ e, Len (value e).
#[global] Instance cacheEntry_ValueLaws : ValueLaws cacheEntry.
Proof. intros e. apply strlen_nonneg. Qed.
(** A zero time never expires. *)
Definition expired (now : Z) (e : cacheEntry) : bool :=
  match expiresAt e with None => false | Some t => bool_decide (t < now) end.

(** ** [cache]: a lazily created LRU behind a lock *)
Module BCache.
Record cache : Type := mkC { lru : option (Lru.Cache cacheEntry); cacheBytes : Z }.
Definition newCache (maxBytes : Z) : cache := mkC None maxBytes.

(** Run an operation of the LRU, created first if it is not there. *)
Definition onLru {A} (m : GoM (Lru.Cache cacheEntry) A) : GoM cache A := λ c,
  let l := default (Lru.New (cacheBytes c) false) (lru c) in
  let '(r, l') := m l in (r, mkC (Some l') (cacheBytes c)).

Definition add (key : string) (v : ByteView) : GoM cache unit := onLru (Lru.Add key (mkCacheEntry v None)).
Definition addWithTTL (now : Z) (key : string) (v : ByteView) (ttl : Z) : GoM cache unit :=
  onLru (Lru.Add key (mkCacheEntry v (Some (now + ttl)))).
Definition get (now : Z) (key : string) : GoM cache (option ByteView) := λ c,
  match lru c with
  | None => (Ret None, c)
  | Some _ =>
      (r ← onLru (Lru.Get key);
       match r with
       | Some entry =>
           if expired now entry then _ ← onLru (Lru.Remove key); mret None
           else mret (Some (value entry))
       | None => mret None
       end) c
  end.
Definition delete (key : string) : GoM cache unit := λ c,
  match lru c with
  | None => (Ret tt, c)
  | Some _ => (_ ← onLru (Lru.Remove key); mret tt) c
  end.
Definition purge : GoM cache unit := gomodify (λ c, mkC None (cacheBytes c)).
End BCache.

(** ** [Registry]: membership events drive the ring *)
Module Reg.
Definition defaultReplicas : Z := 50.
Record Registry : Type := mkRegistry {
  localAddr : string;
  hashRing : CH.Map;
  grpcGetters : gset string;       (* addresses with a gRPC client *)
  running : bool }.

(** What [NewRegistry] builds, before any event. *)
Definition NewRegistry (localCacheAddr : string) (hash : option CH.Hash) : Registry :=
  mkRegistry localCacheAddr (CH.Add [localCacheAddr] (CH.New defaultReplicas hash)) ∅ true.

Definition addToRing (dialable : string → bool) (addr : string) (r : Registry) : Registry :=
  if decide (addr ∈ grpcGetters r) then r
  else if dialable addr then
    mkRegistry (localAddr r) (CH.Add [addr] (hashRing r)) ({[addr]} ∪ grpcGetters r) (running r)
  else r.
Definition removeFromRing (addr : string) (r : Registry) : Registry :=
  mkRegistry (localAddr r) (CH.Remove addr (hashRing r)) (grpcGetters r ∖ {[addr]}) (running r).

Inductive NodeEvent : Type := NodeJoin (name : string) | NodeLeave (name : string) | NodeUpdate (name : string).
Definition handleJoin := addToRing.
Definition handleLeave := removeFromRing.
Definition processEvent (dialable : string → bool) (r : Registry) (e : NodeEvent) : Registry :=
  match e with
  | NodeJoin n => handleJoin dialable n r
  | NodeLeave n => handleLeave n r
  | NodeUpdate _ => r
  end.
Definition processEvents (dialable : string → bool) (es : list NodeEvent) (r : Registry) : Registry :=
  foldl (processEvent dialable) r es.

Definition LocalAddr (r : Registry) : string := localAddr r.
Definition PickPeer (key : string) (r : Registry) : option string :=
  let addr := CH.Get key (hashRing r) in
  if decide (addr = "" ∨ addr = localAddr r) then None
  else if decide (addr ∈ grpcGetters r) then Some addr else None.
Definition PickPeerWithFallback (key : string) (n : Z) (r : Registry) : outcome (list string) :=
  match CH.GetN key n (hashRing r) with
  | Ret candidates =>
      Ret (filter (λ addr, addr ≠ localAddr r ∧ addr ∈ grpcGetters r) candidates)
  | Fail e => Fail e
  | Panic p => Panic p
  | OutOfFuel => OutOfFuel
  end.
(** In the order the map is ranged over. *)
Definition All (order : list string → list string) (r : Registry) : list string :=
  filter (λ addr, addr ≠ localAddr r) (order (elements (grpcGetters r))).
(** [leaving] are the events the gossip library sends while it leaves, [leaveErr] its result.
    The channel of events is closed first: closing it twice panics, and so does a send on it
    afterwards.  The clients are closed but stay in the map. *)
Definition Stop (leaving : list NodeEvent) (leaveErr : option error) : GoM Registry unit := λ r,
  if running r then
    (match leaving, leaveErr with
     | _ :: _, _ => Panic "send on closed channel"
     | [], Some err => Fail err
     | [], None => Ret tt
     end, mkRegistry (localAddr r) (hashRing r) (grpcGetters r) false)
  else (Panic "close of closed channel", r).
End Reg.

(** ** [HotKeyTracker]

    Calls are one at a time: [Record] is counter update and check together.  The registry
    pointer the tracker holds is the one its group holds ([Run] hands the same to both), so
    it is an argument here. *)
Module Hot.
Record HotKeyConfig : Type := mkHotKeyConfig { Threshold : Z; SampleWindow : Z; CoolDown : Z; Replicas : Z }.
Definition second : Z := 1000000000.
Definition DefaultHotKeyConfig : HotKeyConfig := mkHotKeyConfig 100 (10 * second) (60 * second) 2.

Record HotKeyTracker : Type := mkTracker {
  counters : gmap string Z;
  hotKeys : gmap string Z;          (* key -> time of the last detection *)
  threshold : Z;
  sampleWindow : Z;
  cooldown : Z;
  replicas : Z;
  trackerAddr : string }.
Definition NewHotKeyTracker (cfg : HotKeyConfig) (localAddr : string) : HotKeyTracker :=
  mkTracker ∅ ∅ (Threshold cfg) (SampleWindow cfg) (CoolDown cfg) (Replicas cfg) localAddr.
Definition set_counters (m : gmap string Z) (t : HotKeyTracker) : HotKeyTracker :=
  mkTracker m (hotKeys t) (threshold t) (sampleWindow t) (cooldown t) (replicas t) (trackerAddr t).
Definition set_hotKeys (m : gmap string Z) (t : HotKeyTracker) : HotKeyTracker :=
  mkTracker (counters t) m (threshold t) (sampleWindow t) (cooldown t) (replicas t) (trackerAddr t).

Definition checkHot (now : Z) (key : string) (count : Z) (t : HotKeyTracker) : bool * HotKeyTracker :=
  match counters t !! key with
  | None => (false, t)
  | Some _ =>
      if decide (threshold t ≤ count) then
        match hotKeys t !! key with
        | None => (true, set_hotKeys (<[key := now]> (hotKeys t)) t)
        | Some _ => (false, set_hotKeys (<[key := now]> (hotKeys t)) t)
        end
      else (false, t)
  end.
Definition Record_ (now : Z) (key : string) (t : HotKeyTracker) : bool * HotKeyTracker :=
  let n := int64 (default 0 (counters t !! key) + 1) in
  let t := set_counters (<[key := n]> (counters t)) t in
  if decide (Z.rem n 64 ≠ 0) then (false, t) else checkHot now key n t.
Definition IsHot (key : string) (t : HotKeyTracker) : bool :=
  bool_decide (is_Some (hotKeys t !! key)).
Definition ReplicateCandidates (registry : option Reg.Registry) (key : string) (t : HotKeyTracker)
    : outcome (list string) :=
  match registry with
  | None => Ret []
  | Some reg =>
      match Reg.PickPeerWithFallback key (replicas t + 1) reg with
      | Ret peers => Ret (filter (λ addr, addr ≠ trackerAddr t) peers)
      | Fail e => Fail e
      | Panic p => Panic p
      | OutOfFuel => OutOfFuel
      end
  end.
Definition prune (now : Z) (t : HotKeyTracker) : HotKeyTracker :=
  let cs := filter (λ kv, is_Some (hotKeys t !! kv.1)) ((λ _, 0) <$> counters t) in
  let hs := filter (λ kv, ¬ cooldown t < now - kv.2) (hotKeys t) in
  set_hotKeys hs (set_counters cs t).
(** The background loop: the ticker fires at a time, or the tracker is stopped.  A ticker
    needs a positive period. *)
Inductive loopEvent : Type := Tick (now : Z) | StopCh.
Fixpoint loop (es : list loopEvent) (t : HotKeyTracker) : HotKeyTracker :=
  match es with
  | Tick now :: es => loop es (prune now t)
  | StopCh :: _ | [] => t
  end.
Definition pruneLoop (es : list loopEvent) (t : HotKeyTracker) : outcome HotKeyTracker :=
  if decide (sampleWindow t ≤ 0) then Panic "non-positive interval for NewTicker" else Ret (loop es t).
End Hot.
