(* ===== verification/CacheGroup.v ===== *)
(** * Cache groups

    [cache/geecache.go] (the read, write and load paths of a group), [cache/invalidator.go] and
    the service adapter and broadcast of [cache/http.go].  Many processes are modelled at
    once: a world maps a process and a group name to the group, so that one process's peer
    request can be answered by the group of another.

    Requests to peers go through [peerGet], an argument.  The source of truth, the rate
    limiter and the order of map iteration are an oracle on the log of what happened so far.
    Pushes and invalidations are sent by goroutines nobody waits for: they are logged when
    they are started. *)
From S2P Require Import Prelude GoStrings Lru LruRefine ConsistentHash PeerCache.

Inductive cevent : Type :=
  | EvPeerGet (from to group key : string)
  | EvPush (from to group key val : string)
  | EvInvalidateKey (from to group key : string)
  | EvLoad (from group key : string).
#[global] Instance cevent_eq_dec : EqDecision cevent.
Proof. solve_decision. Defined.

Class CacheEnv : Type := {
  getter : list cevent → string → string → string + error;     (* process, key *)
  dbWait : list cevent → option error;                         (* the limiter's answer *)
  all_order : list string → list string }.

Record Group : Type := mkGroup {
  g_name : string;
  mainCache : BCache.cache;
  g_registry : option Reg.Registry;
  replicationFactor : Z;
  hotTracker : option Hot.HotKeyTracker;
  dbLimiter : bool;
  cacheDirty : bool;
  peers : bool (* is a picker registered? *) }.
Definition defaultReplicationFactor : Z := 2.

Record World : Type := mkWorld { procs : gmap (string * string) Group; log : list cevent; now : Z }.

Module CacheGroup.
Section group.
Context `{CacheEnv}.
Context (peerGet : string → string → string → GoM World string).   (* address, group, key *)
Abbreviation M := (GoM World).
Abbreviation Me := (string * string)%type.                          (* process, group *)
Implicit Types me : Me.

(** ** Construction and setters *)
Definition NewGroup (me : Me) (cacheBytes : Z) (hasGetter : bool) : M unit :=
  if hasGetter then
    gomodify (λ w, mkWorld
      (<[me := mkGroup me.2 (BCache.newCache cacheBytes) None defaultReplicationFactor None false false false]>
         (procs w)) (log w) (now w))
  else gofail (Errorf "nil Getter").

Definition getG me : M Group := λ w, goderef "nil group" (procs w !! me) w.
Definition setG me (g : Group) : M unit :=
  gomodify (λ w, mkWorld (<[me := g]> (procs w)) (log w) (now w)).
Definition tell (e : cevent) : M unit := gomodify (λ w, mkWorld (procs w) (log w ++ [e]) (now w)).

Definition set_mainCache (c : BCache.cache) (g : Group) : Group :=
  mkGroup (g_name g) c (g_registry g) (replicationFactor g) (hotTracker g) (dbLimiter g) (cacheDirty g) (peers g).
Definition set_dirty (d : bool) (g : Group) : Group :=
  mkGroup (g_name g) (mainCache g) (g_registry g) (replicationFactor g) (hotTracker g) (dbLimiter g) d (peers g).
Definition set_hot (t : option Hot.HotKeyTracker) (g : Group) : Group :=
  mkGroup (g_name g) (mainCache g) (g_registry g) (replicationFactor g) t (dbLimiter g) (cacheDirty g) (peers g).
Definition onCache {A} me (m : GoM BCache.cache A) : M A :=
  g ← getG me;
  let '(r, c) := m (mainCache g) in
  _ ← setG me (set_mainCache c g);
  gocall r.

Definition RegisterPeers me : M unit :=
  g ← getG me;
  if peers g then gofail (Errorf ("peer picker already registered for group " +:+ Quote (g_name g)))
  else setG me (mkGroup (g_name g) (mainCache g) (g_registry g) (replicationFactor g) (hotTracker g)
                  (dbLimiter g) (cacheDirty g) true).
Definition SetRegistry me (r : Reg.Registry) : M unit :=
  g ← getG me;
  setG me (mkGroup (g_name g) (mainCache g) (Some r) (replicationFactor g) (hotTracker g) (dbLimiter g)
             (cacheDirty g) (peers g)).
Definition SetReplicationFactor me (n : Z) : M unit :=
  g ← getG me;
  setG me (mkGroup (g_name g) (mainCache g) (g_registry g) (if decide (n < 1) then 1 else n) (hotTracker g)
             (dbLimiter g) (cacheDirty g) (peers g)).
Definition SetHotKeyTracker me (t : Hot.HotKeyTracker) : M unit := g ← getG me; setG me (set_hot (Some t) g).
Definition SetDBLimiter me : M unit :=
  g ← getG me;
  setG me (mkGroup (g_name g) (mainCache g) (g_registry g) (replicationFactor g) (hotTracker g) true
             (cacheDirty g) (peers g)).
Definition markSlotMigrated me (slot : Z) : M unit := g ← getG me; setG me (set_dirty true g).

(** ** Replication *)
Definition candidatesOf (g : Group) (key : string) (n : Z) : M (list string) :=
  match g_registry g with
  | None => mret []
  | Some r => gocall (Reg.PickPeerWithFallback key n r)
  end.
(** The loop pushes to the first candidate that is not this node, and breaks. *)
Definition replicateToSecondaries me (key : string) (v : ByteView) : M unit :=
  g ← getG me;
  match g_registry g with
  | None => mret tt
  | Some r =>
      if decide (replicationFactor g < 2) then mret tt
      else
        candidates ← gocall (Reg.PickPeerWithFallback key (replicationFactor g) r);
        match filter (λ a, a ≠ Reg.LocalAddr r) candidates with
        | [] => mret tt
        | pg :: _ => tell (EvPush me.1 pg (g_name g) key (ByteSlice v))
        end
  end.
Definition replicateIfHot me (key : string) (v : ByteView) : M unit :=
  g ← getG me;
  match hotTracker g with
  | None => mret tt
  | Some t =>
      if Hot.IsHot key t then
        candidates ← gocall (Hot.ReplicateCandidates (g_registry g) key t);
        goforeach (λ addr,
          match g_registry g with
          | None => gopanic "nil registry"
          | Some r => if decide (addr ∈ Reg.All all_order r)
                      then tell (EvPush me.1 addr (g_name g) key (ByteSlice v))
                      else mret tt
          end) candidates
      else mret tt
  end.

(** ** Loading *)
Definition populateCache me (key : string) (v : ByteView) : M unit := onCache me (BCache.add key v).
Definition fetchFromPeer me (pg key : string) : M ByteView :=
  g ← getG me;
  _ ← tell (EvPeerGet me.1 pg (g_name g) key);
  bytes ← peerGet pg (g_name g) key;
  let v := mkByteView bytes in
  _ ← populateCache me key v;
  mret v.
Definition getLocally me (key : string) : M ByteView :=
  g ← getG me;
  w ← goget;
  _ ← (if dbLimiter g then
         match dbWait (log w) with
         | Some err => gofail (Wrapf "db load rate limited" err)
         | None => mret tt
         end
       else mret tt);
  _ ← tell (EvLoad me.1 (g_name g) key);
  match getter (log w) me.1 key with
  | inr err => gofail err
  | inl bytes =>
      let v := mkByteView (cloneBytes bytes) in
      _ ← populateCache me key v;
      _ ← replicateToSecondaries me key v;
      _ ← replicateIfHot me key v;
      mret v
  end.
(** Peers in turn, the first answer wins; then this node's own source. *)
Fixpoint tryPeers me (key : string) (candidates : list string) : M ByteView :=
  match candidates with
  | [] => getLocally me key
  | pg :: rest =>
      r ← gotry (fetchFromPeer me pg key);
      match r with
      | inl v => mret v
      | inr _ => tryPeers me key rest
      end
  end.
(** The function handed to [loader.Do], which runs it for every caller (see [SingleFlight.v]). *)
Definition load me (key : string) : M ByteView :=
  g ← getG me;
  candidates ← candidatesOf g key (replicationFactor g);
  tryPeers me key candidates.

(** ** Reading

    Each operation on a group runs as a whole.  In the code the dirty mark is taken by an
    atomic swap and the cache is purged after it, so that a concurrent read between the two
    can still be answered from the old cache; such interleavings of reads of one group are not
    modelled, and the theorems on reads speak of calls made one after another. *)
Definition recordHot me (key : string) : M unit :=
  g ← getG me;
  w ← goget;
  match hotTracker g with
  | None => mret tt
  | Some t => setG me (set_hot (Some (Hot.Record_ (now w) key t).2) g)
  end.
Definition Get me (key : string) : M ByteView :=
  if decide (key = "") then gofail (Errorf "key is required")
  else
    _ ← recordHot me key;
    g ← getG me;
    _ ← (if cacheDirty g then _ ← setG me (set_dirty false g); onCache me BCache.purge else mret tt);
    w ← goget;
    r ← onCache me (BCache.get (now w) key);
    match r with
    | Some v => mret v
    | None => load me key
    end.

(** ** Writing *)
Definition BroadcastInvalidation (from : string) (r : Reg.Registry) (groupName key : string) : M unit :=
  goforeach (λ addr, tell (EvInvalidateKey from addr groupName key)) (Reg.All all_order r).
Definition Delete me (key : string) : M unit :=
  _ ← onCache me (BCache.delete key);
  g ← getG me;
  match g_registry g with
  | None => mret tt
  | Some r => BroadcastInvalidation me.1 r (g_name g) key
  end.
Definition DeleteLocal me (key : string) : M unit := onCache me (BCache.delete key).
Definition StoreReplica me (key : string) (v : ByteView) : M unit := onCache me (BCache.add key v).

(** ** The service a peer offers *)
Definition adapterGet (addr groupName key : string) : M string := λ w,
  match procs w !! (addr, groupName) with
  | None => (Fail (Errorf ("no such group: " +:+ groupName)), w)
  | Some _ => (v ← Get (addr, groupName) key; mret (ByteSlice v)) w
  end.
Definition adapterDelete (addr groupName key : string) : M unit := λ w,
  match procs w !! (addr, groupName) with
  | None => (Ret tt, w)
  | Some _ => DeleteLocal (addr, groupName) key w
  end.
Definition adapterPushReplica (addr groupName key val : string) : M unit := λ w,
  match procs w !! (addr, groupName) with
  | None => (Ret tt, w)
  | Some _ => StoreReplica (addr, groupName) key (mkByteView (cloneBytes val)) w
  end.

(** ** Invalidation after a slot migration *)
Definition InvalidateSlot (gs : list Me) (slot : Z) : M unit := goforeach (λ me, markSlotMigrated me slot) gs.
Definition InvalidateSlots (gs : list Me) (start end_ : Z) : M unit :=
  goforeach (λ me, goforeach (markSlotMigrated me) (range_incl start end_)) gs.
End group.

(** ** A cluster of caches

    A peer request is a call of the peer's own [Get], within a budget of nested requests.  In
    [grpc_client.go] each request has a deadline of three seconds of its own, counted from when
    it is sent, and none is passed on: how deep requests nest before the outermost one gives
    up depends on time, which the model does not have.  The budget bounds the depth instead,
    and it is the innermost request that fails here.  The theorems that use it hold for every
    budget or say which depth they need. *)
Fixpoint serve `{CacheEnv} (budget : nat) (addr groupName key : string) : GoM World string :=
  match budget with
  | O => gofail (Errorf "context deadline exceeded")
  | S k => adapterGet (serve k) addr groupName key
  end.
End CacheGroup.
