(* ===== verification/CacheProps.v ===== *)
(** * Cache groups: correctness

    What a group serves and from where; invalidation; replication; the registry's choice of
    peers; hot-key detection; and what happens when several processes ask each other. *)
From S2P Require Import Prelude GoStrings Lru LruRefine ConsistentHash PeerCache CacheGroup.
Import CacheGroup.

(** ** The byte cache as a partial map *)
Section bytecache.
Implicit Types c : BCache.cache.

(** The invariant: a well-formed LRU with the configured limit. *)
Definition bwf c : Prop :=
  0 ≤ BCache.cacheBytes c ∧
  match BCache.lru c with None => True | Some l => wf l ∧ Lru.maxBytes l = BCache.cacheBytes c end.
(** What a reader sees at a time. *)
Definition visible (t : Z) (key : string) c : option ByteView :=
  l ← BCache.lru c; e ← LruSpec.find_key key (absr l); if expired t e then None else Some (value e).

Lemma find_key_remove (l : list (Lru.entry cacheEntry)) k : LruSpec.find_key k (LruSpec.remove_key k l) = None.
Proof.
  induction l as [|e l IH]; [done|]. unfold LruSpec.remove_key in *. rewrite filter_cons. case_decide; [|done].
  cbn. by rewrite decide_False.
Qed.
Lemma find_key_remove_ne (l : list (Lru.entry cacheEntry)) k k' :
  k' ≠ k → LruSpec.find_key k' (LruSpec.remove_key k l) = LruSpec.find_key k' l.
Proof.
  intros Hne. induction l as [|e l IH]; [done|]. unfold LruSpec.remove_key in *. rewrite filter_cons.
  case_decide; cbn; case_decide; congruence.
Qed.

Lemma onLru_wf c : bwf c → wf (default (Lru.New (BCache.cacheBytes c) false) (BCache.lru c)) ∧
  Lru.maxBytes (default (Lru.New (BCache.cacheBytes c) false) (BCache.lru c)) = BCache.cacheBytes c.
Proof. intros [_ Hl]. destruct (BCache.lru c); [done|]. split; [apply Lru_wf_New|done]. Qed.

(** [get] answers what is visible and changes no visible value. *)
Lemma get_spec t key c :
  bwf c → ∃ c', BCache.get t key c = (Ret (visible t key c), c') ∧ bwf c' ∧
    BCache.cacheBytes c' = BCache.cacheBytes c ∧ ∀ k', visible t k' c' = visible t k' c.
Proof.
  intros Hc. unfold BCache.get, visible. destruct (BCache.lru c) as [l|] eqn:El; [|by exists c; rewrite El].
  destruct Hc as [Hb Hl]. rewrite El in Hl. destruct Hl as [Hw Hm].
  unfold mbind, GoM_bind, mret, GoM_ret, BCache.onLru. rewrite El. cbn.
  destruct (Get_refines l key Hw) as (l' & -> & Hw' & Ha' & Hm' & _).
  unfold LruSpec.get in *. destruct (LruSpec.find_key key (absr l)) as [e|] eqn:Ef; cbn in *.
  2:{ eexists. split_and!; [done|split; [exact Hb|split; [done|cbn; congruence]]|done|]. intros k'; cbn. by rewrite Ha'. }
  assert (∀ k', LruSpec.find_key k' (absr l') = LruSpec.find_key k' (absr l)) as Hsame.
  { intros k'. rewrite Ha'. cbn. case_decide as Hk; [by subst|]. by apply find_key_remove_ne. }
  destruct (expired t e) eqn:Ex; cbn.
  - destruct (Remove_refines l' key Hw') as (l2 & -> & Hw2 & Ha2 & Hm2). cbn.
    eexists. split_and!; [done|split; [exact Hb|split; [done|cbn; congruence]]|done|]. intros k'; cbn.
    rewrite Ha2. unfold LruSpec.remove. rewrite Hsame, Ef. cbn.
    destruct (decide (k' = key)) as [->|Hne].
    + rewrite find_key_remove, Ef. cbn. by rewrite Ex.
    + by rewrite find_key_remove_ne, Hsame.
  - eexists. split_and!; [done|split; [exact Hb|split; [done|cbn; congruence]]|done|]. intros k'; cbn. by rewrite Hsame.
Qed.

(** [add] succeeds, and the value is visible for ever if it fits the limit. *)
Lemma add_spec key v c :
  bwf c → ∃ c', BCache.add key v c = (Ret tt, c') ∧ bwf c' ∧
    (BCache.cacheBytes c = 0 ∨ strlen key + strlen (b v) ≤ BCache.cacheBytes c →
     ∀ t, visible t key c' = Some v).
Proof.
  intros Hc. destruct (onLru_wf c Hc) as [Hw Hm]. unfold BCache.add, BCache.onLru.
  set (l := default _ _) in *.
  destruct (Add_spec l key (mkCacheEntry v None) Hw) as (l' & -> & Hw' & Ha & Hm' & _).
  { rewrite Hm. apply Hc. }
  eexists. split_and!; [done|split; [apply Hc|split; [done|cbn; congruence]]|].
  intros Hfit t. unfold visible. cbn. rewrite Ha, Hm.
  edestruct (LruSpec.wtrim_front (BCache.cacheBytes c) (Lru.mkEntry key (mkCacheEntry v None))) as [l2 Hl2]; [exact Hfit|].
  rewrite Hl2. cbn. by rewrite decide_True.
Qed.
Lemma delete_spec key c :
  bwf c → ∃ c', BCache.delete key c = (Ret tt, c') ∧ bwf c' ∧
    ∀ t k', visible t k' c' = if decide (k' = key) then None else visible t k' c.
Proof.
  intros Hc. unfold BCache.delete, visible. destruct (BCache.lru c) as [l|] eqn:El.
  2:{ exists c. rewrite El. split_and!; [done..|]. intros. cbn. by case_decide. }
  destruct Hc as [Hb Hl]. rewrite El in Hl. destruct Hl as [Hw Hm].
  unfold mbind, GoM_bind, mret, GoM_ret, BCache.onLru. rewrite El. cbn.
  destruct (Remove_refines l key Hw) as (l2 & -> & Hw2 & Ha2 & Hm2). cbn.
  eexists. split_and!; [done|split; [exact Hb|split; [done|cbn; congruence]]|]. intros t k'. cbn. rewrite Ha2.
  unfold LruSpec.remove. destruct (LruSpec.find_key key (absr l)) as [e|] eqn:Ef; cbn.
  - case_decide as Hk; [subst; by rewrite find_key_remove|]. by rewrite find_key_remove_ne.
  - case_decide as Hk; [subst; by rewrite Ef|done].
Qed.
End bytecache.

(** ** Groups in a world *)
Section worlds.
Context `{CacheEnv} (peerGet : string → string → string → GoM World string).
Implicit Types w : World.

Definition put (me : string * string) (g : Group) w : World := mkWorld (<[me := g]> (procs w)) (log w) (now w).
Lemma put_lookup me g w : procs (put me g w) !! me = Some g.
Proof. cbn. apply lookup_insert_eq. Qed.
Lemma put_put me g1 g2 w : put me g2 (put me g1 w) = put me g2 w.
Proof. unfold put; cbn. by rewrite insert_insert_eq. Qed.
Lemma getG_eq me g w : procs w !! me = Some g → getG me w = (Ret g, w).
Proof. intros Hg. unfold getG. by rewrite Hg. Qed.
Lemma setG_eq me g w : setG me g w = (Ret tt, put me g w).
Proof. done. Qed.
Lemma onCache_eq {A} me g w (m : GoM BCache.cache A) r c :
  procs w !! me = Some g → m (mainCache g) = (r, c) → onCache me m w = (r, put me (set_mainCache c g) w).
Proof.
  intros Hg Hm. unfold onCache, mbind, GoM_bind. rewrite (getG_eq me g w Hg), Hm. cbn.
  unfold gocall. by destruct r.
Qed.

(** Counting a read touches nothing but the hot-key tracker. *)
Lemma recordHot_eq me g w key :
  procs w !! me = Some g →
  ∃ t, (∀ t', t = Some t' → ∃ t0, hotTracker g = Some t0 ∧ Hot.replicas t' = Hot.replicas t0) ∧
    recordHot me key w = (Ret tt, put me (set_hot t g) w).
Proof.
  intros Hg. unfold recordHot, mbind, GoM_bind, goget. rewrite (getG_eq me g w Hg).
  destruct (hotTracker g) as [t|] eqn:Et.
  { exists (Some (Hot.Record_ (now w) key t).2). split; [|done]. intros t' [= <-]. exists t. split; [done|].
    unfold Hot.Record_, Hot.checkHot. repeat case_match; done. }
  exists None. split; [done|].
  unfold mret, GoM_ret, put. do 2 f_equal. rewrite insert_id; [by destruct w|]. rewrite Hg. f_equal.
  destruct g; cbn in *. by subst.
Qed.

(** [Get] on a clean group: the byte cache first, then [load]. *)
Lemma Get_clean me g w key :
  key ≠ "" → procs w !! me = Some g → cacheDirty g = false → bwf (mainCache g) →
  ∃ g1, mainCache g1 = mainCache g ∧ g_registry g1 = g_registry g ∧ replicationFactor g1 = replicationFactor g ∧
    g_name g1 = g_name g ∧ dbLimiter g1 = dbLimiter g ∧ cacheDirty g1 = false ∧
    (∀ k, (∀ t, hotTracker g = Some t → k ≤ Hot.replicas t) → ∀ t, hotTracker g1 = Some t → k ≤ Hot.replicas t) ∧
    ∃ c', BCache.get (now w) key (mainCache g) = (Ret (visible (now w) key (mainCache g)), c') ∧ bwf c' ∧
    BCache.cacheBytes c' = BCache.cacheBytes (mainCache g) ∧
    Get peerGet me key w =
      match visible (now w) key (mainCache g) with
      | Some v => (Ret v, put me (set_mainCache c' g1) w)
      | None => load peerGet me key (put me (set_mainCache c' g1) w)
      end.
Proof.
  intros Hk Hg Hd Hc. destruct (recordHot_eq me g w key Hg) as (t' & Hrep & Hr).
  destruct (get_spec (now w) key (mainCache g) Hc) as (c' & Hget & Hc' & Hcb & _).
  exists (set_hot t' g). split_and!; [done..| |].
  { intros k Hk' t Et. destruct (Hrep t Et) as (t0 & Et0 & ->). by apply Hk'. }
  exists c'. split_and!; [done..|].
  unfold Get. rewrite decide_False by done. unfold mbind at 1, GoM_bind at 1. rewrite Hr.
  unfold mbind at 1, GoM_bind at 1. rewrite (getG_eq me (set_hot t' g)) by apply put_lookup.
  cbn [cacheDirty set_hot]. rewrite Hd. unfold mbind at 1, GoM_bind at 1, mret at 1, GoM_ret at 1.
  unfold goget at 1, mbind at 1, GoM_bind at 1. cbn [now put].
  unfold mbind at 1, GoM_bind at 1.
  rewrite (onCache_eq me (set_hot t' g) _ _ _ c' (put_lookup _ _ _) Hget), put_put.
  by destruct (visible (now w) key (mainCache g)).
Qed.
End worlds.

Module CacheTheorems.
Section theorems.
Context `{CacheEnv} (peerGet : string → string → string → GoM World string).
Implicit Types w : World.

(** Also: local hits.  A group whose cache has not been invalidated answers a read of a visible
    (present and unexpired) key with the cached value, and asks neither a peer nor the source
    of truth. *)
Theorem cached_value_served me g w key v :
  key ≠ "" → procs w !! me = Some g → cacheDirty g = false → bwf (mainCache g) →
  visible (now w) key (mainCache g) = Some v →
  (Get peerGet me key w).1 = Ret v ∧ log (Get peerGet me key w).2 = log w.
Proof.
  intros Hk Hg Hd Hc Hv. destruct (Get_clean peerGet me g w key Hk Hg Hd Hc)
    as (g1 & _ & _ & _ & _ & _ & _ & _ & c' & _ & _ & _ & ->). by rewrite Hv.
Qed.

(** Marking a slot makes the group dirty and leaves the others and the log alone. *)
Lemma markSlotMigrated_eq me g w slot :
  procs w !! me = Some g → markSlotMigrated me slot w = (Ret tt, put me (set_dirty true g) w).
Proof. intros Hg. unfold markSlotMigrated, mbind, GoM_bind. by rewrite (getG_eq me g w Hg). Qed.
Definition dirty w me : Prop := ∃ g, procs w !! me = Some g ∧ cacheDirty g = true.
Definition present w me : Prop := is_Some (procs w !! me).
(** [w'] has the same groups, and is dirty wherever [w] was. *)
Definition marks w w' : Prop :=
  log w' = log w ∧ (∀ me, present w me → present w' me) ∧ (∀ me, dirty w me → dirty w' me).
Lemma marks_trans w1 w2 w3 : marks w1 w2 → marks w2 w3 → marks w1 w3.
Proof. intros (L1 & P1 & D1) (L2 & P2 & D2). split_and!; [congruence|auto|auto]. Qed.
Lemma put_dirty_marks me g w : procs w !! me = Some g → marks w (put me (set_dirty true g) w).
Proof.
  intros Hg. split_and!; [done|..]; intros me'; unfold present, dirty; cbn;
    (destruct (decide (me = me')) as [<-|Hne];
      [rewrite lookup_insert_eq|rewrite lookup_insert_ne by done]); eauto.
Qed.
Lemma mark_slots me slots w :
  present w me → ∃ w', goforeach (markSlotMigrated me) slots w = (Ret tt, w') ∧ marks w w' ∧
    (slots ≠ [] → dirty w' me).
Proof.
  revert w. induction slots as [|s slots IH]; intros w [g Hg]; [by exists w|].
  cbn [goforeach]. unfold mbind, GoM_bind. rewrite (markSlotMigrated_eq me g w s Hg).
  destruct (IH (put me (set_dirty true g) w)) as (w' & -> & Hm & _); [by exists (set_dirty true g); apply put_lookup|].
  exists w'. split_and!; [done|by eapply marks_trans; [apply put_dirty_marks|]|]. intros _.
  apply Hm. exists (set_dirty true g). split; [apply put_lookup|done].
Qed.
Lemma invalidate_marks gs lo hi w :
  lo ≤ hi → Forall (present w) gs →
  ∃ w', InvalidateSlots gs lo hi w = (Ret tt, w') ∧ marks w w' ∧ Forall (dirty w') gs.
Proof.
  intros Hlo. unfold InvalidateSlots. revert w. induction gs as [|me gs IH]; intros w Hp.
  { exists w. split_and!; [done|by repeat split|constructor]. }
  apply Forall_cons in Hp as [Hme Hp]. cbn [goforeach]. unfold mbind, GoM_bind.
  destruct (mark_slots me (range_incl lo hi) w Hme) as (w1 & -> & Hm1 & Hd1).
  destruct (IH w1) as (w2 & -> & Hm2 & Hd2); [eapply Forall_impl; [exact Hp|apply Hm1]|].
  exists w2. split_and!; [done|by eapply marks_trans|]. constructor; [|done]. apply Hm2, Hd1.
  intros E. assert (lo ∈ range_incl lo hi) as Hin by (apply elem_of_range_incl; lia).
  rewrite E in Hin. by apply not_elem_of_nil in Hin.
Qed.

Lemma clean_eq me g1 w :
  (_ ← setG me g1; onCache me BCache.purge) w =
  (Ret tt, put me (set_mainCache (BCache.mkC None (BCache.cacheBytes (mainCache g1))) g1) w).
Proof.
  unfold mbind, GoM_bind. rewrite setG_eq.
  by rewrite (onCache_eq me g1 (put me g1 w) BCache.purge _ _ (put_lookup _ _ _) eq_refl), put_put.
Qed.

(** C19: after a slot migration nothing cached before is served.  [InvalidateSlots] over a
    non-empty range of slots succeeds on all its groups, and the next read of any key in any
    of these groups goes to [load] with an emptied cache. *)
Theorem invalidated_groups_reload gs lo hi w me key :
  lo ≤ hi → Forall (present w) gs → me ∈ gs → key ≠ "" →
  ∃ w1, InvalidateSlots gs lo hi w = (Ret tt, w1) ∧
  ∃ g2 w2, Get peerGet me key w1 = load peerGet me key w2 ∧ procs w2 !! me = Some g2 ∧
    BCache.lru (mainCache g2) = None ∧ cacheDirty g2 = false ∧ log w2 = log w.
Proof.
  intros Hlo Hp Hme Hk. destruct (invalidate_marks gs lo hi w Hlo Hp) as (w1 & Hi & (Hl & _) & Hd).
  exists w1. split; [done|]. rewrite Forall_forall in Hd. destruct (Hd me Hme) as (g & Hg & Hdirty).
  destruct (recordHot_eq me g w1 key Hg) as (t & _ & Hr).
  set (g1 := set_dirty false (set_hot t g)).
  exists (set_mainCache (BCache.mkC None (BCache.cacheBytes (mainCache g1))) g1).
  assert (BCache.get (now w1) key (BCache.mkC None (BCache.cacheBytes (mainCache g1))) =
    (Ret None, BCache.mkC None (BCache.cacheBytes (mainCache g1)))) as Hget by done.
  eexists. split_and!; [|apply put_lookup|done|done|exact Hl].
  unfold Get. rewrite decide_False by done. unfold mbind at 1, GoM_bind at 1. rewrite Hr.
  unfold mbind at 1, GoM_bind at 1. rewrite (getG_eq me (set_hot t g)) by apply put_lookup.
  cbn [cacheDirty set_hot]. rewrite Hdirty. unfold mbind at 1, GoM_bind at 1.
  rewrite (clean_eq me g1), put_put.
  unfold goget at 1, mbind at 1, GoM_bind at 1, mbind at 1, GoM_bind at 1. cbn [now put].
  erewrite (onCache_eq me (set_mainCache _ g1) _ (BCache.get (now w1) key)) by (apply put_lookup || exact Hget).
  by rewrite put_put.
Qed.

(** *** Loading: the candidates, the source, the replicas *)
Definition say (es : list cevent) w : World := mkWorld (procs w) (log w ++ es) (now w).
Lemma say_nil w : say [] w = w.
Proof. destruct w. unfold say. cbn. by rewrite app_nil_r. Qed.
Lemma say_say es1 es2 w : say es2 (say es1 w) = say (es1 ++ es2) w.
Proof. unfold say. cbn. by rewrite app_assoc. Qed.
(** The peers a group asks for a key. *)
Definition candidates (g : Group) (key : string) : list string :=
  match g_registry g with
  | None => []
  | Some r => match Reg.PickPeerWithFallback key (replicationFactor g) r with Ret cs => cs | _ => [] end
  end.
Definition pushed (me : string * string) (g : Group) (key : string) (v : ByteView) (a : string) : cevent :=
  EvPush me.1 a (g_name g) key (ByteSlice v).
Lemma fallback_total key n r : 0 ≤ n → ∃ cs, Reg.PickPeerWithFallback key n r = Ret cs.
Proof.
  intros Hn. unfold Reg.PickPeerWithFallback, CH.GetN. destruct (decide (length _ = 0)%nat); [by eexists|].
  rewrite decide_False by lia. by eexists.
Qed.
Lemma candidatesOf_eq g key w :
  0 ≤ replicationFactor g → candidatesOf g key (replicationFactor g) w = (Ret (candidates g key), w).
Proof.
  intros Hn. unfold candidatesOf, candidates. destruct (g_registry g) as [r|]; [|done].
  by destruct (fallback_total key (replicationFactor g) r Hn) as [cs ->].
Qed.
(** The first of them gets a copy, if the replication factor is at least two. *)
Lemma replicateToSecondaries_eq me g w key v :
  procs w !! me = Some g → 0 ≤ replicationFactor g →
  replicateToSecondaries me key v w =
    (Ret tt, say (if decide (replicationFactor g < 2) then [] else pushed me g key v <$> take 1 (candidates g key)) w).
Proof.
  intros Hg Hn. unfold replicateToSecondaries, candidates, mbind, GoM_bind. rewrite (getG_eq me g w Hg).
  destruct (g_registry g) as [r|]; [|case_decide; by rewrite say_nil]. case_decide; [by rewrite say_nil|].
  unfold gocall, Reg.PickPeerWithFallback. destruct (CH.GetN key (replicationFactor g) (Reg.hashRing r)) as [cs| | |] eqn:E.
  2-4: exfalso; destruct (fallback_total key (replicationFactor g) r Hn) as [? Hf];
    unfold Reg.PickPeerWithFallback in Hf; by rewrite E in Hf.
  rewrite list_filter_filter_r by (unfold Reg.LocalAddr; tauto).
  destruct (filter _ cs); cbn; [by rewrite say_nil|done].
Qed.
Lemma push_loop me g r key v as_ w :
  ∃ es, Forall (λ e, ∃ a, e = pushed me g key v a) es ∧
    goforeach (λ addr, if decide (addr ∈ Reg.All all_order r) then tell (pushed me g key v addr) else mret tt) as_ w
      = (Ret tt, say es w).
Proof.
  revert w. induction as_ as [|a as_ IH]; intros w; cbn [goforeach]; [by exists []; rewrite say_nil|].
  unfold mbind, GoM_bind. case_decide.
  - destruct (IH (say [pushed me g key v a] w)) as (es & Hes & Heq). exists (pushed me g key v a :: es).
    split; [constructor; [by eexists|done]|]. change (tell (pushed me g key v a) w) with (Ret tt, say [pushed me g key v a] w).
    cbv beta iota. by rewrite Heq, say_say.
  - apply IH.
Qed.
Lemma replicateIfHot_eq me g w key v :
  procs w !! me = Some g → (∀ t, hotTracker g = Some t → -1 ≤ Hot.replicas t) →
  ∃ es, Forall (λ e, ∃ a, e = pushed me g key v a) es ∧ replicateIfHot me key v w = (Ret tt, say es w).
Proof.
  intros Hg Ht. unfold replicateIfHot, mbind, GoM_bind. rewrite (getG_eq me g w Hg).
  destruct (hotTracker g) as [t|]; [|by exists []; rewrite say_nil]. specialize (Ht t eq_refl).
  destruct (Hot.IsHot key t); [|by exists []; rewrite say_nil]. unfold gocall, Hot.ReplicateCandidates.
  destruct (g_registry g) as [r|]; [|by exists []; rewrite say_nil].
  destruct (fallback_total key (Hot.replicas t + 1) r ltac:(lia)) as [cs ->]. apply push_loop.
Qed.

(** The source is asked, the answer is cached, offered to other nodes and returned. *)
Lemma getLocally_eq me g w key bytes :
  procs w !! me = Some g → bwf (mainCache g) → 0 ≤ replicationFactor g →
  (∀ t, hotTracker g = Some t → -1 ≤ Hot.replicas t) →
  (dbLimiter g = true → dbWait (log w) = None) → getter (log w) me.1 key = inl bytes →
  ∃ c' es, BCache.add key (mkByteView bytes) (mainCache g) = (Ret tt, c') ∧
    Forall (λ e, ∃ a, e = pushed me g key (mkByteView bytes) a) es ∧
    getLocally me key w =
      (Ret (mkByteView bytes),
       say (EvLoad me.1 (g_name g) key ::
            (if decide (replicationFactor g < 2) then [] else pushed me g key (mkByteView bytes) <$> take 1 (candidates g key)) ++
            es) (put me (set_mainCache c' g) w)).
Proof.
  intros Hg Hc Hn Ht Hl Hsrc. destruct (add_spec key (mkByteView bytes) (mainCache g) Hc) as (c' & Hadd & _).
  exists c'. unfold getLocally. unfold mbind at 1, GoM_bind at 1. rewrite (getG_eq me g w Hg).
  unfold goget at 1, mbind at 1, GoM_bind at 1.
  assert ((if dbLimiter g then match dbWait (log w) with Some err => gofail (Wrapf "db load rate limited" err)
            | None => mret tt end else mret tt) w = (Ret tt, w)) as Hlim by (destruct (dbLimiter g); [by rewrite Hl|done]).
  unfold mbind at 1, GoM_bind at 1. rewrite Hlim.
  unfold mbind at 1, GoM_bind at 1, tell, gomodify. rewrite Hsrc.
  unfold populateCache, cloneBytes, mbind, GoM_bind. set (w1 := mkWorld (procs w) _ _).
  rewrite (onCache_eq me g w1 _ _ c' Hg Hadd). set (g2 := set_mainCache c' g).
  rewrite (replicateToSecondaries_eq me g2) by (apply put_lookup || done).
  match goal with |- context [replicateIfHot _ _ _ ?w'] => set (w2 := w') end.
  destruct (replicateIfHot_eq me g2 w2 key (mkByteView bytes)) as (es & Hes & ->); [apply put_lookup|done|].
  exists es. split_and!; [done..|]. unfold mret, GoM_ret, w2. rewrite say_say. unfold say, put, w1. cbn.
  by rewrite <- !app_assoc.
Qed.
(** Candidates that cannot be reached are asked once each. *)
Lemma tryPeers_unreachable me g key cs w :
  procs w !! me = Some g → (∀ a w', a ∈ cs → ∃ e, peerGet a (g_name g) key w' = (Fail e, w')) →
  tryPeers peerGet me key cs w = getLocally me key (say ((λ a, EvPeerGet me.1 a (g_name g) key) <$> cs) w).
Proof.
  revert w. induction cs as [|a cs IH]; intros w Hg Hcs; cbn [tryPeers fmap list_fmap]; [by rewrite say_nil|].
  unfold mbind at 1, GoM_bind at 1, gotry, fetchFromPeer. unfold mbind at 1, GoM_bind at 1. rewrite (getG_eq me g w Hg).
  unfold mbind at 1, GoM_bind at 1.
  change (tell (EvPeerGet me.1 a (g_name g) key) w) with (Ret tt, say [EvPeerGet me.1 a (g_name g) key] w).
  cbv beta iota.
  unfold mbind at 1, GoM_bind at 1.
  destruct (Hcs a (say [EvPeerGet me.1 a (g_name g) key] w)) as [e ->]; [set_solver|].
  rewrite IH, say_say; [done|done|]. intros a' w' Ha'. apply Hcs. set_solver.
Qed.

(** C30: read-through.  In a group set up as the server sets it up (with or without a registry, a
    hot-key tracker and a limiter), a read of a key that is not visible in the clean cache,
    whose candidates cannot be reached (there may be none), asks each candidate once, in order,
    and then, if the limiter lets it, the source of truth, exactly once, and returns its
    answer; after that only copies of the answer are sent out, the first one to the first
    candidate if the replication factor is at least two.  If the entry fits the cache, the next
    read returns the same value and asks nobody. *)
Theorem miss_loads_then_hits me g w key bytes :
  key ≠ "" → procs w !! me = Some g → cacheDirty g = false → bwf (mainCache g) →
  visible (now w) key (mainCache g) = None →
  0 ≤ replicationFactor g → (∀ t, hotTracker g = Some t → -1 ≤ Hot.replicas t) →
  let cs := candidates g key in
  let asked := (λ a, EvPeerGet me.1 a (g_name g) key) <$> cs in
  (∀ a w', a ∈ cs → ∃ e, peerGet a (g_name g) key w' = (Fail e, w')) →
  (dbLimiter g = true → dbWait (log w ++ asked) = None) → getter (log w ++ asked) me.1 key = inl bytes →
  ∃ w1 pushes, Get peerGet me key w = (Ret (mkByteView bytes), w1) ∧
    log w1 = log w ++ asked ++ EvLoad me.1 (g_name g) key :: pushes ∧
    Forall (λ e, ∃ a, e = EvPush me.1 a (g_name g) key bytes) pushes ∧
    (2 ≤ replicationFactor g → ∀ a, head cs = Some a → head pushes = Some (EvPush me.1 a (g_name g) key bytes)) ∧
    (BCache.cacheBytes (mainCache g) = 0 ∨ strlen key + strlen bytes ≤ BCache.cacheBytes (mainCache g) →
     (Get peerGet me key w1).1 = Ret (mkByteView bytes) ∧ log (Get peerGet me key w1).2 = log w1).
Proof.
  intros Hk Hg Hd Hc Hv Hn Ht cs asked Hcs Hl Hsrc.
  destruct (Get_clean peerGet me g w key Hk Hg Hd Hc)
    as (g1 & _ & Er & Ef & En & El & Ed & Eh & c' & _ & Hc' & Hb & ->). rewrite Hv.
  set (g2 := set_mainCache c' g1). set (w2 := put me g2 w).
  assert (candidates g2 key = cs) as Ecs by (unfold candidates, g2; cbn; by rewrite Er, Ef).
  assert (∀ t, hotTracker g2 = Some t → -1 ≤ Hot.replicas t) as Ht2 by (intros t Et; by apply Eh).
  unfold load, mbind, GoM_bind. rewrite (getG_eq me g2) by apply put_lookup.
  rewrite candidatesOf_eq by (unfold g2; cbn; lia). rewrite Ecs.
  rewrite (tryPeers_unreachable me g2) by (apply put_lookup || (unfold g2; cbn; by rewrite En)).
  assert (((λ a, EvPeerGet me.1 a (g_name g2) key) <$> cs) = asked) as -> by (unfold g2; cbn; by rewrite En).
  destruct (getLocally_eq me g2 (say asked w2) key bytes) as (c2 & es & Hadd & Hes & ->);
    [apply put_lookup|done|unfold g2; cbn; lia|done|unfold g2; cbn; by rewrite El|done|].
  set (pushes := _ ++ es). eexists _, pushes. split; [done|].
  assert (∀ a, pushed me g2 key (mkByteView bytes) a = EvPush me.1 a (g_name g) key bytes) as Hp
    by (intros a; unfold pushed, g2; cbn; by rewrite En).
  split_and!.
  - cbn. by rewrite <- app_assoc, En.
  - apply Forall_app. split; [|eapply Forall_impl; [exact Hes|]; intros e [a ->]; by exists a; rewrite Hp].
    rewrite Ecs. case_decide; [constructor|]. apply Forall_forall. intros e (a & -> & _)%list_elem_of_fmap. by exists a.
  - intros H2 a Ha. unfold pushes. rewrite decide_False by (unfold g2; cbn; lia). rewrite Ecs.
    destruct cs as [|a' l]; [done|]. cbn in *. injection Ha as ->. by rewrite Hp.
  - intros Hfit. destruct (add_spec key (mkByteView bytes) (mainCache g2) Hc') as (c3 & Hadd' & Hc3 & Hvis).
    rewrite Hadd in Hadd'. injection Hadd' as <-.
    assert (visible (now w) key c2 = Some (mkByteView bytes)) as Hv3 by (apply Hvis; cbn; by rewrite Hb).
    match goal with |- context [say ?l ?x] => set (w3 := say l x) end.
    destruct (Get_clean peerGet me (set_mainCache c2 g2) w3 key Hk (lookup_insert_eq _ _ _) Ed Hc3)
      as (g4 & _ & _ & _ & _ & _ & _ & _ & c4 & _ & _ & _ & ->).
    change (visible (now w3) key _) with (visible (now w) key c2). by rewrite Hv3.
Qed.

(** Also: deletion.  [Delete] makes the key invisible locally, leaves the other keys as they were,
    and starts one invalidation per remote peer, in the order of the registry, and nothing
    else. *)
Theorem delete_invalidates_everywhere me g w key :
  procs w !! me = Some g → bwf (mainCache g) →
  ∃ w' g', Delete me key w = (Ret tt, w') ∧ procs w' !! me = Some g' ∧
    (∀ t k', visible t k' (mainCache g') = if decide (k' = key) then None else visible t k' (mainCache g)) ∧
    log w' = log w ++ match g_registry g with
                      | None => []
                      | Some r => (λ a, EvInvalidateKey me.1 a (g_name g) key) <$> Reg.All all_order r
                      end.
Proof.
  intros Hg Hc. destruct (delete_spec key (mainCache g) Hc) as (c' & Hdel & Hc' & Hv).
  unfold Delete, mbind, GoM_bind. rewrite (onCache_eq me g w _ _ c' Hg Hdel).
  rewrite (getG_eq me (set_mainCache c' g)) by apply put_lookup. cbn [g_registry set_mainCache g_name].
  destruct (g_registry g) as [r|].
  - unfold BroadcastInvalidation.
    rewrite (goforeach_fold _ (λ w a, mkWorld (procs w) (log w ++ [EvInvalidateKey me.1 a (g_name g) key]) (now w)))
      by done.
    assert (∀ l w0, procs (foldl (λ w a, mkWorld (procs w) (log w ++ [EvInvalidateKey me.1 a (g_name g) key]) (now w)) w0 l)
              = procs w0 ∧
            log (foldl (λ w a, mkWorld (procs w) (log w ++ [EvInvalidateKey me.1 a (g_name g) key]) (now w)) w0 l)
              = log w0 ++ ((λ a, EvInvalidateKey me.1 a (g_name g) key) <$> l)) as Hfold.
    { induction l as [|a l IH]; intros w0; cbn; [by rewrite app_nil_r|].
      destruct (IH (mkWorld (procs w0) (log w0 ++ [EvInvalidateKey me.1 a (g_name g) key]) (now w0))) as [-> ->].
      cbn. by rewrite <- app_assoc. }
    destruct (Hfold (Reg.All all_order r) (put me (set_mainCache c' g) w)) as [Hp Hl].
    eexists _, (set_mainCache c' g). split_and!; [done|rewrite Hp; apply put_lookup|done|rewrite Hl; done].
  - eexists _, (set_mainCache c' g). split_and!; [done|apply put_lookup|done|]. cbn. by rewrite app_nil_r.
Qed.
End theorems.
End CacheTheorems.

(** A process "a" with a group "scores" of two kilobytes, as [LoadConfig] sets it up. *)
Module CacheWitness.
#[local] Instance demo_cache_env : CacheEnv :=
  { getter := λ _ _ key, if decide (key = "Tom") then inl "630" else inr (Errorf (key +:+ " not exist"));
    dbWait := λ _, None;
    all_order := λ l, l }.
Definition noPeer (addr groupName key : string) : GoM World string := gofail (Errorf "no peer").
Definition me : string * string := ("a", "scores").
Definition demo_group (c : BCache.cache) : Group := mkGroup "scores" c None 2 None false false false.
Definition demo_world (c : BCache.cache) : World := mkWorld {[me := demo_group c]} [] 0.
Definition empty_cache : BCache.cache := BCache.newCache 2048.
Lemma empty_cache_bwf : bwf empty_cache.
Proof. by split. Qed.

Lemma cached_value_served_witness :
  ∃ c, BCache.add "Tom" (mkByteView "630") empty_cache = (Ret tt, c) ∧
    (Get noPeer me "Tom" (demo_world c)).1 = Ret (mkByteView "630").
Proof.
  destruct (add_spec "Tom" (mkByteView "630") empty_cache empty_cache_bwf) as (c & Hadd & Hc & Hv).
  exists c. split; [exact Hadd|].
  apply (CacheTheorems.cached_value_served noPeer me (demo_group c) (demo_world c) "Tom" (mkByteView "630"));
    [done|apply lookup_singleton_eq|done|done|]. apply Hv. right. vm_compute. discriminate.
Defined.
Lemma invalidated_groups_reload_witness :
  ∃ w1, InvalidateSlots [me] 3 5 (demo_world empty_cache) = (Ret tt, w1) ∧
  ∃ g2 w2, Get noPeer me "Tom" w1 = load noPeer me "Tom" w2 ∧ procs w2 !! me = Some g2 ∧
    BCache.lru (mainCache g2) = None ∧ cacheDirty g2 = false ∧ log w2 = [].
Proof.
  apply (CacheTheorems.invalidated_groups_reload noPeer [me] 3 5 (demo_world empty_cache) me "Tom").
  - lia.
  - constructor; [eexists; apply lookup_singleton_eq|constructor].
  - set_solver.
  - done.
Defined.
(** A group wired to a registry with another node, which is down, a tracker and a limiter. *)
Definition wired_registry : Reg.Registry :=
  Reg.mkRegistry "a" (CH.Add ["a"; "bb"] (CH.New 1 (Some (λ s, Z.of_nat (String.length s))))) {["bb"]} true.
Definition wired_group : Group :=
  mkGroup "scores" empty_cache (Some wired_registry) 2
    (Some (Hot.NewHotKeyTracker Hot.DefaultHotKeyConfig "a")) true false true.
Lemma miss_loads_then_hits_witness :
  ∃ w1 pushes, Get noPeer me "Tom" (mkWorld {[me := wired_group]} [] 0) = (Ret (mkByteView "630"), w1) ∧
    log w1 = [EvPeerGet "a" "bb" "scores" "Tom"; EvLoad "a" "scores" "Tom"] ++ pushes ∧
    head pushes = Some (EvPush "a" "bb" "scores" "Tom" "630") ∧
    (Get noPeer me "Tom" w1).1 = Ret (mkByteView "630") ∧ log (Get noPeer me "Tom" w1).2 = log w1.
Proof.
  assert (CacheTheorems.candidates wired_group "Tom" = ["bb"]) as Hcs by (vm_compute; reflexivity).
  destruct (CacheTheorems.miss_loads_then_hits noPeer me wired_group (mkWorld {[me := wired_group]} [] 0) "Tom" "630")
    as (w1 & pushes & H1 & H2 & _ & H3 & H4);
    [done|apply lookup_singleton_eq|done|apply empty_cache_bwf|done|cbn; lia|intros t [= <-]; cbn; lia
    |intros a w' _; by eexists|done|done|].
  rewrite Hcs in H2, H3. exists w1, pushes. split_and!; [exact H1|exact H2|apply H3; [cbn; lia|reflexivity]|..];
    apply H4; right; vm_compute; discriminate.
Defined.
Lemma delete_invalidates_everywhere_witness :
  ∃ w' g', Delete me "Tom" (demo_world empty_cache) = (Ret tt, w') ∧ procs w' !! me = Some g' ∧
    visible 0 "Tom" (mainCache g') = None ∧ log w' = [].
Proof.
  destruct (CacheTheorems.delete_invalidates_everywhere me (demo_group empty_cache) (demo_world empty_cache) "Tom")
    as (w' & g' & H1 & H2 & H3 & H4); [apply lookup_singleton_eq|apply empty_cache_bwf|].
  exists w', g'. split_and!; [exact H1|exact H2|rewrite H3; reflexivity|exact H4].
Defined.
End CacheWitness.
