(* ===== verification/PeerProps.v ===== *)
(** * Peers: the registry's choice, hot keys, and requests that bounce

    Which peers a registry offers after any history of membership events, when a key becomes
    hot, and how two caches that do not have a key ask each other for it. *)
From S2P Require Import Prelude GoStrings Lru LruRefine ConsistentHash PeerCache CacheGroup CacheProps.
Import CacheGroup.

(** ** The log only grows *)
Section log.
Context `{CacheEnv} (peerGet : string → string → string → GoM World string) (l : list cevent).
Definition logged (w : World) : Prop := l `prefix_of` log w.
Lemma setG_logged me g : pres logged (setG me g).
Proof. by intros w. Qed.
Lemma getG_logged me : pres logged (getG me).
Proof. intros w. unfold getG, goderef. by destruct (procs w !! me). Qed.
Lemma tell_logged e : pres logged (tell e).
Proof. intros w [k Hk]. exists (k ++ [e]). cbn. by rewrite Hk, app_assoc. Qed.
Lemma onCache_logged {A} me (m : GoM BCache.cache A) : pres logged (onCache me m).
Proof.
  unfold onCache. apply pres_bind; [apply getG_logged|]. intros g. destruct (m (mainCache g)) as [r c].
  apply pres_bind; [apply setG_logged|]. intros _. apply pres_call.
Qed.
Hint Resolve setG_logged getG_logged tell_logged onCache_logged : go_pres.
Lemma recordHot_logged me key : pres logged (recordHot me key).
Proof. unfold recordHot. pres_tac. Qed.
Lemma getLocally_logged me key : pres logged (getLocally me key).
Proof. unfold getLocally, populateCache, replicateToSecondaries, replicateIfHot. pres_tac. Qed.
Hint Resolve recordHot_logged getLocally_logged : go_pres.
Context (Hpeer : ∀ a g k, pres logged (peerGet a g k)).
Lemma fetchFromPeer_logged me pg key : pres logged (fetchFromPeer peerGet me pg key).
Proof. unfold fetchFromPeer, populateCache. pres_tac. Qed.
Hint Resolve fetchFromPeer_logged : go_pres.
Lemma tryPeers_logged me key cs : pres logged (tryPeers peerGet me key cs).
Proof. induction cs; cbn [tryPeers]; pres_tac. Qed.
Hint Resolve tryPeers_logged : go_pres.
Lemma Get_logged me key : pres logged (Get peerGet me key).
Proof. unfold Get, load, candidatesOf. pres_tac. Qed.
End log.
Lemma serve_logged `{CacheEnv} l budget a g k : pres (logged l) (serve budget a g k).
Proof.
  revert a g k. induction budget as [|n IH]; intros a g k; cbn [serve]; [apply pres_fail|].
  intros w Hw. unfold adapterGet. destruct (procs w !! (a, g)); [|done].
  revert w Hw. change (pres (logged l) (v ← Get (serve n) (a, g) k; mret (ByteSlice v))).
  apply pres_bind; [by apply Get_logged|]. intros v. apply pres_ret.
Qed.

(** ** Two caches that ask each other *)
Section bounce.
Context `{CacheEnv} (G key : string).
(** [a] does not have the key and asks [b] first. *)
Definition cold (w : World) (a b : string) : Prop :=
  ∃ g r, procs w !! (a, G) = Some g ∧ g_name g = G ∧ cacheDirty g = false ∧ bwf (mainCache g) ∧
    visible (now w) key (mainCache g) = None ∧ g_registry g = Some r ∧
    Reg.PickPeerWithFallback key (replicationFactor g) r = Ret [b].
Fixpoint bounce (n : nat) (a b : string) : list cevent :=
  match n with O => [] | S k => EvPeerGet a b G key :: bounce k b a end.

Lemma cold_other w a g a' b' l :
  a' ≠ a → cold w a' b' → cold (mkWorld (<[(a, G) := g]> (procs w)) l (now w)) a' b'.
Proof.
  intros Hne (g' & r & Hg & Hrest). exists g', r. cbn. rewrite lookup_insert_ne by congruence. done.
Qed.
End bounce.

Lemma GetN_bounded m key n :
  0 ≤ n → ∃ cs, CH.GetN key n m = Ret cs ∧ NoDup cs ∧ Z.of_nat (length cs) ≤ n.
Proof.
  intros Hn. destruct (decide (CH.keys m = [])) as [E|Hne].
  { exists []. unfold CH.GetN. rewrite E. split_and!; [done|constructor|done]. }
  rewrite Walk.GetN_first_occ by done. eexists. split_and!; [done|..].
  - eapply sublist_NoDup, sublist_take. apply Walk.first_occ_NoDup.
  - rewrite length_take. lia.
Qed.
(** Predicates that agree on a list filter it alike. *)
Lemma filter_agree (P Q : string → Prop) `{∀ x, Decision (P x), ∀ x, Decision (Q x)} (l : list string) :
  (∀ x, x ∈ l → P x ↔ Q x) → filter P l = filter Q l.
Proof.
  induction l as [|x l IH]; intros Hl; [done|]. rewrite !filter_cons, IH by set_solver.
  pose proof (Hl x ltac:(set_solver)). do 2 case_decide; tauto.
Qed.

(** ** The registry after any history of membership events *)
Section registry.
Context (dialable : string → bool) (addr : string) (hash : option CH.Hash).
Import Reg.
Definition after (es : list NodeEvent) : Registry := processEvents dialable es (NewRegistry addr hash).
Lemma after_snoc es e : after (es ++ [e]) = processEvent dialable (after es) e.
Proof. unfold after, processEvents. by rewrite foldl_app. Qed.
(** [a] can be dialled and its last event is a join. *)
Definition member (es : list NodeEvent) (a : string) : Prop :=
  dialable a = true ∧ ∃ es1 es2, es = es1 ++ NodeJoin a :: es2 ∧ NodeLeave a ∉ es2.
Lemma member_snoc es e a :
  member (es ++ [e]) a ↔ (dialable a = true ∧ e = NodeJoin a) ∨ (member es a ∧ e ≠ NodeLeave a).
Proof.
  unfold member. split.
  - intros (Hd & es1 & es2 & E & Hn). destruct es2 as [|x es2 _] using rev_ind.
    + apply app_inj_tail in E as [_ ->]. by left.
    + rewrite app_comm_cons, app_assoc in E. apply app_inj_tail in E as [-> ->].
      right. split; [|set_solver]. split; [done|]. exists es1, es2. split; [done|set_solver].
  - intros [[Hd ->]|[(Hd & es1 & es2 & -> & Hn) Hne]]; (split; [done|]).
    + exists es, []. split; [done|set_solver].
    + exists es1, (es2 ++ [e]). split; [by rewrite <- app_assoc|]. rewrite not_elem_of_app, list_elem_of_singleton. naive_solver.
Qed.
Lemma after_getters es a : a ∈ grpcGetters (after es) ↔ member es a.
Proof.
  induction es as [|e es IH] using rev_ind.
  { cbn. split; [set_solver|]. intros (_ & es1 & es2 & E & _). by destruct es1. }
  rewrite after_snoc, member_snoc, <- IH. destruct e as [n|n|n]; cbn; unfold handleJoin, handleLeave, addToRing.
  - destruct (decide (a = n)) as [->|Hne]; (case_decide; [|destruct (dialable n) eqn:Ed]); cbn;
      rewrite ?elem_of_union, ?elem_of_singleton; clear IH; naive_solver.
  - rewrite elem_of_difference, elem_of_singleton. naive_solver.
  - naive_solver.
Qed.
Lemma after_local es : localAddr (after es) = addr.
Proof.
  induction es as [|e es IH] using rev_ind; [done|]. rewrite after_snoc, <- IH.
  destruct e; cbn; unfold handleJoin, addToRing; repeat case_match; done.
Qed.
Lemma after_reachable es : RingProps.reachable defaultReplicas hash (hashRing (after es)).
Proof.
  induction es as [|e es IH] using rev_ind; [by repeat constructor|]. rewrite after_snoc.
  destruct e; cbn; unfold handleJoin, addToRing; repeat case_match; cbn; auto using RingProps.reachable.
Qed.
Lemma add_one_lookup a m h :
  CH.hashMap (CH.Add [a] m) !! h = if decide (h ∈ CH.points m a) then Some a else CH.hashMap m !! h.
Proof. unfold CH.Add. cbn [foldl CH.hashMap]. apply CH.add_node_fields. Qed.
Lemma add_one_fields a m : CH.hash (CH.Add [a] m) = CH.hash m ∧ CH.replicas (CH.Add [a] m) = CH.replicas m.
Proof. destruct (CH.add_node_fields m a) as (E1 & E2 & _). split; [exact E1|exact E2]. Qed.
(** Every node on the ring is this node or one that can be asked. *)
Lemma after_ring es h a :
  CH.hashMap (hashRing (after es)) !! h = Some a → a = addr ∨ a ∈ grpcGetters (after es).
Proof.
  revert h. induction es as [|e es IH] using rev_ind; intros h.
  { intros Hh. change (CH.hashMap (CH.Add [addr] (CH.New defaultReplicas hash)) !! h = Some a) in Hh.
    rewrite add_one_lookup in Hh. left. case_decide; [congruence|]. cbn [CH.hashMap CH.New] in Hh. by rewrite lookup_empty in Hh. }
  rewrite after_snoc. destruct e as [n|n|n]; cbn [processEvent]; unfold handleJoin, handleLeave, addToRing; [|..|by apply IH].
  - case_decide; [by apply IH|]. destruct (dialable n); [|by apply IH]. cbn [hashRing grpcGetters].
    rewrite add_one_lookup. case_decide; [set_solver|]. intros Hh%IH. set_solver.
  - intros [Hh Hne]%map_lookup_filter_Some. cbn in Hne. apply IH in Hh. set_solver.
Qed.
Lemma GetN_on_ring es key n l a :
  CH.GetN key n (hashRing (after es)) = Ret l → a ∈ l → a = addr ∨ a ∈ grpcGetters (after es).
Proof.
  intros Hl Ha. pose proof (RingProps.reachable_wf _ _ _ (after_reachable es)) as Hwf.
  destruct (decide (CH.keys (hashRing (after es)) = [])) as [E|Hne].
  { unfold CH.GetN in Hl. rewrite E in Hl. cbn in Hl. set_solver. }
  destruct (decide (n < 0)) as [Hn|Hn].
  { unfold CH.GetN in Hl. rewrite decide_False in Hl by (by destruct (CH.keys _)). by rewrite decide_True in Hl. }
  rewrite Walk.GetN_first_occ in Hl by (done || lia). simplify_eq. apply subseteq_take in Ha.
  apply Walk.first_occ_elem in Ha as [Ha _]. apply Walk.walk_elem, elem_of_map_img in Ha as [h Hh]; [|done].
  by eapply after_ring.
Qed.
(** The points of a node, and nodes whose points do not collide. *)
Definition pointsOf (a : string) : list Z :=
  (λ i, default ChecksumIEEE hash (Itoa i +:+ a)) <$> seqZ 0 defaultReplicas.
Definition joining (e : NodeEvent) : option string := match e with NodeJoin n => Some n | _ => None end.
Definition apart (es : list NodeEvent) : Prop :=
  ∀ a b h, a ∈ addr :: omap joining es → b ∈ addr :: omap joining es → h ∈ pointsOf a → h ∈ pointsOf b → a = b.
(** A check of it. *)
Lemma apart_check es :
  let names := addr :: omap joining es in
  Forall (λ a, Forall (λ b, a = b ∨ Forall (λ h, h ∉ pointsOf b) (pointsOf a)) names) names → apart es.
Proof.
  intros names Hf a b h Ha Hb Hha Hhb. rewrite Forall_forall in Hf. specialize (Hf a Ha). rewrite Forall_forall in Hf.
  destruct (Hf b Hb) as [|Hn]; [done|]. rewrite Forall_forall in Hn. by destruct (Hn h Hha).
Qed.
Lemma apart_snoc es e : apart (es ++ [e]) → apart es.
Proof. intros Ha a b h. rewrite !elem_of_cons. intros. apply (Ha a b h); rewrite ?elem_of_cons, ?omap_app; set_solver. Qed.
Lemma after_points_eq es a : CH.points (hashRing (after es)) a = pointsOf a.
Proof.
  assert (CH.hash (hashRing (after es)) = default ChecksumIEEE hash ∧ CH.replicas (hashRing (after es)) = defaultReplicas)
    as [Hh Hr]; [|unfold CH.points, pointsOf, CH.vnode; by rewrite Hh, Hr].
  induction es as [|e es [IH1 IH2]] using rev_ind.
  { change (hashRing (after [])) with (CH.Add [addr] (CH.New defaultReplicas hash)).
    destruct (add_one_fields addr (CH.New defaultReplicas hash)) as [-> ->]. by split. }
  rewrite after_snoc. destruct e as [n|n|n]; cbn [processEvent]; unfold handleJoin, handleLeave, addToRing; [|done..].
  case_decide; [done|]. destruct (dialable n); [|done]. cbn [hashRing].
  destruct (add_one_fields n (hashRing (after es))) as [-> ->]. by split.
Qed.
(** Without collisions a peer owns its points on the ring exactly while it is a member. *)
Lemma after_points es a h :
  apart es → a ≠ addr → CH.hashMap (hashRing (after es)) !! h = Some a ↔ member es a ∧ h ∈ pointsOf a.
Proof.
  intros Hap Hne. induction es as [|e es IH] using rev_ind.
  { change (hashRing (after [])) with (CH.Add [addr] (CH.New defaultReplicas hash)). rewrite add_one_lookup.
    split; [case_decide; [congruence|cbn [CH.hashMap CH.New]; by rewrite lookup_empty]|]. intros [(_ & es1 & es2 & E & _) _]. by destruct es1. }
  pose proof (IH (apart_snoc _ _ Hap)) as IH'. clear IH. rewrite after_snoc, member_snoc.
  destruct e as [n|n|n]; cbn [processEvent]; unfold handleJoin, handleLeave, addToRing.
  - assert (NodeJoin n ≠ NodeLeave a) as Hjl by done. set (M := member es a) in *.
    case_decide as Hg.
    { apply after_getters in Hg. rewrite IH'. split; [by intros [? ?]; split; [right|]|].
      by intros [[[_ [= ->]]|[? _]] ?]. }
    destruct (dialable n) eqn:Hd.
    2:{ rewrite IH'. split; [by intros [? ?]; split; [right|]|]. intros [[[Hda [= ->]]|[? _]] ?]; [congruence|done]. }
    subst M. cbn [hashRing].
    rewrite add_one_lookup, after_points_eq. rewrite after_getters in Hg.
    destruct (decide (a = n)) as [->|Han]; [case_decide; naive_solver|].
    case_decide as Hp; [|rewrite IH'; naive_solver]. split; [congruence|]. intros [[[_ [=]]|[Hm _]] Ha]; [done|].
    destruct Han. apply (Hap a n h); [..|done|done]; apply elem_of_cons; right; rewrite omap_app.
    + destruct Hm as (_ & es1 & es2 & -> & _). rewrite omap_app. cbn. set_solver.
    + cbn. set_solver.
  - cbn [hashRing]. unfold removeFromRing. cbn [hashRing CH.Remove CH.hashMap].
    rewrite map_lookup_filter_Some, IH'. cbn. naive_solver.
  - rewrite IH'. naive_solver.
Qed.
(** Asking for as many candidates as there are nodes yields them all. *)
Lemma GetN_all es key n l a :
  CH.GetN key n (hashRing (after es)) = Ret l →
  Z.of_nat (size (map_img (CH.hashMap (hashRing (after es))) : gset string)) ≤ n →
  a ∈ (map_img (CH.hashMap (hashRing (after es))) : gset string) → a ∈ l.
Proof.
  intros Hl Hn Ha. pose proof (RingProps.reachable_wf _ _ _ (after_reachable es)) as Hwf.
  assert (CH.keys (hashRing (after es)) ≠ []) as Hne.
  { apply elem_of_map_img in Ha as [h Hh]. intros E. assert (h ∈ CH.keys (hashRing (after es))) as Hin by (apply (CH.wf_dom _ Hwf); eauto).
    rewrite E in Hin. set_solver. }
  rewrite Walk.GetN_first_occ in Hl by (done || lia). injection Hl as <-. rewrite take_ge.
  - apply Walk.first_occ_elem. split; [by apply Walk.walk_elem|set_solver].
  - rewrite Walk.first_occ_length. assert (∀ X Y : gset string, X ⊆ Y → (size X ≤ size Y)%nat) as Hs by apply subseteq_size.
    etrans; [apply (Hs _ (map_img (CH.hashMap (hashRing (after es)))))|lia].
    intros x. rewrite elem_of_list_to_set. by apply Walk.walk_elem.
Qed.
Lemma pointsOf_inhabited a : ∃ h, h ∈ pointsOf a.
Proof. eexists. unfold pointsOf. apply list_elem_of_fmap_2. apply elem_of_seqZ. unfold defaultReplicas. instantiate (1 := 0). lia. Qed.
End registry.

(** ** Counting reads *)
Section hot.
Import Hot.
Implicit Types t : HotKeyTracker.
Definition count (key : string) (h : list (Z * string)) : Z := Z.of_nat (length (filter (λ e, e.2 = key) h)).
(** Record every read of a history, each with its time. *)
Definition records (h : list (Z * string)) t : HotKeyTracker := foldl (λ t e, (Record_ e.1 e.2 t).2) t h.
(** The least positive multiple of 64 at or above the threshold. *)
Definition hotAt (T : Z) : Z := 64 * Z.max 1 ((T + 63) / 64).

Lemma hotAt_spec T n : 0 < n → Z.rem n 64 = 0 → T ≤ n ↔ hotAt T ≤ n.
Proof. intros Hn Hr. unfold hotAt. pose proof (Z.rem_divide n 64 ltac:(lia)) as [[k ->] _]; [done|]. split; intros; Z.div_mod_to_equations; lia. Qed.
(** What the tracker holds after a history. *)
Definition tracks t0 (h : list (Z * string)) : Prop :=
  let t := records h t0 in
  threshold t = threshold t0 ∧ ∀ key,
    default 0 (counters t !! key) = count key h ∧
    (is_Some (hotKeys t !! key) ↔ hotAt (threshold t0) ≤ count key h).
Lemma count_snoc key h e : count key (h ++ [e]) = count key h + (if decide (e.2 = key) then 1 else 0).
Proof. unfold count. rewrite filter_app, filter_cons, filter_nil, length_app. case_decide; cbn; lia. Qed.
Lemma count_bound key h : 0 ≤ count key h ≤ Z.of_nat (length h).
Proof. unfold count. pose proof (length_filter (λ e : Z * string, e.2 = key) h). lia. Qed.
Lemma hotAt_multiple T : Z.rem (hotAt T) 64 = 0.
Proof. unfold hotAt. rewrite Z.mul_comm. by apply Z.rem_mul. Qed.
(** One read, on a tracker that agrees with a history. *)
Lemma Record_spec t0 h now key :
  tracks t0 h → Z.of_nat (length h) < maxInt →
  (Record_ now key (records h t0)).1 = bool_decide (count key h + 1 = hotAt (threshold t0)) ∧
  tracks t0 (h ++ [(now, key)]).
Proof.
  intros [Ht Hk] Hlen. unfold tracks, records in *. rewrite foldl_app. cbn [foldl fst snd].
  set (t := foldl _ t0 h) in *. destruct (Hk key) as [Hc Hh]. pose proof (count_bound key h).
  set (n := count key h + 1) in *. set (T := threshold t0) in *.
  assert (∀ hs key', (is_Some (hs !! key) ↔ hotAt T ≤ n) → (∀ k, k ≠ key → (hs : gmap string Z) !! k = hotKeys t !! k) →
    default 0 (<[key:=n]> (counters t) !! key') = count key' (h ++ [(now, key)]) ∧
    (is_Some (hs !! key') ↔ hotAt T ≤ count key' (h ++ [(now, key)]))) as Hall.
  { intros hs key' Hs Hsame. rewrite count_snoc. cbn. case_decide as E; [subst key'|].
    - by rewrite lookup_insert_eq.
    - rewrite lookup_insert_ne, Z.add_0_r, Hsame by done. apply Hk. }
  assert (is_Some (hotKeys t !! key) → hotAt T ≤ n - 1) as Hprev by (intros; unfold n; rewrite Z.add_simpl_r; tauto).
  pose proof (hotAt_multiple T) as Hmul. unfold Record_. rewrite Hc, int64_id by (unfold in_int64, minInt; lia). fold n.
  destruct (decide (Z.rem n 64 ≠ 0)) as [Hr|Hr]; cbn [fst snd set_counters].
  - rewrite bool_decide_false by congruence. split; [done|]. split; [done|]. intros key'. apply Hall; [|done].
    rewrite Hh. assert (n ≠ hotAt T) by congruence. lia.
  - apply dec_stable in Hr. pose proof (hotAt_spec T n ltac:(lia) Hr) as HT.
    unfold checkHot. cbn [counters set_counters threshold hotKeys]. rewrite lookup_insert_eq, Ht. fold T.
    destruct (decide (T ≤ n)) as [Hge|Hlt]; cbn [fst snd].
    + assert (∀ key', _) as Hset by (intros key'; apply (Hall (<[key := now]> (hotKeys t)) key');
        [rewrite lookup_insert_eq; naive_solver|intros; by rewrite lookup_insert_ne]).
      destruct (hotKeys t !! key) eqn:Ek; (split; [|split; [done|apply Hset]]).
      * rewrite bool_decide_false; [done|]. rewrite <- Ek in *. specialize (Hprev ltac:(eauto)). lia.
      * rewrite bool_decide_true; [done|]. assert (¬ hotAt T ≤ count key h) by (rewrite <- Hh; by intros [? ?]). lia.
    + rewrite bool_decide_false by lia. split; [done|]. split; [done|]. intros key'. apply Hall; [|done]. rewrite Hh. lia.
Qed.
Lemma tracks_all cfg addr h :
  Z.of_nat (length h) ≤ maxInt → tracks (NewHotKeyTracker cfg addr) h.
Proof.
  induction h as [|[now key] h IH] using rev_ind; intros Hl.
  - split; [done|]. intros key. change (count key []) with 0. cbn. rewrite !lookup_empty. split; [done|]. unfold hotAt. split; [by intros [? ?]|lia].
  - rewrite length_app in Hl. cbn in Hl. apply Record_spec; [apply IH|]; lia.
Qed.

(** Pruning never makes a key hot, and leaves only zero counters, of keys that were hot. *)
Lemma prune_hot now t k : hotKeys t !! k = None → hotKeys (prune now t) !! k = None.
Proof. intros Hk. cbn. by apply map_lookup_filter_None_2; left. Qed.
Lemma prune_cools now t k seen :
  hotKeys t !! k = Some seen → cooldown t < now - seen → hotKeys (prune now t) !! k = None.
Proof.
  intros Hk Hc. cbn. apply map_lookup_filter_None_2. right. intros x Hx. cbn. rewrite Hk in Hx. injection Hx as <-. tauto.
Qed.
Lemma prune_seen now t k : hotKeys (prune now t) !! k = None ∨ hotKeys (prune now t) !! k = hotKeys t !! k.
Proof.
  cbn. destruct (hotKeys (prune now t) !! k) as [x|] eqn:E; cbn in E; [|by left]. right.
  rewrite E. apply map_lookup_filter_Some in E as [E _]. by rewrite E.
Qed.
Lemma prune_counters now t k n : counters (prune now t) !! k = Some n → n = 0 ∧ is_Some (hotKeys t !! k).
Proof.
  cbn. intros [Hn Hh]%map_lookup_filter_Some. apply lookup_fmap_Some in Hn as (x & <- & _). done.
Qed.
Lemma loop_hot es t k : hotKeys t !! k = None → hotKeys (loop es t) !! k = None.
Proof. revert t. induction es as [|[now|] es IH]; intros t Hk; cbn; [done| |done]. by apply IH, prune_hot. Qed.
Lemma loop_counters es t k n :
  (∀ k n, counters t !! k = Some n → n = 0) → counters (loop es t) !! k = Some n → n = 0.
Proof.
  revert t. induction es as [|[now|] es IH]; intros t Ht; cbn; [by apply Ht| |by apply Ht].
  apply IH. intros k' n' Hk'. by apply prune_counters in Hk' as [? _].
Qed.
Lemma loop_cools es1 now es2 t k seen :
  StopCh ∉ es1 → hotKeys t !! k = Some seen → cooldown t < now - seen →
  hotKeys (loop (es1 ++ Tick now :: es2) t) !! k = None.
Proof.
  revert t. induction es1 as [|[now1|] es1 IH]; intros t Hs Hk Hc; cbn [app loop].
  - apply loop_hot. by eapply prune_cools.
  - destruct (prune_seen now1 t k) as [E|E]; [by apply loop_hot|]. apply IH; [set_solver|by rewrite E|done].
  - set_solver.
Qed.
End hot.

Module PeerTheorems.
Section theorems.
Context `{CacheEnv}.
Implicit Types w : World.

(** C32: requests between peers bounce.  If neither of two caches has a key, and each
    names the other as its candidate for it (what happens on a ring of two nodes with the
    default replication factor of two, because a node is left out of its own candidates), a
    read is passed back and forth between them for as long as the deadline allows (a budget of [n]
    nested requests) before either of them asks the source of truth. *)
Theorem owner_miss_bounces G key n w a b :
  key ≠ "" → a ≠ b → cold G key w a b → cold G key w b a →
  (log w ++ bounce G key n a b) `prefix_of` log (serve n a G key w).2.
Proof.
  intros Hk. revert w a b. induction n as [|n IH]; intros w a b Hne Ha Hb.
  { cbn. by rewrite app_nil_r. }
  cbn [serve bounce].
  destruct Ha as (g & r & Hg & Hname & Hd & Hc & Hv & Hr & Hpick). unfold adapterGet. rewrite Hg.
  destruct (Get_clean (serve n) (a, G) g w key Hk Hg Hd Hc)
    as (g1 & Em & Er & Ef & Egn & _ & Ed & _ & c' & Hget & Hc' & _ & HG).
  destruct (get_spec (now w) key (mainCache g) Hc) as (c2 & Hget2 & _ & _ & Hvis).
  assert (c2 = c') as -> by congruence. rewrite Hv in HG.
  set (g2 := set_mainCache c' g1) in *. set (w2 := put (a, G) g2 w) in *.
  unfold mbind at 1, GoM_bind at 1. rewrite HG. clear HG.
  unfold load, candidatesOf. unfold mbind at 1, GoM_bind at 1. rewrite (getG_eq (a, G) g2 w2) by apply put_lookup.
  assert (g_registry g2 = Some r) as -> by (cbn; congruence).
  assert (replicationFactor g2 = replicationFactor g) as -> by done.
  unfold mbind at 1, GoM_bind at 1, gocall. rewrite Hpick. cbn [tryPeers].
  set (w3 := mkWorld (procs w2) (log w ++ [EvPeerGet a b G key]) (now w)).
  assert (logged (log w ++ EvPeerGet a b G key :: bounce G key n b a) (serve n b G key w3).2) as Hin.
  { rewrite cons_middle, app_assoc. apply (IH w3 b a); [done|by apply cold_other|].
    exists g2, r. cbn. rewrite lookup_insert_eq, <- Ef in *. split_and!; try done; try congruence. }
  apply (bind_inv (logged _)); [|intros v; apply pres_ret].
  apply (bind_inv (logged _)); [|intros [v|e]; [apply pres_ret|by apply getLocally_logged]].
  apply try_inv. unfold fetchFromPeer. unfold mbind at 1, GoM_bind at 1.
  rewrite (getG_eq (a, G) g2 w2) by apply put_lookup. replace (g_name g2) with G by (cbn; congruence).
  unfold mbind at 1, GoM_bind at 1, tell, gomodify.
  apply (bind_inv (logged _)); [exact Hin|]. intros bytes. unfold populateCache. pres_tac. apply onCache_logged.
Qed.
End theorems.

(** C29: routing follows membership.  After any history of joins, leaves and updates the peers
    that can be asked are those that can be dialled and whose last event is a join;
    [PickPeer] routes every key to its owner on the ring unless the ring is empty or the owner
    is this node, so no owner is ever without a connection; and [PickPeerWithFallback] returns
    at most [n] different peers, never this node, in clockwise order from the owner.  If the
    points of the nodes that ever joined do not collide, a peer owns its fifty points on the
    ring exactly while it is such a member, and asking for as many candidates as there are
    nodes on the ring returns every one of them. *)
Theorem registry_routes_to_members dialable addr hash es key n :
  0 ≤ n →
  let r := after dialable addr hash es in
  let owner := CH.Get key (Reg.hashRing r) in
  (∀ a, a ∈ Reg.grpcGetters r ↔ member dialable es a) ∧
  Reg.PickPeer key r = (if decide (owner = "" ∨ owner = addr) then None else Some owner) ∧
  ∃ cs, CH.GetN key n (Reg.hashRing r) = Ret cs ∧
    Reg.PickPeerWithFallback key n r = Ret (filter (λ a, a ≠ addr) cs) ∧
    NoDup (filter (λ a, a ≠ addr) cs) ∧ Z.of_nat (length (filter (λ a, a ≠ addr) cs)) ≤ n ∧
    (apart addr hash es →
     (∀ a h, a ≠ addr → CH.hashMap (Reg.hashRing r) !! h = Some a ↔ member dialable es a ∧ h ∈ pointsOf hash a) ∧
     (Z.of_nat (size (map_img (CH.hashMap (Reg.hashRing r)) : gset string)) ≤ n →
      ∀ a, a ∈ filter (λ a, a ≠ addr) cs ↔ a ≠ addr ∧ member dialable es a)).
Proof.
  intros Hn r owner. pose proof (after_local dialable addr hash es) as Hl. fold r in Hl.
  pose proof (RingProps.reachable_wf _ _ _ (after_reachable dialable addr hash es)) as Hwf. fold r in Hwf.
  assert (∃ cs, CH.GetN key n (Reg.hashRing r) = Ret cs ∧ NoDup cs ∧ Z.of_nat (length cs) ≤ n) as (cs & Hcs & Hnd & Hlen).
  { by apply GetN_bounded. }
  assert (filter (λ a, a ≠ addr) cs = filter (λ a, a ≠ Reg.localAddr r ∧ a ∈ Reg.grpcGetters r) cs) as Hf.
  { apply filter_agree. intros a Ha. rewrite Hl. split; [|tauto]. intros Hne.
    destruct (GetN_on_ring _ _ _ _ _ _ _ a Hcs Ha); naive_solver. }
  split_and!; [intros a; apply after_getters| |].
  - unfold Reg.PickPeer. fold owner. rewrite Hl. case_decide as Ho; [done|]. rewrite decide_True; [done|].
    destruct (decide (CH.keys (Reg.hashRing r) = [])) as [E|Hne].
    { destruct Ho. left. by apply CH.Get_empty. }
    destruct (CH.Get_owner (Reg.hashRing r) key Hwf Hne) as (h & _ & Hh).
    destruct (after_ring dialable addr hash es h owner Hh); naive_solver.
  - exists cs. split; [done|]. unfold Reg.PickPeerWithFallback. rewrite Hcs, Hf. split; [done|]. rewrite <- Hf.
    split; [by apply NoDup_filter|]. split; [pose proof (length_filter (λ a, a ≠ addr) cs); lia|].
    intros Hap. pose proof (λ a h, after_points dialable addr hash es a h Hap) as Hpts. fold r in Hpts.
    split; [done|]. intros Hsz a. rewrite list_elem_of_filter. split.
    + intros [Hne Ha]. split; [done|]. apply (after_getters dialable addr hash).
      by destruct (GetN_on_ring _ _ _ _ _ _ _ a Hcs Ha).
    + intros [Hne Hm]. split; [done|]. eapply GetN_all; [exact Hcs|exact Hsz|].
      apply elem_of_map_img. destruct (pointsOf_inhabited hash a) as [h Hh]. exists h. by apply Hpts.
Qed.

(** Also: cooling down.  As long as the tracker is not stopped, the first tick of its ticker
    that is more than the cooldown after the last detection of a key makes the key cold, however
    many ticks there were before and are afterwards, and every counter is back at zero. *)
Theorem hot_keys_cool_down es1 now es2 t k seen :
  0 < Hot.sampleWindow t → Hot.StopCh ∉ es1 → Hot.hotKeys t !! k = Some seen → Hot.cooldown t < now - seen →
  ∃ t', Hot.pruneLoop (es1 ++ Hot.Tick now :: es2) t = Ret t' ∧ Hot.IsHot k t' = false ∧
    ∀ k' n, Hot.counters t' !! k' = Some n → n = 0.
Proof.
  intros Hw Hs Hk Hc. unfold Hot.pruneLoop. rewrite decide_False by lia. eexists. split; [done|]. split.
  - unfold Hot.IsHot. rewrite (loop_cools _ _ _ _ _ seen) by done. done.
  - intros k' n. assert (∀ t, Hot.loop (es1 ++ Hot.Tick now :: es2) t =
      Hot.loop es2 (Hot.prune now (Hot.loop es1 t))) as ->.
    { clear -Hs. induction es1 as [|[n'|] es1 IH]; intros t; cbn; [done|apply IH; set_solver|set_solver]. }
    apply loop_counters. intros k1 n1 H1. by apply prune_counters in H1 as [? _].
Qed.

(** Also: detection of hot keys.  As long as the counters are not pruned and do not overflow,
    after any interleaving of reads a key is hot exactly when it has been read as often as the least
    multiple of 64 that reaches the threshold, and [Record] reports it exactly once, at that
    read. *)
Theorem hot_at_multiple_of_64 cfg addr h now key :
  Z.of_nat (length h) < maxInt →
  let t := records h (Hot.NewHotKeyTracker cfg addr) in
  Hot.IsHot key t = bool_decide (hotAt (Hot.Threshold cfg) ≤ count key h) ∧
  (Hot.Record_ now key t).1 = bool_decide (count key h + 1 = hotAt (Hot.Threshold cfg)).
Proof.
  intros Hl t. pose proof (tracks_all cfg addr h ltac:(lia)) as Ht. split.
  - apply bool_decide_ext, Ht.
  - by apply (Record_spec _ h now key Ht).
Qed.
End PeerTheorems.

(** Two processes on a ring that knows both. *)
Module PeerWitness.
Import CacheWitness.
#[local] Existing Instance demo_cache_env.
Definition ring_hash : CH.Hash := λ s, (Atoi s).1 mod 2 ^ 32.
Definition registry_of (self other : string) : Reg.Registry :=
  Reg.mkRegistry self (CH.Add [self; other] (CH.New 1 (Some ring_hash))) {[other]} true.
Definition peer_group (self other : string) : Group :=
  mkGroup "scores" empty_cache (Some (registry_of self other)) 2 None false false true.
Definition two_nodes : World :=
  mkWorld {[("1", "scores") := peer_group "1" "2"; ("2", "scores") := peer_group "2" "1"]} [] 0.
Lemma owner_miss_bounces_witness :
  [EvPeerGet "1" "2" "scores" "Tom"; EvPeerGet "2" "1" "scores" "Tom"; EvPeerGet "1" "2" "scores" "Tom"]
    `prefix_of` (log (serve 3 "1" "scores" "Tom" two_nodes).2).
Proof.
  apply (PeerTheorems.owner_miss_bounces "scores" "Tom" 3 two_nodes "1" "2"); [done|done|..].
  - exists (peer_group "1" "2"), (registry_of "1" "2").
    split_and!; [reflexivity|reflexivity|reflexivity|apply empty_cache_bwf|reflexivity|reflexivity|vm_compute; reflexivity].
  - exists (peer_group "2" "1"), (registry_of "2" "1").
    split_and!; [reflexivity|reflexivity|reflexivity|apply empty_cache_bwf|reflexivity|reflexivity|vm_compute; reflexivity].
Defined.
Lemma registry_routes_to_members_witness :
  ∃ cs, Reg.PickPeerWithFallback "Tom" 2
          (after (λ _, true) "1" (Some ring_hash) [Reg.NodeJoin "1"; Reg.NodeJoin "2"; Reg.NodeJoin "3"; Reg.NodeLeave "2"])
        = Ret cs ∧ "1" ∉ cs ∧ "3" ∈ cs.
Proof.
  destruct (PeerTheorems.registry_routes_to_members (λ _, true) "1" (Some ring_hash)
    [Reg.NodeJoin "1"; Reg.NodeJoin "2"; Reg.NodeJoin "3"; Reg.NodeLeave "2"] "Tom" 2 ltac:(lia))
    as (_ & _ & cs & _ & Hp & _ & _ & Hall).
  destruct Hall as [_ Hall].
  { apply apart_check, (bool_decide_unpack _). vm_compute. exact I. }
  exists (filter (λ a, a ≠ "1") cs). split; [exact Hp|]. clear Hp. split; [clear Hall; rewrite list_elem_of_filter; intros [Hx _]; by apply Hx|].
  apply Hall; [vm_compute; discriminate|]. split; [discriminate|]. split; [reflexivity|].
  exists [Reg.NodeJoin "1"; Reg.NodeJoin "2"], [Reg.NodeLeave "2"]. split; [reflexivity|].
  intros Hx%list_elem_of_singleton. discriminate.
Defined.
(** With the default threshold of 100 the 128th read is the one that reports the key. *)
Lemma hot_at_multiple_of_64_witness :
  (Hot.Record_ 0 "Tom" (records (replicate 127 (0, "Tom")) (Hot.NewHotKeyTracker Hot.DefaultHotKeyConfig "1"))).1 = true.
Proof.
  refine (eq_trans (proj2 (PeerTheorems.hot_at_multiple_of_64 Hot.DefaultHotKeyConfig "1"
    (replicate 127 (0, "Tom")) 0 "Tom" _)) _); [rewrite length_replicate; unfold maxInt; lia|vm_compute; reflexivity].
Defined.
End PeerWitness.
