(* ===== verification/SingleFlight.v ===== *)
(** * Request coalescing

    [cache/singleflight/singleflight.go].  Many goroutines call [Do] at the same time; each
    critical section of the mutex, the call of the function and the wait on another
    goroutine's call is one atomic step, and any interleaving of the goroutines' steps is allowed. *)
From S2P Require Import Prelude GoStrings.

Module SF.
Section do.
Context {V : Type}.
(** The [call] a goroutine allocates: the wait group's counter and the result. *)
Record call : Type := mkCall { wg : Z; val : V + error }.

(** Where a goroutine inside [Do] is. *)
Inductive pc : Type :=
  | AtEntry                            (* before the first [mu.Lock] *)
  | InWait (c : nat)                   (* in [c.wg.Wait()] *)
  | InFn (c : nat)                     (* [c] allocated, [fn] running *)
  | AtCleanup (c : nat)                (* after [c.wg.Done()] *)
  | Returned (r : V + error).
Record goroutine : Type := mkGo { key : string; at_ : pc }.

(** [g.m] (nil before the first call), the heap of calls, the goroutines, and the calls of
    the function in the order they returned. *)
Record state : Type := mkState {
  m : option (gmap string nat);
  heap : list call;
  gos : list goroutine;
  ran : list (nat * string) }.
Definition set_pc (i : nat) (p : pc) (s : state) : list goroutine := alter (λ g, mkGo (key g) p) i (gos s).

Context (fn : list (nat * string) → string → V + error) (zero : V).

Definition step_of (i : nat) (s : state) : option state :=
  g ← gos s !! i;
  match at_ g with
  | AtEntry =>
      let mp := default ∅ (m s) in
      match mp !! key g with
      | Some c => Some (mkState (Some mp) (heap s) (set_pc i (InWait c) s) (ran s))
      | None =>
          let c := length (heap s) in
          Some (mkState (Some mp) (heap s ++ [mkCall 1 (inl zero)]) (set_pc i (InFn c) s) (ran s))
      end
  | InWait c =>
      cl ← heap s !! c;
      if decide (wg cl = 0) then Some (mkState (m s) (heap s) (set_pc i (Returned (val cl)) s) (ran s))
      else None
  | InFn c =>
      cl ← heap s !! c;
      Some (mkState (m s) (<[c := mkCall (wg cl - 1) (fn (ran s) (key g))]> (heap s)) (set_pc i (AtCleanup c) s)
              (ran s ++ [(i, key g)]))
  | AtCleanup c =>
      cl ← heap s !! c;
      Some (mkState (delete (key g) <$> m s) (heap s) (set_pc i (Returned (val cl)) s) (ran s))
  | Returned _ => None
  end.

(** All goroutines before their call, and the states they can get to. *)
Definition start (keys : list string) : state := mkState None [] ((λ k, mkGo k AtEntry) <$> keys) [].
Inductive reach (keys : list string) : state → Prop :=
  | reach_start : reach keys (start keys)
  | reach_step s i s' : reach keys s → step_of i s = Some s' → reach keys s'.

(** [Do] as a single caller sees it. *)
Definition Do (k : string) : option (V + error) :=
  let run s := default s (step_of 0 s) in
  g ← gos (run (run (run (start [k])))) !! 0%nat;
  match at_ g with Returned r => Some r | _ => None end.
End do.
End SF.

Module SingleFlightTheorems.
Import SF.
Section theorems.
Context {V : Type} (fn : list (nat * string) → string → V + error) (zero : V).
Implicit Types s : state (V := V).
Implicit Types g : goroutine (V := V).

(** The result [r] of goroutine [i] is what its own run of the function returned. *)
Definition own_result s i g (r : V + error) : Prop :=
  ∃ l l', ran s = l ++ (i, key g) :: l' ∧ r = fn l (key g).
Definition call_of g : option nat := match at_ g with InFn c | AtCleanup c => Some c | _ => None end.
Definition good s i g : Prop :=
  match at_ g with
  | AtEntry => i ∉ ((ran s).*1)
  | InWait _ => False
  | InFn c => i ∉ ((ran s).*1) ∧ ∃ v, heap s !! c = Some (mkCall 1 v)
  | AtCleanup c => ∃ v, heap s !! c = Some (mkCall 0 v) ∧ own_result s i g v
  | Returned r => own_result s i g r
  end.
Record inv (keys : list string) s : Prop := mkInv {
  inv_map : default ∅ (m s) = ∅;
  inv_keys : key <$> gos s = keys;
  inv_good i g : gos s !! i = Some g → good s i g;
  inv_calls i j gi gj c : gos s !! i = Some gi → gos s !! j = Some gj →
    call_of gi = Some c → call_of gj = Some c → i = j;
  inv_ran : NoDup (ran s).*1;
  inv_idx i : i ∈ (ran s).*1 → is_Some (gos s !! i) }.

Lemma good_call_bound s i g c : good s i g → call_of g = Some c → (c < length (heap s))%nat.
Proof.
  unfold good, call_of. destruct (at_ g); intros Hg ?; simplify_eq.
  - destruct Hg as (_ & v & Hv). by eapply lookup_lt_Some.
  - destruct Hg as (v & Hv & _). by eapply lookup_lt_Some.
Qed.
(** What a step does not touch: the other goroutines. *)
Lemma set_pc_lookup i j p s g :
  gos s !! i = Some g → set_pc i p s !! j = if decide (i = j) then Some (mkGo (key g) p) else gos s !! j.
Proof.
  intros Hg. unfold set_pc. case_decide; [subst; by rewrite list_lookup_alter_eq, Hg|by rewrite list_lookup_alter_ne].
Qed.
Lemma set_pc_keys i p s : key <$> set_pc i p s = key <$> gos s.
Proof.
  apply list_eq. intros j. rewrite !list_lookup_fmap. unfold set_pc. destruct (decide (i = j)) as [->|Hne].
  - rewrite list_lookup_alter_eq. by destruct (gos s !! j).
  - by rewrite list_lookup_alter_ne.
Qed.
Lemma good_frame s s' j g k :
  good s j g → ran s' = ran s ++ k → j ∉ k.*1 → (∀ c, call_of g = Some c → heap s' !! c = heap s !! c) →
  good s' j g.
Proof.
  intros Hg Hran Hk Hheap. unfold good, call_of, own_result in *. rewrite Hran, fmap_app.
  assert (∀ r, own_result s j g r → own_result s' j g r) as Hown.
  { intros r (l & l' & E & ->). exists l, (l' ++ k). by rewrite Hran, E, <- app_assoc. }
  unfold own_result in *. rewrite Hran in Hown. destruct (at_ g).
  - set_solver.
  - done.
  - destruct Hg as [Hn [v Hv]]. split; [set_solver|]. exists v. by rewrite Hheap.
  - destruct Hg as (v & Hv & Ho). exists v. rewrite Hheap by done. auto.
  - auto.
Qed.
(** A step of goroutine [i] that leaves the other goroutines' calls alone keeps the invariant. *)
Lemma inv_update keys s i g p mp hp k :
  inv keys s → gos s !! i = Some g → default ∅ mp = ∅ →
  let s' := mkState mp hp (set_pc i p s) (ran s ++ k) in
  good s' i (mkGo (key g) p) → k.*1 ⊆ [i] → NoDup (ran s ++ k).*1 →
  (∀ c, call_of (mkGo (key g) p) = Some c → call_of g = Some c ∨ (length (heap s) ≤ c)%nat) →
  (∀ c, (c < length (heap s))%nat → call_of g ≠ Some c → hp !! c = heap s !! c) →
  inv keys s'.
Proof.
  intros [Im Ik Ig Ic Ir Ix] Hg Hmp s' Hgood Hk Hnd Hcall Hheap. split; cbn; [done|by rewrite set_pc_keys| | |done|].
  - intros j gj. rewrite (set_pc_lookup i j p s g Hg). case_decide as E; [intros; by simplify_eq|]. intros Hj.
    apply (good_frame s s' j gj k); [by apply Ig|done|set_solver|]. intros c Hc. apply Hheap.
    + by eapply good_call_bound; [apply Ig|].
    + intros Hc'. apply E. by eapply Ic.
  - intros j1 j2 g1 g2 c. rewrite !(set_pc_lookup i _ p s g Hg). repeat case_decide; intros H1 H2 Hc1 Hc2; simplify_eq; try done.
    + destruct (Hcall c Hc1) as [|Hb]; [by eapply Ic|]. pose proof (good_call_bound s j2 g2 c (Ig _ _ H2) Hc2). lia.
    + destruct (Hcall c Hc2) as [|Hb]; [by eapply Ic|]. pose proof (good_call_bound s j1 g1 c (Ig _ _ H1) Hc1). lia.
    + by eapply Ic.
  - intros j. rewrite fmap_app, elem_of_app, (set_pc_lookup i _ p s g Hg). case_decide; [by eauto|]. intros [Hj|Hj]; [auto|set_solver].
Qed.

Lemma step_inv keys s i s' : inv keys s → step_of fn zero i s = Some s' → inv keys s'.
Proof.
  intros Hi. unfold step_of. destruct (gos s !! i) as [g|] eqn:Hg; [|done]. cbn.
  pose proof (inv_good _ _ Hi i g Hg) as Hgood. pose proof (inv_map _ _ Hi) as Hm. pose proof (inv_ran _ _ Hi) as Hr.
  unfold good in Hgood. destruct (at_ g) as [|c|c|c|r] eqn:Ep; [| |..|done].
  - rewrite Hm, lookup_empty. intros [= <-]. rewrite <- (app_nil_r (ran s)).
    apply (inv_update keys s i g); rewrite ?app_nil_r; try done; try (by apply list_subseteq_nil).
    + unfold good. cbn. rewrite ?app_nil_r. split; [done|]. exists (inl zero). cbn. by rewrite lookup_app_r, Nat.sub_diag.
    + unfold call_of. cbn. intros c [= <-]. by right.
    + intros c Hc _. by rewrite lookup_app_l.
  - done.
  - destruct Hgood as [Hn [v Hv]]. rewrite Hv. cbn. intros [= <-].
    apply (inv_update keys s i g); try done.
    + unfold good. cbn. exists (fn (ran s) (key g)). rewrite list_lookup_insert_eq by (by eapply lookup_lt_Some).
      split; [done|]. by exists (ran s), [].
    + rewrite fmap_app. apply NoDup_app. split_and!; [done| |repeat constructor; set_solver]. set_solver.
    + unfold call_of. cbn. rewrite Ep. intros c' [= <-]. by left.
    + intros c' _ Hne. rewrite list_lookup_insert_ne; [done|]. intros ->. apply Hne. unfold call_of. by rewrite Ep.
  - destruct Hgood as (v & Hv & Ho). rewrite Hv. cbn. intros [= <-]. rewrite <- (app_nil_r (ran s)).
    apply (inv_update keys s i g); rewrite ?app_nil_r; try done; try (by apply list_subseteq_nil).
    + destruct (m s); cbn in *; [subst; by rewrite delete_empty|done].
Qed.
Lemma callers_inv keys s : reach fn zero keys s → inv keys s.
Proof.
  induction 1 as [|s i s' _ IH Hs]; [|by eapply step_inv]. split; cbn; [done| | | |constructor|set_solver].
  - rewrite <- list_fmap_compose. apply list_fmap_id.
  - intros i g. rewrite list_lookup_fmap. intros (k & _ & ->)%fmap_Some. unfold good. cbn. set_solver.
  - intros i j gi gj c. rewrite !list_lookup_fmap. intros (k & _ & ->)%fmap_Some. done.
Qed.

(** C31: nothing is ever coalesced.  However the steps of any number of callers interleave, no
    caller ever waits for another's call: the map of calls in flight stays empty because [Do]
    never stores into it.  Every caller that returns returns the result of its own run of the
    function, no caller runs it twice, and when all have returned the function has run once
    per caller. *)
Theorem do_never_coalesces keys s :
  reach fn zero keys s →
  (∀ i g, gos s !! i = Some g →
     (∀ c, at_ g ≠ InWait c) ∧ (∀ r, at_ g = Returned r → own_result s i g r)) ∧
  NoDup (ran s).*1 ∧
  ((∀ g, g ∈ gos s → ∃ r, at_ g = Returned r) → length (ran s) = length keys).
Proof.
  intros Hreach. pose proof (callers_inv _ _ Hreach) as Hi. split_and!.
  - intros i g Hg. pose proof (inv_good _ _ Hi i g Hg) as Hgood. unfold good in Hgood.
    split; intros ? E; rewrite E in Hgood; done.
  - apply Hi.
  - intros Hall. assert ((ran s).*1 ≡ₚ seq 0 (length (gos s))) as Hp.
    { apply NoDup_Permutation; [apply Hi|apply NoDup_seq|]. intros i. rewrite elem_of_seq. split.
      - intros Hin. apply (inv_idx _ _ Hi) in Hin as [g Hg]. apply lookup_lt_Some in Hg. lia.
      - intros [_ Hlt]. destruct (lookup_lt_is_Some_2 (gos s) i Hlt) as [g Hg].
        destruct (Hall g) as [r Er]; [by eapply list_elem_of_lookup_2|].
        pose proof (inv_good _ _ Hi i g Hg) as Hgood. unfold good in Hgood. rewrite Er in Hgood.
        destruct Hgood as (l & l' & -> & _). rewrite fmap_app. set_solver. }
    apply Permutation_length in Hp. rewrite length_fmap, length_seq in Hp.
    by rewrite Hp, <- (inv_keys _ _ Hi), length_fmap.
Qed.

(** The steps a caller has left. *)
Definition left_ g : nat := match at_ g with AtEntry => 3 | InFn _ => 2 | AtCleanup _ | InWait _ => 1 | Returned _ => 0 end.
(** Also: callers always finish.  In every reachable state a caller that has not returned can
    take its next step, and every step uses up one of the at most three steps of a caller: so
    every interleaving ends with all callers returned. *)
Theorem do_terminates keys s i g :
  reach fn zero keys s → gos s !! i = Some g → (∀ r, at_ g ≠ Returned r) →
  ∃ s' g', step_of fn zero i s = Some s' ∧ gos s' !! i = Some g' ∧ left_ g' = (left_ g - 1)%nat ∧
    ∀ j, j ≠ i → gos s' !! j = gos s !! j.
Proof.
  intros Hreach Hg Hret. pose proof (callers_inv _ _ Hreach) as Hi. pose proof (inv_good _ _ Hi i g Hg) as Hgood.
  assert (∀ p, set_pc i p s !! i = Some (mkGo (key g) p)) as Hset
    by (intros p; rewrite (set_pc_lookup i i p s g Hg); by rewrite decide_True).
  assert (∀ p j, j ≠ i → set_pc i p s !! j = gos s !! j) as Hothers
    by (intros p j Hne; rewrite (set_pc_lookup i j p s g Hg); by rewrite decide_False).
  unfold good, step_of, left_ in *. rewrite Hg. cbn. destruct (at_ g) as [|c|c|c|r]; [|done|..|by destruct (Hret r)].
  - rewrite (inv_map _ _ Hi), lookup_empty. eexists _, _. split_and!; [done|apply Hset|done|apply Hothers].
  - destruct Hgood as [_ [v ->]]. eexists _, _. split_and!; [done|apply Hset|done|apply Hothers].
  - destruct Hgood as (v & -> & _). eexists _, _. split_and!; [done|apply Hset|done|apply Hothers].
Qed.

(** A single caller just runs the function. *)
Lemma Do_runs_fn k : Do fn zero k = Some (fn [] k).
Proof. unfold Do, step_of, start. cbn. by rewrite lookup_empty. Qed.
End theorems.

(** Two goroutines ask for the same key at the same time; the function counts its runs. *)
Definition counting (l : list (nat * string)) (k : string) : nat + error := inl (length l).
Definition run (is_ : list nat) : state :=
  foldl (λ s i, default s (step_of counting 0%nat i s)) (start ["k"; "k"]) is_.
Lemma run_reach is_ : reach counting 0%nat ["k"; "k"] (run is_).
Proof.
  induction is_ as [|i is_ IH] using rev_ind; [constructor|]. unfold run in *. rewrite foldl_app. cbn.
  destruct (step_of counting 0%nat i _) eqn:E; cbn; [by econstructor|done].
Qed.
Definition both_running : state := run [0; 1]%nat.
Definition both_done : state := run [0; 1; 0; 1; 0; 1]%nat.
Lemma do_never_coalesces_witness : length (ran both_done) = 2%nat.
Proof.
  apply (do_never_coalesces counting 0%nat ["k"; "k"] both_done (run_reach _)).
  intros g Hg. apply list_elem_of_lookup in Hg as [[|[|i]] Hi]; vm_compute in Hi; simplify_eq; eauto.
Defined.
Lemma do_terminates_witness :
  ∃ s' g', step_of counting 0%nat 1%nat both_running = Some s' ∧ gos s' !! 1%nat = Some g' ∧ left_ g' = 1%nat ∧
    ∀ j, j ≠ 1%nat → gos s' !! j = gos both_running !! j.
Proof.
  apply (do_terminates counting 0%nat ["k"; "k"] both_running 1%nat (mkGo "k" (InFn 1)));
    [apply run_reach|vm_compute; reflexivity|done].
Defined.
End SingleFlightTheorems.
