(* ===== verification/Rpc.v ===== *)
(** * The transport between caches

    [cluster/proto/cache_grpc.go] (the hand-written stubs of the GroupCache service),
    [cache/peer/grpc_client.go] and [grpc_server.go] (the two ends), [cache/peer/tls.go] (their
    credentials), and the adapters of [cache/http.go].

    The gRPC library is not part of the repository.  Marshalling is the class [Proto]; a unary
    call is [Invoke] of the class [Grpc], of which [GrpcLaws] states what the library
    documents: the call is not delivered, or it runs the handler of the method once at the
    server and returns its answer or an error.  Both ends run over one state [S], that of all
    the processes. *)
From S2P Require Import Prelude GoStrings Lru LruRefine ConsistentHash PeerCache CacheGroup.

(** ** Messages *)
Record Request : Type := mkRequest { rq_Group : string; rq_Key : string }.
Record Response : Type := mkResponse { rs_Value : string }.
Record PushRequest : Type := mkPushRequest { pr_Group : string; pr_Key : string; pr_Value : string }.
Definition PushRequest_String (x : PushRequest) : string :=
  "PushRequest{" +:+ pr_Group x +:+ String "/" (pr_Key x +:+ "}").

(** The protobuf codec; marshalling may fail, a marshalled message can be read back. *)
Class Proto (A : Type) : Type := { marshal : A → string + error; unmarshal : string → A + error }.
Class ProtoLaws (A : Type) `{Proto A} : Prop := unmarshal_marshal (x : A) s : marshal x = inl s → unmarshal s = inl x.

(** ** Transport security *)
Inductive TLSOption : Type := TLSInsecure | TLSServerOnly | TLSMutual.
#[global] Instance TLSOption_eq_dec : EqDecision TLSOption.
Proof. solve_decision. Defined.
Record TLSConfig : Type := mkTLSConfig { t_Mode : TLSOption; CertFile : string; KeyFile : string; CAFile : string }.
(** What the credentials are made of: certificates by file, the pool that client certificates are
    checked against, the pool that server certificates are checked against ([None]: the system's). *)
Inductive Credentials : Type :=
  | InsecureCredentials
  | TLSCredentials (certificates : list (string * string)) (clientCAs rootCAs : option string).
#[global] Instance Credentials_eq_dec : EqDecision Credentials.
Proof. solve_decision. Defined.
(** The files: key pairs that do not load, file contents, texts that hold a certificate. *)
Class TLSFiles : Type := {
  loadX509KeyPair : string → string → option error;
  readFile : string → string + error;
  hasCerts : string → bool }.

Section tls.
Context `{TLSFiles}.
Definition readPool (file : string) : outcome string :=
  match readFile file with
  | inr err => Fail (Wrapf "read CA file" err)
  | inl caPEM => if hasCerts caPEM then Ret caPEM else Fail (Errorf "failed to parse CA certificate")
  end.
Definition ServerCredentials (cfg : TLSConfig) : outcome Credentials :=
  if decide (t_Mode cfg = TLSInsecure) then Ret InsecureCredentials
  else match loadX509KeyPair (CertFile cfg) (KeyFile cfg) with
  | Some err => Fail (Wrapf "load server cert/key" err)
  | None =>
      let cert := (CertFile cfg, KeyFile cfg) in
      if decide (t_Mode cfg = TLSMutual ∧ CAFile cfg ≠ "") then
        match readPool (CAFile cfg) with
        | Ret pool => Ret (TLSCredentials [cert] (Some pool) None)
        | Fail err => Fail err
        | Panic p => Panic p
        | OutOfFuel => OutOfFuel
        end
      else Ret (TLSCredentials [cert] None None)
  end.
Definition clientCert (cfg : TLSConfig) : outcome (list (string * string)) :=
  if decide (t_Mode cfg = TLSMutual ∧ CertFile cfg ≠ "" ∧ KeyFile cfg ≠ "") then
    match loadX509KeyPair (CertFile cfg) (KeyFile cfg) with
    | Some err => Fail (Wrapf "load client cert/key" err)
    | None => Ret [(CertFile cfg, KeyFile cfg)]
    end
  else Ret [].
Definition ClientCredentials (cfg : TLSConfig) : outcome Credentials :=
  if decide (t_Mode cfg = TLSInsecure) then Ret InsecureCredentials
  else
    match (if decide (CAFile cfg ≠ "") then
             match readPool (CAFile cfg) with
             | Ret pool => Ret (Some pool)
             | Fail err => Fail err
             | Panic p => Panic p
             | OutOfFuel => OutOfFuel
             end
           else Ret None) with
    | Ret rootCAs =>
        match clientCert cfg with
        | Ret certs => Ret (TLSCredentials certs None rootCAs)
        | Fail err => Fail err
        | Panic p => Panic p
        | OutOfFuel => OutOfFuel
        end
    | Fail err => Fail err
    | Panic p => Panic p
    | OutOfFuel => OutOfFuel
    end.
End tls.

(** ** The service *)
Definition Internal (msg : string) : error := Errorf ("rpc error: code = Internal desc = " +:+ msg).
Definition Unimplemented (msg : string) : error := Errorf ("rpc error: code = Unimplemented desc = " +:+ msg).

Module Rpc.
Section server.
Context {S : Type} `{Proto Request} `{Proto PushRequest}.
Abbreviation M := (GoM S).

(** What the server needs of the cache. *)
Record CacheService : Type := mkService {
  svc_Get : string → string → M string;
  svc_Delete : string → string → M unit;
  svc_PushReplica : string → string → string → M unit }.
Record GroupCacheServer : Type := mkServer {
  srv_Get : Request → M Response;
  srv_Invalidate : Request → M Response;
  srv_Push : PushRequest → M Response }.
Definition UnimplementedGroupCacheServer : GroupCacheServer := {|
  srv_Get _ := gofail (Unimplemented "method Get not implemented");
  srv_Invalidate _ := gofail (Unimplemented "method Invalidate not implemented");
  srv_Push _ := gofail (Unimplemented "method Push not implemented") |}.
Definition cacheServiceAdapter (svc : CacheService) : GroupCacheServer := {|
  srv_Get req := value ← svc_Get svc (rq_Group req) (rq_Key req); mret (mkResponse value);
  srv_Invalidate req := _ ← svc_Delete svc (rq_Group req) (rq_Key req); mret (mkResponse "");
  srv_Push req := _ ← svc_PushReplica svc (pr_Group req) (pr_Key req) (pr_Value req); mret (mkResponse "") |}.

(** An interceptor sees the request, the full method name and the handler. *)
Definition UnaryServerInterceptor : Type := ∀ A : Type, A → string → (A → M Response) → M Response.
(** A panic of the handler becomes an error. *)
Definition recoveryInterceptor : UnaryServerInterceptor := λ A req method handler s,
  match handler req s with
  | (Panic _, s') => (Fail (Internal "internal error"), s')
  | r => r
  end.
(** It only logs. *)
Definition loggingInterceptor : UnaryServerInterceptor := λ A req method handler, handler req.

Definition GroupCache_Get_Handler (srv : GroupCacheServer) (payload : string) (interceptor : option UnaryServerInterceptor)
    : M Response :=
  match (unmarshal payload : Request + error) with
  | inr err => gofail err
  | inl req =>
      match interceptor with
      | None => srv_Get srv req
      | Some i => i Request req "/proto.GroupCache/Get" (srv_Get srv)
      end
  end.
Definition GroupCache_Invalidate_Handler (srv : GroupCacheServer) (payload : string)
    (interceptor : option UnaryServerInterceptor) : M Response :=
  match (unmarshal payload : Request + error) with
  | inr err => gofail err
  | inl req =>
      match interceptor with
      | None => srv_Invalidate srv req
      | Some i => i Request req "/proto.GroupCache/Invalidate" (srv_Invalidate srv)
      end
  end.
Definition GroupCache_Push_Handler (srv : GroupCacheServer) (payload : string) (interceptor : option UnaryServerInterceptor)
    : M Response :=
  match (unmarshal payload : PushRequest + error) with
  | inr err => gofail err
  | inl req =>
      match interceptor with
      | None => srv_Push srv req
      | Some i => i PushRequest req "/proto.GroupCache/Push" (srv_Push srv)
      end
  end.
(** The service descriptor: the name of the service and its methods. *)
Definition ServiceName : string := "proto.GroupCache".
Definition GroupCache_ServiceDesc
    : list (string * (GroupCacheServer → string → option UnaryServerInterceptor → M Response)) :=
  [("Get", GroupCache_Get_Handler); ("Invalidate", GroupCache_Invalidate_Handler); ("Push", GroupCache_Push_Handler)].
End server.
Arguments CacheService : clear implicits.
Arguments GroupCacheServer : clear implicits.
Arguments UnaryServerInterceptor : clear implicits.

(** ** The library

    [chain] is [grpc.ChainUnaryInterceptor] of two, [Invoke] the unary call of a client
    connection to an address, [dialErr] whether [grpc.NewClient] rejects an address. *)
Class Grpc (S : Type) : Type := {
  chain : UnaryServerInterceptor S → UnaryServerInterceptor S → UnaryServerInterceptor S;
  Invoke : ∀ A `{Proto A}, string → string → A → GoM S Response;
  dialErr : string → option error }.

Section grpc.
Context {S : Type} `{Proto Request} `{Proto PushRequest} `{Grpc S}.
Abbreviation M := (GoM S).

(** ** The server of a process *)
Record GrpcServer : Type := mkGrpcServer { gs_addr : string; service : CacheService S; interceptor : option (UnaryServerInterceptor S) }.
Definition NewGrpcServer (addr : string) (svc : CacheService S) : GrpcServer := mkGrpcServer addr svc None.
(** [Start]: listen, build the credentials, install the interceptors.  The accept loop is the
    library's. *)
Definition Start `{TLSFiles} (listenErr : string → option error) (tlsCfg : TLSConfig) (s : GrpcServer)
    : outcome (GrpcServer * Credentials) :=
  match listenErr (gs_addr s) with
  | Some err => Fail err
  | None =>
      match ServerCredentials tlsCfg with
      | Ret creds =>
          Ret (mkGrpcServer (gs_addr s) (service s) (Some (chain recoveryInterceptor loggingInterceptor)), creds)
      | Fail err => Fail (Wrapf "tls server credentials" err)
      | Panic p => Panic p
      | OutOfFuel => OutOfFuel
      end
  end.
(** What a running server does with a call: the handler of the method with that full name. *)
Definition handle (s : GrpcServer) (method payload : string) : M Response :=
  match list_find (λ m, "/" +:+ ServiceName +:+ "/" +:+ m.1 = method) GroupCache_ServiceDesc with
  | Some (_, (_, h)) => h (cacheServiceAdapter (service s)) payload (interceptor s)
  | None => gofail (Unimplemented ("unknown method " +:+ method))
  end.

(** What comes of a call whose handler is [h]. *)
Inductive called (h : M Response) (s : S) : outcome Response * S → Prop :=
  | NotDelivered e : called h s (Fail e, s)
  | AnswerLost r s' e : h s = (r, s') → called h s (Fail e, s')
  | Answered resp s' : h s = (Ret resp, s') → called h s (Ret resp, s').
(** The documentation of the library: the first interceptor of a chain is the outermost; a
    message that cannot be marshalled is not sent; a call to a running server runs the handler
    of its method at most once, and what it returns is what the handler returned. *)
Class GrpcLaws (servers : string → option GrpcServer) : Prop := {
  chain_outer i1 i2 A (req : A) m h s : chain i1 i2 A req m h s = i1 A req m (λ r, i2 A r m h) s;
  Invoke_unmarshalled A `{Proto A} addr m (x : A) e s : marshal x = inr e → ∃ e', Invoke A addr m x s = (Fail e', s);
  Invoke_called A `{Proto A} addr m (x : A) payload srv s :
    marshal x = inl payload → servers addr = Some srv → called (handle srv m payload) s (Invoke A addr m x s) }.

(** ** The client stub *)
Definition client_Get (cc : string) (in_ : Request) : M Response := Invoke Request cc "/proto.GroupCache/Get" in_.
Definition client_Invalidate (cc : string) (in_ : Request) : M Response :=
  Invoke Request cc "/proto.GroupCache/Invalidate" in_.
Definition client_Push (cc : string) (in_ : PushRequest) : M Response :=
  Invoke PushRequest cc "/proto.GroupCache/Push" in_.

(** ** [GrpcGetter]: the client of one peer *)
Record GrpcGetter : Type := mkGetter { gg_addr : string; creds : Credentials }.
Definition NewGrpcGetter `{TLSFiles} (addr : string) (tlsCfg : TLSConfig) : outcome GrpcGetter :=
  match ClientCredentials tlsCfg with
  | Ret c =>
      match dialErr addr with
      | Some err => Fail (Wrapf ("dial " +:+ addr) err)
      | None => Ret (mkGetter addr c)
      end
  | Fail err => Fail (Wrapf "tls client credentials" err)
  | Panic p => Panic p
  | OutOfFuel => OutOfFuel
  end.
Definition Get (g : GrpcGetter) (req : Request) : M Response :=
  gowrap (Wrapf ("grpc get " +:+ gg_addr g)) (client_Get (gg_addr g) req).
Definition PushReplica (g : GrpcGetter) (group key value : string) : M unit :=
  _ ← gowrap (Wrapf ("push replica " +:+ gg_addr g)) (client_Push (gg_addr g) (mkPushRequest group key value)); mret tt.
Definition Invalidate (g : GrpcGetter) (group key : string) : M unit :=
  _ ← gowrap (Wrapf ("grpc invalidate " +:+ gg_addr g)) (client_Invalidate (gg_addr g) (mkRequest group key)); mret tt.
(** The states of a connection. *)
Inductive connectivity : Type := Idle | Connecting | Ready | TransientFailure | Shutdown.
#[global] Instance connectivity_eq_dec : EqDecision connectivity.
Proof. solve_decision. Defined.
Definition Healthy (state : connectivity) : bool := bool_decide (state = Ready ∨ state = Idle).
(** [peerGetterAdapter.Get] of [http.go]: the value is copied into the caller's message. *)
Definition peerGetterAdapter_Get (g : GrpcGetter) (in_ : Request) : M Response :=
  resp ← Get g in_; mret (mkResponse (rs_Value resp)).
End grpc.
End Rpc.

(** ** [CacheServiceAdapter] of [http.go]: the service of the process at an address *)
Definition cacheService `{CacheEnv} (peerGet : string → string → string → GoM World string) (addr : string)
    : Rpc.CacheService World :=
  Rpc.mkService (CacheGroup.adapterGet peerGet addr) (CacheGroup.adapterDelete addr) (CacheGroup.adapterPushReplica addr).
