(* ===== verification/RpcProps.v ===== *)
(** * The transport between caches: correctness

    A call of a peer's client runs the peer's cache service at most once and returns what it
    returned; panics of a handler stay at the server; the credentials are never weaker than the
    configured mode; a replica that was pushed over the wire is served by the peer, and an
    invalidation that was acknowledged has removed it. *)
From S2P Require Import Prelude GoStrings Lru LruRefine ConsistentHash PeerCache CacheGroup CacheProps Rpc.
Import Rpc.

Section calls.
Context {S : Type} `{Proto Request, !ProtoLaws Request, Proto PushRequest, !ProtoLaws PushRequest, Grpc S}.
Context (servers : string → option (GrpcServer (S := S))) `{!GrpcLaws servers}.
Implicit Types s : S.

(** A server that [Start] returned. *)
Definition started (srv : GrpcServer (S := S)) : Prop :=
  interceptor srv = Some (chain recoveryInterceptor loggingInterceptor).
Lemma Start_started `{TLSFiles} listenErr tlsCfg gs srv c :
  Start listenErr tlsCfg gs = Ret (srv, c) → started srv ∧ service srv = service gs.
Proof.
  unfold Start. destruct (listenErr _); [done|]. destruct (ServerCredentials tlsCfg); [|done..]. by intros [= <- <-].
Qed.

(** What the interceptors make of a handler. *)
Definition recovered {A} (r : outcome A * S) : outcome A * S :=
  match r with (Panic _, s') => (Fail (Internal "internal error"), s') | r => r end.
Lemma chain_recovers A (req : A) m h s :
  chain recoveryInterceptor loggingInterceptor A req m h s = recovered (h req s).
Proof. rewrite chain_outer. unfold recoveryInterceptor, loggingInterceptor, recovered. by destruct (h req s) as [[] ?]. Qed.
(** The three methods, by the name the client uses. *)
Ltac find_method :=
  unfold handle, GroupCache_ServiceDesc, list_find; repeat rewrite decide_False by done; rewrite decide_True by done; cbn [fmap option_fmap option_map prod_map fst snd id].
Lemma handle_Get srv req payload s : started srv → marshal req = inl payload →
  handle srv "/proto.GroupCache/Get" payload s = recovered (srv_Get (cacheServiceAdapter (service srv)) req s).
Proof.
  intros Hs Hm. find_method. unfold GroupCache_Get_Handler.
  rewrite (unmarshal_marshal req payload Hm), Hs. apply chain_recovers.
Qed.
Lemma handle_Invalidate srv req payload s : started srv → marshal req = inl payload →
  handle srv "/proto.GroupCache/Invalidate" payload s = recovered (srv_Invalidate (cacheServiceAdapter (service srv)) req s).
Proof.
  intros Hs Hm. find_method. unfold GroupCache_Invalidate_Handler.
  rewrite (unmarshal_marshal req payload Hm), Hs. apply chain_recovers.
Qed.
Lemma handle_Push srv req payload s : started srv → marshal req = inl payload →
  handle srv "/proto.GroupCache/Push" payload s = recovered (srv_Push (cacheServiceAdapter (service srv)) req s).
Proof.
  intros Hs Hm. find_method. unfold GroupCache_Push_Handler.
  rewrite (unmarshal_marshal req payload Hm), Hs. apply chain_recovers.
Qed.

(** A call that ran [m] at most once: it fails and nothing happened, or the state is the one
    [m] left, and a result is the result of [m]. *)
Definition at_most_once {A B} (f : A → B) (m : GoM S A) (call : GoM S B) s : Prop :=
  (∃ e, call s = (Fail e, s)) ∨
  ∃ r s', m s = (r, s') ∧ ((∃ e, call s = (Fail e, s')) ∨ ∃ a, r = Ret a ∧ call s = (Ret (f a), s')).

Lemma Invoke_once A `{PA : Proto A} {B} addr m (x : A) srv (svc : GoM S B) (f : B → Response) s :
  servers addr = Some srv →
  (∀ payload, marshal x = inl payload → handle srv m payload s = recovered ((b ← svc; mret (f b)) s)) →
  at_most_once f svc (Invoke A addr m x) s.
Proof.
  intros Hsrv Hh. destruct (marshal x) as [payload|e] eqn:Em.
  2:{ left. by apply (Invoke_unmarshalled A addr m x e s). }
  pose proof (Invoke_called A addr m x payload srv s Em Hsrv) as Hc. specialize (Hh payload eq_refl).
  unfold mbind, GoM_bind in Hh. destruct (svc s) as [r s'] eqn:Es.
  assert ((handle srv m payload s).2 = s' ∧ ∀ resp, (handle srv m payload s).1 = Ret resp → ∃ b, r = Ret b ∧ resp = f b)
    as [Hs' Hr].
  { rewrite Hh. destruct r as [b|e|p|]; cbn; split; try done. intros resp [= <-]. eauto. }
  inversion Hc as [e Hi|r1 s1 e Hd Hi|resp s1 Hd Hi].
  - left. eauto.
  - right. exists r, s'. split; [done|]. rewrite Hd in Hs'. cbn in Hs'. subst. eauto.
  - right. exists r, s'. split; [done|]. rewrite Hd in Hs', Hr. cbn in Hs', Hr. subst.
    destruct (Hr _ eq_refl) as (b & -> & ->). eauto.
Qed.
Lemma once_wrap {A B} (f : A → B) (m : GoM S A) call w s : at_most_once f m call s → at_most_once f m (gowrap w call) s.
Proof.
  intros [[e He]|(r & s' & Hm & [[e He]|(a & -> & He)])].
  - left. unfold gowrap. rewrite He. eauto.
  - right. exists r, s'. split; [done|]. left. unfold gowrap. rewrite He. eauto.
  - right. exists (Ret a), s'. split; [done|]. right. exists a. unfold gowrap. by rewrite He.
Qed.
Lemma once_then {A B C} (f : A → B) (g : B → C) (m : GoM S A) call s :
  at_most_once f m call s → at_most_once (g ∘ f) m (b ← call; mret (g b)) s.
Proof.
  unfold mbind, GoM_bind. intros [[e He]|(r & s' & Hm & [[e He]|(a & -> & He)])].
  - left. rewrite He. eauto.
  - right. exists r, s'. split; [done|]. left. rewrite He. eauto.
  - right. exists (Ret a), s'. split; [done|]. right. exists a. by rewrite He.
Qed.

Lemma Get_once g req srv s : servers (gg_addr g) = Some srv → started srv →
  at_most_once mkResponse (svc_Get (service srv) (rq_Group req) (rq_Key req)) (Get g req) s.
Proof.
  intros Hsrv Hst. apply once_wrap. apply (Invoke_once _ _ _ _ srv); [done|].
  intros payload Hm. by apply (handle_Get srv req).
Qed.
Lemma Push_once g group key value srv s : servers (gg_addr g) = Some srv → started srv →
  at_most_once id (svc_PushReplica (service srv) group key value) (PushReplica g group key value) s.
Proof.
  intros Hsrv Hst. unfold PushReplica.
  assert (at_most_once (λ _, mkResponse "") (svc_PushReplica (service srv) group key value)
    (gowrap (Wrapf ("push replica " +:+ gg_addr g)) (client_Push (gg_addr g) (mkPushRequest group key value))) s) as Ho.
  { apply once_wrap. apply (Invoke_once _ _ _ _ srv); [done|]. intros payload Hm.
    by apply (handle_Push srv (mkPushRequest group key value)). }
  apply (once_then _ (λ _, tt)) in Ho. destruct Ho as [?|(r & s' & ? & [?|([] & -> & ?)])]; [by left|right..]; eauto 10.
Qed.
Lemma Invalidate_once g group key srv s : servers (gg_addr g) = Some srv → started srv →
  at_most_once id (svc_Delete (service srv) group key) (Invalidate g group key) s.
Proof.
  intros Hsrv Hst. unfold Invalidate.
  assert (at_most_once (λ _, mkResponse "") (svc_Delete (service srv) group key)
    (gowrap (Wrapf ("grpc invalidate " +:+ gg_addr g)) (client_Invalidate (gg_addr g) (mkRequest group key))) s) as Ho.
  { apply once_wrap. apply (Invoke_once _ _ _ _ srv); [done|]. intros payload Hm.
    by apply (handle_Invalidate srv (mkRequest group key)). }
  apply (once_then _ (λ _, tt)) in Ho. destruct Ho as [?|(r & s' & ? & [?|([] & -> & ?)])]; [by left|right..]; eauto 10.
Qed.
End calls.

(** ** The caches behind the servers *)
Section caches.
Context `{CacheEnv}.
Lemma adapterPushReplica_eq addr group key val g w :
  procs w !! (addr, group) = Some g → bwf (mainCache g) →
  ∃ c', CacheGroup.adapterPushReplica addr group key val w =
      (Ret tt, put (addr, group) (CacheGroup.set_mainCache c' g) w) ∧ bwf c' ∧
    (BCache.cacheBytes (mainCache g) = 0 ∨ strlen key + strlen val ≤ BCache.cacheBytes (mainCache g) →
     ∀ t, visible t key c' = Some (mkByteView val)).
Proof.
  intros Hg Hc. destruct (add_spec key (mkByteView val) (mainCache g) Hc) as (c' & Hadd & Hc' & Hv).
  exists c'. split_and!; [|done|done]. unfold CacheGroup.adapterPushReplica, CacheGroup.StoreReplica. rewrite Hg.
  by apply onCache_eq.
Qed.
Lemma adapterDelete_eq addr group key g w :
  procs w !! (addr, group) = Some g → bwf (mainCache g) →
  ∃ c', CacheGroup.adapterDelete addr group key w = (Ret tt, put (addr, group) (CacheGroup.set_mainCache c' g) w) ∧
    bwf c' ∧ ∀ t, visible t key c' = None.
Proof.
  intros Hg Hc. destruct (delete_spec key (mainCache g) Hc) as (c' & Hdel & Hc' & Hv).
  exists c'. split_and!; [|done|intros t; rewrite Hv; by rewrite decide_True]. 
  unfold CacheGroup.adapterDelete, CacheGroup.DeleteLocal. rewrite Hg. by apply onCache_eq.
Qed.
(** A peer that answers ends the search. *)
Lemma tryPeers_answered peerGet me key pg rest g w bytes w2 g2 :
  procs w !! me = Some g →
  peerGet pg (g_name g) key (mkWorld (procs w) (log w ++ [EvPeerGet me.1 pg (g_name g) key]) (now w)) = (Ret bytes, w2) →
  procs w2 !! me = Some g2 → bwf (mainCache g2) →
  ∃ c', CacheGroup.tryPeers peerGet me key (pg :: rest) w =
      (Ret (mkByteView bytes), put me (CacheGroup.set_mainCache c' g2) w2) ∧ bwf c' ∧
    (BCache.cacheBytes (mainCache g2) = 0 ∨ strlen key + strlen bytes ≤ BCache.cacheBytes (mainCache g2) →
     ∀ t, visible t key c' = Some (mkByteView bytes)).
Proof.
  intros Hg Hpeer Hg2 Hc. destruct (add_spec key (mkByteView bytes) (mainCache g2) Hc) as (c' & Hadd & Hc' & Hv).
  exists c'. split_and!; [|done|done]. cbn [CacheGroup.tryPeers]. unfold CacheGroup.fetchFromPeer, mbind, GoM_bind, gotry.
  rewrite (getG_eq me g w Hg). unfold CacheGroup.tell, gomodify. rewrite Hpeer.
  unfold CacheGroup.populateCache. by rewrite (onCache_eq me g2 w2 _ _ c' Hg2 Hadd).
Qed.
End caches.

(** ** Reads of a group through the clients of its peers *)
Section remote.
Context `{CacheEnv, Proto Request, !ProtoLaws Request, Proto PushRequest, !ProtoLaws PushRequest, Grpc World}.
Definition remoteGet (c : Credentials) (addr group key : string) : GoM World string :=
  resp ← Rpc.Get (mkGetter addr c) (mkRequest group key); mret (rs_Value resp).
(** A server that can be reached: what its handler returns arrives. *)
Definition reachable (addr : string) (srv : GrpcServer (S := World)) : Prop :=
  ∀ A (PA : Proto A) m (x : A) payload s r s', marshal x = inl payload →
    handle srv m payload s = (Ret r, s') → Invoke A addr m x s = (Ret r, s').
Lemma remoteGet_hit c further servers `{!GrpcLaws servers} peer srv group key payload v g w :
  started srv → reachable peer srv → service srv = cacheService further peer → key ≠ "" →
  marshal (mkRequest group key) = inl payload → procs w !! (peer, group) = Some g → cacheDirty g = false →
  bwf (mainCache g) → visible (now w) key (mainCache g) = Some v →
  ∃ g', remoteGet c peer group key w = (Ret (PeerCache.b v), put (peer, group) g' w).
Proof.
  intros Hst Hreach Hsvc Hk Hm Hg Hd Hc Hv.
  destruct (Get_clean further (peer, group) g w key Hk Hg Hd Hc)
    as (g1 & _ & _ & _ & _ & _ & _ & _ & c' & _ & _ & _ & Hget). rewrite Hv in Hget.
  exists (CacheGroup.set_mainCache c' g1). unfold remoteGet, Rpc.Get, client_Get, mbind, GoM_bind, gowrap.
  cbn [gg_addr]. erewrite (Hreach Request _ _ _ payload _ (mkResponse (PeerCache.b v))); [done|exact Hm|].
  rewrite (handle_Get servers srv (mkRequest group key) payload w Hst Hm), Hsvc.
  unfold cacheServiceAdapter, cacheService. cbn [srv_Get svc_Get rq_Group rq_Key]. unfold CacheGroup.adapterGet, mbind, GoM_bind.
  rewrite Hg. by rewrite Hget.
Qed.
End remote.

Module RpcTheorems.
Section theorems.
Context {S : Type} `{Proto Request, !ProtoLaws Request, Proto PushRequest, !ProtoLaws PushRequest, Grpc S}.

(** C14: remote calls.  Over a transport as the gRPC library documents it, a read, a push and an
    invalidation through a peer's client each run the corresponding operation of the peer's
    cache service at most once, with the same arguments: the call fails and nothing happened, or
    the state is the one the operation left, and a result is the result of the operation. *)
Theorem peer_calls_run_service_once (servers : string → option GrpcServer) g srv req group key value (s : S) :
  GrpcLaws servers → servers (gg_addr g) = Some srv → started srv →
  at_most_once mkResponse (svc_Get (service srv) (rq_Group req) (rq_Key req)) (Get g req) s ∧
  at_most_once id (svc_PushReplica (service srv) group key value) (PushReplica g group key value) s ∧
  at_most_once id (svc_Delete (service srv) group key) (Invalidate g group key) s.
Proof.
  intros Hl Hsrv Hst. split_and!; [by eapply Get_once|by eapply Push_once|by eapply Invalidate_once].
Qed.

(** Also: panics stay at the server.  Whatever bytes arrive for whatever method, and whatever the
    cache does with them, a started server does not panic: a panic of the service is answered
    with an error, and the state is the one the service left. *)
Theorem server_contains_panics (servers : string → option GrpcServer) srv method payload (s : S) p :
  GrpcLaws servers → started srv → (handle srv method payload s).1 ≠ Panic p.
Proof.
  intros Hl Hst. unfold handle. destruct (list_find _ _) as [[i [name h]]|] eqn:E; [|done].
  apply list_find_Some in E as (Hi & _ & _). rewrite Hst.
  assert (∀ A (req : A) m hd, (chain recoveryInterceptor loggingInterceptor A req m hd s).1 ≠ Panic p) as Hchain.
  { intros. rewrite (chain_recovers servers). unfold recovered. by destruct (hd req s) as [[] ?]. }
  destruct i as [|[|[|i]]]; cbn in Hi; simplify_eq;
    unfold GroupCache_Get_Handler, GroupCache_Invalidate_Handler, GroupCache_Push_Handler;
    destruct (unmarshal payload); done || apply Hchain.
Qed.
End theorems.

(** Also: transport security is never weakened.  Credentials without encryption are built
    exactly when the mode asks for it; a server demands client certificates exactly in mutual
    mode with a certificate authority; and a client checks the server against the configured
    authority whenever one is named.  A file that cannot be used is an error, never a weaker
    mode. *)
Theorem tls_never_downgraded `{TLSFiles} cfg :
  (∀ c, ServerCredentials cfg = Ret c →
     (c = InsecureCredentials ↔ t_Mode cfg = TLSInsecure) ∧
     ((∃ certs ca roots, c = TLSCredentials certs (Some ca) roots) ↔ t_Mode cfg = TLSMutual ∧ CAFile cfg ≠ "")) ∧
  (∀ c, ClientCredentials cfg = Ret c →
     (c = InsecureCredentials ↔ t_Mode cfg = TLSInsecure) ∧
     (t_Mode cfg ≠ TLSInsecure → CAFile cfg ≠ "" →
      ∃ certs pem, readFile (CAFile cfg) = inl pem ∧ c = TLSCredentials certs None (Some pem))).
Proof.
  unfold ServerCredentials, ClientCredentials, clientCert, readPool. split; intros c.
  - case_decide as Hm; [intros [= <-]; rewrite Hm; naive_solver|].
    destruct (loadX509KeyPair _ _); [done|]. case_decide as Hca; [|intros [= <-]; naive_solver].
    destruct (readFile _); [|done]. destruct (hasCerts _); [|done]. intros [= <-]. naive_solver.
  - case_decide as Hm; [intros [= <-]; naive_solver|].
    destruct (readFile (CAFile cfg)) as [pem|e]; [destruct (hasCerts pem)|];
      repeat case_decide; try destruct (loadX509KeyPair _ _); intros [= <-]; naive_solver.
Qed.

(** C16: replicas and invalidations over the wire.  When a push of a value to a peer was
    acknowledged, the peer serves the value from its own cache, without asking anybody, provided
    its cache is clean and the entry fits; and when an invalidation of the key was acknowledged
    then, the peer no longer has it. *)
Theorem pushed_replica_served `{CacheEnv, Proto Request, !ProtoLaws Request, Proto PushRequest, !ProtoLaws PushRequest, Grpc World}
    peerGet (servers : string → option GrpcServer) g srv group key value grp w w1 :
  GrpcLaws servers → servers (gg_addr g) = Some srv → started srv →
  service srv = cacheService peerGet (gg_addr g) →
  key ≠ "" → procs w !! (gg_addr g, group) = Some grp → cacheDirty grp = false → bwf (mainCache grp) →
  BCache.cacheBytes (mainCache grp) = 0 ∨ strlen key + strlen value ≤ BCache.cacheBytes (mainCache grp) →
  PushReplica g group key value w = (Ret tt, w1) →
  (CacheGroup.Get peerGet (gg_addr g, group) key w1).1 = Ret (mkByteView value) ∧
  log (CacheGroup.Get peerGet (gg_addr g, group) key w1).2 = log w ∧
  ∀ w2, Invalidate g group key w1 = (Ret tt, w2) →
    ∃ grp2, procs w2 !! (gg_addr g, group) = Some grp2 ∧ ∀ t, visible t key (mainCache grp2) = None.
Proof.
  intros Hl Hsrv Hst Hsvc Hk Hg Hd Hc Hfit Hpush.
  destruct (adapterPushReplica_eq (gg_addr g) group key value grp w Hg Hc) as (c1 & Ha & Hc1 & Hv).
  pose proof (Push_once servers g group key value srv w Hsrv Hst) as Ho. rewrite Hsvc in Ho. cbn in Ho.
  assert (w1 = put (gg_addr g, group) (CacheGroup.set_mainCache c1 grp) w) as Hw1.
  { destruct Ho as [[e He]|(r & s' & Hm & [[e He]|([] & -> & He)])]; [congruence..|]. rewrite Ha in Hm. congruence. }
  set (grp1 := CacheGroup.set_mainCache c1 grp) in *.
  assert (procs w1 !! (gg_addr g, group) = Some grp1) as Hg1 by (rewrite Hw1; apply put_lookup).
  assert (visible (now w1) key (mainCache grp1) = Some (mkByteView value)) as Hv1 by by apply Hv.
  destruct (Get_clean peerGet (gg_addr g, group) grp1 w1 key Hk Hg1 Hd Hc1)
    as (g1 & _ & _ & _ & _ & _ & _ & _ & c' & _ & _ & _ & ->). rewrite Hv1.
  split_and!; [done|by rewrite Hw1|]. intros w2 Hinv.
  destruct (adapterDelete_eq (gg_addr g) group key grp1 w1 Hg1 Hc1) as (c2 & Hdel & _ & Hnone).
  pose proof (Invalidate_once servers g group key srv w1 Hsrv Hst) as Ho2. rewrite Hsvc in Ho2. cbn in Ho2.
  assert (w2 = put (gg_addr g, group) (CacheGroup.set_mainCache c2 grp1) w1) as ->.
  { destruct Ho2 as [[e He]|(r & s' & Hm & [[e He]|([] & -> & He)])]; [congruence..|]. rewrite Hdel in Hm. congruence. }
  eexists. split; [apply put_lookup|]. exact Hnone.
Qed.

End RpcTheorems.

(** ** A concrete transport

    Fields of a message are separated by line breaks, a message with one in a field is
    refused, and every call is delivered.  The process "b" has the group "scores". *)
Module RpcWitness.
Definition nl : ascii := "010".
Definition refused : error := Errorf "line break in a field".
#[local] Instance request_proto : Proto Request := {|
  marshal r := if no_char nl (rq_Group r) then inl (rq_Group r +:+ String nl (rq_Key r)) else inr refused;
  unmarshal s := match Split nl s with
                 | group :: _ :: _ => inl (mkRequest group (TrimPrefix s (group +:+ String nl "")))
                 | _ => inr (Errorf "not a request")
                 end |}.
Lemma trim_field f rest : TrimPrefix (f +:+ String nl rest) (f +:+ String nl "") = rest.
Proof.
  replace (f +:+ String nl rest) with ((f +:+ String nl "") +:+ rest) by (by rewrite str_app_assoc).
  apply TrimPrefix_app.
Qed.
Lemma Split_two f rest : no_char nl f = true → ∃ x l, Split nl (f +:+ String nl rest) = f :: x :: l.
Proof.
  intros Hf. rewrite Split_app by done. destruct (Split nl rest) as [|x l] eqn:E; [|eauto].
  exfalso. destruct rest as [|c rest]; cbn in E; [done|]. destruct (Ascii.eqb c nl); [done|]. by destruct (Split nl rest).
Qed.
#[local] Instance request_laws : ProtoLaws Request.
Proof.
  intros [group key] s. unfold marshal, unmarshal, request_proto. cbn [rq_Group rq_Key].
  destruct (no_char nl group) eqn:Hn; [|done]. intros [= <-].
  destruct (Split_two group key Hn) as (x & l & ->). by rewrite trim_field.
Qed.
#[local] Instance push_proto : Proto PushRequest := {|
  marshal r := if no_char nl (pr_Group r) && no_char nl (pr_Key r)
               then inl (pr_Group r +:+ String nl (pr_Key r +:+ String nl (pr_Value r))) else inr refused;
  unmarshal s := match Split nl s with
                 | group :: key :: _ =>
                     inl (mkPushRequest group key (TrimPrefix (TrimPrefix s (group +:+ String nl "")) (key +:+ String nl "")))
                 | _ => inr (Errorf "not a push")
                 end |}.
#[local] Instance push_laws : ProtoLaws PushRequest.
Proof.
  intros [group key val] s. unfold marshal, unmarshal, push_proto. cbn [pr_Group pr_Key pr_Value].
  destruct (no_char nl group) eqn:Hg; [|done]. destruct (no_char nl key) eqn:Hk; [|done]. cbn [andb]. intros [= <-]. rewrite Split_app by done. rewrite Split_app by done. by rewrite !trim_field.
Qed.

#[local] Instance env : CacheEnv := { getter := λ _ _ k, inr (Errorf (k +:+ " not exist")); dbWait := λ _, None; all_order := λ l, l }.
Definition noPeer (addr groupName key : string) : GoM World string := gofail (Errorf "no peer").
Definition chain2 (i1 i2 : UnaryServerInterceptor World) : UnaryServerInterceptor World :=
  λ A req m h, i1 A req m (λ r, i2 A r m h).
Definition serverB : GrpcServer (S := World) :=
  mkGrpcServer "b" (cacheService noPeer "b") (Some (chain2 recoveryInterceptor loggingInterceptor)).
Definition servers (addr : string) : option (GrpcServer (S := World)) := if decide (addr = "b") then Some serverB else None.
Definition deliver (h : GoM World Response) : GoM World Response := λ s,
  match h s with
  | (Ret r, s') => (Ret r, s')
  | (Fail e, s') => (Fail e, s')
  | (_, s') => (Fail (Errorf "connection lost"), s')
  end.
#[local] Instance demo_grpc : Grpc World := {|
  chain := chain2;
  Invoke A PA addr m x := match marshal x, servers addr with
                          | inl payload, Some srv => deliver (handle srv m payload)
                          | inr e, _ => gofail e
                          | _, None => gofail (Errorf "connection refused")
                          end;
  dialErr _ := None |}.
#[local] Instance demo_grpc_laws : GrpcLaws servers.
Proof.
  split.
  - done.
  - intros A PA addr m x e s Hm. cbn. rewrite Hm. eexists. reflexivity.
  - intros A PA addr m x payload srv s Hm Hs. cbn. rewrite Hm, Hs. unfold deliver.
    destruct (handle srv m payload s) as [[r|e|p|] s'] eqn:E.
    + by apply Answered.
    + by eapply AnswerLost.
    + by eapply AnswerLost.
    + by eapply AnswerLost.
Qed.
Definition toB : GrpcGetter := mkGetter "b" InsecureCredentials.
Definition emptyCache : BCache.cache := BCache.newCache 2048.
Lemma emptyCache_bwf : bwf emptyCache.
Proof. by split. Qed.
Definition scores : Group := mkGroup "scores" emptyCache None 2 None false false false.
Definition w0 : World := mkWorld {[("b", "scores") := scores]} [] 0.
Definition w1 : World := (PushReplica toB "scores" "Tom" "630" w0).2.

Lemma peer_calls_run_service_once_witness :
  at_most_once mkResponse (CacheGroup.adapterGet noPeer "b" "scores" "Tom") (Get toB (mkRequest "scores" "Tom")) w0.
Proof.
  apply (RpcTheorems.peer_calls_run_service_once servers toB serverB (mkRequest "scores" "Tom") "scores" "Tom" "630" w0);
    [exact demo_grpc_laws|reflexivity|reflexivity].
Defined.
Lemma server_contains_panics_witness :
  (handle serverB "/proto.GroupCache/Get" "scores" w0).1 ≠ Panic "nil group".
Proof. apply (RpcTheorems.server_contains_panics servers); [exact demo_grpc_laws|reflexivity]. Defined.
Lemma pushed_replica_served_witness :
  (CacheGroup.Get noPeer ("b", "scores") "Tom" w1).1 = Ret (mkByteView "630").
Proof.
  apply (RpcTheorems.pushed_replica_served noPeer servers toB serverB "scores" "Tom" "630" scores w0 w1);
    [exact demo_grpc_laws|reflexivity|reflexivity|reflexivity|discriminate|reflexivity|reflexivity|exact emptyCache_bwf| |].
  - right. vm_compute. discriminate.
  - vm_compute. reflexivity.
Defined.

(** A second node that knows [b] and asks it. *)
Definition knowsB : Reg.Registry := Reg.processEvents (λ _, true) [Reg.NodeJoin "b"] (Reg.NewRegistry "a" None).
Definition asking : Group := mkGroup "scores" emptyCache (Some knowsB) 2 None false false true.
Definition w2 : World := put ("a", "scores") asking w1.
Definition stored : Group := default scores (procs w1 !! ("b", "scores")).
Lemma serverB_reachable : reachable "b" serverB.
Proof. intros A PA m x payload s r s' Hm Hh. unfold Invoke, demo_grpc. rewrite Hm.
  change (servers "b") with (Some serverB). cbn [deliver]. unfold deliver. by rewrite Hh.
Qed.
Lemma stored_bwf : bwf (mainCache stored).
Proof.
  destruct (adapterPushReplica_eq "b" "scores" "Tom" "630" scores w0 eq_refl emptyCache_bwf) as (c' & Ha & Hc' & _).
  assert (w1 = (CacheGroup.adapterPushReplica "b" "scores" "Tom" "630" w0).2) as E by (vm_compute; reflexivity).
  unfold stored. rewrite E, Ha. exact Hc'.
Qed.
End RpcWitness.
