(* ===== verification/CacheConf.v ===== *)
(** * The settings and the source of a cache node

    [cache/conf/config.go] and [GetConfig.go] (the YAML settings of the nodes),
    [cache/ratelimit.go] and [cache/redis_getter.go].  What the YAML decoder, the limiter and
    the Redis client answer are arguments. *)
From S2P Require Import Prelude GoStrings PeerCache.

(** ** [conf]: the settings file *)
Module CConf.
Record Server : Type := mkServerConf { s_Port : Z; s_API : bool; s_IP : string; s_Gossip : Z }.
Definition SeedAddr (s : Server) : string := s_IP s +:+ String ":" (Itoa (s_Gossip s)).
Definition CacheAddr (s : Server) : string := "http://" +:+ s_IP s +:+ String ":" (Itoa (s_Port s)).

Record Config : Type := mkConf {
  FrontServer : string;
  DefaultReplicas : Z;
  DefaultBasePath : string;
  API : string;
  OnlineServers : list Server;
  Redis_ : string * Z * string * string;      (* addr, port, user, pwd *)
  MySQL : string * string * string;           (* password, user, database *)
  MaxBytes : Z }.
Definition set_servers (l : list Server) (c : Config) : Config :=
  mkConf (FrontServer c) (DefaultReplicas c) (DefaultBasePath c) (API c) l (Redis_ c) (MySQL c) (MaxBytes c).
Definition set_MaxBytes (n : Z) (c : Config) : Config :=
  mkConf (FrontServer c) (DefaultReplicas c) (DefaultBasePath c) (API c) (OnlineServers c) (Redis_ c) (MySQL c) n.

Definition serverDefaults (s : Server) : Server :=
  mkServerConf (s_Port s) (s_API s) (if decide (s_IP s = "") then "localhost" else s_IP s)
    (if decide (s_Gossip s = 0) then int64 (s_Port s + 1000) else s_Gossip s).
(** [opened] is the error of opening the file, [decoded] what the decoder returns. *)
Definition LoadConfig (opened : option error) (decoded : Config + error) : outcome Config :=
  match opened, decoded with
  | Some err, _ => Fail (Wrapf "open config" err)
  | None, inr err => Fail (Wrapf "decode config" err)
  | None, inl cfg => Ret (set_servers (serverDefaults <$> OnlineServers cfg) cfg)
  end.

Definition SeedAddrs (c : Config) (excludePort : Z) : list string :=
  SeedAddr <$> filter (λ s, s_Port s ≠ excludePort) (OnlineServers c).
Definition SelfServer (c : Config) (port : Z) : option Server :=
  snd <$> list_find (λ s, s_Port s = port) (OnlineServers c).
Definition APIServer (c : Config) : option Server := snd <$> list_find (λ s, s_API s = true) (OnlineServers c).

Definition validateServer (i : nat) (s : Server) : option error :=
  let at_ := "online-servers[" +:+ Itoa (Z.of_nat i) +:+ "]: " in
  if decide (s_Port s ≤ 0 ∨ s_Port s > 65535) then Some (Errorf (at_ +:+ "invalid port " +:+ Itoa (s_Port s)))
  else if decide (s_IP s = "") then Some (Errorf (at_ +:+ "ip is required"))
  else if decide (s_Gossip s ≤ 0 ∨ s_Gossip s > 65535) then
    Some (Errorf (at_ +:+ "invalid gossip port " +:+ Itoa (s_Gossip s)))
  else None.
Fixpoint validateServers (i : nat) (l : list Server) : option error :=
  match l with
  | [] => None
  | s :: rest => match validateServer i s with Some err => Some err | None => validateServers (S i) rest end
  end.
Definition Validate (c : Config) : outcome Config :=
  if decide (FrontServer c = "") then Fail (Errorf "front-server is required")
  else if decide (OnlineServers c = []) then Fail (Errorf "at least one online-server is required")
  else match validateServers 0 (OnlineServers c) with
  | Some err => Fail err
  | None => Ret (if decide (MaxBytes c ≤ 0) then set_MaxBytes (Z.shiftl 256 20) c else c)
  end.

(** [ConfigData]: the settings, loaded later; the accessors dereference them. *)
Record ConfigData : Type := mkConfigData { cd_path : string; cd_config : option Config }.
Definition NewConfigData (path : string) : ConfigData := mkConfigData path None.
Definition Load (files : string → option error * (Config + error)) (d : ConfigData) : outcome ConfigData :=
  match LoadConfig (files (cd_path d)).1 (files (cd_path d)).2 with
  | Ret cfg => Ret (mkConfigData (cd_path d) (Some cfg))
  | Fail err => Fail err
  | Panic p => Panic p
  | OutOfFuel => OutOfFuel
  end.
Definition deref {A} (f : Config → A) (d : ConfigData) : outcome A :=
  match cd_config d with Some c => Ret (f c) | None => Panic "nil pointer dereference" end.
Definition GetFrontServer : ConfigData → outcome string := deref FrontServer.
Definition GetApi : ConfigData → outcome string := deref API.
Definition GetOnlineServers : ConfigData → outcome (list Server) := deref OnlineServers.
Definition GetConfig (d : ConfigData) : option Config := cd_config d.
End CConf.

(** ** Rate limiting and the Redis source

    The limiter and the client are libraries; what they answer is an argument. *)
Record rateLimiter : Type := mkLimiter { rl_limit : Z; rl_burst : Z }.
Definition NewDBLoaderLimiter : rateLimiter := mkLimiter 200 50.
Definition NewDBLoaderLimiterWithLimit (rps burst : Z) : rateLimiter := mkLimiter rps burst.
Definition Wait (waits : rateLimiter → option error) (l : option rateLimiter) : option error :=
  match l with None => None | Some l => waits l end.
Definition Allow (allows : rateLimiter → bool) (l : option rateLimiter) : bool :=
  match l with None => true | Some l => allows l end.
Definition dbLoadTimeout : Z := 3 * Hot.second.

Module RedisGetter.
(** The answer of GET: a value, no such key, or an error. *)
Inductive getReply : Type := Val (v : string) | Nil | Err (e : error).
Record RedisGetter : Type := mkRedisGetter { client : option string; addr : string }.
Definition NewRedisGetter (ping : string → option error) (a : string) : outcome RedisGetter :=
  match ping a with
  | Some err => Fail (Wrapf ("redis connect " +:+ a) err)
  | None => Ret (mkRedisGetter (Some a) a)
  end.
Definition NewRedisGetterFromClient (c : option string) : RedisGetter := mkRedisGetter c "".
Definition Get (server : string → string → getReply) (g : RedisGetter) (key : string) : outcome string :=
  match client g with
  | None => Fail (Errorf "redis client is nil")
  | Some c =>
      match server c key with
      | Nil => Fail (Errorf ("key " +:+ Quote key +:+ " not found in redis"))
      | Err e => Fail e
      | Val v => Ret v
      end
  end.
Definition Addr (g : RedisGetter) : string := addr g.
Definition Close (closes : string → option error) (g : RedisGetter) : option error :=
  match client g with Some c => closes c | None => None end.
End RedisGetter.
