(* ===== verification/Node.v ===== *)
(** * A cache node

    [cache/init.go] (selection of the settings), [cache/starter.go] and [run.go] (starting and
    stopping a node) and the HTTP handlers of [cache/http.go].

    The environment, the gossip library, listening sockets and the end of the node's life
    are arguments. *)
From S2P Require Import Prelude GoStrings Lru LruRefine ConsistentHash PeerCache CacheGroup Rpc CacheConf.

(** ** [init.go]: the settings of this node *)
Module Node.
Record Config : Type := mkNodeConfig {
  Host : string;
  Port : Z;
  Gossip : Z;
  IsAPI : bool;
  GroupName : string;
  MaxBytes : Z;
  APIAddr : string;
  SeedAddrs : list string;
  DB : gmap string string;
  servers : list CConf.Server }.

Definition pickPort (Getenv : string → string) (c : CConf.Config) : Z :=
  let fallback := match CConf.OnlineServers c with s :: _ => CConf.s_Port s | [] => 8001 end in
  if decide (Getenv "PORT" = "") then fallback
  else match Atoi (Getenv "PORT") with
  | (p, None) => p
  | (_, Some _) => fallback
  end.
Definition LoadConfig (Getenv : string → string) (files : string → option error * (CConf.Config + error))
    : outcome Config :=
  let configPath := if decide (Getenv "GEECACHE_CONFIG" = "") then "config.yaml" else Getenv "GEECACHE_CONFIG" in
  match CConf.Load files (CConf.NewConfigData configPath) with
  | Fail err => Fail (Wrapf "load config" err)
  | Panic p => Panic p
  | OutOfFuel => OutOfFuel
  | Ret d =>
      match CConf.GetConfig d with
      | None => Panic "nil pointer dereference"
      | Some c =>
          match CConf.Validate c with
          | Fail err => Fail (Wrapf "invalid config" err)
          | Panic p => Panic p
          | OutOfFuel => OutOfFuel
          | Ret cfg =>
              let port := pickPort Getenv cfg in
              match CConf.SelfServer cfg port with
              | None => Fail (Errorf ("no server config for port " +:+ Itoa port))
              | Some srv =>
                  Ret (mkNodeConfig (CConf.s_IP srv) (CConf.s_Port srv) (CConf.s_Gossip srv) (CConf.s_API srv)
                         "scores" (CConf.MaxBytes cfg) (CConf.FrontServer cfg) []
                         {["Tom" := "630"; "Jack" := "589"; "Sam" := "567"]} (CConf.OnlineServers cfg))
              end
          end
      end
  end.

(** ** [starter.go] *)
Definition seedAddrs (l : list CConf.Server) (excludePort : Z) : list string :=
  CConf.SeedAddr <$> filter (λ s, CConf.s_Port s ≠ excludePort) l.
Definition addrFromHostPort (host : string) (port : Z) : string := host +:+ String ":" (Itoa port).
(** [net.JoinHostPort]: a host with a colon is put in brackets. *)
Definition JoinHostPort (host port : string) : string :=
  if no_char ":" host then host +:+ String ":" port else String "[" (host +:+ "]:" +:+ port).
(** The function [createGroup] hands to [NewGroup]. *)
Definition dbGetter (cfg : Config) (key : string) : string + error :=
  match DB cfg !! key with Some v => inl v | None => inr (Errorf (key +:+ " not exist")) end.
Definition tlsConfigFromEnv (Getenv : string → string) : TLSConfig :=
  let v := Getenv "GEECACHE_TLS" in
  let mode := if decide (v = "1" ∨ v = "server") then TLSServerOnly else TLSInsecure in
  let mode := if decide (v = "mutual") then TLSMutual else mode in
  mkTLSConfig mode (Getenv "GEECACHE_TLS_CERT") (Getenv "GEECACHE_TLS_KEY") (Getenv "GEECACHE_TLS_CA").

(** What runs in a node. *)
Inductive service : Type :=
  | SRegistry (name : string) (gossip : Z) (seeds : list string)
  | STracker
  | SGrpc (addr : string)
  | SHttp (addr : string)
  | SApi (addr : string).
Inductive svcEvent : Type := Started (s : service) | Stopped (s : service).
#[global] Instance service_eq_dec : EqDecision service.
Proof. solve_decision. Defined.
#[global] Instance svcEvent_eq_dec : EqDecision svcEvent.
Proof. solve_decision. Defined.
(** How a node ends: its context is cancelled, or the gRPC server stops, perhaps with an error. *)
Inductive ending : Type := CtxDone | Served (err : option error).
Class NodeEnv : Type := {
  Getenv : string → string;
  createErr : string → Z → option error;        (* memberlist.Create *)
  listenErr : string → option error;            (* net.Listen *)
  leaving : string → list Reg.NodeEvent;        (* what memberlist notifies of while it leaves *)
  leaveErr : string → option error;             (* the result of Leave *)
  waitEnd : list svcEvent → ending }.
Record NodeWorld : Type := mkNodeWorld { caches : World; life : list svcEvent }.

Section run.
Context `{CacheEnv, TLSFiles, NodeEnv, Rpc.Grpc World}.
Context (peerGet : string → string → string → GoM World string).
Abbreviation M := (GoM NodeWorld).

Definition onCaches {A} (m : GoM World A) : M A := golift caches (λ w n, mkNodeWorld w (life n)) m.
Definition happened (e : svcEvent) : M unit := gomodify (λ n, mkNodeWorld (caches n) (life n ++ [e])).

Definition createGroup (me : string * string) (cfg : Config) : M unit :=
  onCaches (CacheGroup.NewGroup me (MaxBytes cfg) true).
Definition createRegistry (bindAddr : string) (cachePort gossipPort : Z) (seeds : list string) : M Reg.Registry :=
  let localCacheAddr := JoinHostPort bindAddr (Itoa cachePort) in
  match createErr localCacheAddr gossipPort with
  | Some err => gofail (Wrapf "create memberlist" err)
  | None =>
      _ ← happened (Started (SRegistry localCacheAddr gossipPort seeds));
      mret (Reg.NewRegistry localCacheAddr None)
  end.
Definition createHotKeyTracker (localAddr : string) : M Hot.HotKeyTracker :=
  _ ← happened (Started STracker);
  mret (Hot.NewHotKeyTracker Hot.DefaultHotKeyConfig localAddr).
Definition startGrpcServer (proc addr : string) : M unit :=
  let srv := Rpc.NewGrpcServer addr (cacheService peerGet proc) in
  _ ← gowrap (Wrapf "gRPC server") (gocall (Rpc.Start listenErr (tlsConfigFromEnv Getenv) srv));
  happened (Started (SGrpc addr)).
(** The two HTTP servers listen in goroutines of their own, and an error of [ListenAndServe]
    is only logged there: [Started] says that the goroutine runs, not that the port is open. *)
Definition startCacheHTTPServer (addr : string) : M unit := happened (Started (SHttp addr)).
Definition startAPIServer (apiAddr : string) : M unit := happened (Started (SApi apiAddr)).

(** [registry.Stop()], through the pointer the group holds; its error is dropped. *)
Definition stopRegistry (me : string * string) : M unit :=
  onCaches (g ← CacheGroup.getG me;
            match g_registry g with
            | Some r =>
                let '(o, r') := Reg.Stop (leaving (Reg.LocalAddr r)) (leaveErr (Reg.LocalAddr r)) r in
                _ ← CacheGroup.SetRegistry me r';
                _ ← gotry (gocall o); mret tt
            | None => gopanic "nil registry"
            end).

(** ** [run.go] *)
Definition apiAddrOf (cfg : Config) : string :=
  let apiAddr := if decide (APIAddr cfg = "") then addrFromHostPort (Host cfg) 9999 else APIAddr cfg in
  if decide (7 < String.length apiAddr)%nat then TrimPrefix apiAddr "http://" else apiAddr.
Definition Run (cfg : Config) : M unit :=
  let cacheAddr := addrFromHostPort (Host cfg) (Port cfg) in
  let seeds := match SeedAddrs cfg with [] => seedAddrs (servers cfg) (Port cfg) | l => l end in
  registry ← gowrap (Wrapf "create registry") (createRegistry (Host cfg) (Port cfg) (Gossip cfg) seeds);
  let me := (Reg.LocalAddr registry, GroupName cfg) in
  _ ← gowrap (Wrapf "create group") (createGroup me cfg);
  _ ← gowrap (Wrapf "register peers") (onCaches (CacheGroup.RegisterPeers me));
  _ ← onCaches (CacheGroup.SetRegistry me registry);
  hotTracker ← createHotKeyTracker cacheAddr;
  _ ← onCaches (CacheGroup.SetHotKeyTracker me hotTracker);
  _ ← onCaches (CacheGroup.SetDBLimiter me);
  _ ← startGrpcServer (Reg.LocalAddr registry) cacheAddr;
  let healthAddr := addrFromHostPort (Host cfg) (int64 (Port cfg + 100)) in
  _ ← startCacheHTTPServer healthAddr;
  _ ← (if IsAPI cfg then startAPIServer (apiAddrOf cfg) else mret tt);
  n ← goget;
  let grpcErr := match waitEnd (life n) with CtxDone => None | Served err => err end in
  _ ← happened (Stopped (SGrpc cacheAddr));
  _ ← happened (Stopped (SHttp healthAddr));
  _ ← (if IsAPI cfg then happened (Stopped (SApi (apiAddrOf cfg))) else mret tt);
  _ ← happened (Stopped STracker);
  _ ← stopRegistry me;
  _ ← happened (Stopped (SRegistry (Reg.LocalAddr registry) (Gossip cfg) seeds));
  match grpcErr with Some err => gofail err | None => mret tt end.

(** ** The HTTP handlers: status and body *)
Definition httpError (status : Z) (msg : string) : Z * string := (status, msg +:+ String "010" "").
Record HTTPServer : Type := mkHTTPServer { self : string; basePath : string }.
Definition NewHTTPServer (selfAddr : string) : HTTPServer := mkHTTPServer selfAddr "/cache/".
Definition ServeHTTP (s : HTTPServer) (path : string) : Z * string :=
  if decide (path = "/_health") then (200, "ok")
  else if decide (path = "/_info") then
    (200, "node: " +:+ self s +:+ String "010" ("protocol: gRPC+HTTP" +:+ String "010" ""))
  else httpError 410 "cache requests use gRPC; use grpcurl or a gRPC client".
(** The API gateway, for the value of the query parameter. *)
Definition apiHandler (me : string * string) (key : string) : GoM World (Z * string) :=
  r ← gotry (CacheGroup.Get peerGet me key);
  mret (match r with inr err => httpError 500 (Error err) | inl view => (200, ByteSlice view) end).
End run.
End Node.
