(* ===== verification/NodeProps.v ===== *)
(** * A cache node: correctness

    Which settings a node starts with; which of its services run when [Run] returns; how its
    group is wired; and what the gateway of a node without data answers. *)
From S2P Require Import Prelude GoStrings Lru LruRefine ConsistentHash PeerCache CacheGroup CacheProps Rpc CacheConf Node.
Import Node.

(** ** Settings *)
Lemma validateServers_None i l :
  CConf.validateServers i l = None →
  Forall (λ s, 0 < CConf.s_Port s ≤ 65535 ∧ CConf.s_IP s ≠ "" ∧ 0 < CConf.s_Gossip s ≤ 65535) l.
Proof.
  revert i. induction l as [|s l IH]; intros i; cbn [CConf.validateServers]; [constructor|].
  unfold CConf.validateServer. repeat case_decide; try done. intros Hl. constructor; [split_and!; (done || lia)|by eapply IH].
Qed.

(** ** The services of a node *)
Definition alive1 (l : list service) (e : svcEvent) : list service :=
  match e with Started s => l ++ [s] | Stopped s => filter (λ x, x ≠ s) l end.
(** What was started and not stopped. *)
Definition alive (h : list svcEvent) : list service := foldl alive1 [] h.

Section run.
Context `{CacheEnv, TLSFiles, NodeEnv, Rpc.Grpc World}.
Context (peerGet : string → string → string → GoM World string).

Definition seedsOf (cfg : Config) : list string :=
  match SeedAddrs cfg with [] => seedAddrs (servers cfg) (Port cfg) | l => l end.
Definition nameOf (cfg : Config) : string := JoinHostPort (Host cfg) (Itoa (Port cfg)).
Definition registryOf (cfg : Config) : Reg.Registry := Reg.NewRegistry (nameOf cfg) None.
(** The group of a node as [Run] wires it. *)
Definition groupOf (cfg : Config) (r : Reg.Registry) : Group :=
  mkGroup (GroupName cfg) (BCache.newCache (MaxBytes cfg)) (Some r) 2
    (Some (Hot.NewHotKeyTracker Hot.DefaultHotKeyConfig (addrFromHostPort (Host cfg) (Port cfg)))) true false true.
Definition meOf (cfg : Config) : string * string := (nameOf cfg, GroupName cfg).

(** The part of [Run] before the servers start. *)
Lemma wiring cfg w h (k : GoM NodeWorld unit) :
  (_ ← gowrap (Wrapf "create group") (createGroup (meOf cfg) cfg);
   _ ← gowrap (Wrapf "register peers") (onCaches (CacheGroup.RegisterPeers (meOf cfg)));
   _ ← onCaches (CacheGroup.SetRegistry (meOf cfg) (registryOf cfg));
   hotTracker ← createHotKeyTracker (addrFromHostPort (Host cfg) (Port cfg));
   _ ← onCaches (CacheGroup.SetHotKeyTracker (meOf cfg) hotTracker);
   _ ← onCaches (CacheGroup.SetDBLimiter (meOf cfg)); k) (mkNodeWorld w h) =
  k (mkNodeWorld (put (meOf cfg) (groupOf cfg (registryOf cfg)) w) (h ++ [Started STracker])).
Proof.
  unfold createGroup, onCaches, golift, gowrap, CacheGroup.NewGroup, CacheGroup.RegisterPeers, CacheGroup.SetRegistry,
    createHotKeyTracker, CacheGroup.SetHotKeyTracker, CacheGroup.SetDBLimiter, happened, CacheGroup.getG,
    CacheGroup.setG, gomodify, goderef, mbind, GoM_bind, mret, GoM_ret.
  repeat (cbn; rewrite ?lookup_insert_eq). unfold put. cbn. by rewrite !insert_insert_eq.
Qed.

Definition grpcAddr (cfg : Config) : string := addrFromHostPort (Host cfg) (Port cfg).
Definition healthAddr (cfg : Config) : string := addrFromHostPort (Host cfg) (int64 (Port cfg + 100)).
Definition apiServices (cfg : Config) : list service := if IsAPI cfg then [SApi (apiAddrOf cfg)] else [].
Definition registryService (cfg : Config) : service := SRegistry (nameOf cfg) (Gossip cfg) (seedsOf cfg).
(** What a node starts, in order, and what it stops before its registry. *)
Definition startup (cfg : Config) : list svcEvent :=
  Started <$> [registryService cfg; STracker; SGrpc (grpcAddr cfg); SHttp (healthAddr cfg)] ++ apiServices cfg.
Definition shutdown (cfg : Config) : list svcEvent :=
  Stopped <$> [SGrpc (grpcAddr cfg); SHttp (healthAddr cfg)] ++ apiServices cfg ++ [STracker].
(** Does the gRPC server of the node start? *)
Definition grpcStart (cfg : Config) : outcome (Rpc.GrpcServer * Credentials) :=
  Rpc.Start listenErr (tlsConfigFromEnv Getenv) (Rpc.NewGrpcServer (grpcAddr cfg) (cacheService peerGet (nameOf cfg))).

(** The registry once it was stopped. *)
Definition stoppedRegistry (cfg : Config) : Reg.Registry :=
  Reg.mkRegistry (nameOf cfg) (Reg.hashRing (registryOf cfg)) ∅ false.
Lemma stopRegistry_eq cfg w h :
  stopRegistry (meOf cfg) (mkNodeWorld (put (meOf cfg) (groupOf cfg (registryOf cfg)) w) h) =
  (match leaving (nameOf cfg) with [] => Ret tt | _ => Panic "send on closed channel" end,
   mkNodeWorld (put (meOf cfg) (groupOf cfg (stoppedRegistry cfg)) w) h).
Proof.
  unfold stopRegistry, onCaches, golift, CacheGroup.SetRegistry, mbind, GoM_bind. cbn [caches life].
  rewrite !(getG_eq _ (groupOf cfg (registryOf cfg))) by apply put_lookup.
  cbn [groupOf g_registry]. unfold Reg.Stop. cbn [registryOf Reg.NewRegistry Reg.running]. fold (registryOf cfg).
  rewrite !(getG_eq _ (groupOf cfg (registryOf cfg))) by apply put_lookup. rewrite setG_eq, put_put.
  unfold gotry, gocall. change (Reg.LocalAddr (registryOf cfg)) with (nameOf cfg).
  destruct (leaving (nameOf cfg)), (leaveErr (nameOf cfg)); done.
Qed.
Lemma Run_eq cfg w h :
  Run peerGet cfg (mkNodeWorld w h) =
  match createErr (nameOf cfg) (Gossip cfg) with
  | Some err => (Fail (Wrapf "create registry" (Wrapf "create memberlist" err)), mkNodeWorld w h)
  | None =>
      let w1 := put (meOf cfg) (groupOf cfg (registryOf cfg)) w in
      match grpcStart cfg with
      | Ret _ =>
          let h1 := h ++ startup cfg in
          let w2 := put (meOf cfg) (groupOf cfg (stoppedRegistry cfg)) w in
          match leaving (nameOf cfg) with
          | [] => (match waitEnd h1 with Served (Some err) => Fail err | _ => Ret tt end,
                   mkNodeWorld w2 (h1 ++ shutdown cfg ++ [Stopped (registryService cfg)]))
          | _ => (Panic "send on closed channel", mkNodeWorld w2 (h1 ++ shutdown cfg))
          end
      | Fail err => (Fail (Wrapf "gRPC server" err), mkNodeWorld w1 (h ++ [Started (registryService cfg); Started STracker]))
      | Panic p => (Panic p, mkNodeWorld w1 (h ++ [Started (registryService cfg); Started STracker]))
      | OutOfFuel => (OutOfFuel, mkNodeWorld w1 (h ++ [Started (registryService cfg); Started STracker]))
      end
  end.
Proof.
  unfold Run. unfold mbind at 1, GoM_bind at 1, gowrap at 1. unfold createRegistry. fold (nameOf cfg) (seedsOf cfg).
  destruct (createErr (nameOf cfg) (Gossip cfg)) as [err|]; [done|].
  unfold happened at 1, gomodify at 1, mbind at 1, GoM_bind at 1, mret at 1, GoM_ret at 1. cbn [caches life].
  change (Reg.NewRegistry (nameOf cfg) None) with (registryOf cfg).
  change (Reg.LocalAddr (registryOf cfg), GroupName cfg) with (meOf cfg).
  rewrite wiring. rewrite <- app_assoc. cbn [app].
  unfold startGrpcServer. change (Reg.LocalAddr (registryOf cfg)) with (nameOf cfg).
  fold (grpcAddr cfg). fold (grpcStart cfg). unfold mbind at 1 2, GoM_bind at 1 2, gowrap, gocall.
  destruct (grpcStart cfg) as [srv|err|p|]; [|done..].
  unfold startup, shutdown, apiServices, startCacheHTTPServer, startAPIServer, happened, gomodify, goget.
  unfold mbind, GoM_bind, mret, GoM_ret. fold (grpcAddr cfg) (healthAddr cfg).
  destruct (IsAPI cfg); cbn -[grpcAddr healthAddr apiAddrOf nameOf seedsOf stopRegistry put];
    rewrite stopRegistry_eq; cbn [caches life]; rewrite <- !app_assoc; destruct (leaving _) as [|ev evs];
    cbn [caches life app fmap list_fmap]; rewrite <- ?app_assoc; [destruct (waitEnd _) as [|[]]; reflexivity|reflexivity
    |destruct (waitEnd _) as [|[]]; reflexivity|reflexivity].
Qed.
End run.

(** Services that were all started and are all stopped are gone. *)
Lemma alive_started l l0 : foldl alive1 l0 (Started <$> l) = l0 ++ l.
Proof.
  revert l0. induction l as [|x l IH]; intros l0; cbn; [by rewrite app_nil_r|]. rewrite IH. by rewrite <- app_assoc.
Qed.
Lemma alive_stopped l l0 : foldl alive1 l0 (Stopped <$> l) = filter (λ x, x ∉ l) l0.
Proof.
  revert l0. induction l as [|x l IH]; intros l0; cbn.
  - symmetry. apply filter_all. intros; apply not_elem_of_nil.
  - rewrite IH, list_filter_filter. apply list_filter_iff. intros y. rewrite not_elem_of_cons. tauto.
Qed.

(** ** A node without data *)
Section gateway.
Context `{CacheEnv} (peerGet : string → string → string → GoM World string).
Lemma no_peers_fallback key n r :
  0 ≤ n → Reg.grpcGetters r = ∅ → Reg.PickPeerWithFallback key n r = Ret [].
Proof.
  intros Hn Hr. unfold Reg.PickPeerWithFallback, CH.GetN. case_decide; [done|].
  rewrite decide_False by lia. f_equal. apply filter_none. intros a _ [_ Ha]. rewrite Hr in Ha. set_solver.
Qed.
Lemma getLocally_no_source me g w key e :
  procs w !! me = Some g → getter (log w) me.1 key = inr e → ∃ e', (CacheGroup.getLocally me key w).1 = Fail e'.
Proof.
  intros Hg Hs. unfold CacheGroup.getLocally. unfold mbind at 1, GoM_bind at 1. rewrite (getG_eq me g w Hg).
  unfold goget at 1, mbind at 1, GoM_bind at 1. unfold mbind at 1, GoM_bind at 1.
  destruct (dbLimiter g); [destruct (dbWait (log w)); [eexists; reflexivity|]|];
    unfold mret, GoM_ret, CacheGroup.tell, gomodify, mbind, GoM_bind; cbn; rewrite Hs; eexists; reflexivity.
Qed.
(** A key that no peer and no source has is answered with an error. *)
Lemma apiHandler_no_source me g r w key e :
  procs w !! me = Some g → g_registry g = Some r → Reg.grpcGetters r = ∅ → 0 ≤ replicationFactor g →
  cacheDirty g = false → bwf (mainCache g) → visible (now w) key (mainCache g) = None →
  getter (log w) me.1 key = inr e →
  ∃ body, (apiHandler peerGet me key w).1 = Ret (500, body).
Proof.
  intros Hg Hr Hgs Hrf Hd Hc Hv Hs.
  assert (∃ e', (CacheGroup.Get peerGet me key w).1 = Fail e') as [e' He'].
  { destruct (decide (key = "")) as [->|Hk]; [eexists; reflexivity|].
    destruct (Get_clean peerGet me g w key Hk Hg Hd Hc)
      as (g1 & _ & Er & Erf & _ & _ & _ & _ & c' & _ & _ & _ & ->). rewrite Hv.
    unfold CacheGroup.load, CacheGroup.candidatesOf. unfold mbind at 1, GoM_bind at 1.
    rewrite (getG_eq me (CacheGroup.set_mainCache c' g1)) by apply put_lookup. cbn [g_registry replicationFactor CacheGroup.set_mainCache].
    rewrite Er, Erf, Hr. unfold mbind, GoM_bind, gocall. rewrite no_peers_fallback by done. cbn [CacheGroup.tryPeers].
    apply (getLocally_no_source me (CacheGroup.set_mainCache c' g1) _ key e); [apply put_lookup|done]. }
  unfold apiHandler, mbind, GoM_bind, gotry. destruct (CacheGroup.Get peerGet me key w) as [o w'].
  cbn in He'. subst o. eexists. reflexivity.
Qed.
End gateway.

Module NodeTheorems.
Section theorems.
Context `{CacheEnv, TLSFiles, NodeEnv, Rpc.Grpc World}.
Context (peerGet : string → string → string → GoM World string).

(** C37: the life of a node.  If the gossip agent cannot be created, nothing runs and the caches
    are untouched.  If the gRPC server cannot start, [Run] fails and leaves the gossip agent and
    the hot-key tracker running.  Otherwise the node runs all its services until it ends.  If the
    gossip library then leaves without a notification, every one of them has been stopped, and
    the result is an error exactly when the gRPC server ended with one; if it notifies the node
    of anything while it leaves, [Run] panics with everything but the gossip agent stopped. *)
Theorem run_services cfg w :
  let '(r, n) := Run peerGet cfg (mkNodeWorld w []) in
  match createErr (nameOf cfg) (Gossip cfg), grpcStart peerGet cfg with
  | Some _, _ => (∃ e, r = Fail e) ∧ alive (life n) = [] ∧ caches n = w
  | None, Ret _ =>
      alive (startup cfg) = [registryService cfg; STracker; SGrpc (grpcAddr cfg); SHttp (healthAddr cfg)] ++ apiServices cfg ∧
      (∃ rest, life n = startup cfg ++ rest) ∧
      match leaving (nameOf cfg) with
      | [] => alive (life n) = [] ∧ ((∃ e, r = Fail e) ↔ ∃ e, waitEnd (startup cfg) = Served (Some e))
      | _ => (∃ msg, r = Panic msg) ∧ alive (life n) = [registryService cfg]
      end
  | None, _ => (∀ a, r ≠ Ret a) ∧ alive (life n) = [registryService cfg; STracker]
  end.
Proof.
  rewrite Run_eq. destruct (createErr _ _) as [err|]; [by eauto|]. cbv zeta. cbn [app].
  destruct (grpcStart peerGet cfg); [|done..]. cbn [life].
  assert (alive (startup cfg) = [registryService cfg; STracker; SGrpc (grpcAddr cfg); SHttp (healthAddr cfg)] ++ apiServices cfg)
    as Hup by apply (alive_started _ []).
  assert (foldl alive1 (alive (startup cfg)) (shutdown cfg) = [registryService cfg]) as Hdown.
  { rewrite Hup. unfold shutdown. rewrite alive_stopped. cbn [app]. rewrite filter_cons_True.
    - f_equal. apply filter_none. intros x Hx Hn. apply Hn. set_solver.
    - unfold registryService, apiServices. destruct (IsAPI cfg); set_solver. }
  assert (∀ rest, alive (startup cfg ++ shutdown cfg ++ rest) = foldl alive1 [registryService cfg] rest) as Hend.
  { intros rest. unfold alive. rewrite !foldl_app. fold (alive (startup cfg)). by rewrite Hdown. }
  destruct (leaving (nameOf cfg)) as [|ev evs]; cbn [life]; split_and!; try done; try by eauto.
  - rewrite Hend. cbn. by rewrite decide_False by (intros Hne; by apply Hne).
  - destruct (waitEnd _) as [|[]]; naive_solver.
  - rewrite <- (app_nil_r (shutdown cfg)). apply Hend.
Qed.

(** Also: the wiring of a node.  When a node with a cache port starts, its group is the one of its
    settings: empty, with the limit of the settings, two copies per key, the rate limiter on; its
    registry knows only the node itself.  For a host name without a colon the hot-key tracker and
    the gRPC server use the name under which the node is on the ring; with a colon, as in an IPv6
    address, they do not. *)
Theorem run_wires_group cfg w e n :
  createErr (nameOf cfg) (Gossip cfg) = None →
  Run peerGet cfg (mkNodeWorld w []) = (e, n) →
  ∃ g r t, procs (caches n) !! (nameOf cfg, GroupName cfg) = Some g ∧
    mainCache g = BCache.newCache (MaxBytes cfg) ∧ replicationFactor g = 2 ∧ dbLimiter g = true ∧ cacheDirty g = false ∧
    g_registry g = Some r ∧ Reg.localAddr r = nameOf cfg ∧ Reg.grpcGetters r = ∅ ∧ (∀ k, Reg.PickPeer k r = None) ∧
    hotTracker g = Some t ∧ Hot.trackerAddr t = grpcAddr cfg ∧
    (grpcAddr cfg = nameOf cfg ↔ no_char ":" (Host cfg) = true).
Proof.
  intros Hc Hrun. rewrite Run_eq, Hc in Hrun. cbv zeta in Hrun.
  assert (∃ r, (r = registryOf cfg ∨ r = stoppedRegistry cfg) ∧
    caches n = put (meOf cfg) (groupOf cfg r) w) as (r & Hr & Hw).
  { destruct (grpcStart peerGet cfg), (leaving (nameOf cfg)); simplify_eq; eauto. }
  eexists (groupOf cfg r), r, _. rewrite Hw. split_and!; [apply put_lookup|done|done|done|done|done| | | |done|done|].
  - by destruct Hr as [-> | ->].
  - by destruct Hr as [-> | ->].
  - intros k. unfold Reg.PickPeer. destruct Hr as [-> | ->]; cbn [Reg.grpcGetters stoppedRegistry registryOf Reg.NewRegistry];
      case_decide; [done| |done|]; by rewrite decide_False by set_solver.
  - unfold grpcAddr, nameOf, addrFromHostPort, JoinHostPort. destruct (no_char ":" (Host cfg)) eqn:E; [done|].
    split; [|done]. intros Heq%(f_equal String.length). cbn [String.length] in Heq. rewrite !str_length_app in Heq.
    cbn [String.length] in Heq. lia.
Qed.
End theorems.

(** C38: the settings of a node.  When [LoadConfig] succeeds, the node is one of the listed
    servers, the one with the port of the environment if that names a number; all servers have
    valid ports and a host, the cache limit is positive, and the seeds of the node are exactly the
    gossip addresses of the servers with another port. *)
Theorem loaded_node_is_listed getenv files cfg :
  LoadConfig getenv files = Ret cfg →
  (∃ s, s ∈ servers cfg ∧ CConf.s_Port s = Port cfg ∧ CConf.s_IP s = Host cfg ∧ CConf.s_Gossip s = Gossip cfg ∧
     CConf.s_API s = IsAPI cfg) ∧
  (getenv "PORT" ≠ "" → ∀ p, Atoi (getenv "PORT") = (p, None) → Port cfg = p) ∧
  Forall (λ s, 0 < CConf.s_Port s ≤ 65535 ∧ CConf.s_IP s ≠ "" ∧ 0 < CConf.s_Gossip s ≤ 65535) (servers cfg) ∧
  0 < MaxBytes cfg ∧
  (∀ a, a ∈ seedsOf cfg ↔ ∃ s, s ∈ servers cfg ∧ CConf.s_Port s ≠ Port cfg ∧ a = CConf.SeedAddr s).
Proof.
  unfold LoadConfig. destruct (CConf.Load _ _) as [d|e|p|] eqn:El; [|done..].
  destruct (CConf.GetConfig d) as [c|]; [|done]. destruct (CConf.Validate c) as [v|e|p|] eqn:Ev; [|done..].
  destruct (CConf.SelfServer v _) as [srv|] eqn:Es; [|done]. intros [= <-]. cbn [servers Port Host Gossip IsAPI MaxBytes seedsOf SeedAddrs].
  unfold CConf.SelfServer in Es. destruct (list_find _ _) as [[i s]|] eqn:Ef; [|done]. injection Es as ->.
  apply list_find_Some in Ef as (Hi & Hport & _). apply list_elem_of_lookup_2 in Hi.
  unfold CConf.Validate in Ev. do 2 (case_decide; [done|]).
  destruct (CConf.validateServers 0 _) eqn:Hval; [done|]. apply validateServers_None in Hval. injection Ev as <-.
  split_and!.
  - exists srv. by split_and!.
  - intros Hne p Hp. rewrite Hport. unfold pickPort. rewrite decide_False by done. by rewrite Hp.
  - by case_decide.
  - case_decide; cbn; [|lia]. rewrite Z.shiftl_mul_pow2 by lia. lia.
  - intros a. unfold seedAddrs. rewrite list_elem_of_fmap. setoid_rewrite list_elem_of_filter. naive_solver.
Qed.
End NodeTheorems.

(** Two nodes on one machine; this one is the gateway. *)
Module NodeWitness.
Definition two : CConf.Config :=
  CConf.mkConf "http://localhost:9999" 50 "/cache/" "" [CConf.mkServerConf 8001 true "" 0; CConf.mkServerConf 8002 false "10.0.0.2" 9002]
    ("", 0, "", "") ("", "", "") 0.
Definition demo_env (name : string) : string := if decide (name = "PORT") then "8002" else "".
Definition demo_files (path : string) : option error * (CConf.Config + error) := (None, inl two).
Definition second_node : Config :=
  match LoadConfig demo_env demo_files with
  | Ret cfg => cfg
  | _ => mkNodeConfig "" 0 0 false "" 0 "" [] ∅ []
  end.
Lemma loaded_node_is_listed_witness : Port second_node = 8002 ∧ "localhost:9001" ∈ seedsOf second_node.
Proof.
  destruct (NodeTheorems.loaded_node_is_listed demo_env demo_files second_node) as (_ & Hp & _ & _ & Hseeds);
    [vm_compute; reflexivity|].
  split; [apply Hp; [discriminate|vm_compute; reflexivity]|].
  apply Hseeds. exists (CConf.mkServerConf 8001 true "localhost" 9001). vm_compute. split; [set_solver|done].
Defined.

#[local] Instance idle_cache : CacheEnv :=
  { getter := λ _ _ k, inr (Errorf (k +:+ " not exist")); dbWait := λ _, None; all_order := λ l, l }.
#[local] Instance no_files : TLSFiles := { loadX509KeyPair := λ _ _, None; readFile := λ _, inl ""; hasCerts := λ _, false }.
#[local] Instance quiet_node : NodeEnv :=
  { Getenv := λ _, ""; createErr := λ _ _, None; listenErr := λ _, None; leaving := λ _, []; leaveErr := λ _, None;
    waitEnd := λ _, CtxDone }.
#[local] Instance no_grpc : Rpc.Grpc World :=
  { chain := λ i _, i; Invoke := λ A _ _ _ _, gofail (Errorf "unavailable"); dialErr := λ _, None }.
Definition noPeer (addr groupName key : string) : GoM World string := gofail (Errorf "no peer").
Lemma run_wires_group_witness :
  ∃ g, procs (caches (Run noPeer second_node (mkNodeWorld (mkWorld ∅ [] 0) [])).2) !! ("10.0.0.2:8002", "scores") = Some g ∧
    mainCache g = BCache.newCache 268435456.
Proof.
  destruct (NodeTheorems.run_wires_group noPeer second_node (mkWorld ∅ [] 0)
    (Run noPeer second_node (mkNodeWorld (mkWorld ∅ [] 0) [])).1 (Run noPeer second_node (mkNodeWorld (mkWorld ∅ [] 0) [])).2)
    as (g & r & t & Hg & Hc & _); [reflexivity|by destruct (Run noPeer second_node _)|].
  exists g. split; [exact Hg|exact Hc].
Defined.
End NodeWitness.
