(* ===== verification/Cmd.v ===== *)
(** * The command line

    [cluster/cmd/root.go], [create.go], [scale.go], [delete.go], [cache.go] and [main.go].

    The flag library is not part of the repository.  What the code relies on is written out:
    registering a flag stores its default in the variable (so that of two flags on one variable the
    default of the last one registered stays), and parsing stores the values given.  The [init]
    functions of a package run in the order of its file names.  A command runs after the
    pre-run hook of the root command. *)
From S2P Require Import Prelude GoStrings Data Config.
From S2P Require Import Lru LruRefine ConsistentHash PeerCache CacheGroup Rpc CacheConf Node.
From S2P Require Import Redis Manager Plan Migration Pipeline Store StoreProps PipelineStore Ops.

Module Cmd.
(** ** Flags *)
Record Flags : Type := mkFlags {
  backend : string;
  containerdSocket : string;
  dbPath : string;
  clusterName : string;
  shardCount : Z;
  nodesPerShard : Z;
  redisPort : Z;          (* uint16 *)
  additionalShards : Z;
  cachePort : Z;
  cacheGossip : Z;
  cacheAPI : bool;
  cacheSeeds : list string }.
Definition zeroFlags : Flags := mkFlags "" "" "" "" 0 0 0 0 0 0 false [].
Definition set_root (b s d : string) (f : Flags) : Flags :=
  mkFlags b s d (clusterName f) (shardCount f) (nodesPerShard f) (redisPort f) (additionalShards f) (cachePort f)
    (cacheGossip f) (cacheAPI f) (cacheSeeds f).
Definition set_name (n : string) (f : Flags) : Flags :=
  mkFlags (backend f) (containerdSocket f) (dbPath f) n (shardCount f) (nodesPerShard f) (redisPort f)
    (additionalShards f) (cachePort f) (cacheGossip f) (cacheAPI f) (cacheSeeds f).
Definition set_create (s n p : Z) (f : Flags) : Flags :=
  mkFlags (backend f) (containerdSocket f) (dbPath f) (clusterName f) s n p (additionalShards f) (cachePort f)
    (cacheGossip f) (cacheAPI f) (cacheSeeds f).
Definition set_additional (n : Z) (f : Flags) : Flags :=
  mkFlags (backend f) (containerdSocket f) (dbPath f) (clusterName f) (shardCount f) (nodesPerShard f) (redisPort f) n
    (cachePort f) (cacheGossip f) (cacheAPI f) (cacheSeeds f).
Definition set_cache (p g : Z) (a : bool) (l : list string) (f : Flags) : Flags :=
  mkFlags (backend f) (containerdSocket f) (dbPath f) (clusterName f) (shardCount f) (nodesPerShard f) (redisPort f)
    (additionalShards f) p g a l.

(** The [init] functions: each registers flags with their defaults. *)
Definition init_cache : Flags → Flags := set_cache 0 0 false [].
Definition init_create (f : Flags) : Flags := set_name "cluster" (set_create 3 2 6379 f).
Definition init_delete : Flags → Flags := set_name "".
Definition init_root : Flags → Flags := set_root "podman" "" "".
Definition init_scale (f : Flags) : Flags := set_name "" (set_additional 1 f).
Definition registered : Flags := init_scale (init_root (init_delete (init_create (init_cache zeroFlags)))).

(** The flags a user can give. *)
Inductive flag : Type :=
  | FBackend (v : string) | FSocket (v : string) | FDb (v : string) | FName (v : string)
  | FShards (n : Z) | FNodesPerShard (n : Z) | FPort (n : Z) | FAdditional (n : Z)
  | FCachePort (n : Z) | FGossip (n : Z) | FApi (b : bool) | FSeeds (l : list string).
Definition parse1 (f : Flags) (a : flag) : Flags :=
  match a with
  | FBackend v => set_root v (containerdSocket f) (dbPath f) f
  | FSocket v => set_root (backend f) v (dbPath f) f
  | FDb v => set_root (backend f) (containerdSocket f) v f
  | FName v => set_name v f
  | FShards n => set_create n (nodesPerShard f) (redisPort f) f
  | FNodesPerShard n => set_create (shardCount f) n (redisPort f) f
  | FPort n => set_create (shardCount f) (nodesPerShard f) n f
  | FAdditional n => set_additional n f
  | FCachePort n => set_cache n (cacheGossip f) (cacheAPI f) (cacheSeeds f) f
  | FGossip n => set_cache (cachePort f) n (cacheAPI f) (cacheSeeds f) f
  | FApi b => set_cache (cachePort f) (cacheGossip f) b (cacheSeeds f) f
  | FSeeds l => set_cache (cachePort f) (cacheGossip f) (cacheAPI f) l f
  end.
Definition parsed (args : list flag) : Flags := foldl parse1 registered args.

(** ** The pre-run hook *)
Definition set_run (b s d : string) (cfg : RuntimeConfig) : RuntimeConfig :=
  mkRuntimeConfig (ProjectRoot cfg) (RedisHostConfigPath cfg) (RedisConfigPath cfg) (RedisHostDataPath cfg)
    (RedisConfigDataPath cfg) (RuntimeStateDir cfg) (ConfigSaveFileName cfg) b d s (ImageName cfg)
    (RedisContainerPort cfg) (Cache_ cfg) (DNS cfg) (CacheInvalidator cfg).
Definition PersistentPreRunE (f : Flags) (appConfig : option RuntimeConfig) : option RuntimeConfig :=
  (λ cfg, set_run (Conf.orString (backend f) (Backend cfg)) (Conf.orString (containerdSocket f) (ContainerdSocket cfg))
            (Conf.orString (dbPath f) (DBPath cfg)) cfg) <$> appConfig.

(** ** The commands on clusters *)
Section clusters.
Context {P : Type} {PM : PodManager P} {EV : Env} {os : OS}.
Context (newNodeManager : RuntimeConfig → P → outcome P) (schedule : Mig.pool → list nat).
Abbreviation M := (GoM (World P)).

(** Errors are only logged.  [log.Fatal] ends the process with the status of a returned error. *)
Definition createCmd (f : Flags) (appConfig : option RuntimeConfig) : M unit :=
  match appConfig with
  | None => gofail (Errorf "config not initialized")
  | Some cfg =>
      let cfg := if decide (redisPort f ≠ 0) then Ops.set_port (redisPort f) cfg else cfg in
      _ ← gotry (Ops.CreateClusterAction newNodeManager Background cfg (shardCount f) (nodesPerShard f) (clusterName f));
      mret tt
  end.
Definition scaleCmd (f : Flags) (appConfig : option RuntimeConfig) : M unit :=
  if decide (clusterName f = "") then gofail (Errorf "please input clustername first")
  else match appConfig with
  | None => gopanic "nil pointer dereference"
  | Some cfg =>
      gowrap (Wrapf "ScaleCluster() error")
        (Ops.ScaleClusterAction newNodeManager schedule Background cfg (additionalShards f) (clusterName f))
  end.
Definition deleteCmd (f : Flags) (appConfig : option RuntimeConfig) : M unit :=
  if decide (clusterName f = "") then gofail (Errorf "please input clustername first")
  else match appConfig with
  | None => gopanic "nil pointer dereference"
  | Some cfg => Ops.DeleteAllContainers newNodeManager Background cfg (clusterName f)
  end.

Inductive command : Type := Create | Scale | Delete.
(** [config] is what [InitConfig] returns.  The hook runs before any command, whichever it is. *)
Definition OnInitialize (config : outcome RuntimeConfig) (appConfig : option RuntimeConfig) : outcome RuntimeConfig :=
  match appConfig with Some cfg => Ret cfg | None => config end.
Definition Execute (c : command) (args : list flag) (config : outcome RuntimeConfig) (appConfig : option RuntimeConfig)
    : M unit :=
  let f := parsed args in
  appConfig ← gocall (OnInitialize config appConfig);
  let cfg := PersistentPreRunE f (Some appConfig) in
  match c with
  | Create => createCmd f cfg
  | Scale => scaleCmd f cfg
  | Delete => deleteCmd f cfg
  end.
(** The exit status of the process: an error ends it with 1, a panic with 2. *)
Definition exitStatus {A} (r : outcome A) : option Z :=
  match r with Ret _ => Some 0 | Fail _ => Some 1 | Panic _ => Some 2 | OutOfFuel => None end.
Definition main (c : command) (args : list flag) (config : outcome RuntimeConfig) : M unit :=
  match config with
  | Ret cfg => Execute c args config (Some cfg)
  | Fail err => gofail (Wrapf "failed to initialize config" err)
  | Panic p => gopanic p
  | OutOfFuel => gostarved
  end.
End clusters.

(** ** The cache command *)
Definition buildCacheConfig (f : Flags) (cfg : RuntimeConfig) : Node.Config :=
  Node.mkNodeConfig "0.0.0.0" (Conf.orInt (cachePort f) (Conf.CachePort cfg))
    (Conf.orInt (cacheGossip f) (Conf.CacheGossipPort cfg)) (cacheAPI f) (Conf.CacheGroupName cfg)
    (Conf.CacheMaxBytes cfg) (if cacheAPI f then Conf.CacheAPIAddr cfg else "") (cacheSeeds f) ∅ [].
(** Nothing is started when the configuration disables the cache. *)
Definition cacheCmd `{CacheEnv, TLSFiles, Node.NodeEnv, Rpc.Grpc CacheGroup.World}
    (peerGet : string → string → string → GoM CacheGroup.World string) (f : Flags) (cfg : RuntimeConfig)
    : GoM Node.NodeWorld unit :=
  if (match Cache_ cfg with Some k => negb (cc_Enabled k) | None => false end) then mret tt
  else Node.Run peerGet (buildCacheConfig f cfg).
End Cmd.
