(* ===== verification/CmdProps.v ===== *)
(** * The command line: correctness

    What a command does with the flags it is not given, which exit status reports a failure,
    and what a cache node started from the command line can serve. *)
From S2P Require Import Prelude GoStrings Data Config.
From S2P Require Import Lru LruRefine ConsistentHash PeerCache CacheGroup CacheProps PeerProps Rpc CacheConf Node NodeProps.
From S2P Require Import Redis Manager Plan Migration Pipeline Store StoreProps PipelineStore Fixtures Ops OpsProps Cmd.
Import Cmd.

(** ** Flags that are not given keep their registered value *)
Lemma parsed_keeps {A} (get : Flags → A) args :
  (∀ f a, a ∈ args → get (parse1 f a) = get f) → get (parsed args) = get registered.
Proof.
  unfold parsed. intros Hk. assert (∀ f, get (foldl parse1 f args) = get f) as ->; [|done].
  induction args as [|a args IH]; intros f; [done|]. cbn. rewrite IH by (intros; apply Hk; set_solver).
  apply Hk. set_solver.
Qed.
Lemma parsed_name args : (∀ v, FName v ∉ args) → clusterName (parsed args) = "".
Proof.
  intros Hn. rewrite (parsed_keeps clusterName); [done|]. intros f [] Ha; try done. by destruct (Hn v).
Qed.
Lemma parsed_backend args : (∀ v, FBackend v ∉ args) → backend (parsed args) = "podman".
Proof.
  intros Hn. rewrite (parsed_keeps backend); [done|]. intros f [] Ha; try done. by destruct (Hn v).
Qed.
Lemma parsed_port args : (∀ n, FPort n ∉ args) → redisPort (parsed args) = 6379.
Proof.
  intros Hn. rewrite (parsed_keeps redisPort); [done|]. intros f [] Ha; try done. by destruct (Hn n).
Qed.

Module CmdTheorems.
Section clusters.
Context {P : Type} {PM : PodManager P} {EV : Env} {os : OS}.
Context (newNodeManager : RuntimeConfig → P → outcome P) (schedule : Mig.pool → list nat).

(** With a configuration, [main] runs the command on it after the pre-run hook. *)
Lemma main_run c args cfg w :
  main newNodeManager schedule c args (Ret cfg) w =
  (let f := parsed args in
   let cfg' := PersistentPreRunE f (Some cfg) in
   match c with
   | Create => createCmd newNodeManager f cfg'
   | Scale => scaleCmd newNodeManager schedule f cfg'
   | Delete => deleteCmd newNodeManager f cfg'
   end) w.
Proof. done. Qed.

(** C40: create without a name.  The variable of the cluster name is shared by three commands,
    and the default that stays in it is the empty one of the last.  So a create command that
    is not given a name is rejected, whatever else it is given: no pod is listed, created or
    deleted, no server is sent anything, no file and no row of the tables of clusters,
    containers and operations changes, and yet the process ends with status zero.  What changes
    is the table of pipeline runs: the row of the validation of "create-cluster-", and only that
    one; a healthy store has it as failed. *)
Theorem create_without_name args cfg w p0 :
  (∀ v, FName v ∉ args) → (∀ c, newNodeManager c (Ops.pods w) = Ret p0) →
  "validate" ∉ comp (Ops.createName "") (odb w) →
  let '(r, w') := main newNodeManager schedule Create args (Ret cfg) w in
  exitStatus r = Some 0 ∧ Ops.pods w' = p0 ∧ hist (cm w') = hist (cm w) ∧ files w' = files w ∧ dirs w' = dirs w ∧
  osHist w' = osHist w ∧ same_tables (odb w') (odb w) ∧
  other_rows ("create-cluster-", "validate") (odb w') = other_rows ("create-cluster-", "validate") (odb w) ∧
  (DBPath cfg ≠ "" → quiet (odb w) → failed_row ("create-cluster-", "validate") (odb w')).
Proof.
  intros Hn Hnew Hval. rewrite ?main_run. cbv zeta. unfold PersistentPreRunE, createCmd. cbn [fmap option_fmap option_map].
  rewrite (parsed_name args Hn). unfold mbind, GoM_bind, gotry. set (cfg' := if decide _ then _ else _).
  pose proof (OpsTheorems.create_rejected newNodeManager Background cfg' (shardCount (parsed args)) (nodesPerShard (parsed args))
    "" w p0 (Hnew cfg') ltac:(left; by right; right) Hval) as Hr.
  destruct (Ops.CreateClusterAction _ _ _ _ _ _ _) as [r w']. destruct Hr as ([e ->] & Hp & H1 & H2 & H3 & H4 & H5 & H6 & _ & H7).
  unfold OpsTheorems.listed in Hp. rewrite decide_True in Hp by (by right; right). split_and!; try done.
  intros Hdb. apply H7. unfold cfg'. case_decide; cbn; unfold Conf.orString; case_decide; done.
Qed.

(** Also: exit status.  A create command that fails ends the process with status zero, like
    one that succeeds; a delete command that fails ends it with status one. *)
Theorem failed_create_exits_zero args cfg w e w' :
  let f := parsed args in
  let c := set_run (Conf.orString (backend f) (Backend cfg)) (Conf.orString (containerdSocket f) (ContainerdSocket cfg))
             (Conf.orString (dbPath f) (DBPath cfg)) cfg in
  let port := if decide (redisPort f ≠ 0) then redisPort f else RedisContainerPort cfg in
  (Ops.CreateClusterAction newNodeManager Background (Ops.set_port port c) (shardCount f) (nodesPerShard f) (clusterName f) w
     = (Fail e, w') → exitStatus (main newNodeManager schedule Create args (Ret cfg) w).1 = Some 0) ∧
  (clusterName f ≠ "" → Ops.DeleteAllContainers newNodeManager Background c (clusterName f) w = (Fail e, w') →
     exitStatus (main newNodeManager schedule Delete args (Ret cfg) w).1 = Some 1).
Proof.
  intros f c port. split.
  - intros Hc. rewrite ?main_run. cbv zeta. unfold PersistentPreRunE, createCmd. cbn [fmap option_fmap option_map]. fold f. fold c.
    unfold mbind, GoM_bind, gotry. assert ((if decide (redisPort f ≠ 0) then Ops.set_port (redisPort f) c else c) =
      Ops.set_port port c) as -> by (unfold port; case_decide; [done|by destruct cfg]).
    by rewrite Hc.
  - intros Hn Hd. rewrite ?main_run. cbv zeta. unfold PersistentPreRunE, deleteCmd. cbn [fmap option_fmap option_map]. fold f. fold c.
    rewrite decide_False by done. by rewrite Hd.
Qed.

(** Also: defaults override the configuration.  Without the backend flag every command uses
    podman, whatever the configuration says; and without the port flag a create command does
    the same for every configured Redis port. *)
Theorem flag_defaults_override_config args cfg c port w :
  ((∀ v, FBackend v ∉ args) → PersistentPreRunE (parsed args) (Some cfg) = Some c → Backend c = "podman") ∧
  ((∀ n, FPort n ∉ args) →
   main newNodeManager schedule Create args (Ret (Ops.set_port port cfg)) w =
   main newNodeManager schedule Create args (Ret cfg) w).
Proof.
  split.
  - intros Hb [= <-]. cbn. rewrite (parsed_backend args Hb). done.
  - intros Hp. rewrite ?main_run. cbv zeta. unfold PersistentPreRunE, createCmd. cbn [fmap option_fmap option_map].
    rewrite (parsed_port args Hp). rewrite !decide_True by done. done.
Qed.
End clusters.

(** Also: a cache node from the command line has no data.  The gateway of a node that was
    started with the cache command and has not met a peer answers every request with an
    internal server error: the command gives the node no data to load. *)
Theorem cli_gateway_serves_nothing `{CacheEnv} peerGet f cfg w key :
  0 ≤ Conf.CacheMaxBytes cfg →
  let c := buildCacheConfig f cfg in
  (∀ h k, getter h (nameOf c) k = Node.dbGetter c k) →
  ∃ body, (Node.apiHandler peerGet (meOf c) key (put (meOf c) (groupOf c (registryOf c)) w)).1 = Ret (500, body).
Proof.
  intros Hmax c Hget. eapply apiHandler_no_source; [apply put_lookup|done|done|done|done| |done|].
  - split; [exact Hmax|done].
  - cbn. rewrite Hget. done.
Qed.

(** Also: cache nodes from the command line do not know each other.  Such a node is called
    after the wildcard address and its port.  Whatever nodes on the same port join or leave, from
    whatever machines, a node routes no key to a peer. *)
Theorem cli_nodes_share_name f cfg dialable hash (others : list (Flags * RuntimeConfig * bool)) key :
  let c := buildCacheConfig f cfg in
  (∀ f' cfg' up, (f', cfg', up) ∈ others → Node.Port (buildCacheConfig f' cfg') = Node.Port c) →
  let event '(f', cfg', up) :=
    if up : bool then Reg.NodeJoin (nameOf (buildCacheConfig f' cfg')) else Reg.NodeLeave (nameOf (buildCacheConfig f' cfg')) in
  let r := Reg.processEvents dialable (event <$> others) (Reg.NewRegistry (nameOf c) hash) in
  Reg.PickPeer key r = None ∧ ∀ cs n, Reg.PickPeerWithFallback key n r = Ret cs → cs = [].
Proof.
  intros c Hport event r.
  assert (∀ a, a ∈ Reg.grpcGetters r → a = nameOf c) as Hall.
  { intros a Ha. apply after_getters in Ha as (_ & es1 & es2 & E & _).
    assert (Reg.NodeJoin a ∈ event <$> others) as Hin by (rewrite E; set_solver).
    apply list_elem_of_fmap in Hin as ([[f' cfg'] up] & Hev & Hin). unfold event in Hev. destruct up; [|done].
    injection Hev as ->. unfold nameOf. by rewrite (Hport f' cfg' true Hin). }
  assert (Reg.localAddr r = nameOf c) as Hl by apply after_local.
  split.
  - unfold Reg.PickPeer. rewrite Hl. case_decide as Ho; [done|]. case_decide as Hg; [|done]. apply Hall in Hg. tauto.
  - intros cs n. unfold Reg.PickPeerWithFallback. destruct (CH.GetN _ _ _) as [l| | |]; try done. intros [= <-].
    apply filter_none. intros a _ [Hne Ha]. apply Hne. rewrite Hl. by apply Hall.
Qed.
End CmdTheorems.

Module CmdWitness.
Import Fixtures OpsWitness.
#[local] Existing Instance down_env.
#[local] Existing Instance calm_os.
Lemma create_without_name_witness :
  let r := main fresh_pods no_schedule Create [FShards 3; FNodesPerShard 2] (Ret (cfg1 "/db"))
    (world_of [] (Store.empty_db "t0")) in
  exitStatus r.1 = Some 0 ∧ failed_row ("create-cluster-", "validate") (odb r.2).
Proof.
  pose proof (CmdTheorems.create_without_name fresh_pods no_schedule [FShards 3; FNodesPerShard 2] (cfg1 "/db")
    (world_of [] (Store.empty_db "t0")) [] ltac:(set_solver) (λ _, eq_refl)
    ltac:(apply (bool_decide_unpack _); vm_compute; exact I)) as Hr.
  destruct (main _ _ _ _ _ _) as [r w']. destruct Hr as (Hx & _ & _ & _ & _ & _ & _ & _ & Hrow).
  split; [exact Hx|]. apply Hrow; [discriminate|]. split; [reflexivity|]. split_and!; constructor.
Defined.
Definition unnamed := Ops.CreateClusterAction fresh_pods Background (cfg1 "") 3 2 "" (world_of [] (Store.empty_db "t0")).
Lemma failed_create_exits_zero_witness :
  exitStatus (main fresh_pods no_schedule Create [] (Ret (cfg1 "")) (world_of [] (Store.empty_db "t0"))).1 = Some 0.
Proof.
  apply (proj1 (CmdTheorems.failed_create_exits_zero fresh_pods no_schedule [] (cfg1 "") (world_of [] (Store.empty_db "t0"))
    (match unnamed.1 with Fail e => e | _ => Errorf "" end) unnamed.2)).
  vm_compute. reflexivity.
Defined.
Lemma flag_defaults_override_config_witness :
  main fresh_pods no_schedule Create [FName "cl"] (Ret (Ops.set_port 7000 (cfg1 ""))) (world_of [] (Store.empty_db "t0")) =
  main fresh_pods no_schedule Create [FName "cl"] (Ret (cfg1 "")) (world_of [] (Store.empty_db "t0")).
Proof.
  apply (proj2 (CmdTheorems.flag_defaults_override_config fresh_pods no_schedule [FName "cl"] (cfg1 "") (cfg1 "") 7000
    (world_of [] (Store.empty_db "t0")))).
  set_solver.
Defined.
(** The documentation's default name is not the one that is used. *)
Example no_default_name : clusterName (parsed []) = "".
Proof. reflexivity. Qed.

#[local] Instance no_data : CacheEnv :=
  { getter := λ _ _ k, inr (Errorf (k +:+ " not exist")); dbWait := λ _, None; all_order := λ l, l }.
Definition noPeer (addr groupName key : string) : GoM CacheGroup.World string := gofail (Errorf "no peer").
Definition cli : Node.Config := buildCacheConfig (parsed [FCachePort 8001; FApi true]) (cfg1 "").
Lemma cli_gateway_serves_nothing_witness :
  ∃ body, (Node.apiHandler noPeer (meOf cli) "Tom" (put (meOf cli) (groupOf cli (registryOf cli)) (CacheGroup.mkWorld ∅ [] 0))).1
    = Ret (500, body).
Proof.
  apply (CmdTheorems.cli_gateway_serves_nothing noPeer (parsed [FCachePort 8001; FApi true]) (cfg1 "") (CacheGroup.mkWorld ∅ [] 0) "Tom").
  - vm_compute. discriminate.
  - intros h k. reflexivity.
Defined.
Lemma cli_nodes_share_name_witness :
  Reg.PickPeer "Tom" (Reg.processEvents (λ _, true) [Reg.NodeJoin "0.0.0.0:8001"] (Reg.NewRegistry (nameOf cli) None)) = None.
Proof.
  apply (CmdTheorems.cli_nodes_share_name (parsed [FCachePort 8001; FApi true]) (cfg1 "") (λ _, true) None
    [(parsed [FCachePort 8001], cfg1 "", true)] "Tom").
  intros f' cfg' up [= -> -> ->]%list_elem_of_singleton. reflexivity.
Defined.
End CmdWitness.
